(* ===== verification/_CoqProject ===== *)
-Q . S2P
Prelude.v
StdMap.v
Decimal.v
Url.v
Base64.v
Sha256.v
Double.v
Params.v
Json.v
JsonRead.v
JsonText.v
Uuid.v
Credential.v
SignatureParams.v
UserSig.v
WsFrame.v
WsClient.v
WsConnect.v
Sigpipe.v
Types.v
Http.v
Polling.v
SentenceRecognizer.v
FileRecognizer.v
V3Types.v
V3Wire.v
V3Offline.v
Protocol.v
Recognizer.v
V3Recognizer.v
Lifecycle.v
LifecycleInv.v
LifecycleScript.v
LifecycleWait.v
LifecycleTheorems.v
V3Session.v
Handshake.v
Socket.v
Dialing.v
