(* ===== verification/Prelude.v ===== *)
(** * Verification of the TRTC-ASR C++ SDK

    The SDK has two halves.  The realtime one streams audio to a speech
    recognition service over a WebSocket and calls back with transcripts: a host
    builds a [Credential], configures a [SpeechRecognizer], calls [Start],
    [Write] and [Stop] from its threads, and is called back on a reader thread
    the SDK owns.  The offline one posts a JSON request over HTTP and reads a
    JSON response, once ([SentenceRecognizer]) or in a polling loop
    ([FileRecognizer]).  Each exists for two versions of the service.  This
    library models both, from the configuration to the bytes on the wire and
    back, and proves what they promise.

    ** Files

    Shared:
    - [Prelude]: bytes, machine integers, [std::string] operations, the
      exceptions of include/trtc_asr/errors.h and the [result] monad.
    - [StdMap]: [std::map<std::string, ...>] as a sorted association list.
    - [Decimal]: decimal digits, as [std::to_string] and [std::stoi] see them.
    - [Double]: [double] values, their comparisons and their [%f] and [%g] forms.
    - [Json]: what the SDK uses of third_party/nlohmann/json.hpp: the values, the
      typed conversions, [dump()]; and src/json_helper.h.
    - [JsonRead]: the reads [j.value(key, default)], and requests as sequences of
      conditional assignments, with the lemmas that undo them.
    - [JsonText]: [json::parse]: the lexer, the UTF-8 and number automata, the
      parser.

    Identity and validation:
    - [Base64], [Sha256], [UserSig]: src/usersig.cc.  The two base64 alphabets,
      the streaming hash object and the MAC, the ticket.  zlib is the class
      [Zlib], its contract [ZlibOk].
    - [Credential]: include/trtc_asr/credential.h, sites and endpoints.
    - [Params]: src/params.cc, the option validators.
    - [SignatureParams]: src/signature_params.cc and src/sdkinfo.cc, the request
      parameters and the query string.

    The offline clients:
    - [Http]: src/http_client.cc over a transfer of libcurl, and the signed POST
      with its response envelope, which the version 1 calls share.
    - [Polling]: the wait loop, over any status query (class [Query]).
    - [SentenceRecognizer], [FileRecognizer]: src/sentence_recognizer.cc and
      src/file_recognizer.cc, every call.
    - [V3Types], [V3Wire], [V3Offline]: the offline part of src/v3.cc: the data
      and the validators, the requests as the service reads them, the calls.

    The realtime clients:
    - [Url], [Uuid], [WsFrame], [WsClient]: src/ws_client.cc.  [ParseWsUrl],
      [GenerateUuid], the frame codec; the socket loops [ReadExact], [Read] and
      [WriteAll] and the sends.
    - [WsConnect]: the same file, [WsClient::Connect]: [TcpConnect] over the
      addresses of a host, the TLS handshake loop, the upgrade.
    - [Sigpipe]: the same file and src/sigpipe.cc: [ScopedSigpipeSuppressor] and
      the writes it guards, over POSIX signals as a class with laws.
    - [Types]: src/types.cc, the response types and [ParseSpeechResponse].
    - [Protocol]: what differs between the versions, as a class: validation,
      [Connect], the frame limit, where the speaker context comes from.
      [Recognizer] (src/speech_recognizer.cc) and [V3Recognizer] (src/v3.cc) are
      its instances, with the options, the request or start frame, and for
      version 3 the wait for the acknowledgement.
    - [Lifecycle]: the threads, the same in src/speech_recognizer.cc and
      src/v3.cc.  [Start] is [start_step], [Write] [write_step], [Stop]
      [stop_step], [WaitForReadLoopOrClose] [wait_step], the destructor
      [dtor_step], and the reader ([ReadLoop], [ReadLoopInner], [DispatchEvent],
      [SafeOnFail], [SafeComplete], [Finish]) [reader_step]; [world] is the
      recognizer, its [RecognizerSharedState], the socket and the threads.  A
      function name here is the one of the source wherever the source has one.
    - [LifecycleInv], [LifecycleScript], [LifecycleWait]: the invariants of every
      reachable world: the state, the locks and the wire; the statements left
      to the reader and the callbacks made; the sleepers of [done_cv].
    - [LifecycleTheorems]: the properties of a recognizer of any protocol, with a
      complete version 2 session on which each is instantiated.
    - [V3Session]: those that need the version 3 handshake, and a version 3
      session.
    - [Handshake]: the URL of a recognizer through [WsClient::Connect]: what the
      gateway reads, from the configuration.
    - [Socket]: the recognizer on its [WsClient]: the frames of a session as
      bytes of its socket, the bytes of a server as callbacks of the host, a
      connection that breaks as an [OnFail] with the text of [Read].
    - [Dialing]: [Connect] of both recognizers on the [WsClient] it makes, which
      refines the [Connect] of [Recognizer] and [V3Recognizer].

    ** What is shown

    - The recognizer, for every interleaving: no audio after the end frame, one
      end frame at most, callbacks in protocol order with a terminal one last,
      no silent end, a state that only advances, no deadlock between the locks,
      no lost wake-up, a stop deadline at most 60 s ahead that nothing moves, a
      [Stop] in a callback that never waits for itself, frames within the limits
      of the service.
    - The version 3 handshake: the start frame reads back to the options; what
      [Start] makes of each answer; a silent server is given up in time.
    - The offline calls: at most one request each, a valid one, which the service
      reads back field for field; every way a call can end; the polling loop
      ends, and for the documented reasons.
    - End to end: a server reads from the bytes of any session the frames sent,
      in order, the end signal last; the transcripts a server writes from the
      byte after its answer to the upgrade, however they are cut up, reach the
      listener in order with every field.  A version 3 server that acknowledges
      the start frame, after any number of quiet polls, gets a running session,
      whose reader starts at the byte after the acknowledgement.  A read that
      fails reaches the host as an [OnFail] whose message names what failed.
    - The socket: [Read] refines a pure reader of the byte stream and succeeds
      however the network segments it; what one client sends another reads; the
      poll window that ends inside a header and loses a byte.
    - The connection: the gateway reads a request whose query decodes to every
      option and the ticket; the connection is handed out only after a
      conforming answer to that request, and not a byte past the answer is
      consumed; a peer that answers in time gets it; [Connect] ends.  No write
      shows the host a SIGPIPE.
    - The formats: frames, base64, percent-encoding, JSON text, the query string
      and the response parser are each undone by a reference reader, or equal to
      a reference definition (SHA-256, HMAC).  [json::parse] undoes [dump()].
    - The validators accept exactly a declarative set of configurations; each
      error has its documented code.

    ** Bounds and fuel

    The loops of the source are structural on the data they consume, or on the
    list of turns the network gives ([read_loop], [write_loop]), of frames read
    ([read_frames]), of polls ([wait_loop]), of reads ([await_ack]), of TLS passes
    ([tls_handshake]) and of response bytes ([read_head]): running out of turns
    is a loop still waiting, not a result, and [Read_delivers],
    [client_to_client], [wait_terminates], [ack_wait], [Connect_delivers] and
    [Connect_returns] say how many are enough. The hash's [absorb] and [pad_zeros]
    carry fuel, and [Sha256_correct] holds for every input, so it suffices; the
    JSON parser carries the length of its text, and [json_parse_total] shows that
    no other amount reads more. 32 and 64-bit wrap-around is written out
    ([wrap32], [wrap64], [signed]).

    ** Not modelled

    The operating system, OpenSSL, libcurl and zlib are parameters, and so are
    the text of a float in [dump()], the text of a parse error, and the
    conversion of a float out of an integer's range, which C++ leaves undefined;
    SHA-1 is OpenSSL's.  The certificate checks [Connect] asks OpenSSL for, the
    socket options, and [Close] with the destructor of [WsClient], which release
    what the system and OpenSSL own, have no effect that the model could state.
    A call into the system that never returns is a turn that is never given: the
    socket is left blocking, so the deadlines of the loops bind only between
    calls.  What [errno], [strerror] and [SSL_pending] say when an error text is
    written is data too.  Tests, examples and build files are left out. *)

From stdpp Require Export base list gmap strings.
From Stdlib Require Export Ascii ZArith Lia.
From Stdlib Require Import DecimalString DecimalZ.
From Stdlib Require Export Sorted ZifyNat.

#[export] Set Default Goal Selector "!".

(** ** Characters, bytes and byte strings

    A C++ [char] and a [uint8_t] are one 8-bit value seen with two
    signednesses; both are an [ascii], whose unsigned value is [u8].  A
    [std::string] is a sequence of such bytes, [str]; so is a
    [std::vector<uint8_t>] and a [uint8_t*] with its length, which makes the
    [reinterpret_cast]s of the source the identity. *)

Abbreviation str := (list ascii).

Declare Scope asr_scope.
Delimit Scope asr_scope with asr.
Notation "« s »" := (Stdlib.Strings.String.list_ascii_of_string s%string) (at level 0, s at level 200).

(** The double quote character, which the string literals below avoid. *)
Definition dquote : str := ["034"%char].

Definition u8 (c : ascii) : Z := Z.of_N (N_of_ascii c).

(** [static_cast<uint8_t>] (or [char]) of an unsigned integer. *)
Definition byte_of (z : Z) : ascii := ascii_of_N (Z.to_N (z mod 256)).

Lemma u8_range c : (0 <= u8 c < 256)%Z.
Proof. unfold u8. pose proof (N_ascii_bounded c). lia. Qed.

Lemma byte_of_u8 c : byte_of (u8 c) = c.
Proof.
  unfold byte_of. rewrite Z.mod_small by apply u8_range.
  unfold u8. rewrite N2Z.id. apply ascii_N_embedding.
Qed.

Lemma u8_byte_of z : u8 (byte_of z) = (z mod 256)%Z.
Proof.
  unfold u8, byte_of. pose proof (Z.mod_pos_bound z 256 eq_refl).
  rewrite N_ascii_embedding by lia. lia.
Qed.

Lemma u8_inj a b : u8 a = u8 b -> a = b.
Proof. intros H. by rewrite <- (byte_of_u8 a), <- (byte_of_u8 b), H. Qed.

#[global] Instance u8_inj' : Inj (=) (=) u8 := u8_inj.

(** A boolean fact about every byte, by evaluation on the 256 of them. *)
Definition all_bytes : list ascii := ascii_of_nat <$> seq 0 256.

Lemma byte_forall (f : ascii -> bool) : forallb f all_bytes = true -> forall c, f c = true.
Proof.
  intros H c. apply (proj1 (forallb_forall _ _) H). unfold all_bytes.
  rewrite <- (ascii_nat_embedding c). apply in_map, in_seq.
  pose proof (nat_ascii_bounded c). lia.
Qed.

Ltac by_bytes c := revert c; apply byte_forall; vm_compute; reflexivity.

(** Linear arithmetic with division and remainder. *)
Ltac div_lia := zify; Z.to_euclidean_division_equations; lia.

(** ** Machine integers *)

Definition wrap32 (z : Z) : Z := z mod 2 ^ 32.
Definition wrap64 (z : Z) : Z := z mod 2 ^ 64.

Lemma wrap32_range z : (0 <= wrap32 z < 2 ^ 32)%Z.
Proof. apply Z.mod_pos_bound. lia. Qed.

Lemma wrap64_range z : (0 <= wrap64 z < 2 ^ 64)%Z.
Proof. apply Z.mod_pos_bound. lia. Qed.

(** [(x << k) | v] with [v] below the shifted bits is [x * 2^k + v]. *)
Lemma lor_shiftl_add x k v :
  (0 <= k)%Z -> (0 <= v < 2 ^ k)%Z -> Z.lor (Z.shiftl x k) v = (x * 2 ^ k + v)%Z.
Proof.
  intros Hk Hv. rewrite <- Z.shiftl_mul_pow2 by done.
  assert (Z.land (Z.shiftl x k) v = 0)%Z as E.
  { apply Z.bits_inj_0. intros i. rewrite Z.land_spec.
    destruct (Z.ltb_spec i k) as [Hi|Hi].
    - by rewrite Z.shiftl_spec_low by done.
    - rewrite <- (Z.mod_small v (2 ^ k)) by done.
      by rewrite Z.mod_pow2_bits_high, andb_false_r by lia. }
  rewrite <- Z.lxor_lor by done. symmetry. by apply Z.add_nocarry_lxor.
Qed.

Lemma land_255 z : Z.land z 255 = (z mod 256)%Z.
Proof. change 255%Z with (Z.ones 8). by rewrite Z.land_ones by lia. Qed.

(** [static_cast] of an integer to a signed type of [w] bits. *)
Definition signed (w z : Z) : Z := (z + 2 ^ (w - 1)) mod 2 ^ w - 2 ^ (w - 1).

Definition in_signed (w z : Z) : Prop := (- 2 ^ (w - 1) <= z < 2 ^ (w - 1))%Z.

Lemma signed_range w z : (0 < w)%Z -> in_signed w (signed w z).
Proof.
  intros Hw. unfold in_signed, signed.
  pose proof (Z.mod_pos_bound (z + 2 ^ (w - 1)) (2 ^ w) ltac:(lia)).
  replace (2 ^ w)%Z with (2 * 2 ^ (w - 1))%Z in *; [lia|].
  rewrite <- Z.pow_succ_r by lia. f_equal. lia.
Qed.

Lemma signed_id w z : (0 < w)%Z -> in_signed w z -> signed w z = z.
Proof.
  intros Hw Hz. unfold in_signed, signed in *. rewrite Z.mod_small; [lia|].
  replace (2 ^ w)%Z with (2 * 2 ^ (w - 1))%Z; [lia|].
  rewrite <- Z.pow_succ_r by lia. f_equal. lia.
Qed.

(** [std::to_string] of an integer: decimal, with a minus sign. *)
Definition to_string (z : Z) : str :=
  Stdlib.Strings.String.list_ascii_of_string (NilZero.string_of_int (Z.to_int z)).

(** Reading back what [to_string] writes. *)
Definition of_string (s : str) : option Z :=
  Z.of_int <$> NilZero.int_of_string (Stdlib.Strings.String.string_of_list_ascii s).

Lemma of_string_to_string z : of_string (to_string z) = Some z.
Proof.
  unfold of_string, to_string.
  rewrite Stdlib.Strings.String.string_of_list_ascii_of_string.
  rewrite NilZero.isi.
  - simpl. by rewrite DecimalZ.of_to.
  - intros H. pose proof (f_equal Z.of_int H) as E. rewrite DecimalZ.of_to in E.
    simpl in E. by subst z.
  - intros H. pose proof (f_equal Z.of_int H) as E. rewrite DecimalZ.of_to in E.
    simpl in E. by subst z.
Qed.

#[global] Instance to_string_inj : Inj (=) (=) to_string.
Proof.
  intros a b H. apply (f_equal of_string) in H.
  rewrite !of_string_to_string in H. by simplify_eq.
Qed.

(** The characters of a printed integer. *)
Definition is_decimal (c : ascii) : bool :=
  bool_decide (c = "-"%char) || ((48 <=? u8 c) && (u8 c <=? 57))%Z.

Lemma string_of_uint_decimal d :
  Forall is_decimal (Stdlib.Strings.String.list_ascii_of_string (NilEmpty.string_of_uint d)).
Proof. induction d; simpl; constructor; done. Qed.

Lemma to_string_decimal z : Forall is_decimal (to_string z).
Proof.
  unfold to_string, NilZero.string_of_int.
  assert (forall d, Forall is_decimal
            (Stdlib.Strings.String.list_ascii_of_string (NilZero.string_of_uint d))) as H.
  { intros d. unfold NilZero.string_of_uint.
    destruct d; try apply string_of_uint_decimal. repeat constructor. }
  destruct (Z.to_int z); [apply H|]. simpl. constructor; [done|apply H].
Qed.

(** Induction over a list three elements at a time. *)
Lemma list_ind3 {A} (P : list A -> Prop) :
  P [] -> (forall a, P [a]) -> (forall a b, P [a; b]) ->
  (forall a b c l, P l -> P (a :: b :: c :: l)) -> forall l, P l.
Proof.
  intros H0 H1 H2 H3 l.
  enough (P l /\ (forall a, P (a :: l)) /\ (forall a b, P (a :: b :: l))) by tauto.
  induction l as [|x l (IH0 & IH1 & IH2)]; [auto|].
  repeat split; intros; auto.
Qed.

(** ** Errors: the exceptions of the SDK

    [ASRError] is the SDK's own exception (include/trtc_asr/errors.h); a
    [nlohmann::json] exception and any other [std::exception] carry the text
    of [what()]. *)

Definition kErrInvalidParam : Z := 1001.
Definition kErrConnectFailed : Z := 1002.
Definition kErrWriteFailed : Z := 1003.
Definition kErrReadFailed : Z := 1004.
Definition kErrAuthFailed : Z := 1005.
Definition kErrTimeout : Z := 1006.
Definition kErrServerError : Z := 1007.
Definition kErrAlreadyStarted : Z := 1008.
Definition kErrNotStarted : Z := 1009.
Definition kErrAlreadyStopped : Z := 1010.

Record ASRError := mkASRError { code_ : Z; message_ : str; full_ : str }.

(** The constructor [ASRError(int code, std::string message)]. *)
Definition asr_error (code : Z) (message : str) : ASRError :=
  mkASRError code message
    («"trtc-asr error ["» ++ to_string code ++ «"]: "» ++ message).

Inductive exn :=
  | AsrExn (e : ASRError)
  | StdExn (what : str).

Inductive result (A : Type) :=
  | Ok (a : A)
  | Throw (e : exn).
Arguments Ok {A} a.
Arguments Throw {A} e.

Definition rbind {A B} (m : result A) (k : A -> result B) : result B :=
  match m with Ok a => k a | Throw e => Throw e end.

Notation "x <-- m ;; k" := (rbind m (fun x => k))
  (at level 100, m at next level, right associativity) : asr_scope.
Notation "m ;;; k" := (rbind m (fun _ => k))
  (at level 100, right associativity) : asr_scope.
#[export] Set Warnings "-notation-overridden".
Open Scope asr_scope.

(** [e.what()] *)
Definition what (e : exn) : str :=
  match e with AsrExn e => full_ e | StdExn w => w end.

(** [try { m } catch (const std::exception& e) { h(e) }] *)
Definition try_catch {A} (m : result A) (h : exn -> result A) : result A :=
  match m with Ok a => Ok a | Throw e => h e end.

(** [throw ASRError(code, message)]. *)
Definition throw_asr {A} (code : Z) (message : str) : result A :=
  Throw (AsrExn (asr_error code message)).

Definition is_ok {A} (r : result A) : bool :=
  match r with Ok _ => true | Throw _ => false end.

(** The SDK error code of an outcome: [Some c] when it threw [ASRError(c, _)]. *)
Definition error_code {A} (r : result A) : option Z :=
  match r with Throw (AsrExn e) => Some (code_ e) | _ => None end.

Lemma Ok_inj {A} (a b : A) : Ok a = Ok b -> a = b.
Proof. by intros [= ->]. Qed.

Lemma rbind_ok {A B} (m : result A) (k : A -> result B) b :
  rbind m k = Ok b <-> exists a, m = Ok a /\ k a = Ok b.
Proof. destruct m; simpl; split; [naive_solver..|]. intros (? & ? & ?). done. Qed.

Lemma rbind_throw {A B} (m : result A) (k : A -> result B) e :
  rbind m k = Throw e -> m = Throw e \/ exists a, m = Ok a /\ k a = Throw e.
Proof. destruct m as [a|e']; simpl; [right; by exists a|intros [= <-]; by left]. Qed.

(** Take apart a sequence of binds that succeeded. *)
Ltac inv_ok :=
  repeat match goal with
    | H : rbind _ _ = Ok _ |- _ =>
        let a := fresh "a" in let E := fresh "E" in apply rbind_ok in H as (a & E & H)
    | H : Ok _ = Ok _ |- _ => apply Ok_inj in H
    | H : Throw _ = Ok _ |- _ => discriminate H
    end.

Lemma rbind_assoc {A B C} (m : result A) (f : A -> result B) (g : B -> result C) :
  rbind (rbind m f) g = rbind m (fun a => rbind (f a) g).
Proof. by destruct m. Qed.

(** ** The [std::string] operations the source uses *)

Definition char_eqb (a b : ascii) : bool := bool_decide (a = b).

Fixpoint starts_with (p s : str) : bool :=
  match p, s with
  | [], _ => true
  | c :: p', d :: s' => char_eqb c d && starts_with p' s'
  | _, [] => false
  end.

(** [s.find(needle)]: the first position at which [needle] occurs. *)
Fixpoint find (needle s : str) : option nat :=
  if starts_with needle s then Some 0
  else match s with
       | [] => None
       | _ :: s' => S <$> find needle s'
       end.

(** [s.find_first_of(set)] *)
Fixpoint find_first_of (set s : str) : option nat :=
  match s with
  | [] => None
  | c :: s' => if bool_decide (c ∈ set) then Some 0 else S <$> find_first_of set s'
  end.

(** [s.find_first_not_of(set)] *)
Fixpoint find_first_not_of (set s : str) : option nat :=
  match s with
  | [] => None
  | c :: s' => if bool_decide (c ∈ set) then S <$> find_first_not_of set s' else Some 0
  end.

(** [s.rfind(c)] for a single character. *)
Fixpoint rfind_char (c : ascii) (s : str) : option nat :=
  match s with
  | [] => None
  | d :: s' =>
      match rfind_char c s' with
      | Some i => Some (S i)
      | None => if char_eqb c d then Some 0 else None
      end
  end.

(** [s.substr(0, n)] where [n] is the result of a search: [npos] takes the
    whole string. *)
Definition substr_to (s : str) (n : option nat) : str :=
  match n with Some k => take k s | None => s end.

Definition is_empty {A} (l : list A) : bool :=
  match l with [] => true | _ => false end.

Lemma starts_with_spec p s : starts_with p s = true <-> exists t, s = p ++ t.
Proof.
  revert s; induction p as [|c p IH]; intros s; simpl; [naive_solver|].
  destruct s as [|d s]; [split; [done|naive_solver]|].
  unfold char_eqb. rewrite andb_true_iff, bool_decide_eq_true, IH. naive_solver.
Qed.

Lemma find_Some needle s i :
  find needle s = Some i -> exists t, s = take i s ++ needle ++ t.
Proof.
  revert i; induction s as [|c s IH]; intros i; simpl.
  - destruct (starts_with needle []) eqn:E; [|done]. intros [= <-].
    by apply starts_with_spec in E.
  - destruct (starts_with needle (c :: s)) eqn:E.
    + intros [= <-]. by apply starts_with_spec in E.
    + destruct (find needle s) as [j|]; simpl; [|done]. intros [= <-].
      destruct (IH j eq_refl) as [t Ht]. exists t. simpl. by f_equal.
Qed.

Lemma find_None needle s : find needle s = None -> forall a b, s <> a ++ needle ++ b.
Proof.
  revert needle; induction s as [|c s IH]; intros needle; simpl.
  - destruct (starts_with needle []) eqn:E; [done|]. intros _ a b Heq.
    destruct a; [|done]. simpl in Heq. rewrite Heq in E.
    assert (starts_with needle (needle ++ b) = true) by (apply starts_with_spec; eauto).
    congruence.
  - destruct (starts_with needle (c :: s)) eqn:E; [done|].
    destruct (find needle s) eqn:F; [done|]. intros _ [|d a] b Heq.
    + simpl in Heq. rewrite Heq in E.
      assert (starts_with needle (needle ++ b) = true) by (apply starts_with_spec; eauto).
      congruence.
    + simplify_eq/=. by eapply IH.
Qed.

Lemma find_char_None c s : find [c] s = None <-> c ∉ s.
Proof.
  split.
  - intros H Hin. apply list_elem_of_split in Hin as (a & b & ->).
    by apply (find_None _ _ H a b).
  - intros H. destruct (find [c] s) as [i|] eqn:E; [|done].
    apply find_Some in E as [t E]. exfalso. apply H. rewrite E. set_solver.
Qed.

Lemma starts_with_app p s : starts_with p (p ++ s) = true.
Proof. apply starts_with_spec. eauto. Qed.

(** A needle is found after text its first character does not occur in. *)
Lemma find_needle_app c n a b :
  c ∉ a -> find (c :: n) (a ++ (c :: n) ++ b) = Some (length a).
Proof.
  intros H. induction a as [|d a IH]; rewrite ?app_nil_l.
  - pose proof (starts_with_app (c :: n) b) as E. cbn [app] in *. cbn [find]. by rewrite E.
  - apply not_elem_of_cons in H as [Hc H]. cbn [app find starts_with]. unfold char_eqb.
    rewrite bool_decide_eq_false_2 by done. cbn [andb]. cbn [app] in IH. by rewrite IH.
Qed.

Lemma find_char_app c a b : c ∉ a -> find [c] (a ++ c :: b) = Some (length a).
Proof. apply (find_needle_app c []). Qed.

Lemma rfind_char_None c s : c ∉ s -> rfind_char c s = None.
Proof.
  induction s as [|d s IH]; intros H; simpl; [done|].
  apply not_elem_of_cons in H as [Hc H]. unfold char_eqb.
  by rewrite IH, bool_decide_eq_false_2 by done.
Qed.

Lemma rfind_char_app c a b : c ∉ b -> rfind_char c (a ++ c :: b) = Some (length a).
Proof.
  intros H. induction a as [|d a IH]; simpl; [|by rewrite IH].
  rewrite rfind_char_None by done. unfold char_eqb. by rewrite bool_decide_eq_true_2.
Qed.

Lemma find_first_not_of_None set s : find_first_not_of set s = None <-> Forall (.∈ set) s.
Proof.
  induction s as [|c s IH]; simpl; [split; [by constructor|done]|].
  case_bool_decide as Hc.
  - rewrite Forall_cons, <- IH. destruct (find_first_not_of set s); naive_solver.
  - rewrite Forall_cons. naive_solver.
Qed.

Lemma is_empty_true {A} (l : list A) : is_empty l = true <-> l = [].
Proof. destruct l; naive_solver. Qed.

Lemma is_empty_false {A} (l : list A) : is_empty l = false <-> l <> [].
Proof. destruct l; naive_solver. Qed.

(** The pieces of a string between the occurrences of [sep]. *)
Fixpoint split_on (sep : ascii) (s : str) : list str :=
  match s with
  | [] => [[]]
  | c :: s' =>
      if char_eqb c sep then [] :: split_on sep s'
      else match split_on sep s' with
           | [] => [[c]]
           | w :: ws => (c :: w) :: ws
           end
  end.

Lemma split_on_nil sep a : sep ∉ a -> split_on sep a = [a].
Proof.
  induction a as [|c a IH]; intros H; simpl; [done|].
  apply not_elem_of_cons in H as [Hc H]. unfold char_eqb.
  rewrite bool_decide_eq_false_2 by congruence. by rewrite IH.
Qed.

Lemma split_on_app sep a b : sep ∉ a -> split_on sep (a ++ sep :: b) = a :: split_on sep b.
Proof.
  induction a as [|c a IH]; intros H; simpl.
  - unfold char_eqb. by rewrite bool_decide_eq_true_2.
  - apply not_elem_of_cons in H as [Hc H]. unfold char_eqb.
    rewrite bool_decide_eq_false_2 by congruence. by rewrite IH.
Qed.

(** [std::isspace] and [std::tolower] of the "C" locale. *)
Definition isspace (c : ascii) : bool :=
  let z := u8 c in ((9 <=? z) && (z <=? 13) || (z =? 32))%Z.

Definition tolower (c : ascii) : ascii :=
  let z := u8 c in
  if ((65 <=? z) && (z <=? 90))%Z then byte_of (z + 32) else c.

(** The trimming loops of the setters: erase the front while it is a space,
    then pop the back while it is one. *)
Fixpoint drop_front_spaces (s : str) : str :=
  match s with
  | [] => []
  | c :: s' => if isspace c then drop_front_spaces s' else c :: s'
  end.

Definition drop_back_spaces (s : str) : str := rev (drop_front_spaces (rev s)).

Definition trim (s : str) : str := drop_back_spaces (drop_front_spaces s).
