(* ===== verification/StdMap.v ===== *)
(** * Ordered maps with string keys

    [std::map<std::string, V>] as the source uses it: iteration in key order,
    [m[k] = v] (insert or overwrite), [m.find(k)].  A map is the list of its
    entries in iteration order; the abstract specification of a map is a
    [gmap]. The object type of [nlohmann::json] is the same container. *)

From S2P Require Import Prelude.

(** [std::string::compare]: byte by byte, unsigned, a proper prefix first. *)
Fixpoint str_compare (a b : str) : comparison :=
  match a, b with
  | c :: a', d :: b' =>
      match (u8 c ?= u8 d)%Z with Eq => str_compare a' b' | o => o end
  | c :: _, [] => Gt
  | [], d :: _ => Lt
  | [], [] => Eq
  end.

Definition str_lt (a b : str) : Prop := str_compare a b = Lt.

Lemma str_compare_eq a b : str_compare a b = Eq <-> a = b.
Proof.
  revert b; induction a as [|c a IH]; intros [|d b]; simpl; [done..|].
  destruct (Z.compare_spec (u8 c) (u8 d)) as [E|E|E].
  - apply u8_inj in E as ->. rewrite IH. naive_solver.
  - split; [done|]. intros [= -> ->]. lia.
  - split; [done|]. intros [= -> ->]. lia.
Qed.

Lemma str_compare_refl a : str_compare a a = Eq.
Proof. by apply str_compare_eq. Qed.

Lemma str_compare_antisym a b : str_compare b a = CompOpp (str_compare a b).
Proof.
  revert b; induction a as [|c a IH]; intros [|d b]; simpl; [done..|].
  rewrite (Z.compare_antisym (u8 c) (u8 d)).
  destruct (u8 c ?= u8 d)%Z; simpl; [apply IH|done|done].
Qed.

Lemma str_lt_trans a b c : str_lt a b -> str_lt b c -> str_lt a c.
Proof.
  unfold str_lt. revert b c; induction a as [|x a IH]; intros [|y b] [|z c];
    simpl; try done.
  destruct (Z.compare_spec (u8 x) (u8 y)) as [E1|E1|E1]; [| |done];
    destruct (Z.compare_spec (u8 y) (u8 z)) as [E2|E2|E2]; try done; intros ? ?.
  - replace (u8 x ?= u8 z)%Z with Eq by (symmetry; apply Z.compare_eq_iff; lia).
    eauto.
  - by replace (u8 x ?= u8 z)%Z with Lt by (symmetry; apply Z.compare_lt_iff; lia).
  - by replace (u8 x ?= u8 z)%Z with Lt by (symmetry; apply Z.compare_lt_iff; lia).
  - by replace (u8 x ?= u8 z)%Z with Lt by (symmetry; apply Z.compare_lt_iff; lia).
Qed.

Lemma str_lt_irrefl a : ~ str_lt a a.
Proof. unfold str_lt. by rewrite str_compare_refl. Qed.

#[export] Instance str_lt_strict : StrictOrder str_lt.
Proof. split; [exact str_lt_irrefl|exact str_lt_trans]. Qed.

Lemma sorted_NoDup (l : list str) : StronglySorted str_lt l -> NoDup l.
Proof.
  induction 1 as [|x l Hs IH Hf]; constructor; [|done].
  intros Hin. eapply Forall_forall in Hf; [|exact Hin]. by eapply str_lt_irrefl.
Qed.

Section StdMap.
Context {V : Type}.

Abbreviation smap := (list (str * V)).

Fixpoint map_set (k : str) (v : V) (m : smap) : smap :=
  match m with
  | [] => [(k, v)]
  | (k', v') :: m' =>
      match str_compare k k' with
      | Lt => (k, v) :: m
      | Eq => (k, v) :: m'
      | Gt => (k', v') :: map_set k v m'
      end
  end.

Fixpoint map_find (k : str) (m : smap) : option V :=
  match m with
  | [] => None
  | (k', v') :: m' =>
      match str_compare k k' with
      | Lt => None
      | Eq => Some v'
      | Gt => map_find k m'
      end
  end.

(** [for (auto& [k, v] : entries) m[k] = v]; also the initializer list. *)
Definition map_set_all (entries : list (str * V)) (m : smap) : smap :=
  foldl (fun m kv => map_set kv.1 kv.2 m) m entries.

(** The container invariant: keys strictly increasing. *)
Definition map_wf (m : smap) : Prop := StronglySorted str_lt (m.*1).

Definition to_gmap (m : smap) : gmap str V := list_to_map m.

Lemma map_wf_nil : map_wf [].
Proof. constructor. Qed.

Lemma map_set_keys k v m :
  forall k', k' ∈ (map_set k v m).*1 <-> k' = k \/ k' ∈ m.*1.
Proof.
  induction m as [|[k1 v1] m IH]; intros k'; simpl; [set_solver|].
  destruct (str_compare k k1) eqn:E; simpl.
  - apply str_compare_eq in E as ->. set_solver.
  - set_solver.
  - rewrite !elem_of_cons, IH. tauto.
Qed.

Lemma map_set_wf k v m : map_wf m -> map_wf (map_set k v m).
Proof.
  unfold map_wf. induction m as [|[k1 v1] m IH]; simpl; intros H.
  - repeat constructor.
  - inversion H as [|? ? Hs Hf]; subst.
    destruct (str_compare k k1) eqn:E; simpl.
    + apply str_compare_eq in E as ->. by constructor.
    + constructor; [done|]. constructor; [done|].
      eapply Forall_impl; [exact Hf|]. intros x Hx. by eapply str_lt_trans.
    + constructor; [by apply IH|].
      apply Forall_forall. intros x Hx. apply map_set_keys in Hx as [->|Hx].
      * unfold str_lt. by rewrite str_compare_antisym, E.
      * by eapply Forall_forall in Hf.
Qed.

Lemma map_set_Forall (P : str -> V -> Prop) k v m :
  P k v -> Forall (fun kv => P kv.1 kv.2) m -> Forall (fun kv => P kv.1 kv.2) (map_set k v m).
Proof.
  intros Hv. induction 1 as [|[k1 v1] m H1 Hm IH]; simpl; [by repeat constructor|].
  destruct (str_compare k k1); by repeat constructor.
Qed.

(** A key beyond every other goes to the end. *)
Lemma map_set_last k v m :
  Forall (fun k' => str_lt k' k) m.*1 -> map_set k v m = m ++ [(k, v)].
Proof.
  induction m as [|[k1 v1] m IH]; simpl; [done|]. intros [H1 Hm]%Forall_cons.
  unfold str_lt in H1. rewrite str_compare_antisym, H1. simpl. by rewrite IH.
Qed.

Lemma map_wf_app m1 k v m2 :
  map_wf (m1 ++ (k, v) :: m2) -> Forall (fun k' => str_lt k' k) m1.*1.
Proof.
  unfold map_wf. rewrite fmap_app. induction m1 as [|[k1 v1] m1 IH]; simpl; [constructor|].
  intros [Hs Hf]%StronglySorted_inv. constructor; [|auto].
  rewrite Forall_app, Forall_cons in Hf. naive_solver.
Qed.

Lemma map_set_all_wf l m : map_wf m -> map_wf (map_set_all l m).
Proof.
  revert m; induction l as [|[k v] l IH]; intros m H; simpl; [done|].
  by apply IH, map_set_wf.
Qed.

Lemma map_find_gmap k m : map_wf m -> map_find k m = to_gmap m !! k.
Proof.
  unfold map_wf, to_gmap. induction m as [|[k1 v1] m IH]; simpl; intros H; [done|].
  inversion H as [|? ? Hs Hf]; subst.
  destruct (str_compare k k1) eqn:E.
  - apply str_compare_eq in E as ->. by rewrite lookup_insert_eq.
  - rewrite lookup_insert_ne by (intros ->; by rewrite str_compare_refl in E).
    symmetry. apply not_elem_of_list_to_map_1. intros Hin.
    eapply Forall_forall in Hf; [|exact Hin].
    apply (str_lt_irrefl k). by eapply str_lt_trans.
  - rewrite lookup_insert_ne by (intros ->; by rewrite str_compare_refl in E).
    auto.
Qed.

(** [m[k] = v] implements insertion in the abstract map. *)
Lemma to_gmap_set k v m : to_gmap (map_set k v m) = <[k := v]> (to_gmap m).
Proof.
  unfold to_gmap. induction m as [|[k1 v1] m IH]; simpl; [done|].
  destruct (str_compare k k1) eqn:E; simpl.
  - apply str_compare_eq in E as ->. by rewrite insert_insert_eq.
  - done.
  - rewrite IH. apply insert_insert_ne.
    intros ->. by rewrite str_compare_refl in E.
Qed.

Lemma map_find_set_eq k v m : map_wf m -> map_find k (map_set k v m) = Some v.
Proof.
  intros H. rewrite map_find_gmap by by apply map_set_wf.
  rewrite to_gmap_set. apply lookup_insert_eq.
Qed.

Lemma map_find_set_ne k k' v m :
  map_wf m -> k <> k' -> map_find k' (map_set k v m) = map_find k' m.
Proof.
  intros H Hne. rewrite !map_find_gmap by (try apply map_set_wf; done).
  rewrite to_gmap_set. by apply lookup_insert_ne.
Qed.

Lemma map_find_set k k' v m :
  map_wf m ->
  map_find k' (map_set k v m) = if decide (k = k') then Some v else map_find k' m.
Proof.
  intros H. case_decide as E.
  - subst. by apply map_find_set_eq.
  - by apply map_find_set_ne.
Qed.

Lemma map_find_elem k v m : map_wf m -> map_find k m = Some v <-> (k, v) ∈ m.
Proof.
  intros H. rewrite map_find_gmap by done. unfold to_gmap.
  symmetry. apply elem_of_list_to_map, sorted_NoDup. done.
Qed.

(** ** Conditional assignments

    [if (o.has_value()) m[k] = *o], and a sequence of such statements as the
    list of their keys and optional values. *)

Definition set_opt (k : str) (o : option V) (m : smap) : smap :=
  if o is Some v then map_set k v m else m.

Definition set_entries (l : list (str * option V)) (m : smap) : smap :=
  foldl (fun m kv => set_opt kv.1 kv.2 m) m l.

(** The value the statements [l] leave under [k]. *)
Fixpoint entry (l : list (str * option V)) (k : str) : option V :=
  match l with
  | [] => None
  | (k', o) :: l' => match str_compare k k' with Eq => o | _ => entry l' k end
  end.

Lemma set_entries_wf l m : map_wf m -> map_wf (set_entries l m).
Proof.
  revert m; induction l as [|[k [v|]] l IH]; intros m H; simpl; auto using map_set_wf.
Qed.

Lemma entry_fresh l k : k ∉ l.*1 -> entry l k = None.
Proof.
  induction l as [|[k' o] l IH]; simpl; [done|]. intros [Hk Hl]%not_elem_of_cons.
  destruct (str_compare k k') eqn:E; [by apply str_compare_eq in E|auto..].
Qed.

Lemma set_entries_find l k m :
  map_wf m -> NoDup l.*1 ->
  map_find k (set_entries l m) =
    match entry l k with Some v => Some v | None => map_find k m end.
Proof.
  revert m; induction l as [|[k' o] l IH]; intros m Hm Hd; simpl; [done|].
  apply NoDup_cons in Hd as [Hn Hd]. rewrite IH; [|by destruct o; try apply map_set_wf|done].
  destruct (decide (k' = k)) as [->|Hne].
  - cbn [fst] in Hn. rewrite str_compare_refl, (entry_fresh _ _ Hn).
    destruct o; simpl; [by apply map_find_set_eq|done].
  - replace (match str_compare k k' with Eq => o | _ => entry l k end) with (entry l k)
      by (destruct (str_compare k k') eqn:E; [by apply str_compare_eq in E|done..]).
    destruct (entry l k) as [v|]; [done|].
    destruct o; simpl; [by apply map_find_set_ne|done].
Qed.

Lemma set_entries_entry l k : NoDup l.*1 -> map_find k (set_entries l []) = entry l k.
Proof.
  intros H. rewrite set_entries_find by (done || apply map_wf_nil). by destruct (entry l k).
Qed.

Lemma set_entries_keys l m (P : str -> Prop) :
  Forall (fun kv => P kv.1) l -> Forall (fun kv => P kv.1) m ->
  Forall (fun kv => P kv.1) (set_entries l m).
Proof.
  intros Hl. revert m. induction Hl as [|[k o] l Hk _ IH]; intros m Hm; simpl; [done|].
  apply IH. destruct o as [v|]; simpl; [|done].
  apply Forall_forall. intros [k' v'] Hin.
  assert (k' ∈ (map_set k v m).*1) as Hin' by (apply list_elem_of_fmap; by exists (k', v')).
  apply map_set_keys in Hin' as [->|Hin']; [done|].
  apply list_elem_of_fmap in Hin' as ([k2 v2] & -> & Hin2).
  rewrite Forall_forall in Hm. by apply (Hm (k2, v2)).
Qed.
End StdMap.

(** [if (b)] as an optional value. *)
Definition when {A} (b : bool) (v : A) : option A := if b then Some v else None.
