(* ===== verification/Decimal.v ===== *)
(** * Decimal numerals

    The value of a run of digits, and that it reads back what [to_string]
    prints. *)

From Stdlib Require Import DecimalString DecimalPos DecimalFacts.
From S2P Require Import Prelude.

Open Scope Z_scope.

Definition is_digit (c : ascii) : bool := (48 <=? u8 c) && (u8 c <=? 57).

Fixpoint span_digits (s : str) : str * str :=
  match s with
  | c :: s' => if is_digit c then let '(d, r) := span_digits s' in (c :: d, r) else ([], s)
  | [] => ([], [])
  end.

Fixpoint digits_value (s : str) (acc : Z) : Z :=
  match s with
  | c :: s' =>
      let d := u8 c - 48 in
      if (0 <=? d) && (d <=? 9) then digits_value s' (10 * acc + d) else acc
  | [] => acc
  end.

(** [digits_value] reads the decimal representation the Standard Library prints. *)
Lemma digits_value_acc d acc :
  digits_value (Stdlib.Strings.String.list_ascii_of_string (NilEmpty.string_of_uint d)) (Zpos acc) =
  Zpos (Pos.of_uint_acc d acc).
Proof.
  revert acc. induction d; intros acc; [done|..]; cbn [Pos.of_uint_acc]; rewrite <- IHd; simpl;
    f_equal; match goal with |- context [u8 ?c] =>
      let v := eval vm_compute in (u8 c) in change (u8 c) with v end; lia.
Qed.

Lemma digits_value_uint d :
  digits_value (Stdlib.Strings.String.list_ascii_of_string (NilEmpty.string_of_uint d)) 0 =
  Z.of_N (Pos.of_uint d).
Proof. induction d; [done|simpl; apply IHd|..]; simpl; apply digits_value_acc. Qed.

Lemma digits_value_to_string z : 0 <= z -> digits_value (to_string z) 0 = z.
Proof.
  intros Hz. unfold to_string. destruct z as [|p|p]; [done| |lia]. cbn [Z.to_int].
  unfold NilZero.string_of_int, NilZero.string_of_uint.
  destruct (Pos.to_uint p) eqn:E; [by pose proof (DecimalPos.Unsigned.to_uint_nonnil p)|..];
    rewrite <- E, digits_value_uint, DecimalPos.Unsigned.of_to; done.
Qed.

Lemma to_string_head z : 0 <= z ->
  exists c s, to_string z = c :: s /\ 48 <= u8 c <= 57.
Proof.
  intros Hz. unfold to_string. destruct z as [|p|p]; [by exists "0"%char, []| |lia].
  cbn [Z.to_int]. unfold NilZero.string_of_int, NilZero.string_of_uint.
  destruct (Pos.to_uint p) eqn:E; [by pose proof (DecimalPos.Unsigned.to_uint_nonnil p)|..];
    (do 2 eexists; split; [reflexivity|]; vm_compute; split; discriminate).
Qed.

Lemma decimal_not_in c z : is_decimal c = false -> c ∉ to_string z.
Proof.
  intros Hc Hin. pose proof (to_string_decimal z) as Hf. rewrite Forall_forall in Hf.
  apply Hf in Hin. by rewrite Hc in Hin.
Qed.

(** The shape of a printed integer: a run of digits that begins with 0 only if
    it is 0, after a minus sign if it is negative. *)

Lemma to_string_neg z : z < 0 -> to_string z = "-"%char :: to_string (- z).
Proof. destruct z; [done..|]. intros _. reflexivity. Qed.

Lemma uint_digits d :
  Forall (fun c => is_digit c = true)
    (Stdlib.Strings.String.list_ascii_of_string (NilEmpty.string_of_uint d)).
Proof. induction d; simpl; constructor; done. Qed.

Lemma to_string_digits z : 0 <= z -> Forall (fun c => is_digit c = true) (to_string z).
Proof.
  intros Hz. unfold to_string. destruct z as [|p|p]; [by repeat constructor| |lia].
  cbn [Z.to_int]. unfold NilZero.string_of_int, NilZero.string_of_uint.
  destruct (Pos.to_uint p); first [apply uint_digits | by repeat constructor].
Qed.

Lemma pos_to_uint_D0 p d : Pos.to_uint p <> Decimal.D0 d.
Proof.
  intros E. pose proof (DecimalPos.Unsigned.to_of (Pos.to_uint p)) as H.
  rewrite DecimalPos.Unsigned.of_to in H. cbn [N.to_uint] in H. rewrite E in H.
  unfold Decimal.unorm in H.
  destruct (Decimal.nzhead (Decimal.D0 d)) eqn:En; try discriminate H.
  - injection H as ->. pose proof (DecimalPos.Unsigned.of_to p) as Ho. rewrite E in Ho.
    vm_compute in Ho. discriminate Ho.
  - by apply DecimalFacts.nzhead_nonzero in En.
Qed.

Lemma to_string_first z : 0 < z -> exists c s, to_string z = c :: s /\ c <> "0"%char.
Proof.
  intros Hz. unfold to_string. destruct z as [|p|p]; [lia| |lia].
  cbn [Z.to_int]. unfold NilZero.string_of_int, NilZero.string_of_uint.
  destruct (Pos.to_uint p) eqn:E;
    [by pose proof (DecimalPos.Unsigned.to_uint_nonnil p)|by apply pos_to_uint_D0 in E|..];
    (do 2 eexists; split; [reflexivity|done]).
Qed.

Lemma span_digits_app d rest :
  Forall (fun c => is_digit c = true) d ->
  (forall c r, rest = c :: r -> is_digit c = false) ->
  span_digits (d ++ rest) = (d, rest).
Proof.
  intros Hd Hr. induction Hd as [|c d Hc _ IH]; simpl.
  - destruct rest as [|c r]; [done|]. simpl. by rewrite (Hr c r).
  - by rewrite Hc, IH.
Qed.
