(* ===== verification/Url.v ===== *)
(** * WebSocket URLs (src/ws_client.cc, ParseWsUrl)

    The URL parser of the WebSocket client with the [std::stoi] of its port,
    and that it takes a URL apart into what it was put together from. *)

From S2P Require Import Prelude Decimal.

Open Scope Z_scope.

Record UrlParts := mkUrlParts { secure : bool; host : str; port : Z; target_ : str }.

(** [std::stoi]: leading spaces, a sign, the longest run of digits; what
    follows is ignored. *)
Definition stoi (s : str) : result Z :=
  let s := drop_front_spaces s in
  let '(sign, s) :=
    match s with
    | "-"%char :: s' => (-1, s')
    | "+"%char :: s' => (1, s')
    | _ => (1, s)
    end in
  match s with
  | c :: _ =>
      if (48 <=? u8 c) && (u8 c <=? 57) then
        let v := sign * digits_value s 0 in
        if (- 2 ^ 31 <=? v) && (v <? 2 ^ 31) then Ok v else Throw (StdExn «"stoi"»)
      else Throw (StdExn «"stoi"»)
  | [] => Throw (StdExn «"stoi"»)
  end.

(** The result is the parts, or the message left in [*err]. *)
Definition ParseWsUrl (url : str) : str + UrlParts :=
  let scheme :=
    if starts_with «"wss://"» url then Some (true, 443, drop 6 url)
    else if starts_with «"ws://"» url then Some (false, 80, drop 5 url)
    else None in
  match scheme with
  | None => inl «"unsupported scheme, want ws or wss"»
  | Some (secure, default_port, rest) =>
      let slash := find [ "/"%char ] rest in
      let authority := substr_to rest slash in
      let target := match slash with Some i => drop i rest | None => «"/"» end in
      if is_empty authority then inl «"url has no host"»
      else
        match rfind_char ":" authority, find [ "]"%char ] authority with
        | Some colon, None =>
            match stoi (drop (S colon) authority) with
            | Ok port => inr (mkUrlParts secure (take colon authority) port target)
            | Throw _ => inl «"invalid port"»
            end
        | _, _ => inr (mkUrlParts secure authority default_port target)
        end
  end.

(** ** Reading back *)

Lemma stoi_to_string z : 0 <= z < 2 ^ 31 -> stoi (to_string z) = Ok z.
Proof.
  intros Hz. destruct (to_string_head z) as (c & s & E & Hc); [lia|].
  pose proof (digits_value_to_string z (proj1 Hz)) as Hd. unfold stoi. rewrite E in *.
  assert (isspace c = false) as Hs by (unfold isspace; cbv zeta; lia).
  assert (forall d, ~ 48 <= u8 d <= 57 -> c <> d) as Hne by naive_solver.
  cbn [drop_front_spaces]. rewrite Hs.
  assert (c <> "-"%char /\ c <> "+"%char) as [Hm Hp]
    by (split; intros ->; by vm_compute in Hc; destruct Hc).
  assert (match c :: s with "-"%char :: s' => (-1, s') | "+"%char :: s' => (1, s')
          | _ => (1, c :: s) end = (1, c :: s)) as ->.
  { destruct c as [[] [] [] [] [] [] [] []]; done. }
  cbn iota beta. rewrite Hd.
  replace ((48 <=? u8 c) && (u8 c <=? 57)) with true by lia. cbv zeta.
  by replace ((- 2 ^ 31 <=? 1 * z) && (1 * z <? 2 ^ 31)) with true by lia;
    replace (1 * z) with z by lia.
Qed.

Definition scheme (secure : bool) : str := if secure then «"wss://"» else «"ws://"».

Definition print_port (port : option Z) : str :=
  match port with Some p => ":"%char :: to_string p | None => [] end.

(** A URL of the documented shape is taken apart into the parts it was put
    together from, the port and the target defaulting as the scheme says. *)
Theorem ParseWsUrl_reads (secure : bool) host port target :
  host <> [] -> "/"%char ∉ host -> ":"%char ∉ host -> "]"%char ∉ host ->
  (forall p, port = Some p -> 0 <= p < 2 ^ 31) ->
  head target = Some "/"%char \/ target = [] ->
  ParseWsUrl (scheme secure ++ host ++ print_port port ++ target) =
  inr (mkUrlParts secure host (default (if secure then 443 else 80) port)
         (if is_empty target then «"/"» else target)).
Proof.
  intros Hh Hs Hc Hb Hp Ht.
  set (authority := host ++ print_port port).
  assert (("/"%char ∉ authority) /\ ("]"%char ∉ authority)) as [As Ab].
  { unfold authority, print_port. destruct port as [p|]; [|by rewrite app_nil_r].
    split; rewrite elem_of_app, elem_of_cons; intros [?|[?|?]]; try done;
      by eapply decimal_not_in; [|eassumption]. }
  assert (substr_to (authority ++ target) (find [ "/"%char ] (authority ++ target)) = authority /\
    match find [ "/"%char ] (authority ++ target) with
    | Some i => drop i (authority ++ target)
    | None => «"/"»
    end = (if is_empty target then «"/"» else target)) as [E1 E2].
  { destruct Ht as [Ht| ->].
    - destruct target as [|t target]; [done|]. injection Ht as ->.
      rewrite find_char_app by done. cbn [substr_to is_empty].
      by rewrite take_app_length, drop_app_length.
    - rewrite app_nil_r, (proj2 (find_char_None _ _)) by done. done. }
  assert (is_empty authority = false) as Ae by (unfold authority; by destruct host).
  assert (forall (d : Z) target, match rfind_char ":" authority, find [ "]"%char ] authority with
    | Some colon, None =>
        match stoi (drop (S colon) authority) with
        | Ok port => inr (mkUrlParts secure (take colon authority) port target)
        | Throw _ => inl «"invalid port"»
        end
    | _, _ => inr (mkUrlParts secure authority d target)
    end = inr (mkUrlParts secure host (default d port) target)) as E3.
  { intros d t. rewrite (proj2 (find_char_None _ authority)) by done. unfold authority, print_port.
    destruct port as [p|].
    - rewrite rfind_char_app by (by apply decimal_not_in).
      rewrite (drop_app_ge _ _ (S (length host))) by lia.
      replace (S (length host) - length host)%nat with 1%nat by lia.
      change (drop 1 (":"%char :: to_string p)) with (to_string p). rewrite take_app_length. by rewrite stoi_to_string by auto.
    - rewrite app_nil_r. by rewrite rfind_char_None. }
  rewrite (app_assoc host). fold authority.
  unfold ParseWsUrl. destruct secure.
  - change (starts_with «"wss://"» (scheme true ++ authority ++ target)) with true.
    change (drop 6 (scheme true ++ authority ++ target)) with (authority ++ target).
    cbv zeta iota beta. rewrite E1, E2, Ae. apply E3.
  - change (starts_with «"wss://"» (scheme false ++ authority ++ target)) with false.
    change (starts_with «"ws://"» (scheme false ++ authority ++ target)) with true.
    change (drop 5 (scheme false ++ authority ++ target)) with (authority ++ target).
    cbv zeta iota beta. rewrite E1, E2, Ae. apply E3.
Qed.

Lemma ParseWsUrl_reads_witness :
  ParseWsUrl «"wss://asr.cloud-rtc.com:8443/asr/v2/1?a=b"» =
  inr (mkUrlParts true «"asr.cloud-rtc.com"» 8443 «"/asr/v2/1?a=b"»).
Proof.
  apply (ParseWsUrl_reads true «"asr.cloud-rtc.com"» (Some 8443) «"/asr/v2/1?a=b"»);
    [done|apply (bool_decide_unpack _); by vm_compute..| |by left].
  intros p [= <-]. by vm_compute.
Defined.
