(* ===== verification/Base64.v ===== *)
(** * Base64 and its Tencent URL variant (src/usersig.cc)

    [Base64Encode]/[Base64Decode] with the decoder's 32-bit accumulator kept
    at its width, and the [+/=] to [*-_] variant used by UserSig.  Results:
    both decoders invert their encoders on every byte string, the decoder
    throws exactly on a foreign character before the padding, and the
    encoders' output length and alphabet. *)

From S2P Require Import Prelude.

Open Scope Z_scope.

(** ** Definitions *)

Definition kB64Alphabet : str :=
  «"ABCDEFGHIJKLMNOPQRSTUVWXYZabcdefghijklmnopqrstuvwxyz0123456789+/"».

Definition B64Value (ch : ascii) : Z :=
  let c := u8 ch in
  if (u8 "A" <=? c) && (c <=? u8 "Z") then c - u8 "A"
  else if (u8 "a" <=? c) && (c <=? u8 "z") then c - u8 "a" + 26
  else if (u8 "0" <=? c) && (c <=? u8 "9") then c - u8 "0" + 52
  else if c =? u8 "+" then 62
  else if c =? u8 "/" then 63
  else -1.

(** [kB64Alphabet[v & 0x3F]] *)
Definition b64_char (v : Z) : ascii :=
  nth (Z.to_nat (Z.land v 63)) kB64Alphabet "000"%char.

(** One iteration of the encoding loop: [data[i]], and [data[i + 1]],
    [data[i + 2]] where they are inside the buffer. *)
Definition b64_group (a : ascii) (b c : option ascii) : str :=
  let v := Z.shiftl (u8 a) 16 in
  let v := match b with Some b => Z.lor v (Z.shiftl (u8 b) 8) | None => v end in
  let v := match c with Some c => Z.lor v (u8 c) | None => v end in
  [ b64_char (Z.shiftr v 18);
    b64_char (Z.shiftr v 12);
    (if b is Some _ then b64_char (Z.shiftr v 6) else "="%char);
    (if c is Some _ then b64_char v else "="%char) ].

Fixpoint Base64Encode (data : str) : str :=
  match data with
  | [] => []
  | [a] => b64_group a None None
  | [a; b] => b64_group a (Some b) None
  | a :: b :: c :: data' => b64_group a (Some b) (Some c) ++ Base64Encode data'
  end.

(** The decoding loop with its locals [out], [acc] ([uint32_t]) and [bits]. *)
Fixpoint Base64Decode_loop (s out : str) (acc bits : Z) : result str :=
  match s with
  | [] => Ok out
  | c :: s' =>
      if char_eqb c "=" then Ok out
      else
        let v := B64Value c in
        if v <? 0 then
          throw_asr kErrInvalidParam «"base64 decode failed: invalid character"»
        else
          let acc := Z.lor (wrap32 (Z.shiftl acc 6)) v in
          let bits := bits + 6 in
          if 8 <=? bits then
            let bits := bits - 8 in
            let out := out ++ [byte_of (Z.land (Z.shiftr acc bits) 255)] in
            Base64Decode_loop s' out acc bits
          else Base64Decode_loop s' out acc bits
  end.

Definition Base64Decode (s : str) : result str := Base64Decode_loop s [] 0 0.

Definition url_char (c : ascii) : ascii :=
  if char_eqb c "+" then "*"%char
  else if char_eqb c "/" then "-"%char
  else if char_eqb c "=" then "_"%char
  else c.

Definition std_char (c : ascii) : ascii :=
  if char_eqb c "_" then "="%char
  else if char_eqb c "-" then "/"%char
  else if char_eqb c "*" then "+"%char
  else c.

Definition Base64UrlEncode (data : str) : str := url_char <$> Base64Encode data.

Definition Base64UrlDecode (s : str) : result str := Base64Decode (std_char <$> s).

(** ** The alphabet *)

Lemma B64Value_range c : -1 <= B64Value c < 64.
Proof.
  unfold B64Value. pose proof (u8_range c).
  change (u8 "A") with 65; change (u8 "Z") with 90; change (u8 "a") with 97;
  change (u8 "z") with 122; change (u8 "0") with 48; change (u8 "9") with 57.
  repeat match goal with |- context [if ?b then _ else _] => destruct b eqn:? end; lia.
Qed.

(** All 64 characters at once: each decodes to its index, survives the URL
    translation and back, and is not the padding character. *)
Definition b64_char_ok (n : nat) : bool :=
  let c := b64_char (Z.of_nat n) in
  (B64Value c =? Z.of_nat n) && negb (char_eqb c "=")
  && char_eqb (std_char (url_char c)) c.

Lemma b64_char_ok_all : forallb b64_char_ok (seq 0 64) = true.
Proof. vm_compute. reflexivity. Qed.

Lemma b64_char_spec v :
  B64Value (b64_char v) = v mod 64 /\ char_eqb (b64_char v) "=" = false /\
  std_char (url_char (b64_char v)) = b64_char v.
Proof.
  assert (b64_char v = b64_char (Z.of_nat (Z.to_nat (v mod 64)))) as E.
  { unfold b64_char. change 63 with (Z.ones 6).
    rewrite !Z.land_ones by lia. change (2 ^ 6) with 64.
    rewrite Z2Nat.id by (apply Z.mod_pos_bound; lia).
    by rewrite Z.mod_mod. }
  pose proof (Z.mod_pos_bound v 64 eq_refl).
  pose proof (proj1 (forallb_forall _ _) b64_char_ok_all (Z.to_nat (v mod 64))) as Hok.
  unfold b64_char_ok in Hok. rewrite <- E, Z2Nat.id in Hok by lia.
  destruct (B64Value (b64_char v) =? v mod 64) eqn:E1, (char_eqb (b64_char v) "=") eqn:E2,
    (char_eqb (std_char (url_char (b64_char v))) (b64_char v)) eqn:E3;
    try (discriminate Hok; apply in_seq; lia).
  unfold char_eqb in E3. apply bool_decide_eq_true in E3. auto with lia.
Qed.

(** ** The decoder inverts the encoder *)

Lemma acc_step acc v :
  0 <= v < 64 -> Z.lor (wrap32 (Z.shiftl acc 6)) v = wrap32 (acc * 64 + v).
Proof.
  intros Hv. unfold wrap32. rewrite Z.shiftl_mul_pow2 by lia.
  change (2 ^ 32) with (2 ^ 26 * 64). change (2 ^ 6) with 64.
  rewrite Z.mul_mod_distr_r by lia.
  replace (acc mod 2 ^ 26 * 64) with (Z.shiftl (acc mod 2 ^ 26) 6)
    by (rewrite Z.shiftl_mul_pow2 by lia; done).
  rewrite lor_shiftl_add by lia. change (2 ^ 6) with 64.
  assert (0 <= acc mod 2 ^ 26 < 2 ^ 26) by (apply Z.mod_pos_bound; lia).
  apply (Z.mod_unique_pos _ _ (acc / 2 ^ 26)); [lia|].
  rewrite (Z.div_mod acc (2 ^ 26)) at 1 by lia. lia.
Qed.

Lemma acc_step_wrap acc v :
  wrap32 (wrap32 acc * 64 + v) = wrap32 (acc * 64 + v).
Proof. unfold wrap32. by rewrite <- Zplus_mod_idemp_l, Zmult_mod_idemp_l, Zplus_mod_idemp_l. Qed.

(** The byte the decoder emits only depends on the low 14 bits. *)
Lemma emit_byte x k :
  0 <= k <= 24 ->
  byte_of (Z.land (Z.shiftr (wrap32 x) k) 255) = byte_of (x / 2 ^ k).
Proof.
  intros Hk. apply u8_inj. rewrite !u8_byte_of, land_255, Z.mod_mod by lia.
  unfold wrap32. change 256 with (2 ^ 8).
  rewrite Z.shiftr_div_pow2 by lia.
  apply Z.bits_inj'. intros i Hi.
  destruct (Z.ltb_spec i 8).
  - rewrite !Z.mod_pow2_bits_low by lia.
    rewrite <- !Z.shiftr_div_pow2 by lia. rewrite !Z.shiftr_spec by lia.
    by rewrite Z.mod_pow2_bits_low by lia.
  - by rewrite !Z.mod_pow2_bits_high by lia.
Qed.

Lemma decode_char v s out acc bits :
  Base64Decode_loop (b64_char v :: s) out (wrap32 acc) bits =
  if 8 <=? bits + 6 then
    Base64Decode_loop s
      (out ++ [byte_of (Z.land (Z.shiftr (wrap32 (acc * 64 + v mod 64)) (bits - 2)) 255)])
      (wrap32 (acc * 64 + v mod 64)) (bits - 2)
  else Base64Decode_loop s out (wrap32 (acc * 64 + v mod 64)) (bits + 6).
Proof.
  destruct (b64_char_spec v) as (E & Ene & _). cbn [Base64Decode_loop]. rewrite Ene, E.
  pose proof (Z.mod_pos_bound v 64 eq_refl).
  replace (v mod 64 <? 0) with false by lia.
  rewrite acc_step, acc_step_wrap by lia. by replace (bits + 6 - 8) with (bits - 2) by lia.
Qed.

Lemma group_value a b c :
  Z.lor (Z.lor (Z.shiftl (u8 a) 16) (Z.shiftl (u8 b) 8)) (u8 c) =
  u8 a * 65536 + u8 b * 256 + u8 c.
Proof.
  pose proof (u8_range a); pose proof (u8_range b); pose proof (u8_range c).
  rewrite (Z.shiftl_mul_pow2 (u8 b)) by lia.
  rewrite (lor_shiftl_add (u8 a)) by lia.
  replace (u8 a * 2 ^ 16 + u8 b * 2 ^ 8) with (Z.shiftl (u8 a * 256 + u8 b) 8)
    by (rewrite Z.shiftl_mul_pow2 by lia; lia).
  rewrite lor_shiftl_add by lia. lia.
Qed.

Ltac emit_tac :=
  rewrite emit_byte by lia; apply u8_inj; rewrite u8_byte_of;
  rewrite !Z.shiftr_div_pow2 by lia;
  change (2 ^ 18) with 262144; change (2 ^ 12) with 4096; change (2 ^ 6) with 64;
  change (2 ^ 4) with 16; change (2 ^ 2) with 4; change (2 ^ 0) with 1;
  Z.to_euclidean_division_equations; lia.

Lemma decode_group3 a b c s out acc :
  exists acc',
    Base64Decode_loop (b64_group a (Some b) (Some c) ++ s) out (wrap32 acc) 0 =
    Base64Decode_loop s (out ++ [a; b; c]) (wrap32 acc') 0.
Proof.
  pose proof (u8_range a); pose proof (u8_range b); pose proof (u8_range c).
  unfold b64_group. rewrite group_value.
  set (v := u8 a * 65536 + u8 b * 256 + u8 c). cbn [app].
  rewrite decode_char. change (8 <=? 0 + 6) with false. cbn iota.
  rewrite decode_char. change (8 <=? 0 + 6 + 6) with true. cbn iota.
  rewrite decode_char. change (8 <=? 0 + 6 - 2 + 6) with true. cbn iota.
  rewrite decode_char. change (8 <=? 0 + 6 - 2 - 2 + 6) with true. cbn iota.
  eexists. f_equal. rewrite <- !app_assoc. f_equal. cbn [app].
  unfold v. f_equal; [|f_equal; [|f_equal]]; emit_tac.
Qed.

Lemma decode_pad s out acc bits : Base64Decode_loop ("="%char :: s) out acc bits = Ok out.
Proof. done. Qed.

Lemma decode_group1 a s out acc :
  Base64Decode_loop (b64_group a None None ++ s) out (wrap32 acc) 0 = Ok (out ++ [a]).
Proof.
  pose proof (u8_range a). unfold b64_group. cbn [app].
  rewrite decode_char. change (8 <=? 0 + 6) with false. cbn iota.
  rewrite decode_char. change (8 <=? 0 + 6 + 6) with true. cbn iota.
  rewrite decode_pad. f_equal. f_equal. f_equal.
  rewrite Z.shiftl_mul_pow2 by lia. emit_tac.
Qed.

Lemma decode_group2 a b s out acc :
  Base64Decode_loop (b64_group a (Some b) None ++ s) out (wrap32 acc) 0 =
  Ok (out ++ [a; b]).
Proof.
  pose proof (u8_range a); pose proof (u8_range b). unfold b64_group.
  replace (Z.lor (Z.shiftl (u8 a) 16) (Z.shiftl (u8 b) 8))
    with (u8 a * 65536 + u8 b * 256)
    by (rewrite (Z.shiftl_mul_pow2 (u8 b)), lor_shiftl_add by lia; lia).
  set (v := u8 a * 65536 + u8 b * 256). cbn [app].
  rewrite decode_char. change (8 <=? 0 + 6) with false. cbn iota.
  rewrite decode_char. change (8 <=? 0 + 6 + 6) with true. cbn iota.
  rewrite decode_char. change (8 <=? 0 + 6 - 2 + 6) with true. cbn iota.
  rewrite decode_pad. f_equal. rewrite <- !app_assoc. f_equal. cbn [app].
  unfold v. f_equal; [|f_equal]; emit_tac.
Qed.

Lemma decode_encode data out acc :
  Base64Decode_loop (Base64Encode data) out (wrap32 acc) 0 = Ok (out ++ data).
Proof.
  revert out acc. induction data as [|a|a b|a b c data IH] using list_ind3; intros.
  - by rewrite app_nil_r.
  - rewrite <- (app_nil_r (Base64Encode _)). apply decode_group1.
  - rewrite <- (app_nil_r (Base64Encode _)). apply decode_group2.
  - cbn [Base64Encode]. destruct (decode_group3 a b c (Base64Encode data) out acc)
      as [acc' ->].
    rewrite IH, <- app_assoc. done.
Qed.

Lemma Base64Decode_Encode data : Base64Decode (Base64Encode data) = Ok data.
Proof. apply (decode_encode data [] 0). Qed.

(** ** Shape of the encoder's output *)

Lemma Base64Encode_length data :
  Z.of_nat (length (Base64Encode data)) = (Z.of_nat (length data) + 2) / 3 * 4.
Proof.
  induction data as [|a|a b|a b c data IH] using list_ind3; [done..|].
  cbn [Base64Encode]. rewrite length_app. cbn [length b64_group].
  rewrite Nat2Z.inj_add, IH. cbn [length]. Z.to_euclidean_division_equations; lia.
Qed.

Definition is_b64_char (c : ascii) : bool := (0 <=? B64Value c) || char_eqb c "=".

Lemma is_b64_char_b64_char v : is_b64_char (b64_char v).
Proof.
  unfold is_b64_char. destruct (b64_char_spec v) as (-> & _).
  pose proof (Z.mod_pos_bound v 64 eq_refl). by replace (0 <=? v mod 64) with true by lia.
Qed.

Lemma Base64Encode_chars data : Forall is_b64_char (Base64Encode data).
Proof.
  assert (forall a b c, Forall is_b64_char (b64_group a b c)) as Hg.
  { intros a b c. unfold b64_group.
    repeat apply Forall_cons_2; try apply is_b64_char_b64_char; [| |by apply Forall_nil].
    - destruct b; [apply is_b64_char_b64_char|done].
    - destruct c; [apply is_b64_char_b64_char|done]. }
  induction data as [|a|a b|a b c data IH] using list_ind3; [constructor|apply Hg..|].
  cbn [Base64Encode]. apply Forall_app. auto.
Qed.

(** ** The URL variant *)

Lemma std_url_char c : is_b64_char c -> std_char (url_char c) = c.
Proof.
  intros Hc. assert (implb (is_b64_char c) (char_eqb (std_char (url_char c)) c)) as H
    by (apply Is_true_true; clear Hc; by_bytes c).
  destruct (is_b64_char c); [|done]. by apply bool_decide_unpack in H.
Qed.

Lemma Base64UrlDecode_Encode data : Base64UrlDecode (Base64UrlEncode data) = Ok data.
Proof.
  unfold Base64UrlDecode, Base64UrlEncode. rewrite <- list_fmap_compose.
  rewrite (list_fmap_ext _ id), list_fmap_id; [apply Base64Decode_Encode|].
  intros i c Hc. apply std_url_char.
  exact (Forall_lookup_1 _ _ _ _ (Base64Encode_chars data) Hc).
Qed.

(** The characters a UserSig may hold: none of them is ['+'], ['/'] or ['=']. *)
Definition is_url_char (c : ascii) : bool :=
  let z := u8 c in
  (u8 "A" <=? z) && (z <=? u8 "Z") || (u8 "a" <=? z) && (z <=? u8 "z") ||
  (u8 "0" <=? z) && (z <=? u8 "9") || char_eqb c "*" || char_eqb c "-" || char_eqb c "_".

Lemma Base64UrlEncode_chars data : Forall is_url_char (Base64UrlEncode data).
Proof.
  unfold Base64UrlEncode. apply Forall_fmap.
  eapply Forall_impl; [apply Base64Encode_chars|]. intros c Hc.
  unfold compose. assert (implb (is_b64_char c) (is_url_char (url_char c))) as H
    by (apply Is_true_true; clear Hc; by_bytes c).
  cbv beta in Hc. destruct (is_b64_char c); [exact H|destruct Hc].
Qed.

(** ** What the decoder rejects *)

Fixpoint until_pad (s : str) : str :=
  match s with
  | [] => []
  | c :: s' => if char_eqb c "=" then [] else c :: until_pad s'
  end.

Lemma Base64Decode_loop_total s out acc bits :
  if forallb (fun c => 0 <=? B64Value c) (until_pad s) then
    exists d, Base64Decode_loop s out acc bits = Ok d
  else error_code (Base64Decode_loop s out acc bits) = Some kErrInvalidParam.
Proof.
  revert out acc bits; induction s as [|c s IH]; intros out acc bits;
    cbn [Base64Decode_loop until_pad]; [by eexists|].
  destruct (char_eqb c "="); [by eexists|]. cbn [forallb].
  destruct (Z.ltb_spec (B64Value c) 0) as [Hv|Hv].
  - by replace (0 <=? B64Value c) with false by lia.
  - replace (0 <=? B64Value c) with true by lia. cbn [andb].
    destruct (8 <=? bits + 6); apply IH.
Qed.

(** The encoder's output is in the standard alphabet, four characters for every
    three bytes begun, and the decoder recovers the data. *)
Theorem Base64Encode_correct data :
  Base64Decode (Base64Encode data) = Ok data /\ Forall is_b64_char (Base64Encode data) /\
  Z.of_nat (length (Base64Encode data)) = (Z.of_nat (length data) + 2) / 3 * 4.
Proof.
  split_and!; [apply Base64Decode_Encode|apply Base64Encode_chars|apply Base64Encode_length].
Qed.

(** The same for the URL alphabet of UserSig tickets. *)
Theorem Base64UrlEncode_correct data :
  Base64UrlDecode (Base64UrlEncode data) = Ok data /\ Forall is_url_char (Base64UrlEncode data) /\
  length (Base64UrlEncode data) = length (Base64Encode data).
Proof.
  split_and!; [apply Base64UrlDecode_Encode|apply Base64UrlEncode_chars|].
  unfold Base64UrlEncode. apply length_map.
Qed.

(** The decoder is total: it returns when every character before the first
    padding one is in the alphabet, whatever follows the padding and however
    the group is cut, and throws [kErrInvalidParam] on any other. *)
Theorem Base64Decode_errors s :
  if forallb (fun c => 0 <=? B64Value c) (until_pad s) then exists d, Base64Decode s = Ok d
  else error_code (Base64Decode s) = Some kErrInvalidParam.
Proof. apply Base64Decode_loop_total. Qed.
