(* ===== verification/Sha256.v ===== *)
(** * SHA-256 and HMAC-SHA-256 (src/usersig.cc, class Sha256)

    The hash object with its 64-byte buffer, 32-bit words and 64-bit length
    counter, its incremental [Update], the padding loops of [Final], and the
    HMAC built on it.  The abstract specification is the one-shot hash of
    FIPS 180-4: pad the message, split it into 64-byte blocks, fold the
    compression function.  [repr m s] relates an object to the message it has
    absorbed so far; every operation implements its effect on [m]. *)

From S2P Require Import Prelude.

Open Scope Z_scope.

(** ** The compression function *)

Definition add32 (x y : Z) : Z := wrap32 (x + y).

(** [RotR(x, n)]: [(x >> n) | (x << (32 - n))] in [uint32_t]. *)
Definition RotR (x n : Z) : Z := Z.lor (Z.shiftr x n) (wrap32 (Z.shiftl x (32 - n))).

(** [~x] in [uint32_t]. *)
Definition not32 (x : Z) : Z := wrap32 (Z.lnot x).

(** The 32-bit words of a table row, from the left. *)
Definition row (n : nat) (z : Z) : list Z :=
  (fun i => wrap32 (Z.shiftr z (32 * Z.of_nat (n - 1 - i)))) <$> seq 0 n.

Definition sha_k : list Z :=
  row 6 0x428a2f98_71374491_b5c0fbcf_e9b5dba5_3956c25b_59f111f1 ++
  row 6 0x923f82a4_ab1c5ed5_d807aa98_12835b01_243185be_550c7dc3 ++
  row 6 0x72be5d74_80deb1fe_9bdc06a7_c19bf174_e49b69c1_efbe4786 ++
  row 6 0x0fc19dc6_240ca1cc_2de92c6f_4a7484aa_5cb0a9dc_76f988da ++
  row 6 0x983e5152_a831c66d_b00327c8_bf597fc7_c6e00bf3_d5a79147 ++
  row 6 0x06ca6351_14292967_27b70a85_2e1b2138_4d2c6dfc_53380d13 ++
  row 6 0x650a7354_766a0abb_81c2c92e_92722c85_a2bfe8a1_a81a664b ++
  row 6 0xc24b8b70_c76c51a3_d192e819_d6990624_f40e3585_106aa070 ++
  row 6 0x19a4c116_1e376c08_2748774c_34b0bcb5_391c0cb3_4ed8aa4a ++
  row 6 0x5b9cca4f_682e6ff3_748f82ee_78a5636f_84c87814_8cc70208 ++
  row 4 0x90befffa_a4506ceb_bef9a3f7_c67178f2.

Definition word (l : list Z) (i : nat) : Z := nth i l 0.
Definition byte_at (b : str) (i : nat) : Z := u8 (nth i b "000"%char).

(** The first loop: sixteen big-endian words of the block. *)
Definition load_word (block : str) (i : nat) : Z :=
  Z.lor (Z.lor (Z.lor (wrap32 (Z.shiftl (byte_at block (i * 4)) 24))
                      (Z.shiftl (byte_at block (i * 4 + 1)) 16))
               (Z.shiftl (byte_at block (i * 4 + 2)) 8))
        (byte_at block (i * 4 + 3)).

(** The second loop: [w[i]] from the words before it. *)
Definition schedule_step (w : list Z) (i : nat) : list Z :=
  let w15 := word w (i - 15) in
  let w2 := word w (i - 2) in
  let s0 := Z.lxor (Z.lxor (RotR w15 7) (RotR w15 18)) (Z.shiftr w15 3) in
  let s1 := Z.lxor (Z.lxor (RotR w2 17) (RotR w2 19)) (Z.shiftr w2 10) in
  w ++ [add32 (add32 (add32 (word w (i - 16)) s0) (word w (i - 7))) s1].

Definition schedule (block : str) : list Z :=
  fold_left schedule_step (seq 16 48) (load_word block <$> seq 0 16).

Record vars := mkVars { va : Z; vb : Z; vc : Z; vd : Z; ve : Z; vf : Z; vg : Z; vh : Z }.

(** One round of the third loop. *)
Definition round (w : list Z) (v : vars) (i : nat) : vars :=
  let 'mkVars a b c d e f g h := v in
  let s1 := Z.lxor (Z.lxor (RotR e 6) (RotR e 11)) (RotR e 25) in
  let ch := Z.lxor (Z.land e f) (Z.land (not32 e) g) in
  let temp1 := add32 (add32 (add32 (add32 h s1) ch) (word sha_k i)) (word w i) in
  let s0 := Z.lxor (Z.lxor (RotR a 2) (RotR a 13)) (RotR a 22) in
  let maj := Z.lxor (Z.lxor (Z.land a b) (Z.land a c)) (Z.land b c) in
  let temp2 := add32 s0 maj in
  mkVars (add32 temp1 temp2) a b c (add32 d temp1) e f g.

Definition vars_of (h : list Z) : vars :=
  mkVars (word h 0) (word h 1) (word h 2) (word h 3)
         (word h 4) (word h 5) (word h 6) (word h 7).

(** [Compress] on the words [h_] of the object. *)
Definition Compress (h : list Z) (block : str) : list Z :=
  let v := fold_left (round (schedule block)) (seq 0 64) (vars_of h) in
  [ add32 (word h 0) (va v); add32 (word h 1) (vb v); add32 (word h 2) (vc v);
    add32 (word h 3) (vd v); add32 (word h 4) (ve v); add32 (word h 5) (vf v);
    add32 (word h 6) (vg v); add32 (word h 7) (vh v) ].

(** ** The hash object *)

Record Sha256 := mkSha256 {
  h_ : list Z;
  state_buf_ : str;
  buf_len_ : nat;
  bit_len_ : Z
}.

Definition sha_init_words : list Z :=
  [ 0x6a09e667; 0xbb67ae85; 0x3c6ef372; 0xa54ff53a;
    0x510e527f; 0x9b05688c; 0x1f83d9ab; 0x5be0cd19 ].

(** [Sha256()] and [Reset()].  The C++ buffer starts uninitialised; no byte at
    or after [buf_len_] is ever read, so its initial content is irrelevant. *)
Definition Reset : Sha256 :=
  mkSha256 sha_init_words (replicate 64 "000"%char) 0 0.

(** [std::memcpy(buf + off, data, data.size())] inside the buffer. *)
Definition memcpy (buf : str) (off : nat) (data : str) : str :=
  take off buf ++ data ++ drop (off + length data) buf.

(** One iteration of the absorbing loop of [Update] and [UpdateNoCount]. *)
Definition absorb_step (s : Sha256) (chunk : str) : Sha256 :=
  let buf := memcpy (state_buf_ s) (buf_len_ s) chunk in
  let n := (buf_len_ s + length chunk)%nat in
  if (n =? 64)%nat then mkSha256 (Compress (h_ s) buf) buf 0 (bit_len_ s)
  else mkSha256 (h_ s) buf n (bit_len_ s).

(** The loop; each iteration consumes at least one byte, so the length of the
    data is enough fuel ([absorb_repr]). *)
Fixpoint absorb (fuel : nat) (s : Sha256) (data : str) : Sha256 :=
  match fuel, data with
  | S fuel, _ :: _ =>
      let n := Nat.min (length data) (64 - buf_len_ s) in
      absorb fuel (absorb_step s (take n data)) (drop n data)
  | _, _ => s
  end.

Definition UpdateNoCount (s : Sha256) (data : str) : Sha256 :=
  absorb (length data) s data.

Definition Update (s : Sha256) (data : str) : Sha256 :=
  UpdateNoCount
    (mkSha256 (h_ s) (state_buf_ s) (buf_len_ s)
              (wrap64 (bit_len_ s + Z.of_nat (length data) * 8))) data.

(** [while (buf_len_ != 56) UpdateNoCount(&zero, 1)]: at most 63 iterations. *)
Fixpoint pad_zeros (fuel : nat) (s : Sha256) : Sha256 :=
  match fuel with
  | O => s
  | S fuel =>
      if (buf_len_ s =? 56)%nat then s
      else pad_zeros fuel (UpdateNoCount s ["000"%char])
  end.

(** [for (int i = 7; i >= 0; i--)]: fills [len_bytes] from the back. *)
Fixpoint len_bytes (n : nat) (bits : Z) (acc : str) : str :=
  match n with
  | O => acc
  | S n => len_bytes n (Z.shiftr bits 8) (byte_of (Z.land bits 255) :: acc)
  end.

Definition word_bytes (x : Z) : str :=
  [byte_of (Z.shiftr x 24); byte_of (Z.shiftr x 16); byte_of (Z.shiftr x 8); byte_of x].

Definition Final (s : Sha256) : str :=
  let s := Update s [byte_of 0x80] in
  let s := mkSha256 (h_ s) (state_buf_ s) (buf_len_ s) (wrap64 (bit_len_ s - 8)) in
  let s := pad_zeros 64 s in
  let s := fold_left (fun s b => UpdateNoCount s [b]) (len_bytes 8 (bit_len_ s) []) s in
  concat (word_bytes <$> h_ s).

(** [Sha256::Hash] *)
Definition Hash (data : str) : str := Final (Update Reset data).

(** ** HMAC *)

Definition byte_xor (c : ascii) (k : Z) : ascii := byte_of (Z.lxor (u8 c) k).

Definition HmacSha256 (key message : str) : str :=
  let key_block := replicate 64 "000"%char in
  let key_block := if (64 <? length key)%nat then memcpy key_block 0 (Hash key)
                   else memcpy key_block 0 key in
  let inner := ((fun c => byte_xor c 0x36) <$> key_block) ++ message in
  let inner_hash := Hash inner in
  let outer := ((fun c => byte_xor c 0x5c) <$> key_block) ++ inner_hash in
  Hash outer.

(** ** The abstract specification (FIPS 180-4, byte messages) *)

(** The [k] zero bytes of the padding: the least [k] with
    [length m + 1 + k = 56] modulo 64 ([pad_count_least]). *)
Definition pad_count (n : nat) : nat := (119 - n mod 64) mod 64.

Definition be64 (z : Z) : str := len_bytes 8 z [].

Definition sha_pad (m : str) : str :=
  m ++ byte_of 0x80 :: replicate (pad_count (length m)) "000"%char
    ++ be64 (wrap64 (Z.of_nat (length m) * 8)).

Definition blocks (m : str) : list str :=
  (fun i => take 64 (drop (64 * i) m)) <$> seq 0 (length m / 64).

Definition sha256_spec (m : str) : str :=
  concat (word_bytes <$> fold_left Compress (blocks (sha_pad m)) sha_init_words).

(** RFC 2104 with block size 64. *)
Definition hmac_key (key : str) : str :=
  let k := if (64 <? length key)%nat then sha256_spec key else key in
  k ++ replicate (64 - length k) "000"%char.

Definition hmac_spec (key message : str) : str :=
  let k0 := hmac_key key in
  sha256_spec (((fun c => byte_xor c 0x5c) <$> k0) ++
               sha256_spec (((fun c => byte_xor c 0x36) <$> k0) ++ message)).

(** ** The object implements the specification *)

Definition all64 (bs : list str) : Prop := Forall (fun b => length b = 64%nat) bs.

Definition repr (m : str) (s : Sha256) : Prop :=
  exists bs rest,
    all64 bs /\ m = concat bs ++ rest /\
    h_ s = fold_left Compress bs sha_init_words /\
    length (state_buf_ s) = 64%nat /\ buf_len_ s = length rest /\
    (length rest < 64)%nat /\ take (length rest) (state_buf_ s) = rest.

Lemma concat_all64 bs : all64 bs -> length (concat bs) = (64 * length bs)%nat.
Proof. induction 1 as [|b bs Hb _ IH]; simpl; [done|]. rewrite length_app, IH. lia. Qed.

Lemma repr_buf_len m s : repr m s -> buf_len_ s = (length m mod 64)%nat.
Proof.
  intros (bs & rest & Hbs & -> & _ & _ & -> & Hlt & _).
  rewrite length_app, concat_all64 by done.
  rewrite Nat.add_comm, Nat.mul_comm, Nat.Div0.mod_add. symmetry. by apply Nat.mod_small.
Qed.

Lemma Reset_repr : repr [] Reset.
Proof. exists [], []. repeat split; simpl; try done; [constructor|lia]. Qed.

Lemma length_memcpy buf off data :
  (off + length data <= length buf)%nat -> length (memcpy buf off data) = length buf.
Proof. intros H. unfold memcpy. rewrite !length_app, length_take, length_drop. lia. Qed.

Lemma take_memcpy buf off data :
  (off + length data <= length buf)%nat ->
  take (off + length data) (memcpy buf off data) = take off buf ++ data.
Proof.
  intros H. unfold memcpy. rewrite app_assoc. apply take_app_length'.
  rewrite length_app, length_take. lia.
Qed.

Lemma absorb_step_repr m s chunk :
  repr m s -> (length chunk <= 64 - buf_len_ s)%nat ->
  repr (m ++ chunk) (absorb_step s chunk).
Proof.
  intros (bs & rest & Hbs & -> & Hh & Hlen & Hbl & Hlt & Htake) Hc.
  unfold absorb_step. rewrite Hbl in *.
  pose proof (take_memcpy (state_buf_ s) (length rest) chunk ltac:(lia)) as Hm.
  pose proof (length_memcpy (state_buf_ s) (length rest) chunk ltac:(lia)) as Hml.
  rewrite Htake in Hm.
  destruct (Nat.eqb_spec (length rest + length chunk) 64) as [E|E].
  - assert (memcpy (state_buf_ s) (length rest) chunk = rest ++ chunk) as Hbuf.
    { rewrite <- Hm, E, <- Hlen, <- Hml. by rewrite take_ge. }
    exists (bs ++ [rest ++ chunk]), []. simpl. rewrite Hbuf. repeat split.
    + apply Forall_app. split; [done|]. constructor; [|constructor].
      rewrite length_app. lia.
    + rewrite concat_app. simpl. by rewrite !app_nil_r, app_assoc.
    + by rewrite Hh, fold_left_app.
    + rewrite length_app. lia.
    + lia.
  - exists bs, (rest ++ chunk). simpl. rewrite length_app. repeat split; try done.
    + by rewrite app_assoc.
    + by rewrite Hml.
    + lia.
Qed.

Lemma absorb_bit_len fuel s data : bit_len_ (absorb fuel s data) = bit_len_ s.
Proof.
  revert s data; induction fuel as [|fuel IH]; intros s data; [done|].
  destruct data as [|c data]; [done|]. cbn [absorb]. rewrite IH.
  unfold absorb_step. by destruct (_ =? _)%nat.
Qed.

Lemma absorb_repr fuel m s data :
  (length data <= fuel)%nat -> repr m s -> repr (m ++ data) (absorb fuel s data).
Proof.
  revert m s data; induction fuel as [|fuel IH]; intros m s data Hf Hr.
  { destruct data; [|simpl in Hf; lia]. by rewrite app_nil_r. }
  destruct data as [|c data]; [by rewrite app_nil_r|].
  cbn [absorb]. set (d := c :: data) in *. set (n := Nat.min _ _).
  assert (buf_len_ s < 64)%nat.
  { rewrite (repr_buf_len _ _ Hr). apply Nat.mod_upper_bound. lia. }
  assert (0 < length d)%nat by (simpl; lia).
  rewrite <- (take_drop n d) at 1. rewrite app_assoc. apply IH.
  - rewrite length_drop. lia.
  - apply absorb_step_repr; [done|]. rewrite length_take. lia.
Qed.

Lemma UpdateNoCount_repr m s data : repr m s -> repr (m ++ data) (UpdateNoCount s data).
Proof. by apply absorb_repr. Qed.

Lemma UpdateNoCount_bit_len s data : bit_len_ (UpdateNoCount s data) = bit_len_ s.
Proof. apply absorb_bit_len. Qed.

(** The object that has absorbed [m] through [Update] only. *)
Definition absorbed (m : str) (s : Sha256) : Prop :=
  repr m s /\ bit_len_ s = wrap64 (Z.of_nat (length m) * 8).

Lemma Update_absorbed m s data : absorbed m s -> absorbed (m ++ data) (Update s data).
Proof.
  intros [Hr Hb]. split.
  - apply UpdateNoCount_repr. exact Hr.
  - unfold Update. rewrite UpdateNoCount_bit_len. cbn [bit_len_]. rewrite Hb.
    unfold wrap64. rewrite Zplus_mod_idemp_l. f_equal. rewrite length_app. lia.
Qed.

Lemma pad_count_le n : (pad_count n < 64)%nat.
Proof. unfold pad_count. apply Nat.mod_upper_bound. lia. Qed.

(** The padding is the least one that leaves eight bytes for the length. *)
Lemma pad_count_mod n : ((n + 1 + pad_count n) mod 64 = 56)%nat.
Proof. unfold pad_count. div_lia. Qed.

Lemma pad_count_least n k :
  ((n + 1 + k) mod 64 = 56)%nat <-> exists j, k = (pad_count n + 64 * j)%nat.
Proof.
  pose proof (pad_count_mod n). pose proof (pad_count_le n).
  generalize dependent (pad_count n). intros p Hp Hlt. split.
  - intros H. exists ((k - p) / 64)%nat. div_lia.
  - intros [j ->]. div_lia.
Qed.

Lemma pad_zeros_repr k fuel m s :
  (k < fuel)%nat -> (k < 64)%nat -> ((length m + k) mod 64 = 56)%nat -> repr m s ->
  let s' := pad_zeros fuel s in
  repr (m ++ replicate k "000"%char) s' /\ bit_len_ s' = bit_len_ s.
Proof.
  revert k m s; induction fuel as [|fuel IH]; intros k m s Hf Hk Hm Hr; [lia|].
  cbn [pad_zeros]. rewrite (repr_buf_len _ _ Hr).
  destruct (Nat.eqb_spec (length m mod 64) 56) as [E|E].
  - assert (k = 0%nat) as -> by div_lia. by rewrite app_nil_r.
  - destruct k as [|k]; [div_lia|].
    destruct (IH k (m ++ ["000"%char]) (UpdateNoCount s ["000"%char])) as [H1 H2];
      [lia|lia|rewrite length_app; cbn [length]; div_lia|by apply UpdateNoCount_repr|].
    split; [|by rewrite H2, UpdateNoCount_bit_len].
    simpl replicate. by rewrite <- app_assoc in H1.
Qed.

Lemma fold_bytes_repr m s l :
  repr m s -> repr (m ++ l) (fold_left (fun s b => UpdateNoCount s [b]) l s).
Proof.
  revert m s; induction l as [|b l IH]; intros m s Hr; simpl; [by rewrite app_nil_r|].
  replace (m ++ b :: l) with ((m ++ [b]) ++ l) by by rewrite <- app_assoc.
  by apply IH, UpdateNoCount_repr.
Qed.

Lemma length_len_bytes n z acc : length (len_bytes n z acc) = (n + length acc)%nat.
Proof. revert z acc; induction n as [|n IH]; intros; simpl; [done|]. rewrite IH. simpl. lia. Qed.

Lemma blocks_concat bs : all64 bs -> blocks (concat bs) = bs.
Proof.
  intros Hbs. unfold blocks. rewrite concat_all64 by done.
  rewrite Nat.mul_comm, Nat.div_mul by lia.
  induction Hbs as [|b bs Hb _ IH]; [done|]. simpl length. rewrite <- cons_seq, fmap_cons. cbn [concat].
  f_equal.
  - rewrite drop_0. rewrite <- Hb. apply take_app_length.
  - rewrite <- IH at 2. rewrite <- fmap_S_seq, <- list_fmap_compose.
    apply list_fmap_ext. intros i x _. unfold compose.
    replace (64 * S x)%nat with (length b + 64 * x)%nat by lia.
    cbn [concat]. by rewrite <- drop_drop, drop_app_length.
Qed.

Lemma pad_length m : (length (sha_pad m) mod 64 = 0)%nat.
Proof.
  unfold sha_pad, be64. rewrite length_app. cbn [length].
  rewrite length_app, length_replicate, length_len_bytes. cbn [length].
  pose proof (pad_count_mod (length m)). div_lia.
Qed.

Lemma repr_whole m s :
  repr m s -> (length m mod 64 = 0)%nat -> h_ s = fold_left Compress (blocks m) sha_init_words.
Proof.
  intros Hr Hm. pose proof (repr_buf_len _ _ Hr) as Hb. rewrite Hm in Hb.
  destruct Hr as (bs & rest & Hbs & -> & -> & _ & Hbl & _).
  destruct rest; [|simpl in Hbl; congruence]. by rewrite app_nil_r, blocks_concat.
Qed.

Lemma Final_spec m s : absorbed m s -> Final s = sha256_spec m.
Proof.
  intros Ha. destruct (Update_absorbed _ _ [byte_of 0x80] Ha) as [Hr Hb].
  unfold Final. set (s1 := Update s _) in *. cbv zeta.
  set (s2 := mkSha256 _ _ _ _).
  assert (repr (m ++ [byte_of 0x80]) s2) as Hr2 by exact Hr.
  assert (bit_len_ s2 = wrap64 (Z.of_nat (length m) * 8)) as Hb2.
  { unfold s2. cbn [bit_len_]. rewrite Hb, length_app. unfold wrap64. simpl length.
    rewrite Zminus_mod_idemp_l. f_equal. lia. }
  destruct (pad_zeros_repr (pad_count (length m)) 64 (m ++ [byte_of 0x80]) s2) as [Hr3 Hb3];
    [apply pad_count_le|apply pad_count_le| |exact Hr2|].
  { rewrite length_app. apply pad_count_mod. }
  apply (fold_bytes_repr _ _ (len_bytes 8 (bit_len_ (pad_zeros 64 s2)) [])) in Hr3.
  rewrite Hb3, Hb2, <- !app_assoc in *. unfold sha256_spec. do 2 f_equal.
  by apply repr_whole; [|apply pad_length].
Qed.

(** Incremental hashing: any sequence of [Update] calls, then [Final], is the
    one-shot specification of the concatenated data. *)
Lemma Final_chunks chunks :
  Final (fold_left Update chunks Reset) = sha256_spec (concat chunks).
Proof.
  apply Final_spec. change (concat chunks) with ([] ++ concat chunks).
  assert (absorbed [] Reset) as H by (split; [apply Reset_repr|done]).
  revert H. generalize Reset as s. generalize (@nil ascii) as m.
  induction chunks as [|c chunks IH]; intros m s H; simpl; [by rewrite app_nil_r|].
  rewrite app_assoc. by apply IH, Update_absorbed.
Qed.

Lemma Hash_spec m : Hash m = sha256_spec m.
Proof. pose proof (Final_chunks [m]) as H. simpl in H. by rewrite app_nil_r in H. Qed.

Lemma sha256_spec_length m : length (sha256_spec m) = 32%nat.
Proof.
  unfold sha256_spec. generalize (blocks (sha_pad m)) as bs.
  assert (forall (bs : list str) h, length h = 8%nat ->
            length (fold_left Compress bs h) = 8%nat) as Hlen.
  { induction bs as [|b bs IH]; intros h Hh; simpl; [done|]. by apply IH. }
  intros bs. specialize (Hlen bs sha_init_words eq_refl).
  remember (fold_left Compress bs sha_init_words) as h. clear Heqh.
  do 9 (destruct h as [|? h]; try discriminate Hlen). reflexivity.
Qed.

(** ** HMAC refines RFC 2104 *)

Lemma hmac_key_block key :
  (if (64 <? length key)%nat then memcpy (replicate 64 "000"%char) 0 (Hash key)
   else memcpy (replicate 64 "000"%char) 0 key) = hmac_key key.
Proof.
  unfold hmac_key, memcpy. rewrite Hash_spec.
  by destruct (Nat.ltb_spec 64 (length key));
    rewrite take_0, app_nil_l, Nat.add_0_l, drop_replicate.
Qed.

Lemma HmacSha256_spec key message : HmacSha256 key message = hmac_spec key message.
Proof. unfold HmacSha256, hmac_spec. cbv zeta. by rewrite hmac_key_block, !Hash_spec. Qed.

Lemma HmacSha256_length key message : length (HmacSha256 key message) = 32%nat.
Proof. rewrite HmacSha256_spec. apply sha256_spec_length. Qed.

Lemma hmac_key_length key : length (hmac_key key) = 64%nat.
Proof.
  unfold hmac_key. rewrite length_app, length_replicate.
  destruct (Nat.ltb_spec 64 (length key)); [rewrite sha256_spec_length|]; lia.
Qed.

(** ** Words stay in range, and [RotR] is the rotation *)

Lemma RotR_testbit x n i :
  0 <= x < 2 ^ 32 -> 0 < n < 32 -> 0 <= i < 32 ->
  Z.testbit (RotR x n) i = Z.testbit x ((i + n) mod 32).
Proof.
  intros Hx Hn Hi. unfold RotR, wrap32. rewrite Z.lor_spec, Z.shiftr_spec by lia.
  rewrite Z.mod_pow2_bits_low by lia. rewrite Z.shiftl_spec by lia.
  destruct (Z.ltb_spec (i + n) 32).
  - rewrite (Z.testbit_neg_r _ (i - (32 - n))), orb_false_r by lia.
    by rewrite Z.mod_small by lia.
  - replace (Z.testbit x (i + n)) with false.
    + assert ((i + n) mod 32 = i + n - 32) as -> by
        (symmetry; apply (Z.mod_unique _ _ 1); lia).
      rewrite orb_false_l. f_equal. lia.
    + rewrite <- (Z.mod_small x (2 ^ 32)) by lia. by rewrite Z.mod_pow2_bits_high by lia.
Qed.

Lemma Compress_range h b : Forall (fun x => 0 <= x < 2 ^ 32) (Compress h b).
Proof. unfold Compress. repeat apply Forall_cons_2; try apply wrap32_range. constructor. Qed.

(** ** The constants of FIPS 180-4

    The round constants are the first 32 bits of the fractional parts of the
    cube roots of the first 64 primes, the initial words those of the square
    roots of the first 8. *)

Definition is_prime (n : nat) : bool := forallb (fun d => negb (Z.of_nat n mod Z.of_nat d =? 0)) (seq 2 (n - 2)).

Definition primes (n : nat) : list Z := Z.of_nat <$> take n (filter (fun m => is_prime m) (seq 2 320)).

(** [k] is [floor (2^32 * frac (cbrt p))]. *)
Definition cbrt_frac (p k : Z) : bool :=
  existsb (fun c => let q := c * 2 ^ 32 + k in (q ^ 3 <=? p * 2 ^ 96) && (p * 2 ^ 96 <? (q + 1) ^ 3))
    [1; 2; 3; 4; 5; 6] && (0 <=? k) && (k <? 2 ^ 32).

Definition sqrt_frac (p : Z) : Z := Z.sqrt (p * 2 ^ 64) mod 2 ^ 32.

Definition fips_constants : Prop :=
  length sha_k = 64%nat /\ sha_init_words = sqrt_frac <$> primes 8 /\
  forallb (fun pk => cbrt_frac pk.1 pk.2) (zip (primes 64) sha_k) = true.

Lemma sha_constants : fips_constants.
Proof. split_and!; vm_compute; reflexivity. Qed.

(** ** The streaming hash and the MAC *)


(** [HmacSha256] is the RFC 2104 MAC over that hash, for keys of any length. *)
Theorem HmacSha256_correct key message :
  HmacSha256 key message = hmac_spec key message /\ length (HmacSha256 key message) = 32%nat.
Proof. split; [apply HmacSha256_spec|apply HmacSha256_length]. Qed.
