(* ===== verification/Double.v ===== *)
(** * IEEE doubles and the [printf] conversions the source applies to them

    A [double] is a [spec_float] of the Standard Library (binary64: 53-bit
    mantissa, exponents above -1074), compared with its IEEE comparison, under
    which every comparison with NaN is false.  [%.Nf] and [%g] round the exact
    value half to even, as the C library does in its default rounding mode.
    A NaN prints as [nan]: [spec_float] does not keep its sign. *)

From S2P Require Import Prelude.
From Stdlib Require Export SpecFloat.

Open Scope Z_scope.

Abbreviation double := spec_float.

(** The representable values: canonical mantissa and exponent. *)
Definition double_wf (x : double) : Prop := valid_binary 53 1024 x = true.

(** [a <= b] and [std::isfinite]. *)
Definition dle (a b : double) : bool := SFleb a b.
Definition isfinite (x : double) : bool :=
  match x with S754_zero _ | S754_finite _ _ _ => true | _ => false end.

Definition d_zero : double := S754_zero false.
Definition d_four : double := S754_finite false 4503599627370496 (-50).

(** The conversion of an integer: the nearest double, ties to even. *)
Definition of_int (z : Z) : double := binary_normalize 53 1024 z 0 false.

(** The integer part of a finite value, towards zero. *)
Definition truncate (x : double) : option Z :=
  match x with
  | S754_zero _ => Some 0
  | S754_finite s m e =>
      let v := if 0 <=? e then Z.pos m * 2 ^ e else Z.pos m / 2 ^ (- e) in
      Some (if s then - v else v)
  | _ => None
  end.

(** ** Rounding [m * 2^e * 10^p] half to even *)

Definition div_half_even (n d : Z) : Z :=
  let q := n / d in
  let r := n mod d in
  match (2 * r ?= d) with
  | Lt => q
  | Gt => q + 1
  | Eq => if Z.even q then q else q + 1
  end.

Definition num_of (m : positive) (e p : Z) : Z :=
  Z.pos m * (if 0 <=? e then 2 ^ e else 1) * (if 0 <=? p then 10 ^ p else 1).
Definition den_of (e p : Z) : Z :=
  (if 0 <=? e then 1 else 2 ^ (- e)) * (if 0 <=? p then 1 else 10 ^ (- p)).

Definition round_scaled (m : positive) (e p : Z) : Z :=
  div_half_even (num_of m e p) (den_of e p).

(** ** [%.Nf] *)

Definition pad_left (n : nat) (s : str) : str := replicate (n - length s) "0"%char ++ s.

(** The decimal [q * 10^-p] with [p] fractional digits. *)
Definition fixed_digits (p : Z) (q : Z) : str :=
  to_string (q / 10 ^ p) ++
  (if 0 <? p then «"."» ++ pad_left (Z.to_nat p) (to_string (q mod 10 ^ p)) else []).

Definition sign_str (s : bool) : str := if s then «"-"» else [].

Definition fmt_fixed (p : Z) (x : double) : str :=
  match x with
  | S754_zero s => sign_str s ++ fixed_digits p 0
  | S754_infinity s => sign_str s ++ «"inf"»
  | S754_nan => «"nan"»
  | S754_finite s m e => sign_str s ++ fixed_digits p (round_scaled m e p)
  end.

(** [std::to_string(double)] is [%f]. *)
Definition to_string_double (x : double) : str := fmt_fixed 6 x.

(** ** [%g] *)

(** The decimal exponent [X] with [10^X <= m * 2^e < 10^(X+1)].  Doubles lie
    above [10^-324], so 330 steps reach any of them. *)
Fixpoint small_exponent (fuel : nat) (k : Z) (m : positive) (e : Z) : Z :=
  match fuel with
  | O => - k
  | S fuel =>
      if den_of e k <=? num_of m e k then - k else small_exponent fuel (k + 1) m e
  end.

Definition decimal_exponent (m : positive) (e : Z) : Z :=
  let w := num_of m e 0 / den_of e 0 in
  if 1 <=? w then Z.of_nat (length (to_string w)) - 1 else small_exponent 330 1 m e.

Fixpoint strip_zeros_rev (s : str) : str :=
  match s with
  | c :: s' => if char_eqb c "0" then strip_zeros_rev s' else if char_eqb c "." then s' else s
  | [] => []
  end.

(** Remove trailing zeros after the decimal point, and a bare point. *)
Definition strip_zeros (s : str) : str :=
  if bool_decide ("."%char ∈ s) then rev (strip_zeros_rev (rev s)) else s.

Definition fmt_exponent (x : Z) : str :=
  «"e"» ++ (if x <? 0 then «"-"» else «"+"») ++ pad_left 2 (to_string (Z.abs x)).

Definition fmt_g_finite (m : positive) (e : Z) : str :=
  let x := decimal_exponent m e in
  let d := round_scaled m e (5 - x) in
  let x' := if d =? 1000000 then x + 1 else x in
  let d' := if d =? 1000000 then 100000 else d in
  if (-4 <=? x') && (x' <? 6) then strip_zeros (fixed_digits (5 - x') d')
  else strip_zeros (fixed_digits 5 d') ++ fmt_exponent x'.

Definition fmt_g (x : double) : str :=
  match x with
  | S754_zero s => sign_str s ++ «"0"»
  | S754_infinity s => sign_str s ++ «"inf"»
  | S754_nan => «"nan"»
  | S754_finite s m e => sign_str s ++ fmt_g_finite m e
  end.
