(* ===== verification/Params.v ===== *)
(** * Option validation (src/params.cc)

    The local checks run before a connection is opened, with their messages.
    The theorems characterise what each validator accepts by a declarative
    predicate, and show that every rejection is an [ASRError] with code
    [kErrInvalidParam]. *)

From S2P Require Import Prelude Double.

Open Scope Z_scope.

(** ** Constants and data (include/trtc_asr/signature_params.h, params.h) *)

Definition kSpeakerDiarizationOff : Z := 0.
Definition kSpeakerDiarizationCluster : Z := 1.
Definition kSpeakerDiarizationVoiceprint : Z := 3.

Definition kSpeakerContextOff : Z := 0.
Definition kSpeakerContextSync : Z := 1.
Definition kSpeakerContextAsync : Z := 2.

Definition kMinNoiseThreshold : double := d_zero.
Definition kMaxNoiseThreshold : double := d_four.

Record SpeakerRole := mkSpeakerRole { role_name : str; audio_url : str }.

(** [if (b) throw ASRError(kErrInvalidParam, msg)] *)
Definition reject_if (b : bool) (msg : str) : result unit :=
  if b then throw_asr kErrInvalidParam msg else Ok tt.

(** ** Enrollment URLs *)

Definition is_control (c : ascii) : bool := (u8 c <? 0x20) || (u8 c =? 0x7F).

Definition ValidateEnrollmentURL (index : nat) (raw_url : str) : result unit :=
  let fail {A} (what : str) : result A :=
    throw_asr kErrInvalidParam
      («"SpeakerRoles["» ++ to_string (Z.of_nat index) ++ «"].AudioUrl "» ++ what) in
  (if find_first_not_of [" "; "009"; "013"; "010"]%char raw_url is None
   then fail «"is empty"» else Ok tt) ;;;
  (if existsb is_control raw_url
   then fail «"is not a valid URL: contains control character"» else Ok tt) ;;;
  (if find [" "%char] raw_url is Some _
   then fail «"is not a valid URL: contains space"» else Ok tt) ;;;
  match find «"://"» raw_url with
  | None | Some O => fail «"is not a valid URL: missing scheme"»
  | Some scheme_end =>
      let scheme := take scheme_end raw_url in
      (if negb (bool_decide (scheme = «"http"»)) && negb (bool_decide (scheme = «"https"»))
       then fail («"must use http or https, got "» ++ dquote ++ scheme ++ dquote)
       else Ok tt) ;;;
      let rest := drop (scheme_end + 3) raw_url in
      let authority := substr_to rest (find_first_of «"/?#"» rest) in
      if is_empty authority then fail «"has no host"» else Ok tt
  end.

(** ** Speaker diarization *)

(** [for (size_t i = 0; i < roles.size(); i++)], from index [i]. *)
Fixpoint validate_roles (i : nat) (roles : list SpeakerRole) : result unit :=
  match roles with
  | [] => Ok tt
  | role :: roles' =>
      reject_if (is_empty (role_name role))
        («"SpeakerRoles["» ++ to_string (Z.of_nat i) ++ «"].RoleName is empty"») ;;;
      ValidateEnrollmentURL i (audio_url role) ;;;
      validate_roles (S i) roles'
  end.

Fixpoint validate_voiceprint_ids (i : nat) (ids : list str) : result unit :=
  match ids with
  | [] => Ok tt
  | id :: ids' =>
      reject_if (is_empty id)
        («"VoiceprintIds["» ++ to_string (Z.of_nat i) ++ «"] is empty"») ;;;
      validate_voiceprint_ids (S i) ids'
  end.

Definition ValidateSpeakerDiarization (mode speaker_number : Z)
    (roles : list SpeakerRole) (voiceprint_ids : list str) : result unit :=
  reject_if (negb (mode =? kSpeakerDiarizationOff) && negb (mode =? kSpeakerDiarizationCluster)
             && negb (mode =? kSpeakerDiarizationVoiceprint))
    («"SpeakerDiarization must be 0 (off), 1 (cluster) or 3 "» ++
     «"(voiceprint), got "» ++ to_string mode) ;;;
  reject_if (speaker_number <? 0)
    («"SpeakerNumber must be >= 0 (0 = auto detection), got "» ++ to_string speaker_number) ;;;
  reject_if (negb (mode =? kSpeakerDiarizationVoiceprint) &&
             (negb (is_empty roles) || negb (is_empty voiceprint_ids)))
    «"SpeakerRoles/VoiceprintIds require SpeakerDiarization=3"» ;;;
  validate_roles 0 roles ;;;
  validate_voiceprint_ids 0 voiceprint_ids.

(** ** VAD tuning and enumerated options *)

Definition ValidateVadTuning (vad_level : option Z) (noise_threshold : option double)
    : result unit :=
  (if vad_level is Some v
   then reject_if (negb (v =? 0) && negb (v =? 1))
          («"VadLevel must be 0 (high recall) or 1 (far-field "» ++
           «"filtering), got "» ++ to_string v)
   else Ok tt) ;;;
  (if noise_threshold is Some v
   then reject_if (negb (dle kMinNoiseThreshold v && dle v kMaxNoiseThreshold))
          («"NoiseThreshold must be between "» ++ fmt_fixed 1 kMinNoiseThreshold ++
           «" and "» ++ fmt_fixed 1 kMaxNoiseThreshold ++ «", got "» ++ fmt_g v)
   else Ok tt).

(** [list += ", "] before every element but the first. *)
Fixpoint join_ints (l : list Z) : str :=
  match l with
  | [] => []
  | [x] => to_string x
  | x :: l' => to_string x ++ «", "» ++ join_ints l'
  end.

Definition ValidateEnumOption (name : str) (value : Z) (allowed : list Z) : result unit :=
  if existsb (fun candidate => value =? candidate) allowed then Ok tt
  else throw_asr kErrInvalidParam
         (name ++ «" must be one of ["» ++ join_ints allowed ++ «"], got "» ++ to_string value).

(** ** What the validators accept *)

(** A URL the enrollment check lets through. *)
Definition enrollment_url_ok (url : str) : Prop :=
  Forall (fun c => 0x20 < u8 c /\ u8 c <> 0x7F) url /\
  exists scheme h rest,
    url = scheme ++ «"://"» ++ h :: rest /\
    (scheme = «"http"» \/ scheme = «"https"») /\ h ∉ «"/?#"».

Definition role_ok (r : SpeakerRole) : Prop :=
  role_name r <> [] /\ enrollment_url_ok (audio_url r).

Definition diarization_ok (mode n : Z) (roles : list SpeakerRole) (ids : list str) : Prop :=
  (mode = 0 \/ mode = 1 \/ mode = 3) /\ 0 <= n /\
  (mode = 3 \/ roles = [] /\ ids = []) /\
  Forall role_ok roles /\ Forall (fun id => id <> []) ids.

Lemma reject_if_ok b msg : reject_if b msg = Ok tt <-> b = false.
Proof. destruct b; simpl; naive_solver. Qed.

(** [outcome_is r P]: [r] succeeds when [P] holds and throws
    [kErrInvalidParam] otherwise. *)
Definition validates (r : result unit) (P : Prop) : Prop :=
  (r = Ok tt /\ P) \/ (error_code r = Some kErrInvalidParam /\ ~ P).

Lemma validates_ok r P : validates r P -> r = Ok tt <-> P.
Proof. intros [[-> ?]|[H ?]]; split; try done. by intros ->. Qed.

Lemma validates_iff r P Q : (P <-> Q) -> validates r P -> validates r Q.
Proof. unfold validates. tauto. Qed.

#[export] Instance validates_proper r : Proper (iff ==> iff) (validates r).
Proof. intros P Q H. unfold validates. tauto. Qed.

Lemma validates_reject b msg : validates (reject_if b msg) (b = false).
Proof. destruct b; [right|left]; done. Qed.

Lemma validates_seq r1 r2 P Q :
  validates r1 P -> (P -> validates r2 Q) -> validates (rbind r1 (fun _ => r2)) (P /\ Q).
Proof.
  intros [[-> HP]|[H HP]] H2; simpl.
  - destruct (H2 HP) as [[-> ?]|[? ?]]; [left|right]; tauto.
  - right. destruct r1; [done|]. simpl. split; [done|]. tauto.
Qed.

Lemma validates_when {A} (o : option A) (f : A -> result unit) (P : A -> Prop) :
  (forall a, validates (f a) (P a)) ->
  validates (if o is Some a then f a else Ok tt) (forall a, o = Some a -> P a).
Proof.
  intros H. destruct o as [a|]; [|left; split; [done|naive_solver]].
  eapply validates_iff; [|apply H]. naive_solver.
Qed.

Lemma scheme_split (s url : str) h rest :
  s = «"http"» \/ s = «"https"» -> url = s ++ «"://"» ++ h :: rest ->
  find «"://"» url = Some (length s) /\ take (length s) url = s /\
  drop (length s + 3) url = h :: rest.
Proof. by intros [-> | ->] ->. Qed.

Definition scheme_authority_ok (url : str) : Prop :=
  exists scheme h rest,
    url = scheme ++ «"://"» ++ h :: rest /\
    (scheme = «"http"» \/ scheme = «"https"») /\ h ∉ «"/?#"».

Lemma authority_nonempty rest :
  is_empty (substr_to rest (find_first_of «"/?#"» rest)) = false <->
  exists h t, rest = h :: t /\ h ∉ «"/?#"».
Proof.
  destruct rest as [|h t]; [naive_solver|].
  set (stop := «"/?#"»). cbn [find_first_of]. case_bool_decide as Hh; simpl.
  - naive_solver.
  - split; [naive_solver|]. intros _. destruct (find_first_of stop t); done.
Qed.

(** Where [://] is found at [n], the two remaining checks. *)
Lemma scheme_authority_found n url :
  find «"://"» url = Some n ->
  scheme_authority_ok url <->
  (take n url = «"http"» \/ take n url = «"https"») /\
  exists h t, drop (n + 3) url = h :: t /\ h ∉ «"/?#"».
Proof.
  intros E. split.
  - intros (s & h & rest & Hurl & Hs & Hh).
    destruct (scheme_split s _ h rest Hs Hurl) as (Hf & Ht & Hd).
    rewrite Hf in E. injection E as E. rewrite E in Ht, Hd. rewrite Ht. eauto.
  - intros [Hs (h & t & Hd & Hh)]. destruct (find_Some _ _ _ E) as [t' Ht].
    exists (take n url), h, t. split; [|done].
    assert (drop (n + 3) url = t') as Hd'.
    { assert (n <= length url)%nat.
      { apply (f_equal length) in Ht. rewrite !length_app, length_take in Ht.
        simpl in Ht. lia. }
      rewrite Ht at 1. rewrite app_assoc. apply drop_app_length'.
      rewrite length_app, length_take. simpl. lia. }
    rewrite Hd in Hd'. by rewrite Hd'.
Qed.

Lemma no_control_no_space url :
  existsb is_control url = false /\ find [" "%char] url = None <->
  Forall (fun c => 0x20 < u8 c /\ u8 c <> 0x7F) url.
Proof.
  rewrite find_char_None, Forall_forall, <- not_true_iff_false, existsb_exists.
  unfold is_control. split.
  - intros [Hc Hs] c Hin.
    assert (u8 c <> 32) by (intros E; apply (u8_inj c " ") in E as ->; done).
    assert (~ (u8 c < 32 \/ u8 c = 127)); [|lia].
    intros Hbad. apply Hc. exists c. rewrite <- list_elem_of_In. split; [done|lia].
  - intros Hall. split.
    + intros (c & Hin & Hc). apply list_elem_of_In in Hin. apply Hall in Hin.
      rewrite orb_true_iff, Z.ltb_lt, Z.eqb_eq in Hc. lia.
    + intros Hin. apply Hall in Hin. by destruct Hin.
Qed.

Lemma ValidateEnrollmentURL_validates i url :
  validates (ValidateEnrollmentURL i url) (enrollment_url_ok url).
Proof.
  unfold ValidateEnrollmentURL.
  eapply (validates_iff _ (find_first_not_of [" "; "009"; "013"; "010"]%char url <> None /\
    existsb is_control url = false /\ find [" "%char] url = None /\ scheme_authority_ok url)).
  { rewrite find_first_not_of_None. unfold enrollment_url_ok.
    fold (scheme_authority_ok url). rewrite <- no_control_no_space. split; [tauto|].
    intros [[Hc Hs] Hok]. split; [|done]. intros Hsp.
    destruct Hok as (s & h & rest & -> & _). rewrite Forall_forall in Hsp.
    assert (":"%char ∈ [" "; "009"; "013"; "010"]%char) as Hx.
    { apply Hsp. rewrite elem_of_app. right. by left. }
    rewrite !elem_of_cons, elem_of_nil in Hx. naive_solver. }
  apply validates_seq; [destruct (find_first_not_of _ url); [by left|right; naive_solver]|].
  intros _. apply validates_seq; [destruct (existsb _ _); [right|left]; done|].
  intros _. apply validates_seq; [destruct (find [" "%char] url); [right|left]; done|].
  intros _. destruct (find «"://"» url) as [n|] eqn:E.
  - pose proof (scheme_authority_found _ _ E) as Hiff.
    eapply validates_iff; [symmetry; exact Hiff|]. clear Hiff.
    destruct n as [|n]; [right; simpl; split; [done|]; naive_solver|].
    apply validates_seq.
    + do 2 case_bool_decide; [left|left|left|right]; simpl; naive_solver.
    + intros _. rewrite <- authority_nonempty.
      destruct (is_empty _) eqn:Ea; [right|left]; naive_solver.
  - right. split; [done|]. intros (s & h & rest & Hurl & Hs & _).
    destruct (scheme_split s _ h rest Hs Hurl) as [Hf _]. congruence.
Qed.

(** ** Speaker diarization *)

Lemma validate_roles_validates i roles :
  validates (validate_roles i roles) (Forall role_ok roles).
Proof.
  revert i; induction roles as [|r roles IH]; intros i; cbn [validate_roles];
    [left; split; [done|constructor]|].
  eapply (validates_iff _ (is_empty (role_name r) = false /\
    enrollment_url_ok (audio_url r) /\ Forall role_ok roles)).
  { rewrite Forall_cons, is_empty_false. unfold role_ok. tauto. }
  apply validates_seq; [apply validates_reject|intros _].
  apply validates_seq; [apply ValidateEnrollmentURL_validates|intros _]. apply IH.
Qed.

Lemma validate_voiceprint_ids_validates i ids :
  validates (validate_voiceprint_ids i ids) (Forall (fun id => id <> []) ids).
Proof.
  revert i; induction ids as [|id ids IH]; intros i; cbn [validate_voiceprint_ids];
    [left; split; [done|constructor]|].
  rewrite Forall_cons, <- is_empty_false.
  apply validates_seq; [apply validates_reject|intros _]. apply IH.
Qed.

Lemma ValidateSpeakerDiarization_validates mode n roles ids :
  validates (ValidateSpeakerDiarization mode n roles ids) (diarization_ok mode n roles ids).
Proof.
  unfold ValidateSpeakerDiarization, diarization_ok.
  unfold kSpeakerDiarizationOff, kSpeakerDiarizationCluster, kSpeakerDiarizationVoiceprint.
  apply validates_seq.
  { eapply validates_iff; [|apply validates_reject]. lia. }
  intros _. apply validates_seq.
  { eapply validates_iff; [|apply validates_reject]. lia. }
  intros _. apply validates_seq.
  { eapply validates_iff; [|apply validates_reject].
    rewrite andb_false_iff, orb_false_iff, !negb_false_iff, !is_empty_true, Z.eqb_eq. done. }
  intros _. apply validates_seq; [apply validate_roles_validates|intros _].
  apply validate_voiceprint_ids_validates.
Qed.

(** ** VAD tuning

    The value of a finite double lies in [0, 4] exactly when both comparisons
    of the source succeed; NaN and the infinities fail them. *)

(** [0 <= x <= 4], on the exact value: [m * 2^e <= 4] without fractions. *)
Definition in_noise_range (x : double) : Prop :=
  match x with
  | S754_zero _ => True
  | S754_finite false m e =>
      if 0 <=? e then Z.pos m * 2 ^ e <= 4 else Z.pos m <= 4 * 2 ^ (- e)
  | _ => False
  end.

Lemma digits2_pos_bound m : 2 ^ (Z.pos (digits2_pos m) - 1) <= Z.pos m < 2 ^ Z.pos (digits2_pos m).
Proof.
  induction m as [m IH|m IH|]; cbn [digits2_pos]; [| |simpl; lia];
    rewrite Pos2Z.inj_succ; replace (Z.succ (Z.pos (digits2_pos m)) - 1)
      with (Z.succ (Z.pos (digits2_pos m) - 1)) by lia;
    rewrite !Z.pow_succ_r by lia; lia.
Qed.

Lemma canonical_digits m e :
  double_wf (S754_finite false m e) ->
  -1074 <= e /\ Z.pos m < 2 ^ 53 /\ (-1074 < e -> 2 ^ 52 <= Z.pos m).
Proof.
  unfold double_wf. simpl. unfold bounded, canonical_mantissa, fexp, emin.
  rewrite andb_true_iff, Z.eqb_eq. intros [H _]. pose proof (digits2_pos_bound m) as [Hlo Hhi].
  assert (Z.pos (digits2_pos m) <= 53) as Hd by lia.
  split; [lia|]. split.
  - eapply Z.lt_le_trans; [exact Hhi|]. apply Z.pow_le_mono_r; lia.
  - intros He. etransitivity; [|exact Hlo]. apply Z.pow_le_mono_r; lia.
Qed.

Lemma pos_compare_le m k :
  (match Some (Pos.compare_cont Eq m k) with Some (Lt | Eq) => true | _ => false end) = true
  <-> Z.pos m <= Z.pos k.
Proof.
  change (Pos.compare_cont Eq m k) with (Pos.compare m k).
  destruct (Pos.compare_spec m k); split; intros; lia || done.
Qed.

Lemma noise_range_finite m e :
  double_wf (S754_finite false m e) ->
  dle (S754_finite false m e) d_four = true <-> in_noise_range (S754_finite false m e).
Proof.
  intros Hwf. destruct (canonical_digits _ _ Hwf) as (He & Hm & Hlow).
  unfold dle, d_four, SFleb, SFcompare, in_noise_range.
  destruct (Z.compare_spec e (-50)) as [->|Hlt|Hgt].
  - change (0 <=? -50) with false. cbn iota.
    change (4 * 2 ^ (- -50)) with (Z.pos 4503599627370496).
    apply pos_compare_le.
  - replace (0 <=? e) with false by lia. split; [|done]. intros _.
    change 4 with (2 ^ 2). rewrite <- Z.pow_add_r by lia.
    transitivity (2 ^ 53); [lia|]. apply Z.pow_le_mono_r; lia.
  - split; [done|]. intros H. exfalso. specialize (Hlow ltac:(lia)).
    destruct (Z.leb_spec 0 e).
    + assert (1 <= 2 ^ e) by (apply (Z.pow_le_mono_r 2 0 e); lia). nia.
    + assert (4 * 2 ^ (- e) < 2 ^ 52); [|lia].
      change 4 with (2 ^ 2). rewrite <- Z.pow_add_r by lia.
      apply Z.pow_lt_mono_r; lia.
Qed.

Lemma noise_range_correct x :
  double_wf x -> dle kMinNoiseThreshold x && dle x kMaxNoiseThreshold = true <-> in_noise_range x.
Proof.
  unfold kMinNoiseThreshold, kMaxNoiseThreshold.
  destruct x as [s|[]| |[] m e]; intros Hwf; try (by destruct s); try done.
  apply noise_range_finite. exact Hwf.
Qed.

Definition vad_tuning_ok (vad_level : option Z) (noise : option double) : Prop :=
  (forall v, vad_level = Some v -> v = 0 \/ v = 1) /\
  (forall x, noise = Some x -> in_noise_range x).

Lemma ValidateVadTuning_validates vad_level noise :
  (forall x, noise = Some x -> double_wf x) ->
  validates (ValidateVadTuning vad_level noise) (vad_tuning_ok vad_level noise).
Proof.
  intros Hwf. unfold ValidateVadTuning, vad_tuning_ok. apply validates_seq.
  - apply (validates_when vad_level _ (fun v => v = 0 \/ v = 1)). intros v.
    eapply validates_iff; [|apply validates_reject]. lia.
  - intros _. destruct noise as [x|]; [|left; naive_solver].
    eapply validates_iff; [|apply validates_reject].
    rewrite negb_false_iff, noise_range_correct by auto. naive_solver.
Qed.

Lemma ValidateEnumOption_validates name value allowed :
  validates (ValidateEnumOption name value allowed) (value ∈ allowed).
Proof.
  unfold ValidateEnumOption. destruct (existsb _ allowed) eqn:E; [left|right]; split; try done.
  - apply existsb_exists in E as (c & Hin & Hc). apply list_elem_of_In in Hin.
    apply Z.eqb_eq in Hc. by subst.
  - intros Hin. apply not_true_iff_false in E. apply E, existsb_exists.
    exists value. rewrite <- list_elem_of_In. split; [done|]. lia.
Qed.
