(* ===== verification/Json.v ===== *)
(** * JSON values (third_party/nlohmann/json.hpp, src/json_helper.h)

    The part of the vendored JSON library the SDK relies on, read from its
    header: the value type, the lookups, [operator[]] assignment, and [dump()]
    in compact form with its UTF-8 automaton and escapes.  The shortest decimal
    form of a finite double, [float_text], is a parameter.  On top of it, the
    serializers of json_helper.h. *)

From S2P Require Import Prelude StdMap Double Params.

#[local] Set Warnings "-register-all".

Open Scope Z_scope.

(** ** Values

    An object is a [std::map]; [JInt] is [number_integer] (int64_t) and [JUint]
    [number_unsigned] (uint64_t). *)

Inductive json :=
  | JNull
  | JBool (b : bool)
  | JInt (z : Z)
  | JUint (z : Z)
  | JFloat (d : double)
  | JStr (s : str)
  | JArr (l : list json)
  | JObj (m : list (str * json)).

Definition type_name (j : json) : str :=
  match j with
  | JNull => «"null"» | JBool _ => «"boolean"» | JInt _ | JUint _ | JFloat _ => «"number"»
  | JStr _ => «"string"» | JArr _ => «"array"» | JObj _ => «"object"»
  end.

(** [type_error::create(id, what, context)] *)
Definition type_error {A} (id : Z) (what : str) : result A :=
  Throw (StdExn («"[json.exception.type_error."» ++ to_string id ++ «"] "» ++ what)).

Definition is_object (j : json) : bool := if j is JObj _ then true else false.
Definition is_array (j : json) : bool := if j is JArr _ then true else false.
Definition is_string (j : json) : bool := if j is JStr _ then true else false.
Definition is_null (j : json) : bool := if j is JNull then true else false.
Definition is_number (j : json) : bool :=
  match j with JInt _ | JUint _ | JFloat _ => true | _ => false end.

(** [find(key)]: [end()] on anything but an object. *)
Definition jfind (key : str) (j : json) : option json :=
  if j is JObj m then map_find key m else None.

Definition contains (key : str) (j : json) : bool :=
  if jfind key j is Some _ then true else false.

(** ** Typed reads ([get<T>()], [value(key, default)])

    [cast w d] is what the conversion of a double to a [w]-bit integer gives
    when the value does not fit, which C++ leaves undefined. *)
Section Get.
Context (cast : Z -> double -> Z).

Definition double_to_int (w : Z) (d : double) : Z :=
  match truncate d with
  | Some z => if (- 2 ^ (w - 1) <=? z) && (z <? 2 ^ (w - 1)) then z else cast w d
  | None => cast w d
  end.

Definition get_string (j : json) : result str :=
  match j with
  | JStr s => Ok s
  | _ => type_error 302 («"type must be string, but is "» ++ type_name j)
  end.

(** [int64_t] is [number_integer_t]: a boolean is refused. *)
Definition get_int64 (j : json) : result Z :=
  match j with
  | JInt z | JUint z => Ok (signed 64 z)
  | JFloat d => Ok (double_to_int 64 d)
  | _ => type_error 302 («"type must be number, but is "» ++ type_name j)
  end.

(** Any other arithmetic type: a boolean converts. *)
Definition get_int (j : json) : result Z :=
  match j with
  | JInt z | JUint z => Ok (signed 32 z)
  | JFloat d => Ok (double_to_int 32 d)
  | JBool b => Ok (Z.b2z b)
  | _ => type_error 302 («"type must be number, but is "» ++ type_name j)
  end.

Definition value {A} (get : json -> result A) (key : str) (default_value : A) (j : json)
    : result A :=
  if is_object j then
    match jfind key j with Some v => get v | None => Ok default_value end
  else type_error 306 («"cannot use value() with "» ++ type_name j).
End Get.

(** [j[key] = v] on a null or object value. *)
Definition jset (key : str) (v : json) (j : json) : json :=
  match j with
  | JNull => JObj (map_set key v [])
  | JObj m => JObj (map_set key v m)
  | _ => j
  end.

(** ** The UTF-8 automaton of the serializer *)

Definition UTF8_ACCEPT : Z := 0.
Definition UTF8_REJECT : Z := 1.

Definition utf8d : list Z :=
  [ 0; 0; 0; 0; 0; 0; 0; 0; 0; 0; 0; 0; 0; 0; 0; 0; 0; 0; 0; 0; 0; 0; 0; 0; 0; 0; 0; 0; 0; 0; 0; 0;
    0; 0; 0; 0; 0; 0; 0; 0; 0; 0; 0; 0; 0; 0; 0; 0; 0; 0; 0; 0; 0; 0; 0; 0; 0; 0; 0; 0; 0; 0; 0; 0;
    0; 0; 0; 0; 0; 0; 0; 0; 0; 0; 0; 0; 0; 0; 0; 0; 0; 0; 0; 0; 0; 0; 0; 0; 0; 0; 0; 0; 0; 0; 0; 0;
    0; 0; 0; 0; 0; 0; 0; 0; 0; 0; 0; 0; 0; 0; 0; 0; 0; 0; 0; 0; 0; 0; 0; 0; 0; 0; 0; 0; 0; 0; 0; 0;
    1; 1; 1; 1; 1; 1; 1; 1; 1; 1; 1; 1; 1; 1; 1; 1; 9; 9; 9; 9; 9; 9; 9; 9; 9; 9; 9; 9; 9; 9; 9; 9;
    7; 7; 7; 7; 7; 7; 7; 7; 7; 7; 7; 7; 7; 7; 7; 7; 7; 7; 7; 7; 7; 7; 7; 7; 7; 7; 7; 7; 7; 7; 7; 7;
    8; 8; 2; 2; 2; 2; 2; 2; 2; 2; 2; 2; 2; 2; 2; 2; 2; 2; 2; 2; 2; 2; 2; 2; 2; 2; 2; 2; 2; 2; 2; 2;
    10; 3; 3; 3; 3; 3; 3; 3; 3; 3; 3; 3; 3; 4; 3; 3; 11; 6; 6; 6; 5; 8; 8; 8; 8; 8; 8; 8; 8; 8; 8; 8;
    0; 1; 2; 3; 5; 8; 7; 1; 1; 1; 4; 6; 1; 1; 1; 1; 1; 1; 1; 1; 1; 1; 1; 1; 1; 1; 1; 1; 1; 1; 1; 1;
    1; 0; 1; 1; 1; 1; 1; 0; 1; 0; 1; 1; 1; 1; 1; 1; 1; 2; 1; 1; 1; 1; 1; 2; 1; 2; 1; 1; 1; 1; 1; 1;
    1; 1; 1; 1; 1; 1; 1; 2; 1; 1; 1; 1; 1; 1; 1; 1; 1; 2; 1; 1; 1; 1; 1; 1; 1; 2; 1; 1; 1; 1; 1; 1;
    1; 1; 1; 1; 1; 1; 1; 3; 1; 3; 1; 1; 1; 1; 1; 1; 1; 3; 1; 1; 1; 1; 1; 3; 1; 3; 1; 1; 1; 1; 1; 1;
    1; 3; 1; 1; 1; 1; 1; 1; 1; 1; 1; 1; 1; 1; 1; 1 ].

Definition decode (state codep : Z) (b : ascii) : Z * Z :=
  let byte := u8 b in
  let type := nth (Z.to_nat byte) utf8d 0 in
  let codep :=
    if negb (state =? UTF8_ACCEPT) then Z.lor (Z.land byte 0x3f) (wrap32 (Z.shiftl codep 6))
    else Z.land (Z.shiftr 0xFF type) byte in
  let state := nth (Z.to_nat (256 + state * 16 + type)) utf8d 0 in
  (state, codep).

(** ** Escaping ([ensure_ascii] false, strict error handler) *)

Definition hex_digit (upper : bool) (n : Z) : ascii :=
  nth (Z.to_nat n) (if upper then «"0123456789ABCDEF"» else «"0123456789abcdef"») "0"%char.

(** [%04x] of a 16-bit value. *)
Definition hex4 (n : Z) : str :=
  [ hex_digit false (Z.land (Z.shiftr n 12) 15); hex_digit false (Z.land (Z.shiftr n 8) 15);
    hex_digit false (Z.land (Z.shiftr n 4) 15); hex_digit false (Z.land n 15) ].

Definition hex_bytes (b : ascii) : str :=
  [ hex_digit true (u8 b / 16); hex_digit true (u8 b mod 16) ].

Definition backslash : ascii := "\"%char.

(** The characters written for an accepted code point whose last byte is [c]. *)
Definition escape_codepoint (codepoint : Z) (c : ascii) : str :=
  if codepoint =? 0x08 then [backslash; "b"%char]
  else if codepoint =? 0x09 then [backslash; "t"%char]
  else if codepoint =? 0x0A then [backslash; "n"%char]
  else if codepoint =? 0x0C then [backslash; "f"%char]
  else if codepoint =? 0x0D then [backslash; "r"%char]
  else if codepoint =? 0x22 then backslash :: dquote
  else if codepoint =? 0x5C then [backslash; backslash]
  else if codepoint <=? 0x1F then backslash :: "u"%char :: hex4 codepoint
  else [c].

(** The loop of [dump_escaped]: position [i], automaton state, code point, the
    last byte read (for the incomplete-string message) and the output. *)
Fixpoint dump_escaped_loop (s : str) (i : Z) (state codep : Z) (last : ascii) (out : str)
    : result str :=
  match s with
  | [] =>
      if state =? UTF8_ACCEPT then Ok out
      else type_error 316 («"incomplete UTF-8 string; last byte: 0x"» ++ hex_bytes last)
  | c :: s' =>
      let '(state, codep) := decode state codep c in
      if state =? UTF8_ACCEPT then
        dump_escaped_loop s' (i + 1) state codep c (out ++ escape_codepoint codep c)
      else if state =? UTF8_REJECT then
        type_error 316 («"invalid UTF-8 byte at index "» ++ to_string i ++ «": 0x"» ++ hex_bytes c)
      else dump_escaped_loop s' (i + 1) state codep c (out ++ [c])
  end.

Definition dump_escaped (s : str) : result str :=
  dump_escaped_loop s 0 UTF8_ACCEPT 0 "000"%char [].

Definition dump_string (s : str) : result str :=
  e <-- dump_escaped s ;; Ok (dquote ++ e ++ dquote).

(** ** [dump()], compact form *)

Section Dump.
Context (float_text : double -> str).

Fixpoint dump (j : json) : result str :=
  match j with
  | JNull => Ok «"null"»
  | JBool b => Ok (if b then «"true"» else «"false"»)
  | JInt z | JUint z => Ok (to_string z)
  | JFloat d => Ok (if isfinite d then float_text d else «"null"»)
  | JStr s => dump_string s
  | JArr l =>
      let fix elements (l : list json) : result str :=
        match l with
        | [] => Ok []
        | [x] => dump x
        | x :: l' => a <-- dump x ;; b <-- elements l' ;; Ok (a ++ «","» ++ b)
        end in
      body <-- elements l ;; Ok («"["» ++ body ++ «"]"»)
  | JObj m =>
      let fix members (m : list (str * json)) : result str :=
        match m with
        | [] => Ok []
        | [(k, v)] => a <-- dump_string k ;; b <-- dump v ;; Ok (a ++ «":"» ++ b)
        | (k, v) :: m' =>
            a <-- dump_string k ;; b <-- dump v ;; c <-- members m' ;;
            Ok (a ++ «":"» ++ b ++ «","» ++ c)
        end in
      body <-- members m ;; Ok («"{"» ++ body ++ «"}"»)
  end.
End Dump.

(** ** json_helper.h *)

Definition SerializeSpeakerRoles (float_text : double -> str) (roles : list SpeakerRole)
    : result str :=
  dump float_text (JArr ((fun role =>
    jset «"AudioUrl"» (JStr (audio_url role))
      (jset «"RoleName"» (JStr (role_name role)) JNull)) <$> roles)).

Definition SerializeStringArray (float_text : double -> str) (values : list str) : result str :=
  dump float_text (JArr (JStr <$> values)).

Definition StringFieldOrEmpty (obj : json) (key : str) : str :=
  match jfind key obj with
  | Some (JStr s) => s
  | _ => []
  end.

(** ** Reading a JSON string literal

    [read_literal] is the reference reader: up to the closing quote, with the
    escapes of RFC 8259 for code points below 0x80; a raw control character is
    an error. *)

Definition hex_value (c : ascii) : option Z :=
  let z := u8 c in
  if (48 <=? z) && (z <=? 57) then Some (z - 48)
  else if (97 <=? z) && (z <=? 102) then Some (z - 87)
  else if (65 <=? z) && (z <=? 70) then Some (z - 55)
  else None.

Definition read_hex4 (a b c d : ascii) : option ascii :=
  w ← hex_value a; x ← hex_value b; y ← hex_value c; z ← hex_value d;
  let n := w * 4096 + x * 256 + y * 16 + z in
  if n <? 128 then Some (byte_of n) else None.

Fixpoint read_literal (s : str) : option (str * str) :=
  match s with
  | [] => None
  | c :: s' =>
      if u8 c =? 0x22 then Some ([], s')
      else if u8 c <? 0x20 then None
      else if negb (char_eqb c backslash) then
        '(r, rest) ← read_literal s'; Some (c :: r, rest)
      else
        match s' with
        | "n"%char :: s'' => '(r, rest) ← read_literal s''; Some ("010"%char :: r, rest)
        | "b"%char :: s'' => '(r, rest) ← read_literal s''; Some ("008"%char :: r, rest)
        | "f"%char :: s'' => '(r, rest) ← read_literal s''; Some ("012"%char :: r, rest)
        | "r"%char :: s'' => '(r, rest) ← read_literal s''; Some ("013"%char :: r, rest)
        | "t"%char :: s'' => '(r, rest) ← read_literal s''; Some ("009"%char :: r, rest)
        | "u"%char :: a :: b :: c :: d :: s'' =>
            x ← read_hex4 a b c d; '(r, rest) ← read_literal s''; Some (x :: r, rest)
        | e :: s'' =>
            if (u8 e =? 0x22) || char_eqb e backslash || char_eqb e "/"
            then '(r, rest) ← read_literal s''; Some (e :: r, rest)
            else None
        | [] => None
        end
  end.

(** ** The string serializer against RFC 3629 and RFC 8259

    Well-formed UTF-8 as RFC 3629 states it: the ranges of the continuation
    bytes that each lead byte calls for. *)

Definition tail : Z * Z := (0x80, 0xBF).

Definition utf8_tails (c : ascii) : option (list (Z * Z)) :=
  let z := u8 c in
  if z <? 0x80 then Some []
  else if z <? 0xC2 then None
  else if z <=? 0xDF then Some [tail]
  else if z =? 0xE0 then Some [(0xA0, 0xBF); tail]
  else if z =? 0xED then Some [(0x80, 0x9F); tail]
  else if z <=? 0xEF then Some [tail; tail]
  else if z =? 0xF0 then Some [(0x90, 0xBF); tail; tail]
  else if z <=? 0xF3 then Some [tail; tail; tail]
  else if z =? 0xF4 then Some [(0x80, 0x8F); tail; tail]
  else None.

Fixpoint utf8_from (pending : list (Z * Z)) (s : str) : bool :=
  match s, pending with
  | [], [] => true
  | [], _ :: _ => false
  | c :: s', [] => match utf8_tails c with Some p => utf8_from p s' | None => false end
  | c :: s', (lo, hi) :: p => (lo <=? u8 c) && (u8 c <=? hi) && utf8_from p s'
  end.

Definition utf8_valid (s : str) : bool := utf8_from [] s.

(** What each state of the automaton is waiting for, and the least code point
    bits it can have read. *)
Definition state_pending (state : Z) : option (list (Z * Z)) :=
  match state with
  | 0 => Some []
  | 2 => Some [tail]
  | 3 => Some [tail; tail]
  | 4 => Some [(0xA0, 0xBF); tail]
  | 5 => Some [(0x80, 0x9F); tail]
  | 6 => Some [(0x90, 0xBF); tail; tail]
  | 7 => Some [tail; tail; tail]
  | 8 => Some [(0x80, 0x8F); tail; tail]
  | _ => None
  end.

Definition codep_range (state : Z) : Z * Z :=
  match state with
  | 2 => (2, 2 ^ 20)
  | 3 => (1, 2 ^ 14)
  | 4 => (0, 1)
  | 5 => (1, 2 ^ 14)
  | 6 => (0, 1)
  | 7 => (1, 2 ^ 8)
  | 8 => (1, 2 ^ 8)
  | _ => (0, 2 ^ 32)
  end.

Definition next_state (state : Z) (c : ascii) : Z :=
  nth (Z.to_nat (256 + state * 16 + nth (Z.to_nat (u8 c)) utf8d 0)) utf8d 0.

Definition next_pending (pending : list (Z * Z)) (c : ascii) : option (list (Z * Z)) :=
  match pending with
  | [] => utf8_tails c
  | (lo, hi) :: p => if (lo <=? u8 c) && (u8 c <=? hi) then Some p else None
  end.

(** The automaton's table follows the RFC's: checked on every state and byte. *)
Definition table_ok (state : Z) (c : ascii) : bool :=
  match state_pending state with
  | Some p =>
      match next_pending p c with
      | Some q =>
          negb (next_state state c =? UTF8_REJECT) &&
          bool_decide (state_pending (next_state state c) = Some q)
      | None => next_state state c =? UTF8_REJECT
      end
  | None => true
  end.

Lemma table_checked : forallb (fun state => forallb (table_ok state) all_bytes)
  [0; 2; 3; 4; 5; 6; 7; 8] = true.
Proof. vm_compute. reflexivity. Qed.

Lemma state_cases state p : state_pending state = Some p -> In state [0; 2; 3; 4; 5; 6; 7; 8].
Proof.
  destruct state as [|q|]; [by left| |done]. intros H. simpl.
  do 4 (destruct q as [q|q|]; try discriminate H; auto 10).
Qed.

Lemma table_ok_all state c : table_ok state c = true.
Proof.
  unfold table_ok. destruct (state_pending state) as [p|] eqn:E; [|done].
  pose proof (proj1 (forallb_forall _ _) table_checked state (state_cases _ _ E)) as H.
  pose proof (byte_forall _ H c) as Hc. unfold table_ok in Hc. by rewrite E in Hc.
Qed.

Lemma table_step state c p :
  state_pending state = Some p ->
  match next_pending p c with
  | Some q => next_state state c <> UTF8_REJECT /\ state_pending (next_state state c) = Some q
  | None => next_state state c = UTF8_REJECT
  end.
Proof.
  intros E. pose proof (table_ok_all state c) as H. unfold table_ok in H. rewrite E in H.
  destruct (next_pending p c); [|lia]. apply andb_prop in H as [H1 H2].
  apply bool_decide_eq_true in H2. split; [lia|done].
Qed.

Lemma decode_next state codep c :
  decode state codep c =
  (next_state state c,
   if negb (state =? 0) then Z.lor (Z.land (u8 c) 0x3f) (wrap32 (Z.shiftl codep 6))
   else Z.land (Z.shiftr 0xFF (nth (Z.to_nat (u8 c)) utf8d 0)) (u8 c)).
Proof. reflexivity. Qed.

Definition in_codep (state codep : Z) : Prop :=
  (codep_range state).1 <= codep < (codep_range state).2.

Definition lead_ok (c : ascii) : bool :=
  let codep := Z.land (Z.shiftr 0xFF (nth (Z.to_nat (u8 c)) utf8d 0)) (u8 c) in
  let state := next_state 0 c in
  (state =? UTF8_REJECT) ||
  ((fst (codep_range state) <=? codep) && (codep <? snd (codep_range state)) &&
   (negb (state =? 0) || (codep =? u8 c))).

Lemma lead_ok_all c : lead_ok c = true.
Proof. by_bytes c. Qed.

Lemma shift_in codep c : 0 <= codep < 2 ^ 26 ->
  Z.lor (Z.land (u8 c) 0x3f) (wrap32 (Z.shiftl codep 6)) = codep * 64 + u8 c mod 64.
Proof.
  intros H. unfold wrap32. rewrite Z.mod_small by (rewrite Z.shiftl_mul_pow2; lia).
  rewrite Z.lor_comm. change 0x3f with (Z.ones 6). rewrite Z.land_ones by lia.
  rewrite lor_shiftl_add; [done|lia|apply Z.mod_pos_bound; lia].
Qed.

(** One step of the automaton on well-formed input: it is ready for the rest,
    and an accepted code point is the byte itself when it stands alone, and
    above ASCII otherwise. *)
Lemma decode_step state codep c p q :
  state_pending state = Some p -> in_codep state codep -> next_pending p c = Some q ->
  exists state' codep', decode state codep c = (state', codep') /\
    state' <> UTF8_REJECT /\ state_pending state' = Some q /\ in_codep state' codep' /\
    (state' = 0 -> codep' = u8 c \/ 0x80 <= codep' /\ 0x80 <= u8 c).
Proof.
  intros Hp Hc Hq. pose proof (table_step _ c _ Hp) as Ht. rewrite Hq in Ht.
  destruct Ht as [Hr Hs]. rewrite decode_next. do 2 eexists. split; [reflexivity|].
  split; [done|]. split; [done|]. pose proof (u8_range c).
  destruct (Z.eqb_spec state 0) as [->|Hn]; cbn [negb].
  - pose proof (lead_ok_all c) as Hl. unfold lead_ok in Hl. cbv zeta in Hl. unfold in_codep. lia.
  - pose proof (Z.mod_pos_bound (u8 c) 64 eq_refl).
    pose proof (state_cases _ _ Hp) as Hi. pose proof (state_cases _ _ Hs) as Hi'.
    generalize dependent (next_state state c). intros state' Hr Hs Hi'.
    unfold in_codep in *.
    assert (0 <= codep < 2 ^ 26) as Hb
      by (simpl in Hi; repeat destruct Hi as [<-|Hi]; simpl in *; lia || done).
    rewrite shift_in by done. simpl in Hi, Hi'.
    repeat destruct Hi as [<-|Hi]; try done; simpl in Hp, Hc; injection Hp as <-;
      simpl in Hq; case_match; try discriminate Hq; injection Hq as <-;
      repeat destruct Hi' as [<-|Hi']; try done; simpl; split; try lia;
      div_lia.
Qed.

(** What is written for one byte of a well-formed string. *)
Definition escape_byte (c : ascii) : str :=
  if u8 c <? 0x80 then escape_codepoint (u8 c) c else [c].

Lemma escape_codepoint_high codep c :
  0x80 <= codep -> 0x80 <= u8 c -> escape_codepoint codep c = escape_byte c.
Proof.
  intros H Hc. unfold escape_codepoint, escape_byte.
  repeat (rewrite (proj2 (Z.eqb_neq codep _)) by lia).
  rewrite (proj2 (Z.leb_gt codep _)) by lia. by rewrite (proj2 (Z.ltb_ge (u8 c) _)) by lia.
Qed.

Lemma escape_codepoint_byte c : escape_codepoint (u8 c) c = escape_byte c.
Proof.
  unfold escape_byte. destruct (Z.ltb_spec (u8 c) 0x80); [done|].
  rewrite escape_codepoint_high by done. unfold escape_byte.
  by rewrite (proj2 (Z.ltb_ge (u8 c) _)) by lia.
Qed.

Lemma pending_high state p c q :
  state_pending state = Some p -> next_pending p c = Some q -> q <> [] \/ p <> [] -> 0x80 <= u8 c.
Proof.
  intros Hp Hq Hne. pose proof (state_cases _ _ Hp) as Hi. simpl in Hi.
  repeat destruct Hi as [<-|Hi]; try done; simpl in Hp; injection Hp as <-; simpl in Hq;
    [unfold utf8_tails in Hq; destruct (Z.ltb_spec (u8 c) 0x80); [|lia];
       injection Hq as <-; by destruct Hne|..];
    case_match; try discriminate; lia.
Qed.

Lemma utf8_from_step p c s :
  utf8_from p (c :: s) = match next_pending p c with Some q => utf8_from q s | None => false end.
Proof. destruct p as [|[lo hi] p]; [done|]. simpl. by destruct ((lo <=? u8 c) && (u8 c <=? hi)). Qed.

Lemma dump_escaped_loop_spec s i state codep last out p :
  state_pending state = Some p -> in_codep state codep ->
  if utf8_from p s then
    dump_escaped_loop s i state codep last out = Ok (out ++ (s ≫= escape_byte))
  else exists what, dump_escaped_loop s i state codep last out = type_error 316 what.
Proof.
  revert i state codep last out p. induction s as [|c s IH]; intros i state codep last out p Hp Hc.
  - pose proof (state_cases _ _ Hp) as Hi. simpl in Hi.
    repeat destruct Hi as [<-|Hi]; try done; injection Hp as <-; cbn; try (by eexists).
    by rewrite app_nil_r.
  - rewrite utf8_from_step. cbn [dump_escaped_loop]. pose proof (table_step _ c _ Hp) as Ht.
    destruct (next_pending p c) as [q|] eqn:Hq.
    + destruct (decode_step _ _ _ _ _ Hp Hc Hq) as (st & cp & E & Hr & Hs & Hi & Hb). rewrite E.
      destruct (Z.eqb_spec st UTF8_ACCEPT) as [->|Hn].
      * assert (escape_codepoint cp c = escape_byte c) as ->.
        { destruct (Hb eq_refl) as [->|[? ?]];
            [apply escape_codepoint_byte|by apply escape_codepoint_high]. }
        specialize (IH (i + 1) UTF8_ACCEPT cp c (out ++ escape_byte c) q Hs Hi).
        by rewrite <- app_assoc in IH.
      * rewrite (proj2 (Z.eqb_neq st _)) by done.
        assert (0x80 <= u8 c) as Hh.
        { apply (pending_high state p c q Hp Hq). left. intros ->. apply Hn.
          pose proof (state_cases _ _ Hs) as Hx. simpl in Hx.
          repeat destruct Hx as [<-|Hx]; done. }
        specialize (IH (i + 1) st cp c (out ++ [c]) q Hs Hi).
        assert (escape_byte c = [c]) as Eb
          by (unfold escape_byte; by rewrite (proj2 (Z.ltb_ge (u8 c) _)) by lia).
        rewrite <- app_assoc in IH. by rewrite bind_cons, Eb.
    + rewrite decode_next, Ht. by eexists.
Qed.

Lemma dump_escaped_spec s :
  if utf8_valid s then dump_escaped s = Ok (s ≫= escape_byte)
  else exists what, dump_escaped s = type_error 316 what.
Proof. apply (dump_escaped_loop_spec s 0 UTF8_ACCEPT 0 "000"%char [] []); [done|]. by split. Qed.

Lemma read_escape_byte c t :
  read_literal (escape_byte c ++ t) = '(r, rest) ← read_literal t; Some (c :: r, rest).
Proof. destruct c as [[] [] [] [] [] [] [] []]; reflexivity. Qed.

Lemma read_escaped s rest :
  read_literal ((s ≫= escape_byte) ++ dquote ++ rest) = Some (s, rest).
Proof.
  induction s as [|c s IH]; [reflexivity|].
  rewrite bind_cons, <- app_assoc, read_escape_byte, IH. reflexivity.
Qed.

(** The serializer writes a string exactly when it is well-formed UTF-8 by
    RFC 3629, and then as a literal from which a JSON reader recovers it; any
    other string makes it throw type_error 316. *)
Theorem dump_string_correct s :
  if utf8_valid s then
    exists lit, dump_string s = Ok (dquote ++ lit ++ dquote) /\
      forall rest, read_literal (lit ++ dquote ++ rest) = Some (s, rest)
  else exists what, dump_string s = type_error 316 what.
Proof.
  pose proof (dump_escaped_spec s) as H. unfold dump_string.
  destruct (utf8_valid s).
  - rewrite H. eexists. split; [reflexivity|]. apply read_escaped.
  - destruct H as [what ->]. by exists what.
Qed.
