(* ===== verification/JsonRead.v ===== *)
(** * Typed reads of JSON documents, and the objects requests are made of

    The reads [j.value(key, default)] at the types the SDK uses, the loops over
    arrays, the translation of a reader's exceptions, and the ranges of the
    integers read.  Then the other direction: an object as a sequence of
    conditional assignments, what a reader finds in it, and the reads that
    undo it. *)

From S2P Require Import Prelude StdMap Double Json.

Open Scope Z_scope.

(** ** Reading *)

(** [for (const auto& x : l) out.push_back(f(x))], stopping at the first
    exception. *)
Fixpoint parse_all {A} (f : json -> result A) (l : list json) : result (list A) :=
  match l with
  | [] => Ok []
  | x :: l' => a <-- f x ;; rest <-- parse_all f l' ;; Ok (a :: rest)
  end.

Section Read.
Context (cast : Z -> double -> Z).


Definition value_int := value (get_int cast).
Definition value_int64 := value (get_int64 cast).
Definition value_string := value get_string.


(** [double] is [number_float_t]: a boolean is refused. *)
Definition get_double (j : json) : result double :=
  match j with
  | JInt z | JUint z => Ok (of_int z)
  | JFloat d => Ok d
  | _ => type_error 302 («"type must be number, but is "» ++ type_name j)
  end.

Definition value_double := value get_double.
End Read.

(** [if (r.contains(key) && r[key].is_array()) for (...) ...] *)
Definition optional_list {A} (f : json -> result A) (key : str) (j : json)
    : result (list A) :=
  match jfind key j with
  | Some (JArr l) => parse_all f l
  | _ => Ok []
  end.

Definition unmarshal_failed {A} (e : exn) : result A :=
  throw_asr kErrReadFailed («"unmarshal response failed: "» ++ what e).

(** [if (o.has_value())] fields: the value under [key], if any. *)
Definition read_opt {A} (get : json -> result A) (key : str) (j : json) : result (option A) :=
  match jfind key j with Some v => a <-- get v ;; Ok (Some a) | None => Ok None end.

(** ** Integer types *)

Definition int32 : Z -> Prop := in_signed 32.
Definition int64 : Z -> Prop := in_signed 64.

Definition json_object (entries : list (str * json)) : json := JObj (map_set_all entries []).

(** ** Objects as sequences of assignments

    [j["K"] = v] and [if (b) j["K"] = v], on a [json j] that starts out null:
    the statements are their keys and optional values. *)
Definition assign (l : list (str * option json)) (j : json) : json :=
  foldl (fun j kv => if kv.2 is Some v then jset kv.1 v j else j) j l.

(** [if (!s.empty())], [if (n != 0)] and [if (o.has_value())] before an
    assignment. *)
Definition str_field (k s : str) : str * option json := (k, when (negb (is_empty s)) (JStr s)).
Definition int_field (k : str) (z : Z) : str * option json := (k, when (negb (z =? 0)) (JInt z)).
Definition opt_field (k : str) (o : option Z) : str * option json := (k, JInt <$> o).
(** An array, sent only if it has elements. *)
Definition list_field {A} (k : str) (f : A -> json) (l : list A) : str * option json :=
  (k, when (negb (is_empty l)) (JArr (f <$> l))).
Definition strs_field (k : str) (l : list str) : str * option json := list_field k JStr l.

(** ** Lemmas *)

Lemma parse_all_map {A} (f : json -> result A) (enc : A -> json) (P : A -> Prop) l :
  (forall a, P a -> f (enc a) = Ok a) -> Forall P l -> parse_all f (enc <$> l) = Ok l.
Proof.
  intros Hf. induction 1 as [|a l Ha Hl IH]; [done|].
  rewrite fmap_cons. cbn [parse_all]. rewrite Hf by done. cbn [rbind]. by rewrite IH.
Qed.

(** The keys are concrete: the reads evaluate, up to the integer casts. *)
Ltac read_fields := simpl; rewrite ?signed_id by done.

Definition field_is_object (key : str) (j : json) : bool :=
  match jfind key j with Some v => is_object v | None => false end.

(** What a reader finds in an object built by assignments. *)

Lemma assign_object l m : assign l (JObj m) = JObj (set_entries l m).
Proof. revert m; induction l as [|[k [v|]] l IH]; intros m; simpl; [done|apply IH..]. Qed.

Lemma assign_null k v l :
  assign ((k, Some v) :: l) JNull = JObj (set_entries ((k, Some v) :: l) []).
Proof. apply (assign_object l [(k, v)]). Qed.

Lemma jfind_assign k v l key :
  NoDup ((k, Some v) :: l).*1 ->
  jfind key (assign ((k, Some v) :: l) JNull) = entry ((k, Some v) :: l) key.
Proof. intros H. rewrite assign_null. by apply set_entries_entry. Qed.

Lemma value_assign {A} (get : json -> result A) key d k v l :
  NoDup ((k, Some v) :: l).*1 ->
  value get key d (assign ((k, Some v) :: l) JNull) =
    match entry ((k, Some v) :: l) key with Some v => get v | None => Ok d end.
Proof.
  intros H. unfold value. rewrite jfind_assign by done. by rewrite assign_null.
Qed.

Lemma assign_wf k v l :
  exists m, assign ((k, Some v) :: l) JNull = JObj m /\ map_wf m.
Proof.
  eexists. split; [apply assign_null|]. apply set_entries_wf, map_wf_nil.
Qed.

(** A read does not see an assignment to another key. *)
Lemma jfind_skip k v key m :
  map_wf m -> bool_decide (k = key) = false -> jfind key (jset k v (JObj m)) = jfind key (JObj m).
Proof. intros Hm Hk%bool_decide_eq_false. by apply map_find_set_ne. Qed.

Lemma value_skip {A} (get : json -> result A) k v key d m :
  map_wf m -> bool_decide (k = key) = false ->
  value get key d (jset k v (JObj m)) = value get key d (JObj m).
Proof. intros Hm Hk. unfold value. by rewrite jfind_skip. Qed.

Lemma assign_app a b j : assign (a ++ b) j = assign b (assign a j).
Proof. apply foldl_app. Qed.

Lemma assign_cong l l' j j' :
  (forall j, assign l j = assign l' j) -> j = j' -> assign l j = assign l' j'.
Proof. intros Hl ->. apply Hl. Qed.

(** Runs of statements under conditions are runs of conditional ones: segment
    by segment, by the truth of the condition. *)
Ltac split_conditions :=
  unfold int_field, str_field, list_field;
  repeat match goal with
  | |- context [Z.eqb ?a ?b] => destruct (Z.eqb a b)
  | |- context [is_empty ?l] => destruct (is_empty l)
  end.
Ltac flatten_assign :=
  rewrite !assign_app;
  repeat (apply assign_cong; [intros ?; first [reflexivity | split_conditions; reflexivity]|]);
  reflexivity.

(** The default of a read is the value the assignment left out. *)

Lemma read_str_field s :
  match when (negb (is_empty s)) (JStr s) with Some v => get_string v | None => Ok [] end = Ok s.
Proof. by destruct s. Qed.

Lemma read_int_field cast z : int32 z ->
  match when (negb (z =? 0)) (JInt z) with Some v => get_int cast v | None => Ok 0 end = Ok z.
Proof. intros H. destruct (Z.eqb_spec z 0) as [->|]; [done|]. simpl. by rewrite signed_id. Qed.

Lemma read_when_str b s :
  match when b (JStr s) with Some v => get_string v | None => Ok [] end =
  Ok (if b then s else []).
Proof. by destruct b. Qed.

Lemma read_when_int cast b z : int32 z ->
  match when b (JInt z) with Some v => get_int cast v | None => Ok 0 end =
  Ok (if b then z else 0).
Proof. intros H. destruct b; [|done]. simpl. by rewrite signed_id. Qed.

Lemma read_when_int64 cast b z : int64 z ->
  match when b (JInt z) with Some v => get_int64 cast v | None => Ok 0 end =
  Ok (if b then z else 0).
Proof. intros H. destruct b; [|done]. simpl. by rewrite signed_id. Qed.

Lemma read_opt_field cast o : (forall v, o = Some v -> int32 v) ->
  match JInt <$> o with Some v => a <-- get_int cast v ;; Ok (Some a) | None => Ok None end = Ok o.
Proof. destruct o as [v|]; [|done]. intros H. simpl. by rewrite signed_id by (done || by apply H). Qed.

Lemma read_when_arr {A} (f : json -> result A) (enc : A -> json) b l :
  parse_all f (enc <$> l) = Ok l ->
  match when b (JArr (enc <$> l)) with Some (JArr l) => parse_all f l | _ => Ok [] end =
  Ok (if b then l else []).
Proof. intros H. by destruct b. Qed.

Lemma read_list_field {A} (f : json -> result A) (enc : A -> json) l l' :
  parse_all f (enc <$> l) = Ok l' ->
  match when (negb (is_empty l)) (JArr (enc <$> l)) with
  | Some (JArr l) => parse_all f l | _ => Ok [] end = Ok l'.
Proof. intros H. destruct l; [by injection H as <-|done]. Qed.

Lemma parse_strs l : parse_all get_string (JStr <$> l) = Ok l.
Proof. apply (parse_all_map _ _ (fun _ => True)); [done|by apply Forall_forall]. Qed.

Lemma read_int64_field cast z : int64 z ->
  match when (negb (z =? 0)) (JInt z) with Some v => get_int64 cast v | None => Ok 0 end = Ok z.
Proof. intros H. destruct (Z.eqb_spec z 0) as [->|]; [done|]. simpl. by rewrite signed_id. Qed.

(** A distinct-keys side condition, by evaluation. *)
Ltac distinct_keys := apply (bool_decide_unpack _); vm_compute; exact I.

Section Ranges.
Context (cast : Z -> double -> Z).

Definition cast_ok : Prop := forall w d, 0 < w -> in_signed w (cast w d).

Lemma double_to_int_range w d : 0 < w -> cast_ok -> in_signed w (double_to_int cast w d).
Proof.
  intros Hw Hc. unfold double_to_int. destruct (truncate d) as [z|]; [|by apply Hc].
  destruct (Z.leb_spec (- 2 ^ (w - 1)) z), (Z.ltb_spec z (2 ^ (w - 1))); simpl;
    ((by apply Hc) || (unfold in_signed; lia)).
Qed.

Lemma get_int_range j z : cast_ok -> get_int cast j = Ok z -> int32 z.
Proof.
  intros Hc. destruct j as [|b| | | | | |]; try discriminate; simpl; intros [= <-];
    try (by apply signed_range); [by destruct b|by apply double_to_int_range].
Qed.

Lemma get_int64_range j z : cast_ok -> get_int64 cast j = Ok z -> int64 z.
Proof.
  intros Hc. destruct j; try discriminate; simpl; intros [= <-];
    try (by apply signed_range). by apply double_to_int_range.
Qed.

Lemma value_range {A} (get : json -> result A) (P : A -> Prop) key d j a :
  (forall v a, get v = Ok a -> P a) -> P d -> value get key d j = Ok a -> P a.
Proof.
  intros Hg Hd. unfold value. destruct (is_object j); [|done].
  destruct (jfind key j); [apply Hg|by intros [= <-]].
Qed.

Lemma value_int_range key j z : cast_ok -> value_int cast key 0 j = Ok z -> int32 z.
Proof. intros Hc. apply value_range; [intros v a; by apply get_int_range|done]. Qed.

Lemma value_int64_range key j z : cast_ok -> value_int64 cast key 0 j = Ok z -> int64 z.
Proof. intros Hc. apply value_range; [intros v a; by apply get_int64_range|done]. Qed.

Lemma parse_all_Forall {A} (f : json -> result A) (P : A -> Prop) l out :
  (forall j a, f j = Ok a -> P a) -> parse_all f l = Ok out -> Forall P out.
Proof.
  intros Hf. revert out. induction l as [|x l IH]; intros out; simpl.
  - by intros [= <-].
  - intros H. inv_ok. subst. constructor; eauto.
Qed.

Lemma optional_list_Forall {A} (f : json -> result A) (P : A -> Prop) key j out :
  (forall j a, f j = Ok a -> P a) -> optional_list f key j = Ok out -> Forall P out.
Proof.
  intros Hf. unfold optional_list. destruct (jfind key j) as [[]|]; try by intros [= <-].
  by apply parse_all_Forall.
Qed.

End Ranges.

Create HintDb range.
#[export] Hint Resolve value_int_range value_int64_range : range.

(** ** Exceptions of the readers

    A reader made of typed reads throws only exceptions of the JSON library. *)

Class JsonThrows {A} (get : json -> result A) : Prop :=
  json_throws j e : get j = Throw e -> exists w, e = StdExn w.

Lemma rbind_throws {A B} (m : result A) (k : A -> result B) e :
  (m = Throw e -> exists w, e = StdExn w) ->
  (forall a, k a = Throw e -> exists w, e = StdExn w) ->
  rbind m k = Throw e -> exists w, e = StdExn w.
Proof. destruct m as [a|e']; simpl; intros Hm Hk E; [by apply (Hk a)|apply Hm; congruence]. Qed.

Lemma type_error_throws {A} id w e : type_error (A := A) id w = Throw e -> exists w, e = StdExn w.
Proof. intros [= <-]. by eexists. Qed.

Ltac json_type_errors :=
  intros [ | | | | | | |]; cbn; intros ?; first [discriminate | apply type_error_throws].
#[export] Instance get_string_throws : JsonThrows get_string.
Proof. json_type_errors. Qed.
#[export] Instance get_int_throws cast : JsonThrows (get_int cast).
Proof. json_type_errors. Qed.
#[export] Instance get_int64_throws cast : JsonThrows (get_int64 cast).
Proof. json_type_errors. Qed.
#[export] Instance get_double_throws : JsonThrows get_double.
Proof. json_type_errors. Qed.

#[export] Instance value_throws {A} (get : json -> result A) key d :
  JsonThrows get -> JsonThrows (value get key d).
Proof.
  intros Hg j e. unfold value. destruct (is_object j); [|apply type_error_throws].
  destruct (jfind key j); [apply Hg|done].
Qed.

Lemma parse_all_throws {A} (f : json -> result A) l e :
  JsonThrows f -> parse_all f l = Throw e -> exists w, e = StdExn w.
Proof.
  intros Hf. induction l as [|j l IH]; [done|]. cbn [parse_all].
  apply rbind_throws; [apply Hf|intros a]. apply rbind_throws; [exact IH|done].
Qed.

#[export] Instance optional_list_throws {A} (f : json -> result A) key :
  JsonThrows f -> JsonThrows (optional_list f key).
Proof.
  intros Hf j e. unfold optional_list. repeat case_match; try done. by apply parse_all_throws.
Qed.

Ltac json_reads_throw :=
  intros ? ?; repeat first
    [ discriminate | apply json_throws | apply rbind_throws; [apply json_throws|intros ?] ].
