(* ===== verification/JsonText.v ===== *)
(** * JSON texts (third_party/nlohmann/json.hpp: lexer and parser)

    [json::parse] of the vendored library: its lexer (white space, literals,
    strings with their escapes and UTF-8 ranges, numbers with their overflow
    into doubles) and its parser, whose stack of open arrays and objects is
    recursion here.  The text of a parse error, with its line, column and last
    token, is the parameter [parse_error].  The theorem: what [dump] writes,
    [json::parse] reads back. *)

From S2P Require Import Prelude StdMap Decimal Double Json JsonRead.

Open Scope Z_scope.

(** ** Numbers *)

(** [std::strtod] of a scanned number, correctly rounded: the quotient is taken
    to 59 bits or more with a sticky bit, then rounded once.  Beyond [10^400]
    and below [10^-400] the result is an infinity and a zero. *)
Definition round_ratio (neg : bool) (num den : Z) : double :=
  let k := 60 + Z.log2 den - Z.log2 num in
  let n := if 0 <=? k then num * 2 ^ k else num in
  let d := if 0 <=? k then den else den * 2 ^ (- k) in
  let m := 2 * (n / d) + (if n mod d =? 0 then 0 else 1) in
  binary_normalize 53 1024 (if neg then - m else m) (- k - 1) neg.

Definition strtod (neg : bool) (digits : str) (e : Z) : double :=
  let n := digits_value digits 0 in
  let magnitude := Z.of_nat (length digits) + e in
  if n =? 0 then S754_zero neg
  else if 400 <? magnitude then S754_infinity neg
  else if magnitude <? -400 then S754_zero neg
  else round_ratio neg (n * (if 0 <=? e then 10 ^ e else 1)) (if 0 <=? e then 1 else 10 ^ (- e)).

(** The digits before the point: [0], or a run that does not begin with [0]. *)
Definition scan_int (s : str) : option (str * str) :=
  match s with
  | c :: s' =>
      if char_eqb c "0" then Some ([c], s')
      else if is_digit c then Some (span_digits s) else None
  | [] => None
  end.

(** A non-empty run of digits. *)
Definition scan_digits (s : str) : option (str * str) :=
  let '(d, r) := span_digits s in if is_empty d then None else Some (d, r).

Definition scan_frac (s : str) : option (option str * str) :=
  match s with
  | "."%char :: s' => '(d, r) ← scan_digits s'; Some (Some d, r)
  | _ => Some (None, s)
  end.

Definition scan_sign (s : str) : Z * str :=
  match s with
  | "+"%char :: r => (1, r)
  | "-"%char :: r => (-1, r)
  | _ => (1, s)
  end.

Definition scan_exp (s : str) : option (option Z * str) :=
  match s with
  | c :: s' =>
      if char_eqb c "e" || char_eqb c "E" then
        let '(sign, s') := scan_sign s' in
        '(d, r) ← scan_digits s'; Some (Some (sign * digits_value d 0), r)
      else Some (None, s)
  | [] => Some (None, [])
  end.

Definition finite_number (d : double) : option json :=
  if isfinite d then Some (JFloat d) else None.

(** An integer that fits its type, or else a double. *)
Definition int_number (neg : bool) (d : str) : option json :=
  let v := digits_value d 0 in
  if neg then if v <=? 2 ^ 63 then Some (JInt (- v)) else finite_number (strtod true d 0)
  else if v <? 2 ^ 64 then Some (JUint v) else finite_number (strtod false d 0).

Definition scan_minus (s : str) : bool * str :=
  match s with "-"%char :: s' => (true, s') | _ => (false, s) end.

Definition scan_number (s : str) : option (json * str) :=
  let '(neg, s) := scan_minus s in
  '(d, s) ← scan_int s;
  '(frac, s) ← scan_frac s;
  '(e, s) ← scan_exp s;
  j ← match frac, e with
      | None, None => int_number neg d
      | _, _ =>
          let f := default [] frac in
          finite_number (strtod neg (d ++ f) (default 0 e - Z.of_nat (length f)))
      end;
  Some (j, s).

(** ** Strings *)

Definition get_codepoint (s : str) : option (Z * str) :=
  match s with
  | a :: b :: c :: d :: s' =>
      w ← hex_value a; x ← hex_value b; y ← hex_value c; z ← hex_value d;
      Some (w * 4096 + x * 256 + y * 16 + z, s')
  | _ => None
  end.

(** The bytes of a code point. *)
Definition encode_codepoint (cp : Z) : str :=
  if cp <? 0x80 then [byte_of cp]
  else if cp <=? 0x7FF then
    [byte_of (Z.lor 0xC0 (Z.shiftr cp 6)); byte_of (Z.lor 0x80 (Z.land cp 0x3F))]
  else if cp <=? 0xFFFF then
    [byte_of (Z.lor 0xE0 (Z.shiftr cp 12)); byte_of (Z.lor 0x80 (Z.land (Z.shiftr cp 6) 0x3F));
     byte_of (Z.lor 0x80 (Z.land cp 0x3F))]
  else
    [byte_of (Z.lor 0xF0 (Z.shiftr cp 18)); byte_of (Z.lor 0x80 (Z.land (Z.shiftr cp 12) 0x3F));
     byte_of (Z.lor 0x80 (Z.land (Z.shiftr cp 6) 0x3F)); byte_of (Z.lor 0x80 (Z.land cp 0x3F))].

(** After [\u]: one code point, or the two halves of a surrogate pair. *)
Definition scan_unicode (s : str) : option (str * str) :=
  '(cp1, s) ← get_codepoint s;
  if (0xD800 <=? cp1) && (cp1 <=? 0xDBFF) then
    match s with
    | b :: u :: s =>
        if char_eqb b backslash && char_eqb u "u" then
          '(cp2, s) ← get_codepoint s;
          if (0xDC00 <=? cp2) && (cp2 <=? 0xDFFF)
          then Some (encode_codepoint (Z.shiftl cp1 10 + cp2 - 0x35FDC00), s)
          else None
        else None
    | _ => None
    end
  else if (0xDC00 <=? cp1) && (cp1 <=? 0xDFFF) then None
  else Some (encode_codepoint cp1, s).

(** The character an escape letter stands for. *)
Definition simple_escape (c : ascii) : option ascii :=
  if (u8 c =? 0x22) || char_eqb c backslash || char_eqb c "/" then Some c
  else if char_eqb c "b" then Some "008"%char
  else if char_eqb c "f" then Some "012"%char
  else if char_eqb c "n" then Some "010"%char
  else if char_eqb c "r" then Some "013"%char
  else if char_eqb c "t" then Some "009"%char
  else None.

(** After the opening quote.  [pending] are the ranges the next bytes of a
    multi-byte character must lie in ([next_byte_in_range]). *)
Fixpoint scan_string (fuel : nat) (pending : list (Z * Z)) (s : str) : option (str * str) :=
  match fuel, s, pending with
  | S fuel, c :: s, (lo, hi) :: pending =>
      if (lo <=? u8 c) && (u8 c <=? hi)
      then '(r, rest) ← scan_string fuel pending s; Some (c :: r, rest) else None
  | S fuel, c :: s, [] =>
      if u8 c =? 0x22 then Some ([], s)
      else if char_eqb c backslash then
        match s with
        | e :: s =>
            if char_eqb e "u" then
              '(x, s) ← scan_unicode s;
              '(r, rest) ← scan_string fuel [] s; Some (x ++ r, rest)
            else
              x ← simple_escape e;
              '(r, rest) ← scan_string fuel [] s; Some (x :: r, rest)
        | [] => None
        end
      else if u8 c <? 0x20 then None
      else
        p ← utf8_tails c;
        '(r, rest) ← scan_string fuel p s; Some (c :: r, rest)
  | _, _, _ => None
  end.

(** ** Values *)

Definition is_ws (c : ascii) : bool :=
  char_eqb c " " || char_eqb c "009" || char_eqb c "010" || char_eqb c "013".

Fixpoint skip_whitespace (s : str) : str :=
  match s with
  | c :: s' => if is_ws c then skip_whitespace s' else s
  | [] => []
  end.

Definition scan_literal (literal : str) (j : json) (s : str) : option (json * str) :=
  if starts_with literal s then Some (j, drop (length literal) s) else None.

(** One structural character. *)
Definition eat (c : ascii) (s : str) : option str :=
  match s with
  | d :: s' => if char_eqb d c then Some s' else None
  | [] => None
  end.

(** The parser.  Every call consumes a character or ends, so a text's length
    bounds the fuel. *)
Fixpoint parse_value (fuel : nat) (s : str) : option (json * str) :=
  match fuel with
  | O => None
  | S fuel =>
      match skip_whitespace s with
      | [] => None
      | c :: s =>
          if char_eqb c "{" then
            match eat "}" (skip_whitespace s) with
            | Some s => Some (JObj [], s)
            | None => parse_members fuel [] s
            end
          else if char_eqb c "[" then
            match eat "]" (skip_whitespace s) with
            | Some s => Some (JArr [], s)
            | None => parse_elements fuel [] s
            end
          else if u8 c =? 0x22 then '(r, rest) ← scan_string fuel [] s; Some (JStr r, rest)
          else if char_eqb c "t" then scan_literal «"rue"» (JBool true) s
          else if char_eqb c "f" then scan_literal «"alse"» (JBool false) s
          else if char_eqb c "n" then scan_literal «"ull"» JNull s
          else if is_digit c || char_eqb c "-" then scan_number (c :: s)
          else None
      end
  end
with parse_elements (fuel : nat) (acc : list json) (s : str) : option (json * str) :=
  match fuel with
  | O => None
  | S fuel =>
      '(v, s) ← parse_value fuel s;
      let s := skip_whitespace s in
      match eat "," s with
      | Some s => parse_elements fuel (acc ++ [v]) s
      | None => s ← eat "]" s; Some (JArr (acc ++ [v]), s)
      end
  end
with parse_members (fuel : nat) (acc : list (str * json)) (s : str) : option (json * str) :=
  match fuel with
  | O => None
  | S fuel =>
      match skip_whitespace s with
      | [] => None
      | c :: s =>
          if u8 c =? 0x22 then
            '(k, s) ← scan_string fuel [] s;
            s ← eat ":" (skip_whitespace s);
            '(v, s) ← parse_value fuel s;
            let s := skip_whitespace s in
            match eat "," s with
            | Some s => parse_members fuel (map_set k v acc) s
            | None => s ← eat "}" s; Some (JObj (map_set k v acc), s)
            end
          else None
      end
  end.

(** [skip_bom()] *)
Definition skip_bom (s : str) : option str :=
  match s with
  | a :: s' =>
      if u8 a =? 0xEF then
        match s' with
        | b :: c :: s'' => if (u8 b =? 0xBB) && (u8 c =? 0xBF) then Some s'' else None
        | _ => None
        end
      else Some s
  | [] => Some []
  end.

(** The end of the input, or a NUL, after the value. *)
Definition end_of_input (s : str) : bool :=
  match skip_whitespace s with c :: _ => u8 c =? 0 | [] => true end.

Definition read_json (s : str) : option json :=
  s ← skip_bom s;
  '(j, rest) ← parse_value (S (length s)) s;
  if end_of_input rest then Some j else None.

(** [json::parse(s)], whose error says where and why in [parse_error s]. *)
Definition json_parse (parse_error : str -> str) (s : str) : result json :=
  match read_json s with
  | Some j => Ok j
  | None => Throw (StdExn (parse_error s))
  end.

(** ** The fuel

    A scanner leaves a shorter text, and the characters it consumes bound the
    fuel it needs; so the length of a text is enough for whatever some fuel
    can read in it. *)

(** What [f] reads with [fuel], it reads with as much fuel as it consumes. *)
Definition within {A} (f : nat -> str -> option (A * str)) (fuel : nat) : Prop :=
  forall s a rest, f fuel s = Some (a, rest) ->
    (length rest < length s)%nat /\
    forall fuel', (length s <= fuel' + length rest)%nat -> f fuel' s = Some (a, rest).

Lemma skip_whitespace_length s : (length (skip_whitespace s) <= length s)%nat.
Proof. induction s as [|c s IH]; simpl; [done|]. destruct (is_ws c); simpl; lia. Qed.

Lemma span_digits_length s : (length (span_digits s).2 <= length s)%nat.
Proof.
  induction s as [|c s IH]; simpl; [done|]. destruct (is_digit c); simpl; [|lia].
  destruct (span_digits s); simpl in *; lia.
Qed.

Lemma scan_digits_length s d r : scan_digits s = Some (d, r) -> (length r <= length s)%nat.
Proof.
  unfold scan_digits. pose proof (span_digits_length s). destruct (span_digits s) as [d' r'].
  destruct (is_empty d'); intros [=]; by subst.
Qed.

Lemma scan_int_length s d r : scan_int s = Some (d, r) -> (length r < length s)%nat.
Proof.
  unfold scan_int. destruct s as [|c s]; [done|]. destruct (char_eqb c "0"); [intros [=]; subst; simpl; lia|].
  destruct (is_digit c) eqn:E; [|done]. pose proof (span_digits_length s). simpl. rewrite E.
  destruct (span_digits s); intros [=]; subst; simpl in *; lia.
Qed.

Lemma scan_frac_length s f r : scan_frac s = Some (f, r) -> (length r <= length s)%nat.
Proof.
  unfold scan_frac. repeat case_match; try (intros [=]; by subst).
  destruct (scan_digits _) as [[d r']|] eqn:E; [|done]. apply scan_digits_length in E.
  intros [=]. subst. simpl. lia.
Qed.

Lemma scan_sign_length s : (length (scan_sign s).2 <= length s)%nat.
Proof. unfold scan_sign. repeat case_match; simpl; lia. Qed.

Lemma scan_minus_length s : (length (scan_minus s).2 <= length s)%nat.
Proof. unfold scan_minus. repeat case_match; simpl; lia. Qed.

Lemma scan_exp_length s e r : scan_exp s = Some (e, r) -> (length r <= length s)%nat.
Proof.
  unfold scan_exp. destruct s as [|c s]; [intros [=]; by subst|].
  destruct (char_eqb c "e" || char_eqb c "E"); [|intros [=]; by subst].
  pose proof (scan_sign_length s) as Hp. destruct (scan_sign s) as [sign s']. simpl in *. destruct (scan_digits s') as [[d r']|] eqn:E; [|done].
  apply scan_digits_length in E. intros [=]. subst. lia.
Qed.

Lemma scan_number_length s j r : scan_number s = Some (j, r) -> (length r < length s)%nat.
Proof.
  unfold scan_number. pose proof (scan_minus_length s) as Hp.
  destruct (scan_minus s) as [neg s1]. simpl in *.
  intros ([d s2] & E1 & H)%bind_Some. apply bind_Some in H as ([f s3] & E2 & H).
  apply bind_Some in H as ([e s4] & E3 & H). apply bind_Some in H as (j' & _ & H).
  apply scan_int_length in E1. apply scan_frac_length in E2. apply scan_exp_length in E3.
  simplify_eq. lia.
Qed.

Lemma scan_literal_length literal j0 s j r :
  scan_literal literal j0 s = Some (j, r) -> (length r <= length s)%nat.
Proof.
  unfold scan_literal. destruct (starts_with literal s); [|done]. intros [=]. subst.
  rewrite length_drop. lia.
Qed.

Lemma get_codepoint_length s cp r : get_codepoint s = Some (cp, r) -> (length r < length s)%nat.
Proof.
  unfold get_codepoint. intros H. repeat case_match; try discriminate.
  repeat (apply bind_Some in H as (? & _ & H)). simplify_eq. simpl. lia.
Qed.

Lemma scan_unicode_length s x r : scan_unicode s = Some (x, r) -> (length r < length s)%nat.
Proof.
  unfold scan_unicode. destruct (get_codepoint s) as [[cp1 s1]|] eqn:E1; [|done]. simpl.
  apply get_codepoint_length in E1. case_match.
  - destruct s1 as [|b [|u s2]]; [done..|]. case_match; [|done].
    destruct (get_codepoint s2) as [[cp2 s3]|] eqn:E2; [|done]. simpl.
    apply get_codepoint_length in E2. case_match; [|done]. intros [=]. subst. simpl in *. lia.
  - case_match; [done|]. intros [=]. by subst.
Qed.

Lemma scan_string_within fuel pending : within (fun fuel => scan_string fuel pending) fuel.
Proof.
  revert pending. induction fuel as [|fuel IH]; intros pending s a rest H; [done|].
  destruct s as [|c s]; [by destruct pending|].
  assert (forall x pending' s' k,
    (length s' <= length s)%nat ->
    ('(r, rest) ← scan_string fuel pending' s'; Some (k r : str, rest)) = Some (x, rest) ->
    (length rest < length (c :: s))%nat /\
    forall fuel', (length (c :: s) <= S fuel' + length rest)%nat ->
      ('(r, rest) ← scan_string fuel' pending' s'; Some (k r, rest)) = Some (x, rest)) as Hnext.
  { intros x pending' s' k Hs ([r1 rest1] & E & [= <- <-])%bind_Some. cbn [length].
    destruct (IH _ _ _ _ E) as [Hl Hf]. split; [lia|]. intros fuel' Hle.
    rewrite (Hf fuel') by lia. done. }
  enough ((length rest < length (c :: s))%nat /\ forall fuel',
    (length (c :: s) <= S fuel' + length rest)%nat ->
    scan_string (S fuel') pending (c :: s) = Some (a, rest)) as [Hl Hf].
  { split; [done|]. intros [|fuel'] Hle; [simpl in *; lia|auto]. }
  destruct pending as [|[lo hi] pending]; cbn [scan_string] in H |- *.
  - destruct (u8 c =? 0x22); [injection H as <- <-; split; [simpl; lia|done]|].
    destruct (char_eqb c backslash).
    + destruct s as [|e s]; [done|]. destruct (char_eqb e "u").
      * apply bind_Some in H as ([x s'] & E & H). rewrite E.
        apply scan_unicode_length in E. eapply Hnext; [simpl; lia|exact H].
      * apply bind_Some in H as (x & E & H). rewrite E. eapply Hnext; [simpl; lia|exact H].
    + destruct (u8 c <? 0x20); [done|]. apply bind_Some in H as (p & E & H). rewrite E.
      eapply Hnext; [done|exact H].
  - destruct ((lo <=? u8 c) && (u8 c <=? hi)); [|done]. eapply Hnext; [done|exact H].
Qed.

Lemma eat_length c s r : eat c s = Some r -> length s = S (length r).
Proof. unfold eat. destruct s; [done|]. destruct (char_eqb _ _); [|done]. by intros [= <-]. Qed.

Abbreviation elements_within fuel := (forall acc, within (fun f => parse_elements f acc) fuel).
Abbreviation members_within fuel := (forall acc, within (fun f => parse_members f acc) fuel).

Lemma parse_value_within fuel :
  elements_within fuel -> members_within fuel -> within parse_value (S fuel).
Proof.
  intros IHe IHm s j rest H. cbn [parse_value] in H.
  pose proof (skip_whitespace_length s) as Hws.
  enough ((length rest < length (skip_whitespace s))%nat /\ forall fuel',
    (length (skip_whitespace s) <= S fuel' + length rest)%nat ->
    parse_value (S fuel') s = Some (j, rest)) as [Hl Hf].
  { split; [lia|]. intros [|fuel'] Hle; [lia|apply Hf; lia]. }
  cbn [parse_value]. destruct (skip_whitespace s) as [|c s1]; [done|].
  pose proof (skip_whitespace_length s1) as Hws1. cbn [length].
  destruct (char_eqb c "{").
  { destruct (eat "}" (skip_whitespace s1)) as [s2|] eqn:E.
    - apply eat_length in E. injection H as <- <-. split; [lia|done].
    - destruct (IHm _ _ _ _ H) as [Hl Hf]. split; [lia|]. intros fuel' Hle. apply Hf. lia. }
  destruct (char_eqb c "[").
  { destruct (eat "]" (skip_whitespace s1)) as [s2|] eqn:E.
    - apply eat_length in E. injection H as <- <-. split; [lia|done].
    - destruct (IHe _ _ _ _ H) as [Hl Hf]. split; [lia|]. intros fuel' Hle. apply Hf. lia. }
  destruct (u8 c =? 0x22).
  { apply bind_Some in H as ([r rest1] & E & [= <- <-]).
    destruct (scan_string_within _ _ _ _ _ E) as [Hl Hf]. split; [lia|].
    intros fuel' Hle. cbv beta in Hf. rewrite (Hf fuel') by lia. done. }
  repeat (destruct (char_eqb c _) in H |- *;
    [apply scan_literal_length in H as Hl; split; [lia|by rewrite H]|]).
  destruct (is_digit c || _); [|done].
  apply scan_number_length in H as Hl. split; [done|by rewrite H].
Qed.

Lemma parse_elements_within fuel :
  within parse_value fuel -> elements_within fuel -> elements_within (S fuel).
Proof.
  intros IHv IHe acc s j rest H. cbn [parse_elements] in H.
  apply bind_Some in H as ([v s1] & Ev & H). destruct (IHv _ _ _ Ev) as [Hl1 Hf1].
  pose proof (skip_whitespace_length s1) as Hws. cbn zeta in H.
  destruct (eat "," (skip_whitespace s1)) as [s2|] eqn:E.
  - apply eat_length in E as Hl3. destruct (IHe _ _ _ _ H) as [Hl2 Hf2]. split; [lia|].
    intros [|fuel'] Hle; [lia|]. cbn [parse_elements]. rewrite Hf1 by lia. simpl. rewrite E.
    apply Hf2. lia.
  - apply bind_Some in H as (s2 & E2 & [= <- <-]). apply eat_length in E2 as Hl2. split; [lia|].
    intros [|fuel'] Hle; [lia|]. cbn [parse_elements]. rewrite Hf1 by lia. simpl. by rewrite E, E2.
Qed.

Lemma parse_members_within fuel :
  within parse_value fuel -> members_within fuel -> members_within (S fuel).
Proof.
  intros IHv IHm acc s j rest H. cbn [parse_members] in H.
  pose proof (skip_whitespace_length s) as Hws0.
  destruct (skip_whitespace s) as [|c s0] eqn:E0; [done|].
  destruct (u8 c =? 0x22) eqn:Eq; [|done].
  apply bind_Some in H as ([k s1] & Ek & H). destruct (scan_string_within _ _ _ _ _ Ek) as [Hl0 Hf0].
  cbv beta in Hf0. apply bind_Some in H as (s2 & Ec & H). apply eat_length in Ec as Hlc.
  pose proof (skip_whitespace_length s1) as Hws1.
  apply bind_Some in H as ([v s3] & Ev & H). destruct (IHv _ _ _ Ev) as [Hl1 Hf1].
  pose proof (skip_whitespace_length s3) as Hws3. cbn zeta in H. cbn [length] in Hws0.
  destruct (eat "," (skip_whitespace s3)) as [s4|] eqn:E.
  - apply eat_length in E as Hl3. destruct (IHm _ _ _ _ H) as [Hl2 Hf2]. split; [lia|].
    intros [|fuel'] Hle; [lia|]. cbn [parse_members]. rewrite E0, Eq, Hf0 by lia. simpl.
    rewrite Ec. simpl. rewrite Hf1 by lia. simpl. rewrite E. apply Hf2. lia.
  - apply bind_Some in H as (s4 & E2 & [= <- <-]). apply eat_length in E2 as Hl2. split; [lia|].
    intros [|fuel'] Hle; [lia|]. cbn [parse_members]. rewrite E0, Eq, Hf0 by lia. simpl.
    rewrite Ec. simpl. rewrite Hf1 by lia. simpl. by rewrite E, E2.
Qed.

Lemma parse_within fuel : within parse_value fuel /\ elements_within fuel /\ members_within fuel.
Proof.
  induction fuel as [|fuel (IHv & IHe & IHm)]; [done|].
  split_and!; [by apply parse_value_within|by apply parse_elements_within|by apply parse_members_within].
Qed.

Definition reads_with (fuel : nat) (s : str) (j : json) : Prop :=
  exists s' rest, skip_bom s = Some s' /\ parse_value fuel s' = Some (j, rest) /\
    end_of_input rest = true.


(** ** What [dump] writes, [json::parse] reads

    [norm j] is [j] as the parser types it: a number that is not negative is
    unsigned. *)

Fixpoint norm (j : json) : json :=
  match j with
  | JInt z => if 0 <=? z then JUint z else JInt z
  | JArr l => JArr (norm <$> l)
  | JObj m => JObj ((fun kv => (kv.1, norm kv.2)) <$> m)
  | _ => j
  end.

Lemma json_nested_ind (P : json -> Prop) :
  P JNull -> (forall b, P (JBool b)) -> (forall z, P (JInt z)) -> (forall z, P (JUint z)) ->
  (forall d, P (JFloat d)) -> (forall s, P (JStr s)) ->
  (forall l, Forall P l -> P (JArr l)) -> (forall m, Forall (fun kv => P kv.2) m -> P (JObj m)) ->
  forall j, P j.
Proof.
  intros Hn Hb Hi Hu Hf Hs Ha Ho. fix IH 1. intros [ |b|z|z|d|s|l|m].
  1-6: clear IH; auto.
  - apply Ha. induction l as [|x l IHl]; constructor; [apply IH|exact IHl].
  - apply Ho. induction m as [|[k v] m IHm]; constructor; [apply IH|exact IHm].
Qed.

(** The number has ended: what follows cannot continue it. *)
Definition number_end (rest : str) : Prop :=
  match rest with
  | c :: _ => is_digit c = false /\ c ∉ «".eE"»
  | [] => True
  end.

Section RoundTrip.
Context (float_text : double -> str).

(** The written form of a double reads back. *)
Definition float_reads (d : double) : Prop :=
  isfinite d = true /\
  (exists c t, float_text d = c :: t /\ is_digit c || char_eqb c "-" = true) /\
  forall rest, number_end rest -> scan_number (float_text d ++ rest) = Some (JFloat d, rest).

(** Values as C++ holds them: integers within their type, strings in UTF-8,
    the keys of an object in order. *)
Fixpoint json_ok (j : json) : Prop :=
  match j with
  | JNull | JBool _ => True
  | JInt z => in_signed 64 z
  | JUint z => 0 <= z < 2 ^ 64
  | JFloat d => float_reads d
  | JStr s => utf8_valid s = true
  | JArr l => foldr (fun x P => json_ok x /\ P) True l
  | JObj m =>
      map_wf m /\ foldr (fun kv P => (utf8_valid kv.1 = true /\ json_ok kv.2) /\ P) True m
  end.

Lemma json_ok_arr l : json_ok (JArr l) <-> Forall json_ok l.
Proof. simpl. induction l; simpl; [by split|]. by rewrite Forall_cons, IHl. Qed.

Lemma json_ok_obj m : json_ok (JObj m) <->
  map_wf m /\ Forall (fun kv => utf8_valid kv.1 = true /\ json_ok kv.2) m.
Proof.
  simpl. apply and_iff_compat_l. induction m; simpl; [by split|]. by rewrite Forall_cons, IHm.
Qed.

(** *** Strings *)

Definition high (p : list (Z * Z)) : Prop := Forall (fun r => 0x80 <= r.1) p.

Lemma utf8_tails_high c p : utf8_tails c = Some p -> high p /\ (u8 c < 0x80 -> p = []).
Proof.
  unfold utf8_tails, high, tail. destruct (Z.ltb_spec (u8 c) 0x80).
  { intros [= <-]. by repeat constructor. }
  intros E. split; [|lia].
  repeat case_match; simplify_eq; repeat constructor; simpl; lia.
Qed.

Lemma escape_high c : 0x80 <= u8 c -> escape_byte c = [c].
Proof. intros H. unfold escape_byte. by rewrite (proj2 (Z.ltb_ge (u8 c) _)). Qed.

Lemma scan_escape_ascii c fuel s :
  u8 c < 0x80 ->
  scan_string (S fuel) [] (escape_byte c ++ s) =
  '(r, rest) ← scan_string fuel [] s; Some (c :: r, rest).
Proof.
  intros H. destruct c as [[] [] [] [] [] [] [] []];
    first [reflexivity | by vm_compute in H].
Qed.

Lemma scan_string_escaped s p fuel rest :
  high p -> utf8_from p s = true -> (length s < fuel)%nat ->
  scan_string fuel p ((s ≫= escape_byte) ++ dquote ++ rest) = Some (s, rest).
Proof.
  revert p fuel. induction s as [|c s IH]; intros p [|fuel] Hp Hu Hf; simpl in Hf; try lia.
  - destruct p; [reflexivity|done].
  - rewrite bind_cons, <- app_assoc, utf8_from_step in *.
    destruct p as [|[lo hi] p]; cbn [next_pending] in Hu.
    + destruct (utf8_tails c) as [q|] eqn:Eq; [|done].
      destruct (utf8_tails_high _ _ Eq) as [Hq H0].
      destruct (Z.lt_ge_cases (u8 c) 0x80) as [Hc|Hc].
      * rewrite scan_escape_ascii by done. rewrite (H0 Hc) in Hu. by rewrite IH by (done || lia).
      * rewrite escape_high by done. cbn [app scan_string].
        rewrite (proj2 (Z.eqb_neq (u8 c) _)) by lia.
        assert (char_eqb c backslash = false) as ->
          by (apply bool_decide_eq_false_2; intros ->; by vm_compute in Hc).
        rewrite (proj2 (Z.ltb_ge (u8 c) _)) by lia. rewrite Eq. cbn [mbind option_bind].
        by rewrite IH by (done || lia).
    + destruct ((lo <=? u8 c) && (u8 c <=? hi)) eqn:E; [|done].
      apply Forall_cons in Hp as [Hlo Hp]. simpl in Hlo.
      rewrite escape_high by lia. cbn [app scan_string]. rewrite E. by rewrite IH by (done || lia).
Qed.

Lemma escape_length s : (length s <= length (s ≫= escape_byte))%nat.
Proof.
  induction s as [|c s IH]; [done|]. rewrite bind_cons, length_app. simpl.
  assert (1 <= length (escape_byte c))%nat; [|lia].
  destruct c as [[] [] [] [] [] [] [] []]; vm_compute; lia.
Qed.

(** A dumped string is its quotes around text from which the scanner recovers
    it. *)
Lemma dump_string_scans s text :
  dump_string s = Ok text ->
  exists e, text = dquote ++ e ++ dquote /\
    forall fuel rest, (length text <= S fuel)%nat ->
      scan_string fuel [] (e ++ dquote ++ rest) = Some (s, rest).
Proof.
  unfold dump_string. pose proof (dump_escaped_spec s) as H.
  destruct (utf8_valid s) eqn:Hu; [|by destruct H as [what ->]].
  rewrite H. cbn [rbind]. intros E. apply Ok_inj in E as <-.
  eexists. split; [reflexivity|]. intros fuel rest Hf.
  apply scan_string_escaped; [constructor|done|].
  pose proof (escape_length s). rewrite !length_app in Hf. simpl in Hf. lia.
Qed.
(** *** Integers *)

Lemma number_end_digit rest c r : number_end rest -> rest = c :: r -> is_digit c = false.
Proof. by intros H ->; destruct H. Qed.

Lemma scan_int_printed z rest :
  0 <= z -> number_end rest -> scan_int (to_string z ++ rest) = Some (to_string z, rest).
Proof.
  intros Hz Hr. destruct (Z.eq_dec z 0) as [->|]; [reflexivity|].
  destruct (to_string_first z) as (c & s & E & Hc); [lia|].
  pose proof (to_string_digits z Hz) as Hd.
  pose proof (span_digits_app _ rest Hd (fun c r => number_end_digit rest c r Hr)) as Hs.
  rewrite E in *. apply Forall_cons_1 in Hd as [Hdc _].
  cbn [app scan_int] in *. unfold char_eqb. rewrite bool_decide_eq_false_2 by done.
  by rewrite Hdc, Hs.
Qed.

Lemma scan_no_frac rest : number_end rest -> scan_frac rest = Some (None, rest).
Proof.
  destruct rest as [|c r]; [done|]. intros [_ Hc].
  destruct c as [[] [] [] [] [] [] [] []]; first [reflexivity | by destruct Hc; left].
Qed.

Lemma scan_no_exp rest : number_end rest -> scan_exp rest = Some (None, rest).
Proof.
  destruct rest as [|c r]; [done|]. intros [_ Hc]. unfold scan_exp, char_eqb.
  rewrite !bool_decide_eq_false_2; [done|intros ->; set_solver..].
Qed.

Lemma scan_number_printed z rest :
  in_signed 64 z \/ 0 <= z < 2 ^ 64 -> number_end rest ->
  scan_number (to_string z ++ rest) = Some (if 0 <=? z then JUint z else JInt z, rest).
Proof.
  unfold in_signed. intros Hz Hr. unfold scan_number. destruct (Z.leb_spec 0 z) as [H0|H0].
  - destruct (to_string_head z H0) as (c & s & E & Hc).
    assert (scan_minus (to_string z ++ rest) = (false, to_string z ++ rest)) as ->.
    { rewrite E. unfold scan_minus. simpl. destruct c as [[] [] [] [] [] [] [] []]; try done.
      exfalso. vm_compute in Hc. naive_solver. }
    cbn iota beta zeta.
    rewrite scan_int_printed by done. cbn [mbind option_bind].
    rewrite scan_no_frac by done. cbn [mbind option_bind].
    rewrite scan_no_exp by done. cbn [mbind option_bind].
    unfold int_number. rewrite digits_value_to_string by done.
    by rewrite (proj2 (Z.ltb_lt z (2 ^ 64))) by lia.
  - rewrite to_string_neg by done. cbn [app scan_minus]. cbn iota beta zeta.
    rewrite scan_int_printed by (lia || done). cbn [mbind option_bind].
    rewrite scan_no_frac by done. cbn [mbind option_bind].
    rewrite scan_no_exp by done. cbn [mbind option_bind].
    unfold int_number. rewrite digits_value_to_string by lia.
    rewrite (proj2 (Z.leb_le (- z) (2 ^ 63))) by lia.
    cbn. by rewrite Z.opp_involutive.
Qed.

(** *** Values *)

(** The first character of a written value: no white space, no closing
    bracket. *)
Definition value_head (c : ascii) : bool :=
  (u8 c =? 0x22) || existsb (char_eqb c) «"{[tfn-"» || is_digit c.

Lemma value_head_ws c : value_head c = true -> is_ws c = false.
Proof.
  assert (forall c, negb (value_head c && is_ws c) = true) as Hc by (intros x; by_bytes x).
  specialize (Hc c). intros H. rewrite H in Hc. by destruct (is_ws c).
Qed.

Lemma skip_head c s : value_head c = true -> skip_whitespace (c :: s) = c :: s.
Proof. intros H. simpl. by rewrite value_head_ws. Qed.

Lemma dump_head j text :
  json_ok j -> dump float_text j = Ok text -> exists c t, text = c :: t /\ value_head c = true.
Proof.
  destruct j as [ |b|z|z|d|s|l|m]; cbn [dump]; intros Hj E.
  1-2: apply Ok_inj in E as <-; try destruct b; by do 2 eexists.
  1-2: apply Ok_inj in E as <-; destruct (Z.lt_ge_cases z 0) as [Hz|Hz];
    [rewrite to_string_neg by done; by do 2 eexists|];
    destruct (to_string_head z Hz) as (c & t & -> & Hc); do 2 eexists; split; [done|];
    unfold value_head, is_digit; apply orb_true_iff; right; lia.
  - destruct Hj as (Hf & (c & t & Et & Hc) & _). rewrite Hf in E. apply Ok_inj in E as <-.
    exists c, t. split; [done|]. unfold value_head. apply orb_true_iff in Hc as [->|Hc].
    + by rewrite orb_true_r.
    + by apply bool_decide_eq_true in Hc as ->.
  - apply dump_string_scans in E as (e & -> & _). by do 2 eexists.
  - apply rbind_ok in E as (body & _ & E). apply Ok_inj in E as <-. by do 2 eexists.
  - apply rbind_ok in E as (body & _ & E). apply Ok_inj in E as <-. by do 2 eexists.
Qed.

(** The loops of [dump] over an array and an object. *)

Fixpoint dump_elements (l : list json) : result str :=
  match l with
  | [] => Ok []
  | [x] => dump float_text x
  | x :: l' => a <-- dump float_text x ;; b <-- dump_elements l' ;; Ok (a ++ «","» ++ b)
  end.

Fixpoint dump_members (m : list (str * json)) : result str :=
  match m with
  | [] => Ok []
  | [(k, v)] => a <-- dump_string k ;; b <-- dump float_text v ;; Ok (a ++ «":"» ++ b)
  | (k, v) :: m' =>
      a <-- dump_string k ;; b <-- dump float_text v ;; c <-- dump_members m' ;;
      Ok (a ++ «":"» ++ b ++ «","» ++ c)
  end.

Lemma dump_arr l :
  dump float_text (JArr l) = (body <-- dump_elements l ;; Ok («"["» ++ body ++ «"]"»)).
Proof. reflexivity. Qed.

Lemma dump_obj m :
  dump float_text (JObj m) = (body <-- dump_members m ;; Ok («"{"» ++ body ++ «"}"»)).
Proof. reflexivity. Qed.

Lemma number_end_delim c r : existsb (char_eqb c) «",]}"» = true -> number_end (c :: r).
Proof.
  intros H. split; [|intros He; set_unfold in He];
    destruct c as [[] [] [] [] [] [] [] []]; try reflexivity; try (by vm_compute in H);
    naive_solver.
Qed.

(** The parser reads back the value at the front of a text. *)
Definition reads_back (j : json) : Prop := forall text n rest,
  json_ok j -> dump float_text j = Ok text -> number_end rest -> (length text <= n)%nat ->
  parse_value n (text ++ rest) = Some (norm j, rest).

Lemma parse_elements_dump l acc body n rest :
  Forall reads_back l -> Forall json_ok l -> l <> [] -> dump_elements l = Ok body ->
  (S (length body) <= n)%nat ->
  parse_elements n acc (body ++ «"]"» ++ rest) = Some (JArr (acc ++ (norm <$> l)), rest).
Proof.
  intros Hr Ho. revert acc body n. induction Hr as [|x l Hx Hl IH]; [done|].
  intros acc body [|n] _ E Hn; [lia|]. apply Forall_cons_1 in Ho as [Hox Hol].
  destruct l as [|y l].
  - cbn [dump_elements] in E. cbn [parse_elements].
    rewrite (Hx body n _ Hox E) by first [by apply number_end_delim|lia]. reflexivity.
  - change (dump_elements (x :: y :: l)) with
      (a <-- dump float_text x ;; b <-- dump_elements (y :: l) ;; Ok (a ++ «","» ++ b)) in E.
    apply rbind_ok in E as (a & Ea & E). apply rbind_ok in E as (b & Eb & E).
    apply Ok_inj in E as <-. rewrite !length_app in Hn. simpl in Hn.
    cbn [parse_elements]. rewrite <- !app_assoc. rewrite (Hx a n _ Hox Ea) by first [by apply number_end_delim|lia].
    cbn [mbind option_bind app skip_whitespace]. cbn iota.
    change («","» ++ b ++ «"]"» ++ rest) with (","%char :: b ++ «"]"» ++ rest).
    cbn [skip_whitespace eat]. change (is_ws ",") with false. cbn iota zeta.
    change (eat "," (","%char :: b ++ «"]"» ++ rest)) with (Some (b ++ «"]"» ++ rest)). cbn iota.
    rewrite IH by (done || lia). by rewrite fmap_cons, <- app_assoc.
Qed.

Lemma parse_value_arr l : Forall reads_back l -> reads_back (JArr l).
Proof.
  intros Hr text n rest Ho E He Hn. apply json_ok_arr in Ho. rewrite dump_arr in E.
  apply rbind_ok in E as (body & E & Et). apply Ok_inj in Et as <-.
  rewrite !length_app in Hn. simpl in Hn. destruct n as [|n]; [lia|].
  destruct l as [|x l]; [injection E as <-; reflexivity|].
  assert (exists c t, body = c :: t /\ value_head c = true) as (c & t & Eb & Hc).
  { apply Forall_cons_1 in Ho as [Hx _]. destruct l as [|y l]; [by apply (dump_head x)|].
    apply rbind_ok in E as (a & Ea & E). apply rbind_ok in E as (b & _ & E). apply Ok_inj in E as <-.
    destruct (dump_head x a Hx Ea) as (c & t & -> & Hc).
    by do 2 eexists. }
  rewrite <- !app_assoc. cbn [parse_value].
  change (skip_whitespace («"["» ++ body ++ «"]"» ++ rest)) with ("["%char :: body ++ «"]"» ++ rest).
  cbn iota. change (char_eqb "[" "{") with false. change (char_eqb "[" "[") with true. cbn iota.
  change (norm (JArr (x :: l))) with (JArr ([] ++ (norm <$> x :: l))).
  rewrite <- (parse_elements_dump (x :: l) [] body n rest) by (done || lia).
  rewrite Eb. cbn [app]. rewrite skip_head by done.
  destruct c as [[] [] [] [] [] [] [] []]; first [reflexivity | by vm_compute in Hc].
Qed.

Lemma parse_members_dump m acc body n rest :
  Forall (fun kv => reads_back kv.2) m ->
  Forall (fun kv => utf8_valid kv.1 = true /\ json_ok kv.2) m -> m <> [] ->
  dump_members m = Ok body -> map_wf (acc ++ m) -> (S (length body) <= n)%nat ->
  parse_members n acc (body ++ «"}"» ++ rest) =
  Some (JObj (acc ++ ((fun kv => (kv.1, norm kv.2)) <$> m)), rest).
Proof.
  intros Hr Ho. revert acc body n. induction Hr as [|[k v] m Hx Hm IH]; [done|].
  intros acc body [|n] _ E Hwf Hn; [lia|]. apply Forall_cons_1 in Ho as [[Hk Hox] Ho].
  assert (exists a b tl, dump_string k = Ok a /\ dump float_text v = Ok b /\
    body = a ++ «":"» ++ b ++ tl /\
    match m with [] => tl = [] | _ => exists c, tl = «","» ++ c /\ dump_members m = Ok c end)
    as (a & b & tl & Ea & Eb & -> & Htl).
  { destruct m as [|kv m].
    - apply rbind_ok in E as (a & Ea & E). apply rbind_ok in E as (b & Eb & E).
      apply Ok_inj in E as <-. exists a, b, []. by rewrite app_nil_r.
    - apply rbind_ok in E as (a & Ea & E). apply rbind_ok in E as (b & Eb & E).
      apply rbind_ok in E as (c & Ec & E). apply Ok_inj in E as <-. eauto 10. }
  apply dump_string_scans in Ea as (e & -> & Hs).
  rewrite !length_app in Hn. simpl in Hn.
  assert (parse_members (S n) acc (((dquote ++ e ++ dquote) ++ «":"» ++ b ++ tl) ++ «"}"» ++ rest) =
    (let s := skip_whitespace (tl ++ «"}"» ++ rest) in
     match eat "," s with
     | Some s => parse_members n (map_set k (norm v) acc) s
     | None => s ← eat "}" s; Some (JObj (map_set k (norm v) acc), s)
     end)) as ->.
  { rewrite <- !app_assoc. cbn [parse_members].
    change (skip_whitespace (dquote ++ ?x)) with ("034"%char :: x) at 1.
    cbn iota. change (u8 "034" =? 0x22) with true. cbn iota.
    rewrite Hs by (rewrite !length_app; simpl; lia). cbn [mbind option_bind].
    change (eat ":" (skip_whitespace («":"» ++ ?x))) with (Some x) at 1. cbn [mbind option_bind].
    rewrite (Hx b n _ Hox Eb); [reflexivity| |lia].
    destruct m; [subst tl|destruct Htl as (c & -> & _)]; by apply number_end_delim. }
  cbn [snd fst] in *. rewrite map_set_last by (by eapply map_wf_app).
  destruct m as [|kv m].
  - subst tl. reflexivity.
  - destruct Htl as (c & -> & Ec). rewrite length_app in Hn. simpl in Hn.
    change (skip_whitespace ((«","» ++ c) ++ «"}"» ++ rest)) with (","%char :: c ++ «"}"» ++ rest).
    cbn iota zeta. change (eat "," (","%char :: ?x)) with (Some x) at 1. cbn iota.
    rewrite IH; [by rewrite fmap_cons, <- app_assoc|done..| |lia].
    revert Hwf. unfold map_wf. rewrite !fmap_app. by rewrite <- app_assoc.
Qed.

Lemma parse_value_obj m : Forall (fun kv => reads_back kv.2) m -> reads_back (JObj m).
Proof.
  intros Hr text n rest Ho E He Hn. apply json_ok_obj in Ho as [Hwf Ho]. rewrite dump_obj in E.
  apply rbind_ok in E as (body & E & Et). apply Ok_inj in Et as <-.
  rewrite !length_app in Hn. simpl in Hn. destruct n as [|n]; [lia|].
  destruct m as [|kv m]; [injection E as <-; reflexivity|].
  assert (exists t, body = "034"%char :: t) as (t & Eb).
  { destruct kv as [k v], m as [|kv m]; apply rbind_ok in E as (a & Ea & E);
      apply dump_string_scans in Ea as (e & -> & _); repeat apply rbind_ok in E as (? & _ & E);
      apply Ok_inj in E as <-; by eexists. }
  rewrite <- !app_assoc. cbn [parse_value].
  change (skip_whitespace («"{"» ++ body ++ «"}"» ++ rest)) with ("{"%char :: body ++ «"}"» ++ rest).
  cbn iota. change (char_eqb "{" "{") with true. cbn iota.
  change (norm (JObj (kv :: m))) with
    (JObj ([] ++ ((fun kv => (kv.1, norm kv.2)) <$> kv :: m))).
  rewrite <- (parse_members_dump (kv :: m) [] body n rest) by (done || lia).
  rewrite Eb. reflexivity.
Qed.

Lemma parse_value_number c s n :
  is_digit c || char_eqb c "-" = true -> parse_value (S n) (c :: s) = scan_number (c :: s).
Proof. intros H. destruct c as [[] [] [] [] [] [] [] []]; first [reflexivity | by vm_compute in H]. Qed.

Lemma parse_value_int z n rest :
  in_signed 64 z \/ 0 <= z < 2 ^ 64 -> number_end rest ->
  parse_value (S n) (to_string z ++ rest) = Some (if 0 <=? z then JUint z else JInt z, rest).
Proof.
  intros Hz He. rewrite <- scan_number_printed by done.
  destruct (Z.lt_ge_cases z 0) as [Hn|Hn].
  - rewrite to_string_neg by done. by apply parse_value_number.
  - destruct (to_string_head z Hn) as (c & s & -> & Hc). apply parse_value_number.
    unfold is_digit. apply orb_true_iff. left. lia.
Qed.

Lemma json_reads_back j : reads_back j.
Proof.
  induction j as [ |b|z|z|d|s|l Hl|m Hm] using json_nested_ind; cycle 6;
    [by apply parse_value_arr|by apply parse_value_obj|..];
    intros text [|n] rest Ho E He Hn;
    try (destruct (dump_head _ _ Ho E) as (? & ? & -> & _); simpl in Hn; lia); cbn [dump] in E.
  - apply Ok_inj in E as <-. reflexivity.
  - apply Ok_inj in E as <-. by destruct b.
  - apply Ok_inj in E as <-. by apply parse_value_int; [left|].
  - apply Ok_inj in E as <-. rewrite parse_value_int by auto. simpl in Ho.
    by rewrite (proj2 (Z.leb_le 0 z)) by lia.
  - destruct Ho as (Hf & (c & t & Et & Hc) & Hs). rewrite Hf in E. apply Ok_inj in E as <-.
    rewrite <- Hs by done. rewrite Et. by apply parse_value_number.
  - apply dump_string_scans in E as (e & -> & Hs). rewrite <- !app_assoc.
    change (parse_value (S n) (dquote ++ ?x)) with
      ('(r, rest) ← scan_string n [] x; Some (JStr r, rest)) at 1.
    by rewrite Hs by lia.
Qed.

Lemma json_read_dump parse_error j text :
  json_ok j -> dump float_text j = Ok text -> json_parse parse_error text = Ok (norm j).
Proof.
  intros Ho E. destruct (dump_head _ _ Ho E) as (c & t & Et & Hc).
  unfold json_parse, read_json.
  assert (skip_bom text = Some text) as ->.
  { rewrite Et. destruct c as [[] [] [] [] [] [] [] []]; first [reflexivity | by vm_compute in Hc]. }
  cbn [mbind option_bind]. rewrite <- (app_nil_r text) at 2.
  by rewrite (json_reads_back j text) by (done || lia).
Qed.

(** ** When [dump] throws *)

Fixpoint json_utf8 (j : json) : bool :=
  match j with
  | JStr s => utf8_valid s
  | JArr l => forallb json_utf8 l
  | JObj m => forallb (fun kv => utf8_valid kv.1 && json_utf8 kv.2) m
  | _ => true
  end.

Definition throws_316 {A} (r : result A) : Prop := exists what, r = type_error 316 what.

Lemma throws_bind {A B} (m : result A) (k : A -> result B) : throws_316 m -> throws_316 (rbind m k).
Proof. intros [what ->]. by exists what. Qed.

Lemma dump_string_total s :
  if utf8_valid s then exists text, dump_string s = Ok text else throws_316 (dump_string s).
Proof.
  unfold dump_string. pose proof (dump_escaped_spec s) as H. destruct (utf8_valid s).
  - rewrite H. by eexists.
  - by apply throws_bind.
Qed.

(** A value is written exactly when its strings are in UTF-8. *)
Lemma dump_total j :
  if json_utf8 j then exists text, dump float_text j = Ok text else throws_316 (dump float_text j).
Proof.
  induction j as [ | | | | | |l Hl|m Hm] using json_nested_ind; try by eexists.
  - apply dump_string_total.
  - rewrite dump_arr. cbn [json_utf8].
    enough (if forallb json_utf8 l then exists text, dump_elements l = Ok text
            else throws_316 (dump_elements l)) as H.
    { destruct (forallb json_utf8 l); [destruct H as [t ->]; by eexists|by apply throws_bind]. }
    induction Hl as [|x l Hx Hl IH]; [by eexists|]. cbn [forallb].
    destruct l as [|y l]; [by rewrite andb_true_r|].
    change (dump_elements (x :: y :: l)) with
      (a <-- dump float_text x ;; b <-- dump_elements (y :: l) ;; Ok (a ++ «","» ++ b)).
    destruct (json_utf8 x); [|by apply throws_bind]. destruct Hx as [a ->]. cbn [rbind].
    destruct (forallb json_utf8 (y :: l)); cbn [andb]; [|by apply throws_bind].
    destruct IH as [b ->]. by eexists.
  - rewrite dump_obj. cbn [json_utf8].
    set (ok := fun kv : str * json => utf8_valid kv.1 && json_utf8 kv.2).
    enough (if forallb ok m then exists text, dump_members m = Ok text
            else throws_316 (dump_members m)) as H.
    { destruct (forallb ok m); [destruct H as [t ->]; by eexists|by apply throws_bind]. }
    induction Hm as [|[k v] m Hx Hm IH]; [by eexists|]. cbn [forallb]. unfold ok at 1. cbn [fst snd].
    pose proof (dump_string_total k) as Hk. cbn [snd] in Hx.
    destruct (utf8_valid k);
      [destruct Hk as [a Ea]; cbn [andb]|cbn [andb]; destruct m; cbn [dump_members]; by apply throws_bind].
    destruct (json_utf8 v);
      [destruct Hx as [b Eb]|cbn [andb]; destruct m; cbn [dump_members];
                                 rewrite Ea; cbn [rbind]; by apply throws_bind].
    destruct m as [|kv m]; [cbn [dump_members forallb andb]; rewrite Ea, Eb; by eexists|].
    change (dump_members ((k, v) :: kv :: m)) with
      (a <-- dump_string k ;; b <-- dump float_text v ;; c <-- dump_members (kv :: m) ;;
       Ok (a ++ «":"» ++ b ++ «","» ++ c)).
    rewrite Ea, Eb. cbn [rbind andb].
    destruct (forallb ok (kv :: m)); [destruct IH as [c ->]; by eexists|by apply throws_bind].
Qed.

(** ** The round trip *)

(** Values as a C++ program builds them: integers within their type and the
    keys of an object in order; strings may be anything. *)
Fixpoint json_typed (j : json) : Prop :=
  match j with
  | JNull | JBool _ | JStr _ => True
  | JInt z => in_signed 64 z
  | JUint z => 0 <= z < 2 ^ 64
  | JFloat d => float_reads d
  | JArr l => foldr (fun x P => json_typed x /\ P) True l
  | JObj m => map_wf m /\ foldr (fun kv P => json_typed kv.2 /\ P) True m
  end.

Lemma json_typed_arr l : json_typed (JArr l) <-> Forall json_typed l.
Proof. simpl. induction l; simpl; [by split|]. by rewrite Forall_cons, IHl. Qed.

Lemma json_typed_obj m :
  json_typed (JObj m) <-> map_wf m /\ Forall (fun kv => json_typed kv.2) m.
Proof.
  simpl. apply and_iff_compat_l. induction m; simpl; [by split|]. by rewrite Forall_cons, IHm.
Qed.

Lemma json_typed_ok j : json_typed j -> json_utf8 j = true -> json_ok j.
Proof.
  induction j as [ | | | | | |l Hl|m Hm] using json_nested_ind; try done.
  - rewrite json_typed_arr, json_ok_arr. cbn [json_utf8]. intros Ht Hu.
    induction Hl as [|x l Hx Hl IH]; [constructor|]. apply Forall_cons in Ht as [? ?].
    apply andb_prop in Hu as [? ?]. constructor; auto.
  - rewrite json_typed_obj, json_ok_obj. intros [Hwf Ht] Hu. split; [done|].
    cbn [json_utf8] in Hu. clear Hwf. induction Hm as [|[k v] m Hx Hm IH]; [constructor|].
    apply Forall_cons in Ht as [? ?]. apply andb_prop in Hu as [[? ?]%andb_prop ?].
    constructor; auto.
Qed.

Lemma json_parse_dumped parse_error j text :
  json_typed j -> dump float_text j = Ok text -> json_parse parse_error text = Ok (norm j).
Proof.
  intros Ht E. apply json_read_dump; [|done]. apply json_typed_ok; [done|].
  pose proof (dump_total j) as H. destruct (json_utf8 j); [done|].
  destruct H as [what H]. by rewrite H in E.
Qed.


(** An object made of assignments. *)
Lemma json_typed_jset k v j : json_typed v -> json_typed j -> json_typed (jset k v j).
Proof.
  intros Hv. destruct j as [ | | | | | | |m]; try done.
  - intros _. repeat split; [|done]. repeat constructor.
  - cbn [jset]. rewrite !json_typed_obj. intros [Hwf Hm].
    split; [by apply map_set_wf|]. by apply (map_set_Forall (fun _ => json_typed)).
Qed.

Definition field_typed (kv : str * option json) : Prop :=
  if kv.2 is Some v then json_typed v else True.

Lemma json_typed_assign l j :
  Forall field_typed l -> json_typed j -> json_typed (assign l j).
Proof.
  intros Hl. revert j. induction Hl as [|[k [v|]] l Hv Hl IH]; intros j Hj; [done|..]; simpl.
  - by apply IH, json_typed_jset.
  - by apply IH.
Qed.

Lemma json_typed_object entries :
  Forall (fun kv => json_typed kv.2) entries -> json_typed (json_object entries).
Proof.
  intros H. apply json_typed_obj. split; [apply map_set_all_wf, map_wf_nil|].
  unfold map_set_all. assert (Forall (fun kv : str * json => json_typed kv.2) []) as Hn by constructor.
  revert Hn. generalize (@nil (str * json)). induction H as [|[k v] l Hv Hl IH]; intros m Hm; [done|].
  simpl. apply IH. by apply (map_set_Forall (fun _ => json_typed)).
Qed.

Lemma int32_int64 z : int32 z -> in_signed 64 z.
Proof. unfold int32, in_signed. lia. Qed.

Lemma json_typed_list {A} (f : A -> json) (P : A -> Prop) l :
  (forall a, P a -> json_typed (f a)) -> Forall P l -> json_typed (JArr (f <$> l)).
Proof. intros Hf Hl. apply json_typed_arr, Forall_fmap. eapply Forall_impl; [exact Hl|done]. Qed.

(** The fields of a request. *)
Lemma given_str_typed k s : field_typed (k, Some (JStr s)).
Proof. done. Qed.

Lemma given_int_typed k z : int32 z -> field_typed (k, Some (JInt z)).
Proof. apply int32_int64. Qed.

Lemma given_int64_typed k z : int64 z -> field_typed (k, Some (JInt z)).
Proof. done. Qed.

Lemma int_field_typed k z : int32 z -> field_typed (int_field k z).
Proof. unfold field_typed, int_field. simpl. destruct (z =? 0); [done|]. apply int32_int64. Qed.

Lemma int64_field_typed k z : int64 z -> field_typed (int_field k z).
Proof. unfold field_typed, int_field. simpl. by destruct (z =? 0). Qed.

Lemma str_field_typed k s : field_typed (str_field k s).
Proof. unfold field_typed, str_field. simpl. by destruct (is_empty s). Qed.

Lemma opt_field_typed k o : (forall z, o = Some z -> int32 z) -> field_typed (opt_field k o).
Proof. destruct o as [z|]; [|done]. intros H. by apply int32_int64, H. Qed.

Lemma when_typed k b v : json_typed v -> field_typed (k, when b v).
Proof. by destruct b. Qed.

Lemma strs_typed l : json_typed (JArr (JStr <$> l)).
Proof. apply json_typed_arr, Forall_fmap, Forall_forall. done. Qed.

Lemma list_field_typed {A} k (f : A -> json) l :
  json_typed (JArr (f <$> l)) -> field_typed (list_field k f l).
Proof. apply when_typed. Qed.

Lemma strs_field_typed k l : field_typed (strs_field k l).
Proof. apply list_field_typed, strs_typed. Qed.

Lemma when_str_typed k b s : field_typed (k, when b (JStr s)).
Proof. by apply when_typed. Qed.

Lemma when_int_typed k b z : int32 z -> field_typed (k, when b (JInt z)).
Proof. intros H. by apply when_typed, int32_int64. Qed.

Lemma when_int64_typed k b z : int64 z -> field_typed (k, when b (JInt z)).
Proof. intros H. by apply when_typed. Qed.

Lemma float_field_typed k o :
  (forall d, o = Some d -> float_reads d) -> field_typed (k, JFloat <$> o).
Proof. destruct o as [d|]; [|done]. intros H. by apply H. Qed.
End RoundTrip.

Create HintDb typed.
#[export] Hint Resolve int32_int64 given_str_typed given_int_typed given_int64_typed int_field_typed int64_field_typed str_field_typed
  opt_field_typed strs_field_typed list_field_typed when_typed when_str_typed when_int_typed
  when_int64_typed float_field_typed strs_typed : typed.

(** Entry by entry. *)
Ltac typed_entries := cbn [app]; repeat first
  [ apply Forall_nil_2 | apply Forall_cons_2; cbn [snd json_typed] | solve [eauto with typed]
  | apply Forall_app_2 | exact I | assumption ].

(** ** Reading a parsed document

    A read that does not look at how integers are typed gives the same on
    [norm j]. *)

Class NormStable {A} (get : json -> result A) : Prop := norm_stable j : get (norm j) = get j.

Lemma type_name_norm j : type_name (norm j) = type_name j.
Proof. destruct j; simpl; by repeat case_match. Qed.

#[export] Instance get_string_stable : NormStable get_string.
Proof. intros j. destruct j; simpl; by repeat case_match. Qed.
#[export] Instance get_int_stable cast : NormStable (get_int cast).
Proof. intros j. destruct j; simpl; by repeat case_match. Qed.
#[export] Instance get_int64_stable cast : NormStable (get_int64 cast).
Proof. intros j. destruct j; simpl; by repeat case_match. Qed.
#[export] Instance get_double_stable : NormStable get_double.
Proof. intros j. destruct j; simpl; by repeat case_match. Qed.

Lemma map_find_norm k (m : list (str * json)) :
  map_find k ((fun kv => (kv.1, norm kv.2)) <$> m) = norm <$> map_find k m.
Proof. induction m as [|[k' v] m IH]; simpl; [done|]. by destruct (str_compare k k'). Qed.

Lemma jfind_norm k j : jfind k (norm j) = norm <$> jfind k j.
Proof. destruct j as [ | |z| | | | |m]; simpl; try (by case_match); [done..|]. apply map_find_norm. Qed.

#[export] Instance value_stable {A} (get : json -> result A) key d :
  NormStable get -> NormStable (value get key d).
Proof.
  intros Hg j. unfold value. rewrite jfind_norm, type_name_norm.
  assert (is_object (norm j) = is_object j) as ->
    by (destruct j as [ | |z| | | | |]; simpl; by try destruct (0 <=? z)).
  destruct (is_object j); [|done]. destruct (jfind key j); simpl; [apply Hg|done].
Qed.

Lemma parse_all_norm {A} (f : json -> result A) l :
  NormStable f -> parse_all f (norm <$> l) = parse_all f l.
Proof.
  intros Hf. induction l as [|x l IH]; [done|]. rewrite fmap_cons. cbn [parse_all].
  rewrite Hf. destruct (f x); [|done]. cbn [rbind]. by rewrite IH.
Qed.

#[export] Instance optional_list_stable {A} (f : json -> result A) key :
  NormStable f -> NormStable (optional_list f key).
Proof.
  intros Hf j. unfold optional_list. rewrite jfind_norm.
  destruct (jfind key j) as [[ | |z| | | |l|]|]; simpl; try done; [by destruct (0 <=? z)|].
  by apply parse_all_norm.
Qed.

#[export] Instance read_opt_stable {A} (get : json -> result A) key :
  NormStable get -> NormStable (read_opt get key).
Proof.
  intros Hg j. unfold read_opt. rewrite jfind_norm.
  destruct (jfind key j); simpl; [by rewrite Hg|done].
Qed.

Lemma rbind_cong {A B} (m n : result A) (k l : A -> result B) :
  m = n -> (forall a, k a = l a) -> rbind m k = rbind n l.
Proof. intros -> H. destruct n; simpl; [apply H|done]. Qed.

(** A reader that is a sequence of stable reads. *)
Ltac stable_reads :=
  intros ?; repeat first
    [ reflexivity | apply norm_stable | apply rbind_cong; [first [apply norm_stable|reflexivity]|intros ?]].

(** ** Witness *)

Definition demo_fields : list (str * option json) :=
  [ («"code"», Some (JInt (-4001))); strs_field «"hints"» [«"one"»; «"two"»];
    str_field «"message"» ["013"; "034"]%char; opt_field «"level"» None ].

Definition demo_document : json := assign demo_fields JNull.

Lemma demo_document_typed : json_typed (fun _ => []) demo_document.
Proof. apply json_typed_assign; [|done]. unfold demo_fields. typed_entries. by apply given_int_typed. Qed.

