(* ===== verification/Uuid.v ===== *)
(** * Request and session identifiers (src/ws_client.cc, GenerateUuid)

    The UUID made of two 64-bit draws, and its canonical form. *)

From S2P Require Import Prelude Json.

Open Scope Z_scope.

(** The eight bytes of a 64-bit draw, in memory order (little endian). *)
Definition le_bytes (v : Z) : list Z :=
  (fun i => Z.land (Z.shiftr v (8 * Z.of_nat i)) 0xFF) <$> seq 0 8.

(** [%02x] *)
Definition hex2 (b : Z) : str := [hex_digit false (b / 16); hex_digit false (b mod 16)].

(** From two draws of the generator. *)
Definition GenerateUuid (v1 v2 : Z) : str :=
  let b := le_bytes v1 ++ le_bytes v2 in
  let b := <[6%nat := Z.lor (Z.land (nth 6 b 0) 0x0F) 0x40]> b in
  let b := <[8%nat := Z.lor (Z.land (nth 8 b 0) 0x3F) 0x80]> b in
  let h i := hex2 (nth i b 0) in
  (h 0 ++ h 1 ++ h 2 ++ h 3 ++ «"-"» ++ h 4 ++ h 5 ++ «"-"» ++ h 6 ++ h 7 ++ «"-"» ++ h 8 ++
   h 9 ++ «"-"» ++ h 10 ++ h 11 ++ h 12 ++ h 13 ++ h 14 ++ h 15)%nat.

(** The canonical form of a version 4, variant 1 UUID. *)
Definition is_lower_hex (c : ascii) : bool :=
  ((48 <=? u8 c) && (u8 c <=? 57)) || ((97 <=? u8 c) && (u8 c <=? 102)).

Fixpoint uuid_from (i : nat) (s : str) : bool :=
  match s with
  | [] => (i =? 36)%nat
  | c :: s =>
      (if existsb (Nat.eqb i) [8; 13; 18; 23]%nat then char_eqb c "-"
       else if (i =? 14)%nat then char_eqb c "4"
       else if (i =? 19)%nat then existsb (char_eqb c) «"89ab"»
       else is_lower_hex c) && uuid_from (S i) s
  end.

Lemma hex_digit_lower v : 0 <= v < 16 -> is_lower_hex (hex_digit false v) = true.
Proof.
  intros Hv.
  assert (forallb (fun n => is_lower_hex (hex_digit false (Z.of_nat n))) (seq 0 16) = true) as H
    by (vm_compute; reflexivity).
  rewrite <- (Z2Nat.id v) by lia. apply (proj1 (forallb_forall _ _) H), in_seq. lia.
Qed.

Definition all_octets : list Z := Z.of_nat <$> seq 0 256.

Lemma octet_forall (f : Z -> bool) : forallb f all_octets = true ->
  forall b, 0 <= b < 256 -> f b = true.
Proof.
  intros H b Hb. apply (proj1 (forallb_forall _ _) H). unfold all_octets.
  rewrite <- (Z2Nat.id b) by lia. apply in_map, in_seq. lia.
Qed.

Lemma hex2_lower b : 0 <= b < 256 ->
  is_lower_hex (hex_digit false (b / 16)) = true /\ is_lower_hex (hex_digit false (b mod 16)) = true.
Proof. intros Hb. split; apply hex_digit_lower; div_lia. Qed.

(** The version octet prints as a 4 and a hex digit, the variant octet as one of
    89ab and a hex digit. *)
Lemma version_octet b : 0 <= b < 256 ->
  char_eqb (hex_digit false (Z.lor (Z.land b 0x0F) 0x40 / 16)) "4" &&
  is_lower_hex (hex_digit false (Z.lor (Z.land b 0x0F) 0x40 mod 16)) = true.
Proof.
  apply (octet_forall (fun b => char_eqb (hex_digit false (Z.lor (Z.land b 0x0F) 0x40 / 16)) "4" &&
    is_lower_hex (hex_digit false (Z.lor (Z.land b 0x0F) 0x40 mod 16)))).
  vm_compute. reflexivity.
Qed.

Lemma variant_octet b : 0 <= b < 256 ->
  existsb (char_eqb (hex_digit false (Z.lor (Z.land b 0x3F) 0x80 / 16))) «"89ab"» &&
  is_lower_hex (hex_digit false (Z.lor (Z.land b 0x3F) 0x80 mod 16)) = true.
Proof.
  apply (octet_forall (fun b =>
    existsb (char_eqb (hex_digit false (Z.lor (Z.land b 0x3F) 0x80 / 16))) «"89ab"» &&
    is_lower_hex (hex_digit false (Z.lor (Z.land b 0x3F) 0x80 mod 16)))).
  vm_compute. reflexivity.
Qed.

Lemma uuid_canonical v1 v2 : uuid_from 0 (GenerateUuid v1 v2) = true.
Proof.
  assert (forall v i, 0 <= Z.land (Z.shiftr v (8 * Z.of_nat i)) 0xFF < 256) as Hb.
  { intros v i. change 0xFF with (Z.ones 8). rewrite Z.land_ones by lia.
    apply Z.mod_pos_bound. lia. }
  unfold GenerateUuid, le_bytes. cbn [seq fmap list_fmap app nth insert list_insert].
  set (o1 i := Z.land (Z.shiftr v1 (8 * Z.of_nat i)) 0xFF).
  set (o2 i := Z.land (Z.shiftr v2 (8 * Z.of_nat i)) 0xFF).
  assert (forall i, 0 <= o1 i < 256) as H1 by (intros; apply Hb).
  assert (forall i, 0 <= o2 i < 256) as H2 by (intros; apply Hb).
  pose proof (version_octet _ (H1 6%nat)) as [V1 V2]%andb_prop.
  pose proof (variant_octet _ (H2 0%nat)) as [W1 W2]%andb_prop.
  unfold hex2. fold (o1 6%nat) (o2 0%nat). cbn [app uuid_from existsb Nat.eqb orb].
  repeat (apply andb_true_intro; split); try done; (apply hex2_lower; auto).
Qed.

(** The characters of a UUID. *)
Lemma uuid_from_chars i s :
  uuid_from i s = true -> Forall (fun c => is_lower_hex c || char_eqb c "-" = true) s.
Proof.
  revert i. induction s as [|c s IH]; intros i; [by constructor|].
  cbn [uuid_from]. intros [Hc Hs]%andb_prop. constructor; [|by eapply IH].
  repeat case_match; try (rewrite Hc; apply orb_true_r); try (by rewrite Hc);
    apply orb_true_iff; left; [by apply bool_decide_eq_true in Hc as ->|].
  apply existsb_exists in Hc as (d & Hd & Hcd). apply bool_decide_eq_true in Hcd as ->.
  by repeat destruct Hd as [<-|Hd].
Qed.

Lemma uuid_chars v1 v2 :
  Forall (fun c => is_lower_hex c || char_eqb c "-" = true) (GenerateUuid v1 v2).
Proof. eapply uuid_from_chars, uuid_canonical. Qed.

(** Whatever the generator draws, the result is a canonical UUID. *)
Theorem GenerateUuid_format v1 v2 : uuid_from 0 (GenerateUuid v1 v2) = true.
Proof. apply uuid_canonical. Qed.
