(* ===== verification/Credential.v ===== *)
(** * Credentials and endpoints (include/trtc_asr/credential.h)

    The credential, the site-to-host table with its trimming and case folding,
    and the endpoint resolution with an explicit override. *)

From S2P Require Import Prelude.

Open Scope Z_scope.

Definition kSiteCN : str := «"cn"».
Definition kSiteIntl : str := «"intl"».
Definition kHostCN : str := «"asr.cloud-rtc.com"».
Definition kHostIntl : str := «"asr-intl.cloud-rtc.com"».

Definition HostForSite (site : str) : result str :=
  let original := site in
  let site := tolower <$> trim site in
  if is_empty site || bool_decide (site = kSiteCN) then Ok kHostCN
  else if bool_decide (site = kSiteIntl) then Ok kHostIntl
  else throw_asr kErrInvalidParam
         («"unsupported site "» ++ dquote ++ original ++ dquote ++ «", want "» ++ dquote ++
          kSiteCN ++ dquote ++ «" or "» ++ dquote ++ kSiteIntl ++ dquote).

Definition WSEndpointForSite (site : str) : result str :=
  h <-- HostForSite site ;; Ok («"wss://"» ++ h).

Definition HTTPEndpointForSite (site : str) : result str :=
  h <-- HostForSite site ;; Ok («"https://"» ++ h).

Definition ResolveWSEndpoint (override_ep site : str) : result str :=
  if negb (is_empty override_ep) then Ok override_ep else WSEndpointForSite site.

Definition ResolveHTTPEndpoint (override_ep site : str) : result str :=
  if negb (is_empty override_ep) then Ok override_ep else HTTPEndpointForSite site.

(** [class Credential], its constructor and its setters. *)
Record Credential := mkCredential {
  app_id_ : Z; sdk_app_id_ : Z; secret_key_ : str; user_sig_ : str; site_ : str
}.

Definition new_Credential (app_id sdk_app_id : Z) (secret_key : str) : Credential :=
  mkCredential app_id sdk_app_id secret_key [] [].

Definition set_user_sig (c : Credential) (user_sig : str) : Credential :=
  mkCredential (app_id_ c) (sdk_app_id_ c) (secret_key_ c) user_sig (site_ c).

Definition set_site (c : Credential) (site : str) : Credential :=
  mkCredential (app_id_ c) (sdk_app_id_ c) (secret_key_ c) (user_sig_ c) site.

Definition app_id_str (c : Credential) : str := to_string (app_id_ c).

(** ** The site table *)

(** [site] up to surrounding white space and letter case. *)
Definition same_site (site canonical : str) : Prop :=
  exists pre mid post,
    site = pre ++ mid ++ post /\ Forall isspace pre /\ Forall isspace post /\
    (tolower <$> mid) = canonical.

Lemma drop_front_spaces_app s :
  exists pre, s = pre ++ drop_front_spaces s /\ Forall isspace pre.
Proof.
  induction s as [|c s (pre & H & Hp)]; simpl; [exists []; auto|].
  destruct (isspace c) eqn:E; [|exists []; auto].
  exists (c :: pre). simpl. split; [by f_equal|]. constructor; [by rewrite E|done].
Qed.

Lemma drop_front_spaces_absorb pre s :
  Forall isspace pre -> drop_front_spaces (pre ++ s) = drop_front_spaces s.
Proof.
  induction 1 as [|c pre Hc _ IH]; simpl; [done|].
  destruct (isspace c); [done|]. destruct Hc.
Qed.

Lemma drop_front_spaces_keep c s :
  isspace c = false -> drop_front_spaces (c :: s) = c :: s.
Proof. intros H. simpl. by rewrite H. Qed.

Lemma trim_split s : exists pre post,
  s = pre ++ trim s ++ post /\ Forall isspace pre /\ Forall isspace post.
Proof.
  unfold trim, drop_back_spaces.
  destruct (drop_front_spaces_app s) as (pre & H1 & Hpre).
  destruct (drop_front_spaces_app (rev (drop_front_spaces s))) as (post & H2 & Hpost).
  exists pre, (rev post). split_and!; [|done|by apply Forall_rev].
  rewrite H1 at 1. f_equal. rewrite <- rev_app_distr, <- H2. symmetry. apply rev_involutive.
Qed.

(** Trimming stops exactly at the first and last non-space character. *)
Lemma trim_surrounded pre mid post :
  Forall isspace pre -> Forall isspace post ->
  (mid = [] \/ exists a m b, mid = a :: m /\ last mid = Some b /\
                isspace a = false /\ isspace b = false) ->
  trim (pre ++ mid ++ post) = mid.
Proof.
  intros Hpre Hpost Hmid. unfold trim, drop_back_spaces.
  rewrite drop_front_spaces_absorb by done.
  destruct Hmid as [->|(a & m & b & -> & Hb & Ha & Hbs)].
  - simpl. rewrite <- (app_nil_r post), drop_front_spaces_absorb by done. done.
  - change ((a :: m) ++ post) with (a :: m ++ post).
    rewrite drop_front_spaces_keep by done.
    change (a :: m ++ post) with ((a :: m) ++ post).
    rewrite rev_app_distr, drop_front_spaces_absorb by by apply Forall_rev.
    apply last_Some in Hb as [m' Hm']. rewrite Hm', rev_unit, drop_front_spaces_keep by done.
    cbn [rev]. by rewrite rev_involutive.
Qed.

Lemma tolower_nonspace c : isspace (tolower c) = isspace c.
Proof. apply eqb_prop. by_bytes c. Qed.

Lemma trim_site site canonical :
  Forall (fun c => isspace c = false) canonical ->
  same_site site canonical <-> (tolower <$> trim site) = canonical.
Proof.
  intros Hc. split.
  - intros (pre & mid & post & -> & Hpre & Hpost & Hmid).
    assert (Forall (fun c => isspace c = false) mid) as Hns.
    { rewrite <- Hmid, Forall_fmap in Hc. eapply Forall_impl; [exact Hc|].
      intros c. unfold compose. by rewrite tolower_nonspace. }
    rewrite trim_surrounded; [done..|].
    destruct mid as [|a m]; [by left|right].
    destruct (last (a :: m)) as [b|] eqn:Hb; [|apply last_None in Hb; done].
    exists a, m, b. rewrite Forall_forall in Hns. split_and!; try done.
    + apply Hns. by left.
    + apply Hns. apply last_Some in Hb as [l' ->]. set_solver.
  - intros <-. destruct (trim_split site) as (pre & post & H & ? & ?).
    exists pre, (trim site), post. auto.
Qed.

(** The hosts of the documented sites, up to case and surrounding space; any
    other site is refused. *)
Theorem HostForSite_correct site :
  (HostForSite site = Ok kHostCN <-> same_site site [] \/ same_site site kSiteCN) /\
  (HostForSite site = Ok kHostIntl <-> same_site site kSiteIntl) /\
  (error_code (HostForSite site) = Some kErrInvalidParam <->
     ~ same_site site [] /\ ~ same_site site kSiteCN /\ ~ same_site site kSiteIntl).
Proof.
  rewrite !trim_site by (repeat constructor). unfold HostForSite.
  generalize (tolower <$> trim site) as t. intros t.
  destruct (is_empty t) eqn:E; [apply is_empty_true in E as ->; naive_solver|].
  apply is_empty_false in E. cbn [orb].
  case_bool_decide; [naive_solver|]. case_bool_decide; naive_solver.
Qed.

Lemma ResolveWSEndpoint_override ep site : ep <> [] -> ResolveWSEndpoint ep site = Ok ep.
Proof. intros H. unfold ResolveWSEndpoint. by rewrite (proj2 (is_empty_false ep) H). Qed.
