(* ===== verification/SignatureParams.v ===== *)
(** * The signed query string of the realtime request
      (src/signature_params.cc, src/sdkinfo.cc)

    The parameters of a WebSocket request, the sorted map they are collected
    into, and the query string built from it.  The theorems: percent-encoding
    is undone by the Go [url.QueryUnescape] the service applies and emits only
    query-safe characters; the query string parses back to exactly the
    parameter map; and the map holds exactly the keys the protocol asks for,
    each under its documented condition. *)

From S2P Require Import Prelude StdMap Double Params Json.

Open Scope Z_scope.

(** ** Percent-encoding *)

Definition is_unreserved (ch : ascii) : bool :=
  let c := u8 ch in
  ((u8 "A" <=? c) && (c <=? u8 "Z")) || ((u8 "a" <=? c) && (c <=? u8 "z")) ||
  ((u8 "0" <=? c) && (c <=? u8 "9")) ||
  (c =? u8 "-") || (c =? u8 "_") || (c =? u8 ".") || (c =? u8 "~").

Definition kHex : str := «"0123456789ABCDEF"».

Definition escape_char (c : ascii) : str :=
  if is_unreserved c then [c]
  else if u8 c =? u8 " " then ["+"%char]
  else [ "%"%char;
         nth (Z.to_nat (Z.land (Z.shiftr (u8 c) 4) 0xF)) kHex "0"%char;
         nth (Z.to_nat (Z.land (u8 c) 0xF)) kHex "0"%char ].

Definition QueryEscape (s : str) : str := s ≫= escape_char.

(** The service's decoder: Go's [url.QueryUnescape]. *)
Definition unhex (c : ascii) : option Z :=
  let z := u8 c in
  if (u8 "0" <=? z) && (z <=? u8 "9") then Some (z - u8 "0")
  else if (u8 "a" <=? z) && (z <=? u8 "f") then Some (z - u8 "a" + 10)
  else if (u8 "A" <=? z) && (z <=? u8 "F") then Some (z - u8 "A" + 10)
  else None.

Fixpoint QueryUnescape (s : str) : option str :=
  match s with
  | [] => Some []
  | c :: s' =>
      if char_eqb c "%" then
        match s' with
        | a :: b :: s'' =>
            h ← unhex a; l ← unhex b; r ← QueryUnescape s''; Some (byte_of (16 * h + l) :: r)
        | _ => None
        end
      else if char_eqb c "+" then r ← QueryUnescape s'; Some (" "%char :: r)
      else r ← QueryUnescape s'; Some (c :: r)
  end.

(** ** SDK identification (src/sdkinfo.cc) *)

(** The preprocessor macros [SdkPlatform] tests. *)
Record target := mkTarget {
  _WIN32 : bool; __ANDROID__ : bool; __APPLE__ : bool; TARGET_OS_IPHONE : bool;
  __linux__ : bool
}.

Definition kSdkVersion : str := «"2.0.0"».
Definition kSdkLanguage : str := «"cpp"».
Definition kSdkType : str := «"server"».

Definition SdkPlatform (t : target) : str :=
  if _WIN32 t then «"windows"»
  else if __ANDROID__ t then «"android"»
  else if __APPLE__ t then (if TARGET_OS_IPHONE t then «"ios"» else «"mac"»)
  else if __linux__ t then «"linux"»
  else «"unknown"».

Definition SdkReportParams (t : target) : list (str * str) :=
  map_set_all
    [ («"platform"», SdkPlatform t); («"sdk_lang"», kSdkLanguage);
      («"sdk_type"», kSdkType); («"version"», kSdkVersion) ] [].

(** The loop shared by the three query builders: [for (const auto& [k, v] : m)]. *)
Definition query_step (out : str) (kv : str * str) : str :=
  (if is_empty out then out else out ++ «"&"») ++ kv.1 ++ «"="» ++ QueryEscape kv.2.

Definition query_loop (m : list (str * str)) : str := foldl query_step [] m.

Definition SdkReportQuery (t : target) : str := query_loop (SdkReportParams t).

(** ** The parameters *)

Record SignatureParams := mkSignatureParams {
  app_id : Z; timestamp : Z; expired : Z; nonce : Z;
  engine_model_type : str; voice_id : str; voice_format : Z; need_vad : Z;
  sdk_app_id : Z;
  hotword_id : str; hotword_list : str; customization_id : str; replace_text_id : str;
  filter_dirty : Z; filter_modal : Z; filter_punc : Z; convert_num_mode : Z;
  word_info : Z; vad_silence_time : Z; max_speak_time : Z; input_sample_rate : Z;
  language : str;
  filter_empty_result : option Z; vad_level : option Z; noise_threshold : option double;
  speaker_diarization : Z; enable_speaker_context : Z; speaker_context_id : str;
  speaker_number : Z; speaker_roles : list SpeakerRole; voiceprint_ids : list str
}.

(** The constructor, at system time [now] (seconds) and with [rng] the next
    32-bit output of the Mersenne twister. *)
Definition new_SignatureParams (app_id : Z) (engine_model_type voice_id : str) (now rng : Z)
    : SignatureParams :=
  mkSignatureParams app_id now (now + 86400) (rng mod 9999999 + 1)
    engine_model_type voice_id 1 1 0 [] [] [] [] 0 0 0 1 0 0 0 0 []
    None None None 0 0 [] 0 [] [].

Section Query.
Context (float_text : double -> str) (t : target).

Definition set_if (b : bool) (k : str) (v : str) (m : list (str * str)) : list (str * str) :=
  if b then map_set k v m else m.

(** [if (b) { ... }] around a block of assignments. *)
Definition when_do {A} (b : bool) (f : A -> A) (m : A) : A := if b then f m else m.

(** The voiceprint block: the two serialized arrays, mode 3 only. *)
Definition voiceprint_params (p : SignatureParams) (m : list (str * str))
    : result (list (str * str)) :=
  if speaker_diarization p =? kSpeakerDiarizationVoiceprint then
    m <--
      (if negb (is_empty (speaker_roles p)) then
         v <-- SerializeSpeakerRoles float_text (speaker_roles p) ;;
         Ok (map_set «"speaker_roles"» v m)
       else Ok m) ;;
    if negb (is_empty (voiceprint_ids p)) then
      v <-- SerializeStringArray float_text (voiceprint_ids p) ;;
      Ok (map_set «"voiceprintids"» v m)
    else Ok m
  else Ok m.

Definition ToMap (p : SignatureParams) : result (list (str * str)) :=
  let m := [] in
  let m := map_set «"secretid"» (to_string (app_id p)) m in
  let m := map_set «"timestamp"» (to_string (timestamp p)) m in
  let m := map_set «"expired"» (to_string (expired p)) m in
  let m := map_set «"nonce"» (to_string (nonce p)) m in
  let m := map_set «"engine_model_type"» (engine_model_type p) m in
  let m := map_set «"voice_id"» (voice_id p) m in
  let m := map_set «"voice_format"» (to_string (voice_format p)) m in
  let m := map_set «"needvad"» (to_string (need_vad p)) m in
  let m := map_set_all (SdkReportParams t) m in
  let m := set_if (0 <? sdk_app_id p) «"sdkappid"» (to_string (sdk_app_id p)) m in
  let m := set_if (negb (is_empty (hotword_id p))) «"hotword_id"» (hotword_id p) m in
  let m := set_if (negb (is_empty (hotword_list p))) «"hotword_list"» (hotword_list p) m in
  let m := set_if (negb (is_empty (customization_id p)))
             «"customization_id"» (customization_id p) m in
  let m := set_if (negb (is_empty (replace_text_id p)))
             «"replace_text_id"» (replace_text_id p) m in
  let m := set_if (negb (filter_dirty p =? 0)) «"filter_dirty"» (to_string (filter_dirty p)) m in
  let m := set_if (negb (filter_modal p =? 0)) «"filter_modal"» (to_string (filter_modal p)) m in
  let m := set_if (negb (filter_punc p =? 0)) «"filter_punc"» (to_string (filter_punc p)) m in
  let m := set_opt «"filter_empty_result"» (to_string <$> filter_empty_result p) m in
  let m := set_if (negb (convert_num_mode p =? 0))
             «"convert_num_mode"» (to_string (convert_num_mode p)) m in
  let m := set_if (negb (word_info p =? 0)) «"word_info"» (to_string (word_info p)) m in
  let m := set_if (negb (vad_silence_time p =? 0))
             «"vad_silence_time"» (to_string (vad_silence_time p)) m in
  let m := set_if (negb (max_speak_time p =? 0))
             «"max_speak_time"» (to_string (max_speak_time p)) m in
  let m := set_if (negb (input_sample_rate p =? 0))
             «"input_sample_rate"» (to_string (input_sample_rate p)) m in
  let m := set_opt «"vad_level"» (to_string <$> vad_level p) m in
  (* [char buf[32]]: the conversion is cut at 31 characters *)
  let m := set_opt «"noise_threshold"»
             ((fun v => take 31 (fmt_fixed 3 v)) <$> noise_threshold p) m in
  let m :=
    when_do (negb (enable_speaker_context p =? 0)) (fun m =>
      let m := map_set «"enable_speaker_context"» (to_string (enable_speaker_context p)) m in
      set_if (negb (is_empty (speaker_context_id p)))
        «"speaker_context_id"» (speaker_context_id p) m) m in
  let m :=
    when_do (negb (speaker_diarization p =? 0)) (fun m =>
      let m := map_set «"speaker_diarization"» (to_string (speaker_diarization p)) m in
      set_if (negb (speaker_number p =? 0))
        «"speaker_number"» (to_string (speaker_number p)) m) m in
  m <-- voiceprint_params p m ;;
  Ok (set_if (negb (is_empty (language p))) «"language"» (language p) m).

Definition BuildQueryString (p : SignatureParams) : result str :=
  params <-- ToMap p ;; Ok (query_loop params).

Definition BuildQueryStringWithSignature (p : SignatureParams) (user_sig : str) : result str :=
  params <-- ToMap p ;;
  let params := map_set «"signature"» user_sig params in
  let params := map_set «"usersig"» user_sig params in
  Ok (query_loop params).
End Query.

(** ** Percent-encoding is undone by the service *)

Lemma unreserved_plain c :
  is_unreserved c = true -> char_eqb c "%" = false /\ char_eqb c "+" = false.
Proof.
  intros H. assert (implb (is_unreserved c) (negb (char_eqb c "%") && negb (char_eqb c "+")) = true)
    as Hc by (clear H; by_bytes c).
  rewrite H in Hc. destruct (char_eqb c "%"), (char_eqb c "+"); done.
Qed.

(** The two hexadecimal digits of a byte read back as the byte. *)
Definition hex_ok (c : ascii) : bool :=
  let hi := nth (Z.to_nat (Z.land (Z.shiftr (u8 c) 4) 0xF)) kHex "0"%char in
  let lo := nth (Z.to_nat (Z.land (u8 c) 0xF)) kHex "0"%char in
  match unhex hi, unhex lo with
  | Some h, Some l => char_eqb (byte_of (16 * h + l)) c
  | _, _ => false
  end.

Lemma hex_ok_all c : hex_ok c = true.
Proof. by_bytes c. Qed.

Lemma unescape_char c r :
  QueryUnescape (escape_char c ++ r) = (fun r => c :: r) <$> QueryUnescape r.
Proof.
  unfold escape_char. destruct (is_unreserved c) eqn:E.
  - destruct (unreserved_plain c E) as [H1 H2]. cbn [app QueryUnescape]. rewrite H1, H2.
    by destruct (QueryUnescape r).
  - destruct (Z.eqb_spec (u8 c) (u8 " ")) as [Hc|Hc].
    + apply u8_inj in Hc as ->. simpl. by destruct (QueryUnescape r).
    + pose proof (hex_ok_all c) as Hh. unfold hex_ok in Hh. cbn [app QueryUnescape].
      set (hi := nth (Z.to_nat (Z.land (Z.shiftr _ _) _)) _ _) in *.
      set (lo := nth (Z.to_nat (Z.land (u8 c) _)) _ _) in *.
      change (char_eqb "%" "%") with true. cbn iota.
      destruct (unhex hi) as [h|]; [|done]. destruct (unhex lo) as [l|]; [|done]. simpl.
      apply bool_decide_eq_true in Hh. rewrite Hh. by destruct (QueryUnescape r).
Qed.

Lemma QueryUnescape_QueryEscape s : QueryUnescape (QueryEscape s) = Some s.
Proof.
  unfold QueryEscape. induction s as [|c s IH]; [done|]. cbn [mbind list_bind].
  rewrite unescape_char. by rewrite IH.
Qed.

Definition query_safe (c : ascii) : bool :=
  is_unreserved c || char_eqb c "+" || char_eqb c "%".

Lemma escape_char_safe c : Forall query_safe (escape_char c).
Proof.
  assert (forallb query_safe (escape_char c) = true) as H by by_bytes c.
  apply Forall_forall. intros x Hx. apply Is_true_true.
  by apply (proj1 (forallb_forall _ _) H), list_elem_of_In.
Qed.

Lemma QueryEscape_safe s : Forall query_safe (QueryEscape s).
Proof.
  unfold QueryEscape. induction s as [|c s IH]; [constructor|].
  cbn [mbind list_bind]. apply Forall_app. split; [apply escape_char_safe|exact IH].
Qed.

(** What [QueryEscape] writes can stand in a query, and the service's decoder
    reads the value back. *)
Theorem QueryEscape_correct s :
  QueryUnescape (QueryEscape s) = Some s /\ Forall query_safe (QueryEscape s).
Proof. split; [apply QueryUnescape_QueryEscape|apply QueryEscape_safe]. Qed.

Lemma QueryEscape_unreserved s : Forall is_unreserved s -> QueryEscape s = s.
Proof.
  unfold QueryEscape. induction 1 as [|c s Hc _ IH]; [done|].
  cbn [mbind list_bind]. unfold escape_char at 1. destruct (is_unreserved c); [|done].
  simpl. by f_equal.
Qed.

(** ** The query string parses back to the map

    [ParseQuery] is the service's reader: split at ['&'], split each piece at
    its first ['='], decode both halves. *)

Definition parse_pair (s : str) : option (str * str) :=
  match find [ "="%char ] s with
  | Some i => k ← QueryUnescape (take i s); v ← QueryUnescape (drop (S i) s); Some (k, v)
  | None => None
  end.

Definition ParseQuery (s : str) : option (list (str * str)) :=
  mapM parse_pair (split_on "&" s).

Definition key_ok (k : str) : Prop := k <> [] /\ Forall is_unreserved k.

Definition pair_str (kv : str * str) : str := kv.1 ++ «"="» ++ QueryEscape kv.2.

Lemma safe_not_in c s (f : ascii -> bool) : f c = false -> Forall f s -> c ∉ s.
Proof.
  intros Hc Hs Hin. rewrite Forall_forall in Hs. specialize (Hs c Hin). by rewrite Hc in Hs.
Qed.

Lemma pair_str_no_amp kv : key_ok kv.1 -> "&"%char ∉ pair_str kv.
Proof.
  intros [_ Hk]. unfold pair_str. rewrite !not_elem_of_app. split_and!.
  - by apply (safe_not_in _ _ is_unreserved).
  - intros Hin. by apply list_elem_of_In in Hin as [|[]].
  - apply (safe_not_in _ _ query_safe); [done|apply QueryEscape_safe].
Qed.

Lemma parse_pair_str kv : key_ok kv.1 -> parse_pair (pair_str kv) = Some kv.
Proof.
  intros [_ Hk]. unfold parse_pair, pair_str. change («"="») with ["="%char]. cbn [app].
  rewrite find_char_app by by apply (safe_not_in _ _ is_unreserved).
  rewrite take_app_length, <- (QueryEscape_unreserved kv.1) at 1 by done.
  rewrite QueryUnescape_QueryEscape. simpl.
  replace (drop (S (length kv.1)) (kv.1 ++ "="%char :: QueryEscape kv.2)) with (QueryEscape kv.2).
  - rewrite QueryUnescape_QueryEscape. simpl. by destruct kv.
  - change ("="%char :: QueryEscape kv.2) with (["="%char] ++ QueryEscape kv.2).
    rewrite app_assoc. symmetry. apply drop_app_length'. rewrite length_app. simpl. lia.
Qed.

Lemma query_step_foldl out m :
  out <> [] ->
  Forall (fun kv => key_ok kv.1) m ->
  foldl query_step out m = out ++ (m ≫= fun kv => "&"%char :: pair_str kv).
Proof.
  intros Hout Hm. revert out Hout. induction Hm as [|kv m Hk _ IH]; intros out Hout; simpl.
  - by rewrite app_nil_r.
  - rewrite IH.
    + unfold query_step. rewrite (proj2 (is_empty_false out) Hout).
      unfold pair_str. rewrite <- !app_assoc. done.
    + unfold query_step. destruct Hk as [Hk _]. destruct (is_empty out) eqn:E.
      * by apply is_empty_true in E.
      * by destruct out.
Qed.

Lemma query_loop_cons kv m :
  Forall (fun kv => key_ok kv.1) (kv :: m) ->
  query_loop (kv :: m) = pair_str kv ++ (m ≫= fun kv => "&"%char :: pair_str kv).
Proof.
  intros [[Hk _] Hm]%Forall_cons. unfold query_loop. cbn [foldl].
  change (query_step [] kv) with (pair_str kv).
  apply query_step_foldl; [|done]. unfold pair_str. by destruct kv.1.
Qed.

(** Only ['='], ['&'] and the characters of escaped text occur in a query. *)
Lemma query_loop_plain m c :
  query_safe c = false -> c <> "="%char -> c <> "&"%char ->
  Forall (fun kv => key_ok kv.1) m -> c ∉ query_loop m.
Proof.
  intros Hc He Ha Hm.
  assert (is_unreserved c = false) as Hu.
  { unfold query_safe in Hc. by destruct (is_unreserved c). }
  assert (forall kv, key_ok kv.1 -> c ∉ pair_str kv) as Hp.
  { intros kv [_ Hk]. unfold pair_str. rewrite !not_elem_of_app. split_and!.
    - by apply (safe_not_in _ _ is_unreserved).
    - intros Hin. by apply list_elem_of_singleton in Hin.
    - by apply (safe_not_in _ _ query_safe); [|apply QueryEscape_safe]. }
  destruct m as [|kv m]; [apply not_elem_of_nil|]. rewrite query_loop_cons by done.
  apply Forall_cons in Hm as [Hk Hm]. apply not_elem_of_app. split; [by apply Hp|].
  intros Hin. apply list_elem_of_bind in Hin as (kv' & Hin & Hkv').
  rewrite Forall_forall in Hm. apply elem_of_cons in Hin as [|Hin]; [done|].
  by apply (Hp kv'); [apply Hm|].
Qed.

Lemma query_loop_parses m :
  m <> [] -> Forall (fun kv => key_ok kv.1) m -> ParseQuery (query_loop m) = Some m.
Proof.
  intros Hne Hm. destruct m as [|kv m]; [done|]. rewrite query_loop_cons by done.
  apply Forall_cons in Hm as [Hk Hm].
  unfold ParseQuery. clear Hne. revert kv Hk. induction Hm as [|kv' m Hk' _ IH]; intros kv Hk.
  - simpl. rewrite app_nil_r, split_on_nil by by apply pair_str_no_amp. simpl.
    by rewrite parse_pair_str.
  - cbn [mbind list_bind app]. rewrite split_on_app by by apply pair_str_no_amp.
    cbn [mapM]. rewrite parse_pair_str by done. simpl.
    by rewrite IH.
Qed.

(** ** What the map holds

    [wire_entries p rj ij] lists every key of the protocol with its value, or
    [None] where the parameter is not sent; [rj] and [ij] are the serialized
    role and voiceprint arrays. *)

Definition wire_entries (t : target) (p : SignatureParams) (rj ij : str)
    : list (str * option str) :=
  let voiceprint := speaker_diarization p =? 3 in
  [ («"secretid"», Some (to_string (app_id p)));
    («"timestamp"», Some (to_string (timestamp p)));
    («"expired"», Some (to_string (expired p)));
    («"nonce"», Some (to_string (nonce p)));
    («"engine_model_type"», Some (engine_model_type p));
    («"voice_id"», Some (voice_id p));
    («"voice_format"», Some (to_string (voice_format p)));
    («"needvad"», Some (to_string (need_vad p)));
    («"platform"», Some (SdkPlatform t));
    («"sdk_lang"», Some kSdkLanguage);
    («"sdk_type"», Some kSdkType);
    («"version"», Some kSdkVersion);
    («"sdkappid"», when (0 <? sdk_app_id p) (to_string (sdk_app_id p)));
    («"hotword_id"», when (negb (is_empty (hotword_id p))) (hotword_id p));
    («"hotword_list"», when (negb (is_empty (hotword_list p))) (hotword_list p));
    («"customization_id"», when (negb (is_empty (customization_id p))) (customization_id p));
    («"replace_text_id"», when (negb (is_empty (replace_text_id p))) (replace_text_id p));
    («"filter_dirty"», when (negb (filter_dirty p =? 0)) (to_string (filter_dirty p)));
    («"filter_modal"», when (negb (filter_modal p =? 0)) (to_string (filter_modal p)));
    («"filter_punc"», when (negb (filter_punc p =? 0)) (to_string (filter_punc p)));
    («"filter_empty_result"», to_string <$> filter_empty_result p);
    («"convert_num_mode"», when (negb (convert_num_mode p =? 0)) (to_string (convert_num_mode p)));
    («"word_info"», when (negb (word_info p =? 0)) (to_string (word_info p)));
    («"vad_silence_time"», when (negb (vad_silence_time p =? 0)) (to_string (vad_silence_time p)));
    («"max_speak_time"», when (negb (max_speak_time p =? 0)) (to_string (max_speak_time p)));
    («"input_sample_rate"»,
      when (negb (input_sample_rate p =? 0)) (to_string (input_sample_rate p)));
    («"vad_level"», to_string <$> vad_level p);
    («"noise_threshold"», (fun v => take 31 (fmt_fixed 3 v)) <$> noise_threshold p);
    («"enable_speaker_context"»,
      when (negb (enable_speaker_context p =? 0)) (to_string (enable_speaker_context p)));
    («"speaker_context_id"»,
      when (negb (enable_speaker_context p =? 0) && negb (is_empty (speaker_context_id p)))
        (speaker_context_id p));
    («"speaker_diarization"»,
      when (negb (speaker_diarization p =? 0)) (to_string (speaker_diarization p)));
    («"speaker_number"»,
      when (negb (speaker_diarization p =? 0) && negb (speaker_number p =? 0))
        (to_string (speaker_number p)));
    («"speaker_roles"», when (voiceprint && negb (is_empty (speaker_roles p))) rj);
    («"voiceprintids"», when (voiceprint && negb (is_empty (voiceprint_ids p))) ij);
    («"language"», when (negb (is_empty (language p))) (language p)) ].

Lemma set_if_opt b k v m : set_if b k v m = set_opt k (when b v) m.
Proof. by destruct b. Qed.

Lemma when_do_block b1 k1 v1 b2 k2 v2 m :
  when_do b1 (fun m => set_if b2 k2 v2 (map_set k1 v1 m)) m =
  set_opt k2 (when (b1 && b2) v2) (set_opt k1 (when b1 v1) m).
Proof. by destruct b1, b2. Qed.

Lemma SdkReportParams_eq t :
  SdkReportParams t =
    [ («"platform"», SdkPlatform t); («"sdk_lang"», kSdkLanguage);
      («"sdk_type"», kSdkType); («"version"», kSdkVersion) ].
Proof. reflexivity. Qed.

Section Theorems.
Context (float_text : double -> str) (t : target).

Definition roles_json (p : SignatureParams) : result str :=
  if (speaker_diarization p =? 3) && negb (is_empty (speaker_roles p))
  then SerializeSpeakerRoles float_text (speaker_roles p) else Ok [].

Definition ids_json (p : SignatureParams) : result str :=
  if (speaker_diarization p =? 3) && negb (is_empty (voiceprint_ids p))
  then SerializeStringArray float_text (voiceprint_ids p) else Ok [].

Lemma voiceprint_params_entries p m :
  voiceprint_params float_text p m =
    (rj <-- roles_json p ;; ij <-- ids_json p ;;
     Ok (set_opt «"voiceprintids"»
           (when ((speaker_diarization p =? 3) && negb (is_empty (voiceprint_ids p))) ij)
           (set_opt «"speaker_roles"»
              (when ((speaker_diarization p =? 3) && negb (is_empty (speaker_roles p))) rj) m))).
Proof.
  unfold voiceprint_params, roles_json, ids_json, kSpeakerDiarizationVoiceprint.
  destruct (speaker_diarization p =? 3); [|done].
  destruct (is_empty (speaker_roles p)), (is_empty (voiceprint_ids p)); simpl; try done;
    repeat (destruct (SerializeSpeakerRoles _ _); simpl; try done);
    repeat (destruct (SerializeStringArray _ _); simpl; try done).
Qed.

Lemma ToMap_entries p :
  ToMap float_text t p =
    (rj <-- roles_json p ;; ij <-- ids_json p ;;
     Ok (set_entries (wire_entries t p rj ij) [])).
Proof.
  unfold ToMap. cbv zeta.
  rewrite SdkReportParams_eq, !when_do_block, !set_if_opt, voiceprint_params_entries.
  destruct (roles_json p) as [rj|]; [|done].
  destruct (ids_json p) as [ij|]; [|done].
  cbn [rbind]. rewrite set_if_opt. reflexivity.
Qed.

Definition wire_keys : list str :=
  (wire_entries t (new_SignatureParams 0 [] [] 0 0) [] []).*1.

Lemma wire_entries_keys p rj ij : (wire_entries t p rj ij).*1 = wire_keys.
Proof. reflexivity. Qed.

Lemma wire_keys_nodup : NoDup wire_keys.
Proof. apply (bool_decide_unpack _). vm_compute. exact I. Qed.

Lemma wire_keys_ok : Forall key_ok wire_keys.
Proof.
  assert (forallb (fun k => negb (is_empty k) && forallb is_unreserved k) wire_keys = true)
    as H by (vm_compute; reflexivity).
  apply Forall_forall. intros k Hk.
  apply list_elem_of_In in Hk. pose proof (proj1 (forallb_forall _ _) H k Hk) as Hb.
  apply andb_prop in Hb as [H1 H2]. split.
  - apply is_empty_false. by destruct (is_empty k).
  - apply Forall_forall. intros c Hc. apply Is_true_true.
    by apply (proj1 (forallb_forall _ _) H2), list_elem_of_In.
Qed.

(** The value sent under [k], looked up in the entry list. *)
Definition wire_value (p : SignatureParams) (rj ij : str) (k : str) : option str :=
  entry (wire_entries t p rj ij) k.

Lemma ToMap_ok p m :
  ToMap float_text t p = Ok m ->
  exists rj ij, roles_json p = Ok rj /\ ids_json p = Ok ij /\
    m = set_entries (wire_entries t p rj ij) [].
Proof.
  rewrite ToMap_entries. intros H.
  apply rbind_ok in H as (rj & Hrj & H). apply rbind_ok in H as (ij & Hij & H).
  apply Ok_inj in H. exists rj, ij. auto.
Qed.

Lemma ToMap_find p m :
  ToMap float_text t p = Ok m ->
  map_wf m /\
  exists rj ij, roles_json p = Ok rj /\ ids_json p = Ok ij /\
    forall k, map_find k m = wire_value p rj ij k.
Proof.
  intros H. apply ToMap_ok in H as (rj & ij & Hrj & Hij & ->).
  split; [apply set_entries_wf, map_wf_nil|]. exists rj, ij. split_and!; [done..|].
  intros k. apply set_entries_entry. rewrite wire_entries_keys. apply wire_keys_nodup.
Qed.

Lemma ToMap_keys_ok p m :
  ToMap float_text t p = Ok m -> Forall (fun kv : str * str => key_ok kv.1) m.
Proof.
  intros H. apply ToMap_ok in H as (rj & ij & _ & _ & ->).
  apply set_entries_keys; [|constructor].
  apply (Forall_fmap fst key_ok). rewrite wire_entries_keys. apply wire_keys_ok.
Qed.

Lemma ToMap_not_empty p m : ToMap float_text t p = Ok m -> m <> [].
Proof.
  intros (_ & rj & ij & _ & _ & H)%ToMap_find ->. by specialize (H «"secretid"»).
Qed.

(** The query of [BuildQueryString], read by the service: every parameter under
    its key, exactly the values [wire_value] tabulates, and nothing else. *)
Theorem BuildQueryString_correct p q :
  BuildQueryString float_text t p = Ok q ->
  exists m rj ij,
    ParseQuery q = Some m /\ map_wf m /\ roles_json p = Ok rj /\ ids_json p = Ok ij /\
    forall k, map_find k m = wire_value p rj ij k.
Proof.
  unfold BuildQueryString. intros (m & Hm & E)%rbind_ok. apply Ok_inj in E as <-.
  pose proof (ToMap_find _ _ Hm) as (Hwf & rj & ij & Hr & Hi & Hf).
  exists m, rj, ij. split_and!; [|done..].
  apply query_loop_parses; [by eapply ToMap_not_empty|by eapply ToMap_keys_ok].
Qed.

(** The whole request query: the service reads back the parameter map, with
    the UserSig under both [signature] and [usersig]. *)
(** The keys of a signed request can stand in a query as they are. *)
Lemma signed_keys_ok p user_sig m :
  ToMap float_text t p = Ok m ->
  Forall (fun kv => key_ok kv.1) (map_set «"usersig"» user_sig (map_set «"signature"» user_sig m)).
Proof.
  intros Hm. apply ToMap_keys_ok in Hm.
  apply (set_entries_keys [(«"signature"», Some user_sig); («"usersig"», Some user_sig)]);
    [|done].
  repeat apply Forall_cons_2; [| |constructor];
    (split; [done|]; apply Forall_forall; intros c Hc;
     apply list_elem_of_In in Hc; simpl in Hc;
     repeat destruct Hc as [<-|Hc]; done).
Qed.

Lemma BuildQueryStringWithSignature_parses p user_sig q :
  BuildQueryStringWithSignature float_text t p user_sig = Ok q ->
  exists m entries,
    ToMap float_text t p = Ok m /\ ParseQuery q = Some entries /\ map_wf entries /\
    to_gmap entries =
      <[ «"usersig"» := user_sig ]> (<[ «"signature"» := user_sig ]> (to_gmap m)).
Proof.
  unfold BuildQueryStringWithSignature. intros H.
  apply rbind_ok in H as (m & Hm & H). apply Ok_inj in H as <-.
  pose proof (signed_keys_ok _ user_sig _ Hm) as Hk. apply ToMap_find in Hm as Hwf.
  exists m, (map_set «"usersig"» user_sig (map_set «"signature"» user_sig m)).
  split_and!; [done| |by apply map_set_wf, map_set_wf, Hwf|by rewrite !to_gmap_set].
  apply query_loop_parses; [|done].
  intros E. apply (f_equal to_gmap) in E. rewrite to_gmap_set in E.
  apply (f_equal (lookup «"usersig"»)) in E. by rewrite lookup_insert_eq in E.
Qed.

(** A signed query is made of escaped text, ['='] and ['&']. *)
Lemma BuildQueryStringWithSignature_plain p user_sig q c :
  BuildQueryStringWithSignature float_text t p user_sig = Ok q ->
  query_safe c = false -> c <> "="%char -> c <> "&"%char -> c ∉ q.
Proof.
  unfold BuildQueryStringWithSignature. intros H Hc He Ha.
  apply rbind_ok in H as (m & Hm & H). apply Ok_inj in H as <-.
  apply query_loop_plain; [done..|]. by eapply signed_keys_ok.
Qed.
End Theorems.

(** The nonce is a positive 32-bit integer of at most seven digits, and a
    fresh request expires a day after its timestamp. *)
Lemma new_SignatureParams_ranges id engine voice now rng :
  let p := new_SignatureParams id engine voice now rng in
  1 <= nonce p <= 9999999 /\ expired p = timestamp p + 86400.
Proof.
  cbn. pose proof (Z.mod_pos_bound rng 9999999 eq_refl). lia.
Qed.

(** ** Witnesses *)

Definition linux_target : target := mkTarget false false false false true.
Definition demo_params : SignatureParams :=
  new_SignatureParams 1400000000 «"16k_zh"» «"voice-1"» 1700000000 41.

Lemma BuildQueryString_correct_witness :
  exists m rj ij, ParseQuery (default [] (match BuildQueryString (fun _ => []) linux_target demo_params
                                         with Ok q => Some q | Throw _ => None end)) = Some m /\
    map_wf m /\ roles_json (fun _ => []) demo_params = Ok rj /\
    ids_json (fun _ => []) demo_params = Ok ij /\
    forall k, map_find k m = wire_value linux_target demo_params rj ij k.
Proof.
  apply (BuildQueryString_correct (fun _ => []) linux_target demo_params). vm_compute. reflexivity.
Defined.
