(* ===== verification/UserSig.v ===== *)
(** * UserSig tickets (src/usersig.cc, GenUserSig)

    The TLS-sig ticket: a signed content, a JSON document carrying the
    signature, zlib, Tencent base64url.  zlib is third-party: the class [Zlib]
    is the call the source makes and [ZlibOk] its documented contract.  The
    theorems: what a verifier recovers from a ticket, the exact error
    conditions, that the signed content determines every field, and that a
    JSON reader recovers the escaped identifier. *)

From S2P Require Import Prelude Decimal Base64 Sha256 Json Credential.

Open Scope Z_scope.

Definition kDefaultExpire : Z := 86400 * 180.
Definition Z_OK : Z := 0.

(** [compress2] at the default level: the return code and the output written. *)
Class Zlib := { compress2 : str -> Z * str; uncompress : str -> option str }.

(** zlib's contract: a buffer of [compressBound] bytes suffices, so
    compression succeeds, and decompression inverts it. *)
Class ZlibOk `{Zlib} : Prop := {
  compress2_ok : forall d, (compress2 d).1 = Z_OK;
  uncompress_compress2 : forall d, uncompress (compress2 d).2 = Some d
}.

Definition ZlibCompress `{Zlib} (data : str) : result str :=
  let '(rc, out) := compress2 data in
  if negb (rc =? Z_OK)
  then throw_asr kErrInvalidParam («"zlib compress failed: "» ++ to_string rc)
  else Ok out.

Definition json_escape_char (c : ascii) : str :=
  if u8 c =? 0x22 then backslash :: dquote
  else if char_eqb c backslash then [backslash; backslash]
  else if u8 c =? 10 then [backslash; "n"%char]
  else if u8 c =? 13 then [backslash; "r"%char]
  else if u8 c =? 9 then [backslash; "t"%char]
  else if u8 c <? 0x20 then backslash :: "u"%char :: hex4 (u8 c)
  else [c].

Definition JsonEscape (s : str) : str := s ≫= json_escape_char.

Definition newline : str := ["010"%char].

(** The signed content and the JSON document of the ticket. *)
Definition sig_content (sdk_app_id : Z) (user_id : str) (expire now : Z) : str :=
  «"TLS.identifier:"» ++ user_id ++ newline ++
  «"TLS.sdkappid:"» ++ to_string sdk_app_id ++ newline ++
  «"TLS.time:"» ++ to_string now ++ newline ++
  «"TLS.expire:"» ++ to_string expire ++ newline.

Definition quoted (s : str) : str := dquote ++ s ++ dquote.

Definition sig_doc (sdk_app_id : Z) (user_id : str) (expire now : Z) (sig : str) : str :=
  «"{"» ++
  quoted «"TLS.ver"» ++ «":"» ++ quoted «"2.0"» ++ «","» ++
  quoted «"TLS.identifier"» ++ «":"» ++ quoted (JsonEscape user_id) ++ «","» ++
  quoted «"TLS.sdkappid"» ++ «":"» ++ to_string sdk_app_id ++ «","» ++
  quoted «"TLS.expire"» ++ «":"» ++ to_string expire ++ «","» ++
  quoted «"TLS.time"» ++ «":"» ++ to_string now ++ «","» ++
  quoted «"TLS.sig"» ++ «":"» ++ quoted (Base64Encode sig) ++
  «"}"» ++ newline.

Definition GenUserSigAt `{Zlib} (sdk_app_id : Z) (key user_id : str) (expire now : Z)
    : result str :=
  (if is_empty key then throw_asr kErrInvalidParam «"secret key is empty"» else Ok tt) ;;;
  (if is_empty user_id then throw_asr kErrInvalidParam «"user id is empty"» else Ok tt) ;;;
  let content := sig_content sdk_app_id user_id expire now in
  let sig := HmacSha256 key content in
  let doc := sig_doc sdk_app_id user_id expire now sig in
  z <-- ZlibCompress doc ;;
  Ok (Base64UrlEncode z).

(** [GenUserSig], at system time [now]. *)
Definition GenUserSig `{Zlib} (sdk_app_id : Z) (key user_id : str) (expire now : Z)
    : result str :=
  let expire := if expire <=? 0 then kDefaultExpire else expire in
  GenUserSigAt sdk_app_id key user_id expire now.

(** The ticket of a request: the credential's own, or one made on the spot for
    [user_id], whose failure is an authentication error.  The credential is not
    changed. *)
Definition resolve_user_sig `{Zlib} (c : Credential) (user_id : str) (now : Z) : result str :=
  if is_empty (user_sig_ c) then
    try_catch (GenUserSig (sdk_app_id_ c) (secret_key_ c) user_id 86400 now) (fun e =>
      match e with
      | AsrExn e => throw_asr kErrAuthFailed («"generate user sig failed: "» ++ message_ e)
      | StdExn _ => Throw e
      end)
  else Ok (user_sig_ c).

Lemma resolve_user_sig_throw `{Zlib} c user_id now e :
  resolve_user_sig c user_id now = Throw e -> exists m, e = AsrExn (asr_error kErrAuthFailed m).
Proof.
  unfold resolve_user_sig, GenUserSig, GenUserSigAt, ZlibCompress.
  destruct (is_empty (user_sig_ c)); [|done].
  destruct (is_empty (secret_key_ c)); [intros [= <-]; by eexists|].
  destruct (is_empty user_id); [intros [= <-]; by eexists|]. cbn [rbind].
  destruct (compress2 _) as [rc out]. destruct (negb (rc =? Z_OK)); [intros [= <-]; by eexists|done].
Qed.

(** ** A JSON reader recovers the escaped identifier *)

Lemma read_escape_char c t :
  read_literal (json_escape_char c ++ t) =
  '(r, rest) ← read_literal t; Some (c :: r, rest).
Proof. destruct c as [[] [] [] [] [] [] [] []]; reflexivity. Qed.

(** A JSON reader recovers the user id from the document of a ticket. *)
Theorem JsonEscape_roundtrip s rest :
  read_literal (JsonEscape s ++ dquote ++ rest) = Some (s, rest).
Proof.
  unfold JsonEscape. induction s as [|c s IH]; [reflexivity|].
  rewrite bind_cons, <- app_assoc, read_escape_char, IH. reflexivity.
Qed.

(** ** The signed content determines the fields *)

Lemma lit_not_in c (l : str) : forallb (fun d => negb (char_eqb c d)) l = true -> c ∉ l.
Proof.
  intros H Hin. apply list_elem_of_In in Hin.
  pose proof (proj1 (forallb_forall _ _) H c Hin) as Hc. unfold char_eqb in Hc.
  by rewrite bool_decide_eq_true_2 in Hc.
Qed.

Lemma split_line (l v r : str) :
  "010"%char ∉ l -> "010"%char ∉ v ->
  split_on "010" (l ++ v ++ newline ++ r) = (l ++ v) :: split_on "010" r.
Proof.
  intros Hl Hv. rewrite (app_assoc l). apply split_on_app.
  by rewrite not_elem_of_app.
Qed.

Lemma split_last_line (l v : str) :
  "010"%char ∉ l -> "010"%char ∉ v ->
  split_on "010" (l ++ v ++ newline) = [l ++ v; []].
Proof.
  intros Hl Hv. rewrite <- (app_nil_r newline). by rewrite split_line.
Qed.

Ltac no_newline :=
  first [ assumption | apply lit_not_in; reflexivity | apply decimal_not_in; reflexivity ].

Lemma sig_content_lines id user_id expire now :
  "010"%char ∉ user_id ->
  split_on "010" (sig_content id user_id expire now) =
    [ «"TLS.identifier:"» ++ user_id; «"TLS.sdkappid:"» ++ to_string id;
      «"TLS.time:"» ++ to_string now; «"TLS.expire:"» ++ to_string expire; [] ].
Proof.
  intros Hu. unfold sig_content.
  do 3 rewrite split_line by no_newline. rewrite split_last_line by no_newline. done.
Qed.

(** Two tickets with the same signed content agree on every field: the signature
    binds them all, as long as a user id holds no newline. *)
Theorem sig_content_injective id uid expire now id' uid' expire' now' :
  "010"%char ∉ uid -> "010"%char ∉ uid' ->
  sig_content id uid expire now = sig_content id' uid' expire' now' ->
  id = id' /\ uid = uid' /\ expire = expire' /\ now = now'.
Proof.
  intros H H' E. apply (f_equal (split_on "010")) in E.
  rewrite !sig_content_lines in E by done. injection E as E1 E2 E3 E4.
  apply (inj to_string) in E2, E3, E4. auto.
Qed.

Section Ticket.
Context `{ZlibOk}.

Lemma ZlibCompress_ok d : ZlibCompress d = Ok (compress2 d).2.
Proof.
  unfold ZlibCompress. pose proof (compress2_ok d) as E.
  destruct (compress2 d) as [rc out]. simpl in *. by rewrite E.
Qed.

(** Every branch of the generator. *)
Lemma GenUserSigAt_total id key user_id expire now :
  GenUserSigAt id key user_id expire now =
    if is_empty key then throw_asr kErrInvalidParam «"secret key is empty"»
    else if is_empty user_id then throw_asr kErrInvalidParam «"user id is empty"»
    else Ok (Base64UrlEncode (compress2 (sig_doc id user_id expire now
           (HmacSha256 key (sig_content id user_id expire now)))).2).
Proof.
  unfold GenUserSigAt. destruct (is_empty key), (is_empty user_id); try done.
  simpl. by rewrite ZlibCompress_ok.
Qed.

(** C10: What a verifier recovers from a ticket: decoding and decompressing it
    gives the JSON document of the fields, signed with the RFC 2104 HMAC of
    the content under the secret key. *)
Theorem GenUserSigAt_verifies id key user_id expire now sig :
  GenUserSigAt id key user_id expire now = Ok sig ->
  exists z,
    Base64UrlDecode sig = Ok z /\
    uncompress z =
      Some (sig_doc id user_id expire now (hmac_spec key (sig_content id user_id expire now))) /\
    Forall is_url_char sig.
Proof.
  rewrite GenUserSigAt_total.
  destruct (is_empty key); [done|]. destruct (is_empty user_id); [done|].
  intros E. apply Ok_inj in E as <-. rewrite HmacSha256_spec. eexists.
  split_and!; [apply Base64UrlDecode_Encode|apply uncompress_compress2|apply Base64UrlEncode_chars].
Qed.

(** A ticket is produced exactly for a non-empty key and user id; otherwise the
    error is [kErrInvalidParam]. *)
Theorem GenUserSig_errors id key user_id expire now :
  (is_ok (GenUserSig id key user_id expire now) = true <-> key <> [] /\ user_id <> []) /\
  (is_ok (GenUserSig id key user_id expire now) = false ->
   error_code (GenUserSig id key user_id expire now) = Some kErrInvalidParam).
Proof.
  unfold GenUserSig. rewrite GenUserSigAt_total.
  destruct (is_empty key) eqn:E1.
  { apply is_empty_true in E1. naive_solver. }
  apply is_empty_false in E1. destruct (is_empty user_id) eqn:E2.
  { apply is_empty_true in E2. naive_solver. }
  apply is_empty_false in E2. naive_solver.
Qed.
End Ticket.

(** An instance of the zlib interface that meets its contract: stored data. *)
Definition stored_zlib : Zlib := {| compress2 d := (Z_OK, d); uncompress d := Some d |}.

Lemma stored_zlib_ok : @ZlibOk stored_zlib.
Proof. by split. Defined.

(** ** Witnesses *)

Lemma GenUserSigAt_verifies_witness :
  exists sig z, @GenUserSigAt stored_zlib 1400000000 «"key"» «"user"» 86400 1700000000 = Ok sig /\
    Base64UrlDecode sig = Ok z /\
    @uncompress stored_zlib z = Some (sig_doc 1400000000 «"user"» 86400 1700000000
      (hmac_spec «"key"» (sig_content 1400000000 «"user"» 86400 1700000000))) /\
    Forall is_url_char sig.
Proof.
  assert (exists sig, @GenUserSigAt stored_zlib 1400000000 «"key"» «"user"» 86400 1700000000 = Ok sig)
    as [sig E] by (eexists; vm_compute; reflexivity).
  exists sig. destruct (@GenUserSigAt_verifies stored_zlib stored_zlib_ok _ _ _ _ _ _ E) as (z & H).
  by exists z.
Defined.

Lemma GenUserSig_errors_witness :
  error_code (@GenUserSig stored_zlib 1400000000 «"key"» [] 86400 1700000000) =
  Some kErrInvalidParam.
Proof.
  apply (@GenUserSig_errors stored_zlib stored_zlib_ok 1400000000 «"key"» [] 86400 1700000000).
  reflexivity.
Defined.

Lemma sig_content_injective_witness :
  («"alice"» : str) <> «"bob"» /\
  sig_content 1 «"alice"» 60 7 <> sig_content 1 «"bob"» 60 7.
Proof.
  split; [done|]. intros E.
  destruct (sig_content_injective 1 «"alice"» 60 7 1 «"bob"» 60 7) as (_ & H & _);
    [apply (bool_decide_unpack _); vm_compute; exact I..|exact E|discriminate H].
Defined.
