(* ===== verification/WsFrame.v ===== *)
(** * The WebSocket frame codec (src/ws_client.cc, EncodeWsFrame)

    RFC 6455 frames as the client writes them, and [parse_frame], the pure
    reference reader that the socket reader of [WsClient] refines.  The
    results: a reference reader recovers every encoded frame, masked or not,
    with any length form, and leaves the following bytes untouched; masking is
    an involution; the header announces the payload length. *)

From S2P Require Import Prelude.

Open Scope Z_scope.

(** ** Definitions *)

Record WsFrame := mkWsFrame { opcode : Z; payload : str; fin : bool }.

(** [for (int i = 7; i >= 0; i--) frame += (len >> (8 * i)) & 0xFF], from
    index [i - 1]. *)
Fixpoint len_be (i : nat) (len : Z) : str :=
  match i with
  | O => []
  | S i => byte_of (Z.land (Z.shiftr len (8 * Z.of_nat i)) 0xFF) :: len_be i len
  end.

Definition xor_byte (a b : ascii) : ascii := byte_of (Z.lxor (u8 a) (u8 b)).

(** [payload[i] ^ key[i % 4]] for each position from [i]. *)
Fixpoint xor_from (i : nat) (key p : str) : str :=
  match p with
  | [] => []
  | c :: p' => xor_byte c (nth (i mod 4) key "000"%char) :: xor_from (S i) key p'
  end.

(** [mask_key] is the key the generator draws when [mask] is set. *)
Definition EncodeWsFrame (opcode : Z) (payload : str) (mask : bool) (mask_key : str) : str :=
  let len := Z.of_nat (length payload) in
  let mask_bit := if mask then 0x80 else 0x00 in
  let frame := [byte_of (Z.lor 0x80 opcode)] in
  let frame :=
    if len <? 126 then frame ++ [byte_of (Z.lor mask_bit len)]
    else if len <=? 0xFFFF then
      frame ++ [byte_of (Z.lor mask_bit 126)] ++
      [byte_of (Z.land (Z.shiftr len 8) 0xFF); byte_of (Z.land len 0xFF)]
    else frame ++ [byte_of (Z.lor mask_bit 127)] ++ len_be 8 len in
  if mask then frame ++ mask_key ++ xor_from 0 mask_key payload
  else frame ++ payload.

(** ** The reference reader *)

Definition kMaxFrame : Z := 64 * 1024 * 1024.

(** [for (int i = 0; i < 8; i++) len = (len << 8) | ext[i]] in [uint64_t]. *)
Definition be_value (ext : str) : Z :=
  fold_left (fun len b => Z.lor (wrap64 (Z.shiftl len 8)) (u8 b)) ext 0.

Definition header_fin (h0 : ascii) : bool := negb (Z.land (u8 h0) 0x80 =? 0).
Definition header_opcode (h0 : ascii) : Z := Z.land (u8 h0) 0x0F.
Definition header_masked (h1 : ascii) : bool := negb (Z.land (u8 h1) 0x80 =? 0).
Definition header_len (h1 : ascii) : Z := Z.land (u8 h1) 0x7F.

(** The number of extended-length bytes that follow the two header bytes. *)
Definition ext_len (h1 : ascii) : nat :=
  if header_len h1 =? 126 then 2%nat else if header_len h1 =? 127 then 8%nat else 0%nat.

Definition frame_len (h1 : ascii) (ext : str) : Z :=
  if header_len h1 =? 126 then
    Z.lor (Z.shiftl (u8 (nth 0 ext "000"%char)) 8) (u8 (nth 1 ext "000"%char))
  else if header_len h1 =? 127 then be_value ext
  else header_len h1.

(** Split off [n] bytes, all of them present. *)
Definition split_exact (n : nat) (s : str) : option (str * str) :=
  if (n <=? length s)%nat then Some (take n s, drop n s) else None.

Definition parse_frame (s : str) : option (WsFrame * str) :=
  match s with
  | h0 :: h1 :: s =>
      '(ext, s) ← split_exact (ext_len h1) s;
      let len := frame_len h1 ext in
      if kMaxFrame <? len then None
      else
        '(key, s) ← split_exact (if header_masked h1 then 4%nat else 0%nat) s;
        '(p, s) ← split_exact (Z.to_nat len) s;
        Some (mkWsFrame (header_opcode h0)
                (if header_masked h1 then xor_from 0 key p else p) (header_fin h0), s)
  | _ => None
  end.

(** ** Masking *)

Lemma xor_byte_involutive a b : xor_byte (xor_byte a b) b = a.
Proof.
  unfold xor_byte. apply u8_inj. rewrite !u8_byte_of.
  pose proof (u8_range a). pose proof (u8_range b).
  assert (forall x y, 0 <= x < 256 -> 0 <= y < 256 -> Z.lxor x y mod 256 = Z.lxor x y) as Hs.
  { intros x y Hx Hy. change 256 with (2 ^ 8). apply Z.bits_inj'. intros i Hi.
    destruct (Z.ltb_spec i 8).
    - by rewrite Z.mod_pow2_bits_low by lia.
    - rewrite Z.mod_pow2_bits_high by lia. rewrite Z.lxor_spec.
      rewrite <- (Z.mod_small x (2 ^ 8)), <- (Z.mod_small y (2 ^ 8)) by lia.
      by rewrite !Z.mod_pow2_bits_high by lia. }
  rewrite (Hs (u8 a) (u8 b)) by done. rewrite Z.lxor_assoc, Z.lxor_nilpotent, Z.lxor_0_r.
  by apply Z.mod_small.
Qed.

Lemma xor_from_involutive i key p : xor_from i key (xor_from i key p) = p.
Proof.
  revert i; induction p as [|c p IH]; intros i; [done|]. cbn [xor_from].
  by rewrite xor_byte_involutive, IH.
Qed.

Lemma length_xor_from i key p : length (xor_from i key p) = length p.
Proof. revert i; induction p as [|c p IH]; intros i; simpl; auto. Qed.

(** ** Header and lengths *)

Lemma header0_spec op : 0 <= op < 16 ->
  header_fin (byte_of (Z.lor 0x80 op)) = true /\ header_opcode (byte_of (Z.lor 0x80 op)) = op.
Proof.
  intros Hop.
  assert (forallb (fun n => let b := byte_of (Z.lor 0x80 (Z.of_nat n)) in
            header_fin b && (header_opcode b =? Z.of_nat n)) (seq 0 16) = true) as H
    by (vm_compute; reflexivity).
  pose proof (proj1 (forallb_forall _ _) H (Z.to_nat op)) as Ho.
  specialize (Ho ltac:(apply in_seq; lia)). cbv beta zeta in Ho.
  rewrite Z2Nat.id in Ho by lia. apply andb_prop in Ho as [-> Ho]. lia.
Qed.

Lemma header1_spec (mask : bool) len : 0 <= len < 128 ->
  header_masked (byte_of (Z.lor (if mask then 0x80 else 0) len)) = mask /\
  header_len (byte_of (Z.lor (if mask then 0x80 else 0) len)) = len.
Proof.
  intros Hlen.
  assert (forallb (fun n => let b m := byte_of (Z.lor (if m : bool then 0x80 else 0) (Z.of_nat n)) in
      header_masked (b true) && negb (header_masked (b false)) &&
      (header_len (b true) =? Z.of_nat n) && (header_len (b false) =? Z.of_nat n))
    (seq 0 128) = true) as H by (vm_compute; reflexivity).
  pose proof (proj1 (forallb_forall _ _) H (Z.to_nat len)) as Ho.
  specialize (Ho ltac:(apply in_seq; lia)). cbv beta zeta in Ho.
  rewrite Z2Nat.id in Ho by lia. rewrite !andb_true_iff, negb_true_iff, !Z.eqb_eq in Ho. destruct mask; naive_solver.
Qed.

Lemma be_value_app acc i len :
  0 <= acc -> 0 <= len -> acc * 2 ^ (8 * Z.of_nat i) + len mod 2 ^ (8 * Z.of_nat i) < 2 ^ 64 ->
  fold_left (fun len b => Z.lor (wrap64 (Z.shiftl len 8)) (u8 b)) (len_be i len) acc =
  acc * 2 ^ (8 * Z.of_nat i) + len mod 2 ^ (8 * Z.of_nat i).
Proof.
  revert acc; induction i as [|i IH]; intros acc Ha Hl Hb.
  { simpl. rewrite Z.mod_1_r. lia. }
  cbn [len_be fold_left]. rewrite Nat2Z.inj_succ in *.
  replace (8 * Z.succ (Z.of_nat i)) with (8 + 8 * Z.of_nat i) in * by lia.
  set (k := 8 * Z.of_nat i) in *. rewrite Z.pow_add_r in * by lia.
  assert (0 < 2 ^ k) by (apply Z.pow_pos_nonneg; lia).
  rewrite u8_byte_of, land_255, Z.mod_mod, Z.shiftr_div_pow2 by lia.
  assert (len mod (2 ^ 8 * 2 ^ k) = 2 ^ k * ((len / 2 ^ k) mod 256) + len mod 2 ^ k) as Hm.
  { rewrite Z.mul_comm, Z.rem_mul_r by lia. change (2 ^ 8) with 256. lia. }
  rewrite Hm in *. pose proof (Z.mod_pos_bound (len / 2 ^ k) 256 eq_refl).
  pose proof (Z.mod_pos_bound len (2 ^ k) ltac:(lia)).
  assert (acc * 2 ^ 8 < 2 ^ 64) by nia.
  replace (wrap64 (Z.shiftl acc 8)) with (Z.shiftl acc 8)
    by (unfold wrap64; rewrite Z.mod_small; rewrite ?Z.shiftl_mul_pow2 by lia; lia).
  rewrite lor_shiftl_add by lia. rewrite IH; nia.
Qed.

Lemma be_value_len_be len : 0 <= len < 2 ^ 64 -> be_value (len_be 8 len) = len.
Proof.
  intros H. unfold be_value. rewrite be_value_app; change (8 * Z.of_nat 8) with 64;
    rewrite ?Z.mod_small by lia; lia.
Qed.

Lemma length_len_be i len : length (len_be i len) = i.
Proof. induction i; simpl; auto. Qed.

Lemma split_exact_app a b : split_exact (length a) (a ++ b) = Some (a, b).
Proof.
  unfold split_exact. rewrite length_app.
  destruct (Nat.leb_spec (length a) (length a + length b)); [|lia].
  by rewrite take_app_length, drop_app_length.
Qed.

(** The three length forms, read back. *)
Definition header_bytes (mask : bool) (len : Z) : ascii * str :=
  let mask_bit := if mask then 0x80 else 0x00 in
  if len <? 126 then (byte_of (Z.lor mask_bit len), [])
  else if len <=? 0xFFFF then
    (byte_of (Z.lor mask_bit 126), [byte_of (Z.land (Z.shiftr len 8) 0xFF); byte_of (Z.land len 0xFF)])
  else (byte_of (Z.lor mask_bit 127), len_be 8 len).

Lemma header_bytes_spec mask len h1 ext :
  0 <= len < 2 ^ 64 -> header_bytes mask len = (h1, ext) ->
  header_masked h1 = mask /\ length ext = ext_len h1 /\ frame_len h1 ext = len.
Proof.
  intros Hlen. unfold header_bytes, ext_len, frame_len.
  destruct (Z.ltb_spec len 126); [|destruct (Z.leb_spec len 0xFFFF)];
    intros [= <- <-].
  - destruct (header1_spec mask len ltac:(lia)) as [-> ->].
    replace (len =? 126) with false by lia. by replace (len =? 127) with false by lia.
  - destruct (header1_spec mask 126 ltac:(lia)) as [-> ->]. split_and!; [done..|].
    cbn [nth]. change (126 =? 126) with true. cbn iota.
    rewrite !u8_byte_of, !land_255, !Z.mod_mod by lia.
    rewrite lor_shiftl_add by (try apply Z.mod_pos_bound; lia).
    rewrite Z.shiftr_div_pow2 by lia. change (2 ^ 8) with 256. div_lia.
  - destruct (header1_spec mask 127 ltac:(lia)) as [-> ->].
    split_and!; [done|apply (length_len_be 8)|].
    change (127 =? 126) with false. change (127 =? 127) with true. cbn iota.
    by apply be_value_len_be.
Qed.

Lemma EncodeWsFrame_shape op p mask key :
  EncodeWsFrame op p mask key =
  let '(h1, ext) := header_bytes mask (Z.of_nat (length p)) in
  byte_of (Z.lor 0x80 op) :: h1 :: ext ++ (if mask then key ++ xor_from 0 key p else p).
Proof.
  unfold EncodeWsFrame, header_bytes. cbv zeta.
  destruct (_ <? 126); [|destruct (_ <=? 0xFFFF)]; destruct mask; reflexivity.
Qed.

Lemma parse_EncodeWsFrame op p mask key rest :
  0 <= op < 16 -> length key = 4%nat -> Z.of_nat (length p) <= kMaxFrame ->
  parse_frame (EncodeWsFrame op p mask key ++ rest) = Some (mkWsFrame op p true, rest).
Proof.
  intros Hop Hkey Hp. unfold kMaxFrame in Hp. rewrite EncodeWsFrame_shape.
  destruct (header_bytes mask (Z.of_nat (length p))) as [h1 ext] eqn:E.
  apply header_bytes_spec in E as (Hm & He & Hl); [|lia].
  destruct (header0_spec op Hop) as [Hf Ho].
  cbn [app parse_frame]. rewrite <- app_assoc, <- He, split_exact_app. cbn [mbind option_bind].
  rewrite Hl. unfold kMaxFrame. replace (64 * 1024 * 1024 <? Z.of_nat (length p)) with false by lia.
  rewrite Hf, Ho, Hm, Nat2Z.id. destruct mask.
  - rewrite <- app_assoc, <- Hkey, split_exact_app. cbn [mbind option_bind].
    rewrite <- (length_xor_from 0 key p), split_exact_app. cbn [mbind option_bind].
    by rewrite xor_from_involutive.
  - change (split_exact 0 (p ++ rest)) with (Some ([] : str, p ++ rest)).
    cbn [mbind option_bind]. by rewrite split_exact_app.
Qed.

(** A frame longer than the sanity bound is refused. *)
Lemma parse_frame_bound s f rest :
  parse_frame s = Some (f, rest) -> Z.of_nat (length (payload f)) <= kMaxFrame.
Proof.
  destruct s as [|h0 [|h1 s]]; [done..|]. cbn [parse_frame].
  destruct (split_exact _ s) as [[ext s1]|]; [|done]. cbn [mbind option_bind].
  destruct (Z.ltb_spec kMaxFrame (frame_len h1 ext)); [done|].
  destruct (split_exact _ s1) as [[key s2]|]; [|done]. cbn [mbind option_bind].
  unfold split_exact. destruct (Nat.leb_spec (Z.to_nat (frame_len h1 ext)) (length s2)); [|done].
  cbn [mbind option_bind]. intros [= <- <-]. simpl.
  destruct (header_masked h1); rewrite ?length_xor_from, length_take; unfold kMaxFrame in *; lia.
Qed.

(** ** Streams of frames *)

(** The first [n] frames of a stream, and what follows them. *)
Fixpoint parse_frames (n : nat) (s : str) : option (list WsFrame * str) :=
  match n with
  | O => Some ([], s)
  | S n => '(f, s) ← parse_frame s; '(fs, s) ← parse_frames n s; Some (f :: fs, s)
  end.

(** A frame to send: its opcode, its payload, and its mask key when masked. *)
Record outgoing := mkOutgoing { o_opcode : Z; o_payload : str; o_key : option str }.

Definition outgoing_ok (o : outgoing) : Prop :=
  0 <= o_opcode o < 16 /\ Z.of_nat (length (o_payload o)) <= kMaxFrame /\
  (forall k, o_key o = Some k -> length k = 4%nat).

Definition encode_outgoing (o : outgoing) : str :=
  match o_key o with
  | Some k => EncodeWsFrame (o_opcode o) (o_payload o) true k
  | None => EncodeWsFrame (o_opcode o) (o_payload o) false []
  end.

Lemma EncodeWsFrame_unmasked op p key key' :
  EncodeWsFrame op p false key = EncodeWsFrame op p false key'.
Proof. reflexivity. Qed.

(** A receiver recovers any sequence of frames written back to back, masked or
    not and whatever their length forms, and the bytes after them. *)
Theorem frames_roundtrip l rest :
  Forall outgoing_ok l ->
  parse_frames (length l) ((l ≫= encode_outgoing) ++ rest) =
  Some ((fun o => mkWsFrame (o_opcode o) (o_payload o) true) <$> l, rest).
Proof.
  induction 1 as [|o l (Hop & Hp & Hk) _ IH]; [done|].
  cbn [length parse_frames]. rewrite bind_cons, <- app_assoc.
  assert (parse_frame (encode_outgoing o ++ (l ≫= encode_outgoing) ++ rest) =
          Some (mkWsFrame (o_opcode o) (o_payload o) true, (l ≫= encode_outgoing) ++ rest)) as ->.
  { unfold encode_outgoing. destruct (o_key o) as [k|].
    - apply parse_EncodeWsFrame; auto.
    - rewrite (EncodeWsFrame_unmasked _ _ _ (replicate 4 "000"%char)).
      by apply parse_EncodeWsFrame. }
  cbn [mbind option_bind]. by rewrite IH.
Qed.

Lemma frames_roundtrip_witness :
  parse_frames 2 (([mkOutgoing 1 «"hi"» (Some «"abcd"»); mkOutgoing 9 [] None] ≫= encode_outgoing) ++
                  «"x"») = Some ([mkWsFrame 1 «"hi"» true; mkWsFrame 9 [] true], «"x"»).
Proof.
  apply (frames_roundtrip [mkOutgoing 1 «"hi"» (Some «"abcd"»); mkOutgoing 9 [] None] «"x"»).
  repeat apply Forall_cons_2; [| |apply Forall_nil]; repeat split; try done.
  intros k [= <-]. done.
Defined.
