(* ===== verification/WsClient.v ===== *)
(** * The WebSocket client (src/ws_client.cc)

    The socket reader and writer of [WsClient].
    The network is data: the bytes the peer has sent and the socket has not
    delivered yet, and one [turn] per pass of a socket loop, which says what
    the clock, [poll] and [recv] (or OpenSSL) give on that pass.  A loop that
    needs more turns than it is given is still waiting, and its result is
    [None].  The socket reader refines [parse_frame], the pure reader of
    [WsFrame]. *)

From S2P Require Import Prelude Json WsFrame.

Open Scope Z_scope.

(** ** Constants and data *)

Definition kFrameReadBudgetMs : Z := 10000.
Definition SSL_ERROR_WANT_READ : Z := 2.
Definition SSL_ERROR_WANT_WRITE : Z := 3.
Definition SSL_ERROR_ZERO_RETURN : Z := 6.
Definition EINTR : Z := 4.
Definition EAGAIN : Z := 11.

(** What [recv], or [SSL_read], gives.  A positive return [k] delivers the next
    [k] bytes, as many as were asked for at most.  [SslFails] carries
    [SSL_get_error], the [SSL_pending] it then reports, how much a second
    [SSL_read] gets, and [errno]. *)
Inductive recv_result :=
  | Recv (k : nat)
  | RecvFails (errno : Z)
  | SslRead (k : nat)
  | SslFails (ssl_err : Z) (pending : nat) (got : nat) (errno : Z).

Record turn := mkTurn { t_now : Z; t_pending : Z; t_poll : Z; t_recv : recv_result }.

Inductive send_result :=
  | Send (k : nat)
  | SendFails (errno : Z) (strerror : str)
  | SslWrite (k : nat)
  | SslWriteFails (ssl_err : Z).

Record write_turn := mkWriteTurn { w_now : Z; w_poll : Z; w_send : send_result }.

(** The client: TLS or not, the unread leftovers, the incoming bytes, the
    outgoing ones, and the network's turns. *)
Record WsClient := mkWsClient {
  ssl : bool; read_buf_ : str; rx : str; tx : str;
  turns : list turn; write_turns : list write_turn; write_timeout_ms_ : Z;
  last_read_err_ : str
}.

(** [SetWriteTimeoutMs] *)
Definition SetWriteTimeoutMs (timeout_ms : Z) (c : WsClient) : WsClient :=
  mkWsClient (ssl c) (read_buf_ c) (rx c) (tx c) (turns c) (write_turns c) timeout_ms
    (last_read_err_ c).

(** ** ReadExact *)

(** [static_cast<int>(deadline - NowMs())] *)
Definition remaining (deadline now : Z) : Z := signed 32 (deadline - now).

(** How a pass ends: the loop returns [rc], with the text it leaves in
    [last_read_err_] if any, or it takes the bytes delivered, none when it has to
    go round again. *)
Definition read_pass : Type := (Z * option str) + str.

Definition stop (rc : Z) : read_pass := inl (rc, None).

(** A read of at most [k] bytes; one that gives nothing is an orderly shutdown. *)
Definition deliver (k : nat) (rx : str) : read_pass :=
  match take k rx with [] => stop (-1) | chunk => inr chunk end.

Definition ssl_read_failed (ssl_err errno : Z) : str :=
  «"SSL_read failed, ssl_err="» ++ to_string ssl_err ++ «", errno="» ++ to_string errno.

(** The [recv] or [SSL_read] of a pass. *)
Definition receive (need : nat) (rx : str) (r : recv_result) : read_pass :=
  match r with
  | Recv k | SslRead k => deliver (Nat.min k need) rx
  | RecvFails errno => if (errno =? EINTR) || (errno =? EAGAIN) then inr [] else stop (-1)
  | SslFails ssl_err pending got errno =>
      let failed := inl (-1, Some (ssl_read_failed ssl_err errno)) in
      if ssl_err =? SSL_ERROR_WANT_READ then inr []
      else if (ssl_err =? SSL_ERROR_ZERO_RETURN) && (0 <? Z.of_nat pending) then
        match take (Nat.min got (Nat.min need pending)) rx with [] => failed | chunk => inr chunk end
      else failed
  end.

(** One pass of the socket loop. *)
Definition read_turn (tls : bool) (need : nat) (deadline : Z) (rx : str) (t : turn) : read_pass :=
  if negb tls || (t_pending t =? 0) then
    if remaining deadline (t_now t) <=? 0 then stop 0
    else if t_poll t =? 0 then stop 0
    else if t_poll t <? 0 then stop (-1)
    else receive need rx (t_recv t)
  else if remaining deadline (t_now t) <=? 0 then stop 0
  else receive need rx (t_recv t).

(** The loop once [read_buf_] is drained: [need] bytes are missing and [acc]
    have been read.  It returns the code and the error text, the bytes read, the
    bytes left and the turns left. *)
Fixpoint read_loop (tls : bool) (need : nat) (deadline : Z) (acc rx : str) (ts : list turn)
    : option (Z * option str * str * str * list turn) :=
  if (need =? 0)%nat then Some (1, None, acc, rx, ts)
  else
    match ts with
    | [] => None
    | t :: ts =>
        match read_turn tls need deadline rx t with
        | inl (rc, e) => Some (rc, e, acc, rx, ts)
        | inr chunk =>
            read_loop tls (need - length chunk) deadline (acc ++ chunk)
              (drop (length chunk) rx) ts
        end
    end.

(** [read_buf_] is drained first; nothing refills it. *)
Definition ReadExact (n : nat) (deadline : Z) (c : WsClient) : option (Z * str * WsClient) :=
  let head := take n (read_buf_ c) in
  '(rc, e, out, rest, ts) ←
    read_loop (ssl c) (n - length head) deadline head (rx c) (turns c);
  Some (rc, out, mkWsClient (ssl c) (drop n (read_buf_ c)) rest (tx c) ts (write_turns c)
                   (write_timeout_ms_ c) (default (last_read_err_ c) e)).

(** ** WriteAll *)

Fixpoint write_loop (buf : str) (deadline : Z) (tx : str) (ts : list write_turn)
    : option (option str * str * list write_turn) :=
  match buf with
  | [] => Some (None, tx, ts)
  | _ =>
      match ts with
      | [] => None
      | t :: ts =>
          if remaining deadline (w_now t) <=? 0 then Some (Some «"write timeout"», tx, ts)
          else if negb (w_poll t =? 1) then Some (Some «"write poll failed or timed out"», tx, ts)
          else
            match w_send t with
            | Send k => write_loop (drop k buf) deadline (tx ++ take k buf) ts
            | SendFails errno strerror =>
                if (errno =? EINTR) || (errno =? EAGAIN) then write_loop buf deadline tx ts
                else Some (Some («"socket write failed: "» ++ strerror), tx, ts)
            | SslWrite k => write_loop (drop k buf) deadline (tx ++ take k buf) ts
            | SslWriteFails ssl_err =>
                if ssl_err =? SSL_ERROR_WANT_WRITE then write_loop buf deadline tx ts
                else Some (Some «"tls write failed"», tx, ts)
            end
      end
  end.

(** [now] is the clock on entry; the result is [None] for true, or what is left
    in [*err]. *)
Definition WriteAll (buf : str) (timeout_ms now : Z) (c : WsClient)
    : option (option str * WsClient) :=
  '(err, tx, ts) ← write_loop buf (now + timeout_ms) (tx c) (write_turns c);
  Some (err, mkWsClient (ssl c) (read_buf_ c) (rx c) tx (turns c) ts (write_timeout_ms_ c)
               (last_read_err_ c)).

(** [SendText] and [SendBinary]; [key] is the mask the generator draws. *)
Definition SendText (text key : str) (now : Z) (c : WsClient)
    : option (option str * WsClient) :=
  WriteAll (EncodeWsFrame 0x1 text true key) (write_timeout_ms_ c) now c.

Definition SendBinary (data key : str) (now : Z) (c : WsClient)
    : option (option str * WsClient) :=
  WriteAll (EncodeWsFrame 0x2 data true key) (write_timeout_ms_ c) now c.

(** ** Read *)

(** What the system says when an error text is written. *)
Record failure := mkFailure { f_pending : Z; f_errno : Z; f_strerror : str }.

(** The lambda [fill_err] of [Read], and what follows some of its calls. *)
Definition fill_err (f : failure) (what : str) (c : WsClient) : str :=
  what ++ (if ssl c then «", pending="» ++ to_string (f_pending f) else []) ++
  «", errno="» ++ to_string (f_errno f) ++ «" ("» ++ f_strerror f ++ «")"».

Definition with_last (err : str) (c : WsClient) : str :=
  if is_empty (last_read_err_ c) then err else err ++ «"; "» ++ last_read_err_ c.

(** Read [n] bytes of a frame in progress; any failure ends the read with -1 and
    a text. *)
Definition read_part (n : nat) (deadline : Z) (explain : WsClient -> str) (c : WsClient)
    : option (str * WsClient + str * WsClient) :=
  '(rc, out, c) ← ReadExact n deadline c;
  Some (if rc =? 1 then inr (out, c) else inl (explain c, c)).

(** What [NowMs()] gives in one pass of the frame loop, after the header, before
    a pong and on entry of its write, the mask of that pong, and what an error
    text says of the system if the pass fails. *)
Record pass := mkPass {
  after_header : Z; before_pong : Z; pong_start : Z; pong_key : str; on_failure : failure
}.

(** The rest of a frame whose header is [h0 h1]: the error text, or the frame. *)
Definition read_frame (f : failure) (h0 h1 : ascii) (deadline : Z) (c : WsClient)
    : option (str * WsClient + WsFrame * WsClient) :=
  r ← read_part (ext_len h1) deadline (fill_err f «"read extended length failed"») c;
  match r with
  | inl e => Some (inl e)
  | inr (ext, c) =>
      let len := frame_len h1 ext in
      if kMaxFrame <? len then Some (inl (fill_err f «"frame length exceeds sanity bound"» c, c))
      else
        r ← read_part (if header_masked h1 then 4%nat else 0%nat) deadline
              (fill_err f «"read mask key failed"») c;
        match r with
        | inl e => Some (inl e)
        | inr (key, c) =>
            r ← read_part (Z.to_nat len) deadline
                  (fun c => with_last (fill_err f «"read payload failed"» c) c) c;
            match r with
            | inl e => Some (inl e)
            | inr (p, c) =>
                Some (inr (mkWsFrame (header_opcode h0)
                             (if header_masked h1 then xor_from 0 key p else p)
                             (header_fin h0), c))
            end
        end
  end.

(** The frame loop, one [pass] per frame.  The result is the code, the frame on
    1, the text left in [*err], empty on entry, and the client. *)
Fixpoint read_frames (passes : list pass) (deadline : Z) (c : WsClient)
    : option (Z * option WsFrame * str * WsClient) :=
  match passes with
  | [] => None
  | p :: passes =>
      '(rc, head, c) ← ReadExact 2 deadline c;
      if negb (rc =? 1) then
        Some (rc, None,
              (if rc <? 0 then with_last (fill_err (on_failure p) «"read frame header failed"» c) c
               else []), c)
      else
        match head with
        | h0 :: h1 :: _ =>
            r ← read_frame (on_failure p) h0 h1 (after_header p + kFrameReadBudgetMs) c;
            match r with
            | inl (e, c) => Some (-1, None, e, c)
            | inr (f, c) =>
                if opcode f =? 0x9 then
                  '(_, c) ← WriteAll (EncodeWsFrame 0xA (payload f) true (pong_key p))
                              (signed 32 (deadline - before_pong p)) (pong_start p) c;
                  read_frames passes deadline c
                else if opcode f =? 0xA then read_frames passes deadline c
                else Some (1, Some f, [], c)
            end
        | _ => None
        end
  end.

Definition Read (timeout_ms now : Z) (passes : list pass) (c : WsClient)
    : option (Z * option WsFrame * str * WsClient) :=
  read_frames passes (now + timeout_ms) c.

(** ** ReadExact delivers the stream in order *)

Definition prefix_of (need : nat) (rx chunk : str) : Prop :=
  (length chunk <= need)%nat /\ rx = chunk ++ drop (length chunk) rx.

Lemma deliver_prefix k need rx chunk :
  (k <= need)%nat -> deliver k rx = inr chunk -> prefix_of need rx chunk.
Proof.
  intros Hk. unfold deliver. pose proof (take_drop k rx) as Htd.
  destruct (take k rx) as [|b l] eqn:E; [done|]. intros [= <-].
  assert (length (b :: l) <= k)%nat by (rewrite <- E, length_take; lia).
  split; [lia|]. rewrite <- Htd at 2. by rewrite drop_app_length.
Qed.

Lemma read_turn_chunk tls need deadline rx t chunk :
  read_turn tls need deadline rx t = inr chunk -> prefix_of need rx chunk.
Proof.
  assert (inr [] = (inr chunk : read_pass) -> prefix_of need rx chunk) as He
    by (intros [= <-]; split; [simpl; lia|done]).
  assert (receive need rx (t_recv t) = inr chunk -> prefix_of need rx chunk) as Hr.
  { unfold receive. destruct (t_recv t); [apply deliver_prefix; lia|..|]; repeat case_match;
      try done; try (apply deliver_prefix; lia).
    intros [= <-].
    match goal with E : take ?k _ = _ |- _ =>
      apply (deliver_prefix k); [lia|unfold deliver; by rewrite E]
    end. }
  unfold read_turn. repeat case_match; done.
Qed.

Lemma read_turn_code tls need deadline rx t rc e :
  read_turn tls need deadline rx t = inl (rc, e) -> rc = 0 \/ rc = -1.
Proof.
  unfold read_turn, receive, deliver, stop. intros H. repeat case_match; simplify_eq; auto.
Qed.

Lemma read_loop_spec tls need deadline acc rx ts rc e out rest ts' :
  read_loop tls need deadline acc rx ts = Some (rc, e, out, rest, ts') ->
  exists got, out = acc ++ got /\ rx = got ++ rest /\
    (rc = 1 /\ length got = need \/ (rc = 0 \/ rc = -1) /\ (length got < need)%nat).
Proof.
  revert need acc rx. induction ts as [|t ts IH]; intros need acc rx; cbn [read_loop].
  - destruct (Nat.eqb_spec need 0) as [->|]; [|done]. intros [= <- <- <- <- <-].
    exists []. rewrite app_nil_r. auto.
  - destruct (Nat.eqb_spec need 0) as [->|Hn].
    + intros [= <- <- <- <- <-]. exists []. rewrite app_nil_r. auto.
    + destruct (read_turn tls need deadline rx t) as [[rc' e']|chunk] eqn:E.
      * intros [= <- <- <- <- <-]. exists []. rewrite app_nil_r. apply read_turn_code in E.
        split_and!; [done..|]. right. simpl. split; [done|lia].
      * apply read_turn_chunk in E as [Hl Hrx]. intros (got & -> & Hr & Hc)%IH.
        exists (chunk ++ got). rewrite app_assoc. split; [done|]. split.
        { rewrite Hrx at 1. by rewrite <- app_assoc, <- Hr. }
        rewrite length_app. destruct Hc as [[-> Hg]|[Hc Hlt]]; [left|right]; split; auto; lia.
Qed.

(** The bytes of the stream the client has yet to consume. *)
Definition incoming (c : WsClient) : str := read_buf_ c ++ rx c.

(** [ReadExact] delivers the next bytes of the stream: all [n] of them exactly
    when it returns 1, otherwise fewer, which are lost to the caller. *)
Lemma ReadExact_stream n deadline c rc out c' :
  ReadExact n deadline c = Some (rc, out, c') ->
  incoming c = out ++ incoming c' /\ tx c' = tx c /\ ssl c' = ssl c /\
  write_turns c' = write_turns c /\ write_timeout_ms_ c' = write_timeout_ms_ c /\
  (rc = 1 /\ length out = n \/ (rc = 0 \/ rc = -1) /\ (length out < n)%nat).
Proof.
  unfold ReadExact, incoming. intros H.
  destruct (read_loop _ _ _ _ _ _) as [[[[[rc' e] out'] rest] ts]|] eqn:E; [|done].
  cbn in H. injection H as <- <- <-. cbn.
  apply read_loop_spec in E as (got & -> & Hrx & Hc).
  rewrite length_take in Hc. pose proof (length_app (take n (read_buf_ c)) got) as Hl.
  rewrite length_take in Hl.
  split_and!; [|done..|].
  - rewrite Hrx. rewrite <- (take_drop n (read_buf_ c)) at 1. rewrite <- !app_assoc. f_equal.
    destruct (Nat.le_ge_cases (length (read_buf_ c)) n) as [Hle|Hge].
    + by rewrite drop_ge by done.
    + assert (length got = 0)%nat as Hg by lia. apply nil_length_inv in Hg as ->. done.
  - destruct Hc as [[-> Hg]|[Hc Hg]]; [left|right]; split; auto; lia.
Qed.

(** ** Read refines the pure reader *)

(** The next frame that is neither a ping nor a pong, within [n] frames. *)
Fixpoint next_message (n : nat) (s : str) : option (WsFrame * str) :=
  match n with
  | O => None
  | S n =>
      '(f, s) ← parse_frame s;
      if (opcode f =? 0x9) || (opcode f =? 0xA) then next_message n s else Some (f, s)
  end.

Lemma read_part_stream n deadline explain c out c' :
  read_part n deadline explain c = Some (inr (out, c')) ->
  incoming c = out ++ incoming c' /\ length out = n /\ tx c' = tx c.
Proof.
  unfold read_part. destruct (ReadExact n deadline c) as [[[rc o] c1]|] eqn:E; [|done].
  cbn. destruct (Z.eqb_spec rc 1) as [->|]; [|done]. intros [= <- <-].
  apply ReadExact_stream in E as (H1 & H2 & _ & _ & _ & [[_ H3]|[[?|?] _]]); [done|lia..].
Qed.

Lemma split_exact_prefix n a b : length a = n -> split_exact n (a ++ b) = Some (a, b).
Proof. intros <-. apply split_exact_app. Qed.

Lemma read_frame_refines fl h0 h1 deadline c f c' :
  read_frame fl h0 h1 deadline c = Some (inr (f, c')) ->
  parse_frame (h0 :: h1 :: incoming c) = Some (f, incoming c') /\ tx c' = tx c.
Proof.
  unfold read_frame. intros H.
  destruct (read_part (ext_len h1) deadline _ c) as [[c1|[ext c1]]|] eqn:E1; [done| |done].
  cbn in H. destruct (Z.ltb_spec kMaxFrame (frame_len h1 ext)) as [|Hlen]; [done|].
  destruct (read_part (if header_masked h1 then 4%nat else 0%nat) deadline _ c1) as [[c2|[key c2]]|] eqn:E2;
    [done| |done].
  cbn in H. destruct (read_part (Z.to_nat _) deadline _ c2) as [[c3|[p c3]]|] eqn:E3;
    [done| |done].
  cbn in H. injection H as <- <-.
  apply read_part_stream in E1 as (S1 & L1 & T1), E2 as (S2 & L2 & T2), E3 as (S3 & L3 & T3).
  split; [|congruence].
  cbn [parse_frame]. rewrite S1, (split_exact_prefix _ ext) by done. cbn [mbind option_bind].
  rewrite (proj2 (Z.ltb_ge kMaxFrame (frame_len h1 ext))) by done.
  rewrite S2, (split_exact_prefix _ key) by done. cbn [mbind option_bind].
  rewrite S3, (split_exact_prefix _ p) by done. done.
Qed.

Lemma WriteAll_incoming buf ms now c err c' :
  WriteAll buf ms now c = Some (err, c') -> incoming c' = incoming c.
Proof.
  unfold WriteAll, incoming. destruct (write_loop _ _ _ _) as [[[err' tx'] ts]|]; [|done].
  by intros [= <- <-].
Qed.

Lemma read_frames_refines passes deadline c f err c' :
  read_frames passes deadline c = Some (1, Some f, err, c') ->
  next_message (length passes) (incoming c) = Some (f, incoming c').
Proof.
  revert c. induction passes as [|p passes IH]; intros c; cbn [read_frames]; [done|].
  destruct (ReadExact 2 deadline c) as [[[rc head] c1]|] eqn:E1; [|done]. cbn.
  destruct (Z.eqb_spec rc 1) as [->|]; [|done]. cbn.
  apply ReadExact_stream in E1 as (S1 & _ & _ & _ & _ & [[_ L1]|[[?|?] _]]); [|lia..].
  destruct head as [|h0 [|h1 [|]]]; try done. clear L1.
  destruct (read_frame _ h0 h1 _ c1) as [[[e c2]|[g c2]]|] eqn:E2; [done| |done]. cbn.
  apply read_frame_refines in E2 as [P2 _]. rewrite S1. cbn [app]. rewrite P2. cbn.
  destruct (Z.eqb_spec (opcode g) 9) as [H9|H9].
  - destruct (WriteAll _ _ _ c2) as [[ok c3]|] eqn:E3; [|done]. cbn.
    apply WriteAll_incoming in E3. rewrite <- E3. apply IH.
  - destruct (Z.eqb_spec (opcode g) 10) as [HA|HA]; [apply IH|].
    by intros [= <- _ <-].
Qed.

(** ** What Read reports *)

(** The texts of the calls of [fill_err]. *)
Definition read_errors : list str :=
  [«"read frame header failed"»; «"read extended length failed"»;
   «"frame length exceeds sanity bound"»; «"read mask key failed"»; «"read payload failed"»].

(** A text that starts by naming what failed. *)
Definition names_failure (err : str) : Prop :=
  exists what detail, what ∈ read_errors /\ err = what ++ detail.

Lemma names_failure_text err : names_failure err -> is_empty err = false.
Proof.
  intros (what & detail & Hin & ->).
  assert (Forall (fun s => is_empty s = false) read_errors) as H by (by repeat apply Forall_cons_2).
  rewrite Forall_forall in H. specialize (H _ Hin). by destruct what.
Qed.

Lemma fill_err_names f what c : what ∈ read_errors -> names_failure (fill_err f what c).
Proof. by eexists _, _. Qed.

Lemma with_last_names err c : names_failure err -> names_failure (with_last err c).
Proof.
  intros (what & detail & Hw & ->). unfold with_last. destruct (is_empty _).
  - by exists what, detail.
  - exists what. rewrite <- app_assoc. by eexists.
Qed.

Lemma read_part_names n deadline explain c e c' :
  (forall c, names_failure (explain c)) ->
  read_part n deadline explain c = Some (inl (e, c')) -> names_failure e.
Proof.
  intros Hx. unfold read_part. destruct (ReadExact n deadline c) as [[[rc o] c1]|]; [|done].
  cbn. destruct (rc =? 1); [done|]. by intros [= <- _].
Qed.

Lemma read_frame_names fl h0 h1 deadline c e c' :
  read_frame fl h0 h1 deadline c = Some (inl (e, c')) -> names_failure e.
Proof.
  unfold read_frame. intros H.
  destruct (read_part (ext_len h1) deadline _ c) as [[[e1 c1]|[ext c1]]|] eqn:E1; [| |done].
  { injection H as -> _. eapply read_part_names, E1. intros. apply fill_err_names. set_solver. }
  cbn [mbind option_bind] in H. destruct (kMaxFrame <? _).
  { injection H as <- _. apply fill_err_names. set_solver. }
  destruct (read_part _ deadline _ c1) as [[[e2 c2]|[key c2]]|] eqn:E2; [| |done].
  { injection H as -> _. eapply read_part_names, E2. intros. apply fill_err_names. set_solver. }
  cbn [mbind option_bind] in H. destruct (read_part _ deadline _ c2) as [[[e3 c3]|[q c3]]|] eqn:E3; [|done|done].
  injection H as -> _. eapply read_part_names, E3. intros. apply with_last_names, fill_err_names.
  set_solver.
Qed.

(** The three outcomes: a message, silence, or an error whose text names what
    failed, so that [err] is never empty on -1. *)
Lemma read_frames_outcome passes deadline c rc f err c' :
  read_frames passes deadline c = Some (rc, f, err, c') ->
  rc = 1 /\ is_Some f /\ err = [] \/ rc = 0 /\ f = None /\ err = [] \/
  rc = -1 /\ f = None /\ names_failure err.
Proof.
  revert c. induction passes as [|p passes IH]; intros c; cbn [read_frames]; [done|].
  destruct (ReadExact 2 deadline c) as [[[rc1 head] c1]|] eqn:E1; [|done]. cbn [mbind option_bind].
  apply ReadExact_stream in E1 as (_ & _ & _ & _ & _ & Hrc).
  destruct (Z.eqb_spec rc1 1) as [->|Hn]; cbn [negb].
  - destruct head as [|h0 [|h1 head]]; [done..|].
    destruct (read_frame _ h0 h1 _ c1) as [[[e c2]|[g c2]]|] eqn:E2; [| |done]; cbn [mbind option_bind].
    + intros [= <- <- <- <-]. apply read_frame_names in E2. auto.
    + destruct (opcode g =? 9).
      { destruct (WriteAll _ _ _ c2) as [[ok c3]|]; [|done]. apply IH. }
      destruct (opcode g =? 10); [apply IH|]. intros [= <- <- <- <-]. left. by eauto.
  - destruct Hrc as [[? _]|[[->| ->] _]]; [done|..]; intros [= <- <- <- <-].
    + auto.
    + right; right. split_and!; [done..|]. apply with_last_names, fill_err_names. set_solver.
Qed.

(** C3: When [Read] reports a message, it is the next message of the stream, whole
    and unmodified, pings and pongs skipped; the stream resumes right after it. *)
Theorem Read_refines timeout_ms now passes c f err c' :
  Read timeout_ms now passes c = Some (1, Some f, err, c') ->
  next_message (length passes) (incoming c) = Some (f, incoming c').
Proof. apply read_frames_refines. Qed.

(** ** Read succeeds on a network that delivers *)

(** A pass that finds data before the deadline and reads some of it. *)
Definition delivers (deadline : Z) (t : turn) : Prop :=
  0 < remaining deadline (t_now t) /\ t_poll t = 1 /\
  exists k, (0 < k)%nat /\ (t_recv t = Recv k \/ t_recv t = SslRead k).

Lemma read_turn_delivers tls need deadline rx t :
  delivers deadline t -> (0 < need <= length rx)%nat ->
  exists k, (0 < k <= need)%nat /\ read_turn tls need deadline rx t = inr (take k rx).
Proof.
  intros (Hr & Hp & k & Hk & Ht) Hn. exists (Nat.min k need). split; [lia|].
  assert (receive need rx (t_recv t) = inr (take (Nat.min k need) rx)) as E.
  { destruct Ht as [-> | ->]; unfold receive, deliver;
      (destruct (take (Nat.min k need) rx) eqn:E; [|done]);
      apply (f_equal length) in E; rewrite length_take in E; simpl in E; lia. }
  unfold read_turn. rewrite Hp, E.
  rewrite (proj2 (Z.leb_gt _ 0)) by done. by destruct (negb tls || _).
Qed.

Lemma read_loop_delivers tls need deadline acc rx ts :
  Forall (delivers deadline) ts -> (need <= length rx)%nat -> (need <= length ts)%nat ->
  exists k, (k <= need)%nat /\
    read_loop tls need deadline acc rx ts = Some (1, None, acc ++ take need rx, drop need rx, drop k ts).
Proof.
  intros Hts. revert need acc rx. induction Hts as [|t ts Ht _ IH]; intros need acc rx Hr Hl;
    cbn [read_loop].
  - simpl in Hl. destruct need; [|lia]. exists 0%nat. rewrite take_0, drop_0, app_nil_r. auto.
  - destruct (Nat.eqb_spec need 0) as [->|Hn].
    + exists 0%nat. rewrite take_0, drop_0, app_nil_r. auto.
    + destruct (read_turn_delivers tls need deadline rx t Ht) as (k & Hk & ->); [lia|].
      assert (length (take k rx) = k) as Hlen by (rewrite length_take; lia).
      rewrite Hlen. simpl in Hl.
      destruct (IH (need - k)%nat (acc ++ take k rx) (drop k rx)) as (j & Hj & ->);
        [rewrite length_drop; lia|lia|].
      exists (S j). split; [lia|]. rewrite drop_drop, <- app_assoc, take_take_drop.
      by replace (k + (need - k))%nat with need by lia.
Qed.

(** A client whose buffer is empty and whose network delivers, on [n] passes at
    least, for either deadline. *)
Definition ready (d1 d2 : Z) (n : nat) (c : WsClient) : Prop :=
  read_buf_ c = [] /\ Forall (delivers d1) (turns c) /\ Forall (delivers d2) (turns c) /\
  (n <= length (turns c))%nat.

Lemma ReadExact_delivers d1 d2 deadline n m c a b :
  (deadline = d1 \/ deadline = d2) -> ready d1 d2 (n + m) c -> incoming c = a ++ b ->
  length a = n ->
  exists c', ReadExact n deadline c = Some (1, a, c') /\ incoming c' = b /\ ready d1 d2 m c'.
Proof.
  intros Hd (Hb & H1 & H2 & Hl) Hi Ha. unfold incoming in Hi. rewrite Hb in Hi. simpl in Hi.
  destruct (read_loop_delivers (ssl c) n deadline [] (rx c) (turns c)) as (k & Hk & E).
  { by destruct Hd as [-> | ->]. }
  { rewrite Hi, length_app. lia. }
  { lia. }
  unfold ReadExact. rewrite Hb, take_nil, drop_nil. cbn [length]. rewrite Nat.sub_0_r, E. cbn.
  rewrite Hi, <- Ha, take_app_length, drop_app_length. eexists. split; [reflexivity|].
  split; [done|]. split_and!; cbn; [done|by apply Forall_drop..|rewrite length_drop; lia].
Qed.

Lemma read_part_delivers d1 d2 deadline n m c a b :
  (deadline = d1 \/ deadline = d2) -> ready d1 d2 (n + m) c -> incoming c = a ++ b ->
  length a = n ->
  exists c', (forall explain, read_part n deadline explain c = Some (inr (a, c'))) /\ incoming c' = b /\ ready d1 d2 m c'.
Proof.
  intros Hd Hr Hi Ha. destruct (ReadExact_delivers _ _ _ _ _ _ _ _ Hd Hr Hi Ha) as (c' & E & H).
  exists c'. unfold read_part. by rewrite E.
Qed.

Lemma split_exact_Some n s a b : split_exact n s = Some (a, b) -> s = a ++ b /\ length a = n.
Proof.
  unfold split_exact. destruct (Nat.leb_spec n (length s)); [|done]. intros [= <- <-].
  by rewrite take_drop, length_take, Nat.min_l.
Qed.

Lemma parse_frame_Some h0 h1 s f rest :
  parse_frame (h0 :: h1 :: s) = Some (f, rest) ->
  exists ext key p, s = ext ++ key ++ p ++ rest /\ length ext = ext_len h1 /\
    frame_len h1 ext <= kMaxFrame /\ length key = (if header_masked h1 then 4 else 0)%nat /\
    length p = Z.to_nat (frame_len h1 ext) /\
    f = mkWsFrame (header_opcode h0) (if header_masked h1 then xor_from 0 key p else p)
          (header_fin h0).
Proof.
  cbn [parse_frame]. destruct (split_exact (ext_len h1) s) as [[ext s1]|] eqn:E1; [|done].
  cbn [mbind option_bind]. destruct (Z.ltb_spec kMaxFrame (frame_len h1 ext)) as [|Hb]; [done|].
  destruct (split_exact _ s1) as [[key s2]|] eqn:E2; [|done]. cbn [mbind option_bind].
  destruct (split_exact _ s2) as [[p s3]|] eqn:E3; [|done]. cbn [mbind option_bind].
  intros [= <- <-].
  apply split_exact_Some in E1 as [-> L1], E2 as [-> L2], E3 as [-> L3].
  exists ext, key, p. by split_and!.
Qed.

(** [ready] for as many passes as there are bytes left. *)
Lemma read_part_ready d1 d2 n c a b :
  ready d1 d2 (length (incoming c)) c -> incoming c = a ++ b -> length a = n ->
  exists c', (forall explain, read_part n d2 explain c = Some (inr (a, c'))) /\ incoming c' = b /\
             ready d1 d2 (length (incoming c')) c'.
Proof.
  intros Hr Hi Ha. rewrite Hi, length_app, Ha in Hr.
  destruct (read_part_delivers d1 d2 d2 n (length b) c a b) as (c' & E & Hb & H); auto.
  exists c'. by rewrite Hb.
Qed.

Lemma read_frame_delivers d1 d2 fl h0 h1 c f rest :
  ready d1 d2 (length (incoming c)) c ->
  parse_frame (h0 :: h1 :: incoming c) = Some (f, rest) ->
  exists c', read_frame fl h0 h1 d2 c = Some (inr (f, c')) /\ incoming c' = rest.
Proof.
  intros Hr (ext & key & p & Hi & L1 & Hb & L2 & L3 & ->)%parse_frame_Some.
  unfold read_frame.
  destruct (read_part_ready d1 d2 _ c ext (key ++ p ++ rest) Hr Hi L1) as (c1 & E1 & I1 & R1).
  rewrite E1. cbn. rewrite (proj2 (Z.ltb_ge _ _) Hb).
  destruct (read_part_ready d1 d2 _ c1 key (p ++ rest) R1 I1 L2) as (c2 & E2 & I2 & R2).
  rewrite E2. cbn.
  destruct (read_part_ready d1 d2 _ c2 p rest R2 I2 L3) as (c3 & E3 & I3 & R3).
  rewrite E3. cbn. by eexists.
Qed.

(** The frame is read, and nothing written. *)
Lemma read_frames_delivers_quietly p passes deadline c f rest :
  ready deadline (after_header p + kFrameReadBudgetMs) (length (incoming c)) c ->
  parse_frame (incoming c) = Some (f, rest) -> opcode f <> 0x9 -> opcode f <> 0xA ->
  exists c', read_frames (p :: passes) deadline c = Some (1, Some f, [], c') /\
    incoming c' = rest /\ tx c' = tx c.
Proof.
  intros Hr Hp H9 HA. destruct (incoming c) as [|h0 [|h1 s]] eqn:Hi; [done..|].
  destruct (ReadExact_delivers _ _ deadline 2 (length s) c [h0; h1] s
              (or_introl eq_refl) Hr Hi eq_refl) as (c1 & E1 & I1 & R1).
  pose proof (ReadExact_stream _ _ _ _ _ _ E1) as (_ & T1 & _).
  cbn [read_frames]. rewrite E1. cbn. rewrite <- I1 in Hp, R1.
  destruct (read_frame_delivers _ _ (on_failure p) _ _ _ _ _ R1 Hp) as (c2 & E2 & I2).
  pose proof (read_frame_refines _ _ _ _ _ _ _ E2) as [_ T2]. rewrite E2. cbn.
  rewrite (proj2 (Z.eqb_neq _ _) H9), (proj2 (Z.eqb_neq _ _) HA). exists c2.
  split_and!; [done..|congruence].
Qed.

Lemma read_frames_delivers p passes deadline c f rest :
  ready deadline (after_header p + kFrameReadBudgetMs) (length (incoming c)) c ->
  parse_frame (incoming c) = Some (f, rest) -> opcode f <> 0x9 -> opcode f <> 0xA ->
  exists c', read_frames (p :: passes) deadline c = Some (1, Some f, [], c') /\ incoming c' = rest.
Proof.
  intros Hr Hp H9 HA.
  destruct (read_frames_delivers_quietly p passes _ _ _ _ Hr Hp H9 HA) as (c' & E & Hi & _).
  by exists c'.
Qed.

(** Nothing is ever put back. *)
Lemma ReadExact_buf n deadline c rc out c' :
  ReadExact n deadline c = Some (rc, out, c') -> read_buf_ c = [] -> read_buf_ c' = [].
Proof.
  unfold ReadExact. destruct (read_loop _ _ _ _ _ _) as [[[[[rc' e] out'] rest] ts]|]; [|done].
  intros [= _ _ <-] Hb. cbn. by rewrite Hb, drop_nil.
Qed.

Lemma read_part_buf n deadline explain c r :
  read_part n deadline explain c = Some r -> read_buf_ c = [] ->
  match r with inl (_, c') | inr (_, c') => read_buf_ c' = [] end.
Proof.
  unfold read_part. destruct (ReadExact n deadline c) as [[[rc o] c1]|] eqn:E; [|done].
  intros [= <-] Hb. apply ReadExact_buf in E; [|done]. by destruct (rc =? 1).
Qed.

Lemma read_frame_buf fl h0 h1 deadline c f c' :
  read_frame fl h0 h1 deadline c = Some (inr (f, c')) -> read_buf_ c = [] -> read_buf_ c' = [].
Proof.
  unfold read_frame. intros H Hb.
  destruct (read_part (ext_len h1) deadline _ c) as [[c1|[ext c1]]|] eqn:E1; [done| |done].
  apply read_part_buf in E1; [|done]. cbn in H, E1. destruct (kMaxFrame <? _); [done|].
  destruct (read_part _ deadline _ c1) as [[c2|[key c2]]|] eqn:E2; [done| |done].
  apply read_part_buf in E2; [|done]. cbn in H, E2.
  destruct (read_part _ deadline _ c2) as [[c3|[p c3]]|] eqn:E3; [done| |done].
  apply read_part_buf in E3; [|done]. cbn in H, E3. by injection H as _ <-.
Qed.

Lemma read_frames_buf p deadline c f err c' :
  read_frames [p] deadline c = Some (1, Some f, err, c') -> read_buf_ c = [] -> read_buf_ c' = [].
Proof.
  cbn [read_frames]. intros H Hb.
  destruct (ReadExact 2 deadline c) as [[[rc head] c1]|] eqn:E1; [|done].
  apply ReadExact_buf in E1; [|done]. cbn [mbind option_bind] in H.
  destruct (negb (rc =? 1)); [by destruct head|]. destruct head as [|h0 [|h1 head]]; [done..|].
  destruct (read_frame _ h0 h1 _ c1) as [[[e c2]|[g c2]]|] eqn:E2; [done| |done].
  apply read_frame_buf in E2; [|done]. cbn [mbind option_bind] in H.
  destruct (opcode g =? 9); [by destruct (WriteAll _ _ _ c2) as [[]|]|].
  destruct (opcode g =? 10); [done|]. by injection H as _ _ <-.
Qed.


(** ** A poll window that ends inside the header loses a byte *)

(** C24: The first pass delivers one byte, and the next finds nothing before the
    deadline: [Read] reports the 0 of an idle connection, although the byte is
    gone and the stream is no longer at a frame boundary. *)
Theorem Read_timeout_loses_header_byte timeout_ms now p passes c b s t t' ts :
  read_buf_ c = [] -> rx c = b :: s -> turns c = t :: t' :: ts ->
  delivers (now + timeout_ms) t -> t_recv t = Recv 1 \/ t_recv t = SslRead 1 ->
  remaining (now + timeout_ms) (t_now t') <= 0 ->
  exists c', Read timeout_ms now (p :: passes) c = Some (0, None, [], c') /\ incoming c' = s.
Proof.
  intros Hb Hrx Hts (Hr & Hp & _) Ht Ht'. unfold Read. cbn [read_frames].
  assert (read_loop (ssl c) 2 (now + timeout_ms) [] (rx c) (turns c) = Some (0, None, [b], s, ts)) as E.
  { rewrite Hts, Hrx. cbn [read_loop]. simpl (2 =? 0)%nat. cbn iota. unfold read_turn at 1.
    rewrite (proj2 (Z.leb_gt _ 0)), Hp by done.
    replace (receive 2 (b :: s) (t_recv t)) with (inr [b] : read_pass)
      by (by destruct Ht as [-> | ->]).
    destruct (negb (ssl c) || _); cbn; unfold read_turn;
      rewrite (proj2 (Z.leb_le _ 0)) by done; by destruct (negb (ssl c) || _). }
  unfold ReadExact. rewrite Hb. cbn [take drop length Nat.sub]. rewrite E. cbn.
  by eexists.
Qed.

(** ** Sending *)

Lemma write_loop_spec buf deadline out ts err out' ts' :
  write_loop buf deadline out ts = Some (err, out', ts') ->
  exists sent rest, buf = sent ++ rest /\ out' = out ++ sent /\ (err = None <-> rest = []).
Proof.
  revert buf out. induction ts as [|t ts IH]; intros buf out.
  - destruct buf; cbn; [|done]. intros [= <- <- <-]. exists [], []. rewrite (app_nil_r out). by repeat split.
  - destruct buf as [|b buf].
    { cbn. intros [= <- <- <-]. exists [], []. rewrite (app_nil_r out). by repeat split. }
    assert (forall m, Some (Some m, out, ts) = Some (err, out', ts') ->
      exists sent rest, b :: buf = sent ++ rest /\ out' = out ++ sent /\ (err = None <-> rest = []))
      as Hfail.
    { intros m [= <- <- <-]. exists [], (b :: buf). rewrite (app_nil_r out). by repeat split. }
    assert (forall k, write_loop (drop k (b :: buf)) deadline (out ++ take k (b :: buf)) ts =
        Some (err, out', ts') ->
      exists sent rest, b :: buf = sent ++ rest /\ out' = out ++ sent /\ (err = None <-> rest = []))
      as Hsend.
    { intros k (sent & rest & Hd & -> & Hok)%IH.
      exists (take k (b :: buf) ++ sent), rest. rewrite <- !app_assoc, <- Hd.
      by rewrite take_drop. }
    cbn [write_loop]. repeat case_match; first [apply Hsend | eauto].
Qed.

(** What [WriteAll] leaves on the wire: the whole buffer exactly when it
    succeeds, a proper prefix of it otherwise. *)
Lemma WriteAll_spec buf ms now c err c' :
  WriteAll buf ms now c = Some (err, c') ->
  exists sent rest, buf = sent ++ rest /\ tx c' = tx c ++ sent /\ (err = None <-> rest = []).
Proof.
  unfold WriteAll. destruct (write_loop _ _ _ _) as [[[err' tx'] ts]|] eqn:E; [|done].
  intros [= <- <-]. by eapply write_loop_spec.
Qed.

(** C22: A send that succeeds puts one frame on the wire, from which the peer reads
    the data, unmasked, and the bytes after it.  One that fails leaves a proper
    prefix of the frame, so the connection cannot be written to again. *)
Theorem SendBinary_wire data key now c err c' :
  length key = 4%nat -> Z.of_nat (length data) <= kMaxFrame ->
  SendBinary data key now c = Some (err, c') ->
  exists sent, tx c' = tx c ++ sent /\
    match err with
    | None => forall rest, parse_frame (sent ++ rest) = Some (mkWsFrame 0x2 data true, rest)
    | Some _ => exists lost, lost <> [] /\ sent ++ lost = EncodeWsFrame 0x2 data true key
    end.
Proof.
  intros Hk Hl (sent & lost & E & Ht & Hok)%WriteAll_spec. exists sent. split; [done|].
  destruct err.
  2:{ rewrite (proj1 Hok eq_refl), app_nil_r in E. subst sent. intros rest.
      apply parse_EncodeWsFrame; [lia|done..]. }
  - exists lost. split; [|done]. intros ->. by specialize (proj2 Hok eq_refl).
Qed.

(** A pass that accepts some bytes before the deadline. *)
Definition accepts (deadline : Z) (t : write_turn) : Prop :=
  0 < remaining deadline (w_now t) /\ w_poll t = 1 /\
  exists k, (0 < k)%nat /\ (w_send t = Send k \/ w_send t = SslWrite k).

Lemma write_loop_accepts deadline buf out ts :
  Forall (accepts deadline) ts -> (length buf <= length ts)%nat ->
  exists ts', write_loop buf deadline out ts = Some (None, out ++ buf, ts').
Proof.
  intros Hts. revert buf out. induction Hts as [|t ts (Hr & Hp & k & Hk & Ht) _ IH];
    intros [|b buf] out Hl; cbn [write_loop length] in *; rewrite ?app_nil_r; try (by eexists); [lia|].
  rewrite (proj2 (Z.leb_gt _ 0)), Hp by done. cbn.
  destruct (IH (drop k (b :: buf)) (out ++ take k (b :: buf))) as (ts' & E).
  { rewrite length_drop. simpl. lia. }
  rewrite <- app_assoc, take_drop in E. exists ts'. by destruct Ht as [-> | ->].
Qed.

(** What the client sends over a network that accepts it, the peer's client
    reads: the two socket loops and the two codecs compose. *)
Theorem client_to_client data key now c d timeout_ms p passes :
  length key = 4%nat -> Z.of_nat (length data) <= kMaxFrame ->
  tx c = [] -> Forall (accepts (now + write_timeout_ms_ c)) (write_turns c) ->
  (length (EncodeWsFrame 0x2 data true key) <= length (write_turns c))%nat ->
  exists c', SendBinary data key now c = Some (None, c') /\
    (rx d = tx c' ->
     ready (now + timeout_ms) (after_header p + kFrameReadBudgetMs) (length (incoming d)) d ->
     exists d', Read timeout_ms now (p :: passes) d =
                  Some (1, Some (mkWsFrame 0x2 data true), [], d') /\ incoming d' = []).
Proof.
  intros Hk Hl Htx Hw Hn. unfold SendBinary, WriteAll.
  destruct (write_loop_accepts _ _ (tx c) _ Hw Hn) as (ts' & E). rewrite E. cbn [mbind option_bind].
  eexists. split; [reflexivity|]. cbn [tx]. rewrite Htx. cbn [app]. intros Hrx Hr.
  assert (parse_frame (incoming d) = Some (mkWsFrame 2 data true, [])) as Hp.
  { unfold incoming. rewrite (proj1 Hr). simpl. rewrite Hrx, <- (app_nil_r (EncodeWsFrame _ _ _ _)).
    apply parse_EncodeWsFrame; [lia|done..]. }
  by apply read_frames_delivers.
Qed.

(** ** The loops end once their deadline has passed *)

Definition late (deadline : Z) (t : turn) : Prop := remaining deadline (t_now t) <= 0.

Lemma read_turn_late tls need deadline rx t :
  late deadline t -> read_turn tls need deadline rx t = stop 0.
Proof.
  intros Ht. unfold read_turn. rewrite (proj2 (Z.leb_le _ 0)) by done.
  by destruct (negb tls || (t_pending t =? 0)).
Qed.

Lemma read_loop_late tls need deadline acc rx ts :
  Exists (late deadline) ts ->
  exists rc e out rest ts', read_loop tls need deadline acc rx ts = Some (rc, e, out, rest, ts') /\
    (rc = 1 -> Exists (late deadline) ts').
Proof.
  revert need acc rx. induction ts as [|t ts IH]; intros need acc rx Hts; [by inversion Hts|].
  cbn [read_loop]. destruct (need =? 0)%nat; [by repeat eexists|].
  destruct (read_turn tls need deadline rx t) as [[rc e]|chunk] eqn:E.
  - repeat eexists. intros ->. by apply read_turn_code in E as [|].
  - apply Exists_cons in Hts as [Ht|Hts]; [|by apply IH].
    by rewrite read_turn_late in E.
Qed.

(** A clock that passes the deadline ends the read; one that succeeds leaves it
    to the next. *)
Lemma ReadExact_late n deadline c :
  Exists (late deadline) (turns c) ->
  exists rc out c', ReadExact n deadline c = Some (rc, out, c') /\
    (rc = 1 -> Exists (late deadline) (turns c')).
Proof.
  intros H. unfold ReadExact.
  destruct (read_loop_late (ssl c) (n - length (take n (read_buf_ c))) deadline
              (take n (read_buf_ c)) (rx c) (turns c) H) as (rc & e & out & rest & ts' & -> & H').
  by repeat eexists.
Qed.

Lemma WriteAll_late buf ms now c :
  Exists (fun t => remaining (now + ms) (w_now t) <= 0) (write_turns c) ->
  exists err c', WriteAll buf ms now c = Some (err, c') /\ turns c' = turns c.
Proof.
  intros H. unfold WriteAll.
  assert (exists r, write_loop buf (now + ms) (tx c) (write_turns c) = Some r) as ([[err tx'] ts] & ->);
    [|by repeat eexists].
  revert buf. generalize (tx c) as out.
  induction (write_turns c) as [|t ts IH]; intros out buf; [by inversion H|].
  destruct buf; cbn [write_loop]; [by eexists|].
  destruct (Z.leb_spec (remaining (now + ms) (w_now t)) 0); [by eexists|].
  apply Exists_cons in H as [?|H]; [lia|].
  repeat case_match; first [by eexists|by apply IH].
Qed.

(** ** Witnesses *)

(** A server's text frame, as it arrives: one byte per pass. *)
Definition demo_stream : str := EncodeWsFrame 0x1 «"hi"» false [].
Definition demo_turn (now : Z) (k : nat) : turn := mkTurn now 0 1 (Recv k).
Definition demo_client (rx : str) (ts : list turn) : WsClient := mkWsClient false [] rx [] ts [] 5000 [].
Definition demo_pass : pass := mkPass 0 0 0 «"abcd"» (mkFailure 0 104 «"Connection reset by peer"»).
Definition demo_ready : WsClient := demo_client demo_stream (replicate 4 (demo_turn 0 1)).

Lemma demo_ready_ok d1 d2 :
  0 < remaining d1 0 -> 0 < remaining d2 0 -> ready d1 d2 (length (incoming demo_ready)) demo_ready.
Proof.
  intros H1 H2. split_and!; [done|..].
  - apply Forall_replicate. split_and!; [done..|]. exists 1%nat. split; [lia|by left].
  - apply Forall_replicate. split_and!; [done..|]. exists 1%nat. split; [lia|by left].
  - vm_compute. lia.
Qed.

Lemma Read_refines_witness :
  exists c', Read 100 0 [demo_pass] demo_ready = Some (1, Some (mkWsFrame 1 «"hi"» true), [], c') /\
    next_message 1 (incoming demo_ready) = Some (mkWsFrame 1 «"hi"» true, incoming c').
Proof.
  eexists. split; [vm_compute; reflexivity|].
  apply (Read_refines 100 0 [demo_pass] demo_ready (mkWsFrame 1 «"hi"» true) []).
  vm_compute. reflexivity.
Defined.


(** The first header byte arrives, the second one late: the next read takes the
    length byte for a header, and the session is lost. *)
Definition demo_slow : WsClient :=
  demo_client demo_stream (demo_turn 0 1 :: mkTurn 100 0 0 (Recv 1) :: replicate 8 (demo_turn 0 4)).

Lemma Read_timeout_loses_header_byte_witness :
  exists c', Read 100 0 [demo_pass] demo_slow = Some (0, None, [], c') /\
    incoming c' = drop 1 demo_stream /\ Read 100 0 [demo_pass] demo_ready <> None /\
    parse_frame (incoming c') = None.
Proof.
  destruct (Read_timeout_loses_header_byte 100 0 demo_pass [] demo_slow "129"%char (drop 1 demo_stream)
              (demo_turn 0 1) (mkTurn 100 0 0 (Recv 1)) (replicate 8 (demo_turn 0 4)))
    as (c' & E & Hc); [reflexivity|reflexivity|reflexivity| |by left|by vm_compute|].
  - split_and!; [reflexivity..|]. exists 1%nat. split; [lia|by left].
  - exists c'. rewrite Hc. split_and!; [done|done|by vm_compute|reflexivity].
Defined.

Definition demo_sender (ts : list write_turn) : WsClient :=
  mkWsClient false [] [] [] [] ts 5000 [].

Lemma SendBinary_wire_witness :
  exists sent lost, tx (demo_sender []) ++ sent = take 3 (EncodeWsFrame 2 «"pcm"» true «"abcd"») /\
    lost <> [] /\ sent ++ lost = EncodeWsFrame 2 «"pcm"» true «"abcd"».
Proof.
  destruct (SendBinary_wire «"pcm"» «"abcd"» 0
              (demo_sender [mkWriteTurn 0 1 (Send 3); mkWriteTurn 6000 1 (Send 3)])
              (Some «"write timeout"»)
              (mkWsClient false [] [] (take 3 (EncodeWsFrame 2 «"pcm"» true «"abcd"»)) [] [] 5000 []))
    as (sent & Ht & lost & Hl & He); [reflexivity|by vm_compute|vm_compute; reflexivity|].
  exists sent, lost. cbn [tx] in Ht. by rewrite Ht.
Defined.

Lemma client_to_client_witness :
  exists c', SendBinary «"pcm"» «"abcd"» 0 (demo_sender (replicate 9 (mkWriteTurn 0 1 (Send 2)))) =
               Some (None, c') /\
    exists d', Read 100 0 [demo_pass]
                 (demo_client (tx c') (replicate 9 (demo_turn 0 3))) =
               Some (1, Some (mkWsFrame 2 «"pcm"» true), [], d') /\ incoming d' = [].
Proof.
  set (c := demo_sender (replicate 9 (mkWriteTurn 0 1 (Send 2)))).
  set (d := demo_client (EncodeWsFrame 2 «"pcm"» true «"abcd"») (replicate 9 (demo_turn 0 3))).
  destruct (client_to_client «"pcm"» «"abcd"» 0 c d 100 demo_pass []) as (c' & E & H);
    [reflexivity|by vm_compute|reflexivity| |vm_compute; lia|].
  - apply Forall_replicate. split_and!; [reflexivity..|]. exists 2%nat. split; [lia|by left].
  - exists c'. split; [exact E|].
    assert (tx c' = EncodeWsFrame 2 «"pcm"» true «"abcd"») as Htx
      by (vm_compute in E; injection E as <-; reflexivity).
    rewrite Htx. apply H; [by rewrite Htx|].
    split_and!; [done|..]; try (apply Forall_replicate; split_and!; [reflexivity..|];
      exists 3%nat; split; [lia|by left]). vm_compute. lia.
Defined.
