(* ===== verification/WsConnect.v ===== *)
(** * The connection of the WebSocket client (src/ws_client.cc, [WsClient::Connect])

    The TCP connect over the addresses of a host, the TLS handshake loop, and
    the HTTP upgrade: its request, the reading of the response and its check.
    What the operating system and OpenSSL give is data, as in WsClient: a call that
    does not return is a pass that is not there.  (The source leaves the socket
    blocking after [TcpConnect], so [SSL_connect] may be such a call.) *)

From S2P Require Import Prelude Decimal Base64 Url WsFrame WsClient.

Open Scope Z_scope.

(** ** [PollFd] *)

Definition POLLIN : Z := 0x1.
Definition POLLOUT : Z := 0x4.
Definition POLLERR : Z := 0x8.
Definition POLLHUP : Z := 0x10.
Definition POLLNVAL : Z := 0x20.

(** One return of [poll]. *)
Record poll_return := mkPollReturn { poll_rc : Z; poll_errno : Z; revents : Z }.

(** [None] while [poll] keeps being interrupted. *)
Fixpoint PollFd (events : Z) (polls : list poll_return) : option Z :=
  match polls with
  | [] => None
  | p :: polls =>
      if (poll_rc p <? 0) && (poll_errno p =? EINTR) then PollFd events polls
      else if poll_rc p <=? 0 then Some (poll_rc p)
      else if negb (Z.land (revents p) (Z.lor POLLERR POLLNVAL) =? 0) then Some (-1)
      else if Z.land (revents p) events =? 0 then Some (-1)
      else Some 1
  end.

(** ** [TcpConnect] *)

Definition ETIMEDOUT : Z := 110.

(** What [connect] gives: success, an error, or [EINPROGRESS], with what [poll]
    and [SO_ERROR] then say. *)
Inductive connect_result :=
  | Connects
  | ConnectFails (errno : Z)
  | InProgress (rc soerr : Z).

(** An address of the host: [socket] fails, or gives a descriptor. *)
Inductive address :=
  | NoSocket (errno : Z)
  | Socket (c : connect_result).

(** The return code and [errno] of one attempt. *)
Definition attempt_rc (c : connect_result) (errno : Z) : Z * Z :=
  match c with
  | Connects => (0, errno)
  | ConnectFails e => (-1, e)
  | InProgress rc soerr =>
      if 0 <? rc then if negb (soerr =? 0) then (-1, soerr) else (0, errno)
      else (-1, ETIMEDOUT)
  end.

(** The loop over the addresses, numbered from [i]: the one whose socket is
    kept, [errno], and those whose sockets were closed. *)
Fixpoint try_addresses (i : nat) (errno : Z) (l : list address) : option nat * Z * list nat :=
  match l with
  | [] => (None, errno, [])
  | NoSocket e :: l => try_addresses (S i) e l
  | Socket c :: l =>
      let '(rc, errno) := attempt_rc c errno in
      if rc =? 0 then (Some i, errno, [])
      else let '(fd, errno, closed) := try_addresses (S i) errno l in (fd, errno, i :: closed)
  end.

(** ** The TLS handshake *)

(** One pass: what [SSL_connect] and [SSL_get_error] give, the clock, what
    [PollFd] returns, and the text of OpenSSL's error. *)
Record tls_step := mkTlsStep {
  ssl_rc : Z; ssl_err : Z; tls_now : Z; tls_poll : Z; tls_error : str
}.

(** [Some None] once the session is established; [Some (Some err)] on failure. *)
Fixpoint tls_handshake (deadline : Z) (steps : list tls_step) : option (option str) :=
  match steps with
  | [] => None
  | s :: steps =>
      if ssl_rc s =? 1 then Some None
      else if (ssl_err s =? SSL_ERROR_WANT_READ) || (ssl_err s =? SSL_ERROR_WANT_WRITE) then
        if (remaining deadline (tls_now s) <=? 0) || negb (tls_poll s =? 1)
        then Some (Some «"tls handshake timeout"»)
        else tls_handshake deadline steps
      else Some (Some («"tls handshake failed: "» ++ tls_error s))
  end.

(** ** The HTTP upgrade *)

Definition crlf : str := ["013"%char; "010"%char].

Definition upgrade_request (parts : UrlParts) (key : str) : str :=
  «"GET "» ++ target_ parts ++ «" HTTP/1.1"» ++ crlf ++
  «"Host: "» ++ host parts ++ «":"» ++ to_string (port parts) ++ crlf ++
  «"Upgrade: websocket"» ++ crlf ++
  «"Connection: Upgrade"» ++ crlf ++
  «"Sec-WebSocket-Key: "» ++ key ++ crlf ++
  «"Sec-WebSocket-Version: 13"» ++ crlf ++ crlf.

Definition head_end : str := crlf ++ crlf.
Definition kMaxHead : Z := 64 * 1024.

(** The loop that reads the response head, one byte per pass; [clocks] are what
    [NowMs()] gives on each. *)
Fixpoint read_head (clocks : list Z) (deadline : Z) (resp : str) (c : WsClient)
    : option (str + str * WsClient) :=
  match find head_end resp with
  | Some _ => Some (inr (resp, c))
  | None =>
      match clocks with
      | [] => None
      | now :: clocks =>
          if remaining deadline now <=? 0 then Some (inl «"websocket handshake timeout"»)
          else
            '(rc, out, c) ← ReadExact 1 deadline c;
            if negb (rc =? 1) then Some (inl «"websocket handshake read failed"»)
            else
              let resp := resp ++ out in
              if kMaxHead <? Z.of_nat (length resp)
              then Some (inl «"websocket handshake response too large"»)
              else read_head clocks deadline resp c
      end
  end.

Section Connect.
(** OpenSSL's [SHA1] and the [strerror] of the C library. *)
Context (sha1 : str -> str) (strerror : Z -> str).

Definition accept_line (key : str) : str :=
  «"Sec-WebSocket-Accept: "» ++
  Base64Encode (sha1 (key ++ «"258EAFA5-E914-47DA-95CA-C5AB0DC85B11"»)).

(** What is wrong with a response head, if anything. *)
Definition check_head (key resp : str) : option str :=
  match find «" 101"» resp with
  | None => Some («"websocket handshake rejected: "» ++ substr_to resp (find crlf resp))
  | Some _ =>
      match find (accept_line key) resp with
      | None => Some «"websocket handshake accept key mismatch"»
      | Some _ => None
      end
  end.

(** [resolution]: the message of [getaddrinfo], or the addresses. *)
Definition TcpConnect (resolution : str + list address) (errno : Z) : str + nat :=
  match resolution with
  | inl e => inl («"dns resolve failed: "» ++ e)
  | inr l =>
      match try_addresses 0 errno l with
      | (Some fd, _, _) => inr fd
      | (None, errno, _) => inl («"tcp connect failed: "» ++ strerror errno)
      end
  end.

(** What one dial meets: the resolver, [errno], OpenSSL's context, the TLS
    passes, the sixteen bytes of the nonce, the clocks, and the network. *)
Record dial := mkDial {
  resolution : str + list address; errno_before : Z;
  tls_ctx : bool; tls_start : Z; tls_steps : list tls_step;
  nonce : str; write_start : Z; head_start : Z; head_clocks : list Z;
  from_peer : str; peer_turns : list turn; peer_write_turns : list write_turn
}.

Definition tls_connect (secure : bool) (timeout_ms : Z) (d : dial) : option (option str) :=
  if negb secure then Some None
  else if negb (tls_ctx d) then Some (Some «"tls ctx init failed"»)
  else tls_handshake (tls_start d + timeout_ms) (tls_steps d).

Definition new_WsClient (secure : bool) (d : dial) : WsClient :=
  mkWsClient secure [] (from_peer d) [] (peer_turns d) (peer_write_turns d) 30000 [].

Definition dial_key (d : dial) : str := Base64Encode (nonce d).

(** The upgrade on a connected client. *)
Definition upgrade (parts : UrlParts) (timeout_ms : Z) (d : dial) (c : WsClient)
    : option (str + WsClient) :=
  '(err, c) ← WriteAll (upgrade_request parts (dial_key d)) timeout_ms (write_start d) c;
  match err with
  | Some e => Some (inl e)
  | None =>
      r ← read_head (head_clocks d) (head_start d + timeout_ms) [] c;
      match r with
      | inl e => Some (inl e)
      | inr (resp, c) =>
          Some (match check_head (dial_key d) resp with Some e => inl e | None => inr c end)
      end
  end.

(** [WsClient::Connect]: the message left in [*err], or the client; [None]
    while a loop is still waiting. *)
Definition Connect (url : str) (timeout_ms : Z) (d : dial) : option (str + WsClient) :=
  match ParseWsUrl url with
  | inl e => Some (inl («"invalid endpoint url: "» ++ e))
  | inr parts =>
      match TcpConnect (resolution d) (errno_before d) with
      | inl e => Some (inl e)
      | inr _ =>
          tls ← tls_connect (secure parts) timeout_ms d;
          match tls with
          | Some e => Some (inl e)
          | None => upgrade parts timeout_ms d (new_WsClient (secure parts) d)
          end
      end
  end.
End Connect.

(** ** [PollFd] *)

Definition interrupted (p : poll_return) : Prop := poll_rc p < 0 /\ poll_errno p = EINTR.

(** An interrupted [poll] is tried again; data is reported even when the peer
    has closed its end, a closed end alone is an error. *)
Lemma PollFd_drains events pre p post :
  Forall interrupted pre -> 0 < poll_rc p ->
  PollFd events (pre ++ p :: post) = Some 1 <->
    Z.land (revents p) (Z.lor POLLERR POLLNVAL) = 0 /\ Z.land (revents p) events <> 0.
Proof.
  intros Hpre Hp. induction Hpre as [|q pre [Hq He] _ IH]; cbn [app PollFd].
  - rewrite (proj2 (Z.ltb_ge _ 0)), (proj2 (Z.leb_gt _ 0)) by lia. cbn [andb].
    destruct (Z.eqb_spec (Z.land (revents p) (Z.lor POLLERR POLLNVAL)) 0),
      (Z.eqb_spec (Z.land (revents p) events) 0); cbn [negb]; naive_solver.
  - by rewrite (proj2 (Z.ltb_lt _ 0)), He.
Qed.

(** ** The addresses tried *)

(** The attempt of [TcpConnect] on an address succeeds. *)
Definition connects (a : address) : bool :=
  match a with Socket Connects => true | Socket (InProgress rc 0) => 0 <? rc | _ => false end.

Definition has_socket (a : address) : bool := match a with Socket _ => true | _ => false end.

(** The numbers of the sockets opened by a list of addresses, from [i]. *)
Definition sockets (i : nat) (l : list address) : list nat :=
  fst <$> filter (fun p => has_socket p.2) (imap (fun j a => ((i + j)%nat, a)) l).

(** What an attempt that fails leaves in [errno]. *)
Definition attempt_error (a : address) : Z :=
  match a with
  | NoSocket e | Socket (ConnectFails e) => e
  | Socket (InProgress rc soerr) => if 0 <? rc then soerr else ETIMEDOUT
  | Socket Connects => 0
  end.

Lemma sockets_cons i a l :
  sockets i (a :: l) = (if has_socket a then [i] else []) ++ sockets (S i) l.
Proof.
  unfold sockets. cbn [imap]. rewrite Nat.add_0_r. rewrite filter_cons.
  rewrite (imap_ext _ (fun j a => ((S i + j)%nat, a))) by (intros; simpl; f_equal; lia).
  cbn [snd]. destruct (has_socket a); by rewrite ?decide_True, ?decide_False by (by simpl).
Qed.

Lemma attempt_spec c errno :
  attempt_rc c errno =
  if connects (Socket c) then (0, errno) else (-1, attempt_error (Socket c)).
Proof.
  destruct c as [| |rc soerr]; [done..|]. unfold attempt_rc, connects, attempt_error.
  by destruct (0 <? rc), soerr.
Qed.

Lemma try_addresses_skip i errno a l :
  connects a = false ->
  try_addresses i errno (a :: l) =
  (let '(fd, errno, closed) := try_addresses (S i) (attempt_error a) l in
   (fd, errno, (if has_socket a then [i] else []) ++ closed)).
Proof.
  intros Ha. destruct a as [e|c]; cbn [try_addresses].
  - cbn. by destruct (try_addresses (S i) e l) as [[fd e'] closed].
  - by rewrite attempt_spec, Ha.
Qed.

Lemma try_addresses_fails i errno l :
  Forall (fun a => connects a = false) l ->
  try_addresses i errno l = (None, default errno (attempt_error <$> last l), sockets i l).
Proof.
  intros Hl. revert i errno. induction Hl as [|a l Ha _ IH]; intros i errno; [done|].
  rewrite try_addresses_skip, IH, sockets_cons by done.
    rewrite last_cons. by destruct (last l).
Qed.

Lemma try_addresses_connects i errno l a l' :
  Forall (fun a => connects a = false) l -> connects a = true ->
  exists errno', try_addresses i errno (l ++ a :: l') =
                   (Some (i + length l)%nat, errno', sockets i l).
Proof.
  intros Hl Ha. revert i errno. induction Hl as [|b l Hb _ IH]; intros i errno.
  - destruct a as [|c]; [done|]. cbn [app try_addresses]. rewrite attempt_spec, Ha.
    cbn. rewrite Nat.add_0_r. by eexists.
  - cbn [app]. rewrite try_addresses_skip by done. destruct (IH (S i) (attempt_error b)) as (e & ->).
    rewrite sockets_cons. exists e. cbn [length]. by rewrite <- Nat.add_succ_comm.
Qed.

(** [TcpConnect] keeps the first address that connects and closes every other
    socket it opened; when none connects, nothing stays open, and the message is
    that of the last address. *)
Lemma TcpConnect_spec (strerror : Z -> str) l errno :
  match list_find (fun a => connects a = true) l with
  | Some (i, _) =>
      TcpConnect strerror (inr l) errno = inr i /\
      (try_addresses 0 errno l).2 = sockets 0 (take i l)
  | None =>
      TcpConnect strerror (inr l) errno =
        inl («"tcp connect failed: "» ++
             strerror (default errno (attempt_error <$> last l))) /\
      (try_addresses 0 errno l).2 = sockets 0 l
  end.
Proof.
  destruct (list_find _ l) as [[i a]|] eqn:E.
  - apply list_find_Some in E as (Hi & Ha & Hf).
    pose proof (take_drop_middle l i a Hi) as Hl.
    assert (Forall (fun a => connects a = false) (take i l)) as Hl'.
    { apply Forall_lookup. intros j b Hj. apply lookup_take_Some in Hj as [Hj Hlt].
      specialize (Hf _ _ Hj Hlt). by destruct (connects b). }
    destruct (try_addresses_connects 0 errno _ _ (drop (S i) l) Hl' Ha) as (e & Ht).
    rewrite Hl in Ht. unfold TcpConnect. rewrite Ht. cbn.
    apply lookup_lt_Some in Hi. by rewrite length_take, Nat.min_l by lia.
  - apply list_find_None in E. unfold TcpConnect. rewrite try_addresses_fails; [done|].
    eapply Forall_impl; [exact E|]. intros a. apply not_true_is_false.
Qed.

(** ** The request, as a server reads it *)

(** A character does not occur in a given text. *)
Ltac absent := apply find_char_None; reflexivity.

(** The line up to the next CRLF, and what follows. *)
Definition next_line (s : str) : option (str * str) :=
  i ← find crlf s; Some (take i s, drop (i + 2) s).

Definition split_at (sep s : str) : option (str * str) :=
  i ← find sep s; Some (take i s, drop (i + length sep) s).

(** The header lines up to the empty one, [fuel] of them at most. *)
Fixpoint read_headers (fuel : nat) (s : str) : option (list (str * str) * str) :=
  match fuel with
  | O => None
  | S fuel =>
      '(line, s) ← next_line s;
      if is_empty line then Some ([], s)
      else
        h ← split_at «": "» line;
        '(hs, s) ← read_headers fuel s;
        Some (h :: hs, s)
  end.

Record request := mkRequest {
  req_method : str; req_target : str; req_version : str; req_headers : list (str * str)
}.

(** An HTTP request without a body, and the bytes after it. *)
Definition read_request (s : str) : option (request * str) :=
  '(line, s) ← next_line s;
  '(method, line) ← split_at «" "» line;
  '(target, version) ← split_at «" "» line;
  '(headers, s) ← read_headers (length s) s;
  Some (mkRequest method target version headers, s).

Lemma next_line_app a b : "013"%char ∉ a -> next_line (a ++ crlf ++ b) = Some (a, b).
Proof.
  intros H. unfold next_line, crlf. rewrite find_needle_app by done. cbn [mbind option_bind].
  by rewrite take_app_length, <- drop_drop, drop_app_length.
Qed.

Lemma split_at_app c n a b :
  c ∉ a -> split_at (c :: n) (a ++ (c :: n) ++ b) = Some (a, b).
Proof.
  intros H. unfold split_at. rewrite find_needle_app by done. cbn [mbind option_bind].
  by rewrite take_app_length, <- drop_drop, drop_app_length, drop_app_length.
Qed.

Lemma split_at_colon a b :
  ":"%char ∉ a -> split_at «": "» (a ++ «": "» ++ b) = Some (a, b).
Proof. apply (split_at_app ":"%char [" "%char]). Qed.

Lemma split_at_space a b : " "%char ∉ a -> split_at «" "» (a ++ «" "» ++ b) = Some (a, b).
Proof. apply (split_at_app " "%char []). Qed.

(** Headers as they are written. *)
Definition header_line (h : str * str) : str := h.1 ++ «": "» ++ h.2 ++ crlf.

Definition header_safe (h : str * str) : bool :=
  bool_decide (("013"%char ∉ h.1) /\ (":"%char ∉ h.1) /\ ("013"%char ∉ h.2)).

Lemma read_headers_lines hs rest k :
  forallb header_safe hs = true ->
  read_headers (S (length hs) + k) (concat (header_line <$> hs) ++ crlf ++ rest) = Some (hs, rest).
Proof.
  induction hs as [|[name value] hs IH]; cbn [forallb length Nat.add fmap list_fmap concat app].
  - intros _. cbn [read_headers]. by rewrite (next_line_app [] rest (not_elem_of_nil _)
      : next_line (crlf ++ rest) = _).
  - intros [(Hn & Hc & Hv)%bool_decide_eq_true Hs]%andb_true_iff. cbn [fst snd] in *.
    specialize (IH Hs). cbn [Nat.add] in IH. remember (S (length hs + k)) as fuel.
    assert ((header_line (name, value) ++ concat (header_line <$> hs)) ++ crlf ++ rest =
            (name ++ «": "» ++ value) ++ crlf ++ concat (header_line <$> hs) ++ crlf ++ rest) as ->
      by (unfold header_line; by rewrite <- !app_assoc).
    cbn [read_headers]. rewrite next_line_app.
    2:{ rewrite !not_elem_of_app. split_and!; [done|absent|done]. }
    cbn [mbind option_bind].
    replace (is_empty (name ++ «": "» ++ value)) with false by (by destruct name).
    rewrite (split_at_colon name value) by done. cbn [mbind option_bind].
    by rewrite IH.
Qed.

(** No request line or header can be broken by a value of these. *)
Definition line_safe (s : str) : Prop := "013"%char ∉ s.

Lemma b64_line_safe data : line_safe (Base64Encode data).
Proof.
  intros H. pose proof (Base64Encode_chars data) as Hc.
  rewrite Forall_forall in Hc. by specialize (Hc _ H).
Qed.

(** What the server is to read. *)
Definition upgrade_headers (parts : UrlParts) (key : str) : list (str * str) :=
  [(«"Host"», host parts ++ «":"» ++ to_string (port parts));
   («"Upgrade"», «"websocket"»); («"Connection"», «"Upgrade"»);
   («"Sec-WebSocket-Key"», key); («"Sec-WebSocket-Version"», «"13"»)].

Lemma upgrade_headers_safe parts key :
  line_safe (host parts) -> line_safe key ->
  forallb header_safe (upgrade_headers parts key) = true.
Proof.
  intros Hh Hk. unfold upgrade_headers. cbn [forallb].
  rewrite !andb_true_iff. unfold header_safe. rewrite !bool_decide_eq_true. cbn [fst snd].
  rewrite !not_elem_of_app.
  split_and!; first [done|by apply decimal_not_in|absent].
Qed.

Lemma upgrade_request_lines parts key rest :
  upgrade_request parts key ++ rest =
  («"GET"» ++ «" "» ++ target_ parts ++ «" "» ++ «"HTTP/1.1"») ++ crlf ++
  concat (header_line <$> upgrade_headers parts key) ++ crlf ++ rest.
Proof. unfold upgrade_request. cbn [fmap list_fmap upgrade_headers concat]. unfold header_line.
  cbn [fst snd]. by rewrite <- !app_assoc. Qed.

(** A server reads the request of [Connect] back as the upgrade of the target, on
    the host and port of the URL, with the key of the dial; nothing the client
    sends afterwards is taken for part of it. *)
Theorem upgrade_request_reads parts nonce rest :
  " "%char ∉ target_ parts -> line_safe (target_ parts) -> line_safe (host parts) ->
  read_request (upgrade_request parts (Base64Encode nonce) ++ rest) =
  Some (mkRequest «"GET"» (target_ parts) «"HTTP/1.1"»
          (upgrade_headers parts (Base64Encode nonce)), rest).
Proof.
  intros Hs Ht Hh. pose proof (upgrade_headers_safe _ _ Hh (b64_line_safe nonce)) as Hsafe.
  unfold read_request. rewrite upgrade_request_lines, next_line_app.
  2:{ rewrite !not_elem_of_app. split_and!; first [done|absent]. }
  cbn [mbind option_bind]. rewrite split_at_space by (absent).
  cbn [mbind option_bind]. rewrite split_at_space by done. cbn [mbind option_bind].
  set (headers := concat _ ++ crlf ++ rest).
  assert (exists k, length headers = 6 + k)%nat as (k & ->).
  { exists (length headers - 6)%nat. unfold headers. rewrite !length_app. cbn. lia. }
  unfold headers. by rewrite (read_headers_lines (upgrade_headers _ _)).
Qed.

(** ** The response head *)

Lemma starts_with_length p s : starts_with p s = true -> (length p <= length s)%nat.
Proof. intros [t ->]%starts_with_spec. rewrite length_app. lia. Qed.

Lemma find_length needle s i :
  find needle s = Some i -> (i + length needle <= length s)%nat.
Proof.
  revert i. induction s as [|c s IH]; intros i; cbn [find].
  - destruct (starts_with needle []) eqn:E; [|done]. intros [= <-]. by apply starts_with_length in E.
  - destruct (starts_with needle (c :: s)) eqn:E.
    { intros [= <-]. by apply starts_with_length in E. }
    destruct (find needle s) as [j|]; [|done]. intros [= <-]. specialize (IH j eq_refl). cbn. lia.
Qed.

Lemma starts_with_app_inv p s t :
  (length p <= length s)%nat -> starts_with p (s ++ t) = starts_with p s.
Proof.
  revert s. induction p as [|c p IH]; intros [|d s] Hl; cbn in *; [done..|lia|].
  by rewrite IH by lia.
Qed.

(** What is found in a text is found first in any text it begins. *)
Lemma find_app_Some needle s t i : find needle s = Some i -> find needle (s ++ t) = Some i.
Proof.
  revert i. induction s as [|c s IH]; intros i Hf; pose proof (find_length _ _ _ Hf) as Hl.
  - assert (needle = []) as -> by (destruct needle; cbn in Hl; [done|lia]).
    revert Hf. cbn. intros [= <-]. by destruct t.
  - pose proof (starts_with_app_inv needle (c :: s) t ltac:(lia)) as Hs.
    cbn [app find] in *. rewrite Hs. destruct (starts_with needle (c :: s)); [done|].
    destruct (find needle s) as [j|]; [|done]. by rewrite (IH j eq_refl).
Qed.

(** A response head: it ends where its first empty line does. *)
Definition is_head (s : str) : Prop :=
  exists i, find head_end s = Some i /\ length s = (i + length head_end)%nat.

(** A head is not complete before its last byte. *)
Lemma is_head_prefix s t : is_head (s ++ t) -> t <> [] -> find head_end s = None.
Proof.
  intros (i & Hf & Hl) Ht. destruct (find head_end s) as [j|] eqn:E; [|done]. exfalso.
  pose proof (find_app_Some _ _ t _ E) as E'. rewrite Hf in E'. injection E' as <-.
  apply find_length in E. rewrite length_app in Hl. destruct t; [done|]. cbn in *. lia.
Qed.

(** The first byte that completes a head ends it. *)
Lemma is_head_snoc s b i :
  find head_end s = None -> find head_end (s ++ [b]) = Some i -> is_head (s ++ [b]).
Proof.
  intros Hn Hf. exists i. split; [done|]. pose proof (find_length _ _ _ Hf) as Hl.
  destruct (find_Some _ _ _ Hf) as [t E]. induction t as [|c t _] using rev_ind.
  - apply (f_equal length) in E. rewrite !length_app, length_take, length_app in *. cbn in *. lia.
  - exfalso. rewrite !app_assoc in E. apply app_inj_tail in E as [E _].
    rewrite <- app_assoc in E. by apply (find_None _ _ Hn) in E.
Qed.

(** A successful [read_head] has consumed the response head, and nothing more. *)
Lemma read_head_spec clocks deadline resp c resp' c' :
  (forall i, find head_end resp = Some i -> is_head resp) ->
  Z.of_nat (length resp) <= kMaxHead ->
  read_head clocks deadline resp c = Some (inr (resp', c')) ->
  is_head resp' /\ Z.of_nat (length resp') <= kMaxHead /\
  resp' ++ incoming c' = resp ++ incoming c /\ tx c' = tx c /\ ssl c' = ssl c /\
  write_turns c' = write_turns c /\ write_timeout_ms_ c' = write_timeout_ms_ c.
Proof.
  revert resp c. induction clocks as [|now clocks IH]; intros resp c Hr Hlen; cbn [read_head];
    (destruct (find head_end resp) as [i|] eqn:E; [intros [= <- <-]; by eauto 10|]); [done|].
  destruct (remaining deadline now <=? 0); [done|].
  destruct (ReadExact 1 deadline c) as [[[rc out] c1]|] eqn:Er; [|done]. cbn [mbind option_bind].
  destruct (Z.eqb_spec rc 1) as [->|]; [|done]. cbn [negb].
  apply ReadExact_stream in Er as (Hs & Ht & Hssl & Hw & Hto & [[_ Ho]|[[?|?] _]]); [|done..].
  destruct out as [|b [|]]; [done| |done]. destruct (Z.ltb_spec kMaxHead (Z.of_nat (length (resp ++ [b]))));
    [done|].
  intros (H1 & H2 & H3 & H4 & H5 & H6 & H7)%IH; [|by intros i; apply is_head_snoc|done].
  rewrite Hs. rewrite <- app_assoc in H3. by split_and!; [..|congruence|congruence|congruence|congruence].
Qed.

Lemma read_response_spec clocks deadline c resp c' :
  read_head clocks deadline [] c = Some (inr (resp, c')) ->
  is_head resp /\ Z.of_nat (length resp) <= kMaxHead /\
  resp ++ incoming c' = incoming c /\ tx c' = tx c /\ ssl c' = ssl c /\
  write_turns c' = write_turns c /\ write_timeout_ms_ c' = write_timeout_ms_ c.
Proof. by apply (read_head_spec clocks deadline [] c). Qed.

(** On a network that delivers it, a head is read to its end. *)
Lemma read_head_delivers d clocks deadline resp c got rest m :
  is_head (resp ++ got) -> Z.of_nat (length (resp ++ got)) <= kMaxHead ->
  incoming c = got ++ rest -> ready deadline d (length got + m) c ->
  Forall (fun now => 0 < remaining deadline now) clocks -> (length got <= length clocks)%nat ->
  exists c', read_head clocks deadline resp c = Some (inr (resp ++ got, c')) /\
    incoming c' = rest /\ ready deadline d m c'.
Proof.
  revert clocks resp c. induction got as [|b got IH]; intros clocks resp c Hh Hm Hi Hr Hc Hl.
  - rewrite app_nil_r in *. exists c. destruct Hh as (i & Hf & _).
    destruct clocks; cbn [read_head]; by rewrite Hf.
  - destruct clocks as [|now clocks]; [cbn in Hl; lia|]. apply Forall_cons in Hc as [Hnow Hc].
    cbn [read_head]. rewrite (is_head_prefix resp (b :: got)) by done.
    rewrite (proj2 (Z.leb_gt _ 0)) by done.
    destruct (ReadExact_delivers deadline d deadline 1 (length got + m) c [b] (got ++ rest)
                (or_introl eq_refl) Hr Hi eq_refl) as (c1 & -> & Hi1 & Hr1).
    cbn [mbind option_bind Z.eqb negb]. replace (1 =? 1) with true by done. cbn [negb].
    rewrite cons_middle, app_assoc in Hh, Hm.
    rewrite (proj2 (Z.ltb_ge _ _)) by (rewrite (length_app (resp ++ [b])) in Hm; lia).
    destruct (IH clocks (resp ++ [b]) c1) as (c' & E & H); [done..|cbn in Hl; lia|].
    exists c'. rewrite E, (cons_middle b resp got), (app_assoc resp). exact (conj eq_refl H).
Qed.

(** A head is determined by the stream it begins. *)
Lemma is_head_unique a b x y : is_head a -> is_head b -> a ++ x = b ++ y -> a = b /\ x = y.
Proof.
  intros (i & Ha & La) (j & Hb & Lb) E.
  apply (find_app_Some _ _ x) in Ha. apply (find_app_Some _ _ y) in Hb.
  rewrite E, Hb in Ha. injection Ha as <-. apply app_inj_1; [lia|done].
Qed.

Lemma read_head_buf clocks deadline resp c resp' c' :
  read_head clocks deadline resp c = Some (inr (resp', c')) ->
  read_buf_ c = [] -> read_buf_ c' = [].
Proof.
  revert resp c. induction clocks as [|now clocks IH]; intros resp c; cbn [read_head];
    (destruct (find head_end resp); [by intros [= _ <-]|]); [done|].
  destruct (remaining deadline now <=? 0); [done|].
  destruct (ReadExact 1 deadline c) as [[[rc out] c1]|] eqn:E; [|done]. cbn [mbind option_bind].
  destruct (negb (rc =? 1)); [done|]. destruct (kMaxHead <? _); [done|].
  intros H Hb. by eapply IH; [exact H|eapply ReadExact_buf].
Qed.

Definition contains (needle s : str) : Prop := exists a b, s = a ++ needle ++ b.

Lemma find_contains needle s : is_Some (find needle s) <-> contains needle s.
Proof.
  split.
  - intros [i [t E]%find_Some]. by exists (take i s), t.
  - intros (a & b & E). destruct (find needle s) eqn:F; [by eexists|].
    by apply (find_None _ _ F) in E.
Qed.

Section ConnectTheorems.
Context (sha1 : str -> str) (strerror : Z -> str).

Lemma check_head_None key resp :
  check_head sha1 key resp = None <-> contains «" 101"» resp /\ contains (accept_line sha1 key) resp.
Proof.
  rewrite <- !find_contains. unfold check_head. rewrite <- !not_eq_None_Some.
  destruct (find «" 101"» resp), (find (accept_line sha1 key) resp); naive_solver.
Qed.

(** What the client takes for the answer to its request. *)
Definition conforms (key head : str) : Prop :=
  is_head head /\ Z.of_nat (length head) <= kMaxHead /\
  contains «" 101"» head /\ contains (accept_line sha1 key) head.

Lemma upgrade_spec parts ms d c c' :
  upgrade sha1 parts ms d c = Some (inr c') ->
  tx c' = tx c ++ upgrade_request parts (dial_key d) /\ ssl c' = ssl c /\
  write_timeout_ms_ c' = write_timeout_ms_ c /\
  exists head, conforms (dial_key d) head /\ incoming c = head ++ incoming c'.
Proof.
  unfold upgrade. destruct (WriteAll _ _ _ c) as [[err c1]|] eqn:Ew; [|done]. cbn [mbind option_bind].
  destruct err; [done|].
  destruct (read_head _ _ [] c1) as [[e|[resp c2]]|] eqn:Er; [done| |done]. cbn [mbind option_bind].
  destruct (check_head _ _ resp) eqn:Ec; [done|]. intros [= <-].
  pose proof (WriteAll_incoming _ _ _ _ _ _ Ew) as Hi.
  destruct (WriteAll_spec _ _ _ _ _ _ Ew) as (sent & lost & Hb & Htx & Hok).
  rewrite (proj1 Hok eq_refl), app_nil_r in Hb. subst sent.
  apply read_response_spec in Er as (H1 & H2 & H3 & H4 & H5 & H6 & H7).
  assert (ssl c1 = ssl c /\ write_timeout_ms_ c1 = write_timeout_ms_ c) as [Hs Ht].
  { revert Ew. unfold WriteAll. destruct (write_loop _ _ _ _) as [[[e tx'] ts]|]; [|done].
    by intros [= _ <-]. }
  apply check_head_None in Ec. split_and!; [congruence..|].
  exists resp. split; [by destruct Ec|congruence].
Qed.

(** C12: A connection is handed out only after a conforming answer to the request
    that was sent for this URL and this nonce; the bytes that follow the answer,
    and no others, are left to the first read. *)
Theorem Connect_correct url ms d c :
  Connect sha1 strerror url ms d = Some (inr c) ->
  exists parts fd, ParseWsUrl url = inr parts /\
    TcpConnect strerror (resolution d) (errno_before d) = inr fd /\ ssl c = secure parts /\
    tx c = upgrade_request parts (dial_key d) /\ write_timeout_ms_ c = 30000 /\
    exists head, conforms (dial_key d) head /\ from_peer d = head ++ incoming c.
Proof.
  unfold Connect. destruct (ParseWsUrl url) as [e|parts]; [done|].
  destruct (TcpConnect strerror _ _) as [e|fd]; [done|].
  destruct (tls_connect _ _ d) as [[e|]|]; [done| |done]. cbn [mbind option_bind].
  intros (Htx & Hs & Ht & H)%upgrade_spec. exists parts, fd. by split_and!.
Qed.

(** The first read of a connection begins right after the response. *)
Lemma Connect_stream url ms d c :
  Connect sha1 strerror url ms d = Some (inr c) ->
  read_buf_ c = [] /\ exists head, is_head head /\ from_peer d = head ++ rx c.
Proof.
  unfold Connect. destruct (ParseWsUrl url) as [e|parts]; [done|].
  destruct (TcpConnect strerror _ _) as [e|fd]; [done|].
  destruct (tls_connect _ _ d) as [[e|]|]; [done| |done]. cbn [mbind option_bind]. intros H.
  assert (read_buf_ c = []) as Hb.
  { revert H. unfold upgrade, WriteAll. destruct (write_loop _ _ _ _) as [[[err tx'] ts]|]; [|done].
    cbn [mbind option_bind]. destruct err; [done|].
    destruct (read_head _ _ _ _) as [[e|[resp c2]]|] eqn:E; [done| |done]. cbn [mbind option_bind].
    destruct (check_head _ _ resp); [done|]. intros [= <-]. by apply read_head_buf in E. }
  split; [done|]. apply upgrade_spec in H as (_ & _ & _ & head & (Hh & _) & Hi).
  exists head. split; [done|]. unfold incoming in Hi. by rewrite Hb in Hi.
Qed.

(** A TLS pass that waits for the peer, in time. *)
Definition tls_waits (deadline : Z) (s : tls_step) : Prop :=
  ssl_rc s <> 1 /\ (ssl_err s = SSL_ERROR_WANT_READ \/ ssl_err s = SSL_ERROR_WANT_WRITE) /\
  0 < remaining deadline (tls_now s) /\ tls_poll s = 1.

Lemma tls_handshake_ready deadline pre s post :
  Forall (tls_waits deadline) pre -> ssl_rc s = 1 ->
  tls_handshake deadline (pre ++ s :: post) = Some None.
Proof.
  intros Hpre Hs. induction Hpre as [|t pre (H1 & H2 & H3 & H4) _ IH]; cbn [app tls_handshake].
  - by rewrite Hs.
  - rewrite (proj2 (Z.eqb_neq _ _) H1), (proj2 (Z.leb_gt _ 0)), H4 by done.
    replace (_ || _) with true; [done|]. by destruct H2 as [-> | ->].
Qed.

(** What a dial needs of the network to get through. *)
Record gets_through (ms : Z) (parts : UrlParts) (d : dial) : Prop := mkGetsThrough {
  gt_address : exists l, resolution d = inr l /\ Exists (fun a => connects a = true) l;
  gt_tls : secure parts = true -> tls_ctx d = true /\ exists pre s post,
    tls_steps d = pre ++ s :: post /\ Forall (tls_waits (tls_start d + ms)) pre /\ ssl_rc s = 1;
  gt_writes : Forall (accepts (write_start d + ms)) (peer_write_turns d);
  gt_write_turns :
    (length (upgrade_request parts (dial_key d)) <= length (peer_write_turns d))%nat;
  gt_reads : Forall (delivers (head_start d + ms)) (peer_turns d);
  gt_clocks : Forall (fun now => 0 < remaining (head_start d + ms) now) (head_clocks d)
}.

Lemma gets_through_tcp ms parts d errno :
  gets_through ms parts d -> exists fd, TcpConnect strerror (resolution d) errno = inr fd.
Proof.
  intros [(l & -> & Hl) _ _ _ _ _]. pose proof (TcpConnect_spec strerror l errno) as H.
  destruct (list_find _ l) as [[i a]|] eqn:E; [by exists i; destruct H|].
  apply list_find_None in E. apply Exists_exists in Hl as (a & Ha & Hc).
  rewrite Forall_forall in E. by destruct (E a Ha).
Qed.

Lemma gets_through_tls ms parts d :
  gets_through ms parts d -> tls_connect (secure parts) ms d = Some None.
Proof.
  intros [_ Htls _ _ _ _]. unfold tls_connect. destruct (secure parts); [|done].
  destruct (Htls eq_refl) as (-> & pre & s & post & -> & Hpre & Hs). cbn.
  by apply tls_handshake_ready.
Qed.

(** C13: A peer that can be reached and answers in time with a conforming response
    gets its connection, positioned right after the response. *)
Theorem Connect_delivers url ms d parts head rest :
  ParseWsUrl url = inr parts -> gets_through ms parts d ->
  from_peer d = head ++ rest -> conforms (dial_key d) head ->
  (length head <= length (head_clocks d))%nat -> (length head <= length (peer_turns d))%nat ->
  exists c, Connect sha1 strerror url ms d = Some (inr c) /\ incoming c = rest /\
    tx c = upgrade_request parts (dial_key d).
Proof.
  intros Hu Hg Hp (Hh & Hm & Hc) Hlc Hlt. unfold Connect. rewrite Hu.
  destruct (gets_through_tcp ms parts d (errno_before d) Hg) as [fd ->].
  rewrite gets_through_tls by done. cbn [mbind option_bind]. unfold upgrade, WriteAll.
  destruct Hg as [_ _ Hw Hwl Hr Hcl].
  destruct (write_loop_accepts _ _ [] _ Hw Hwl) as (ts' & E).
  cbn [new_WsClient tx write_turns]. rewrite E. cbn [mbind option_bind app].
  set (c1 := mkWsClient _ _ _ _ _ _ _ _).
  destruct (read_head_delivers (head_start d + ms) (head_clocks d) (head_start d + ms) [] c1 head
              rest 0) as (c2 & Er & Hi & _); [done..| |done|done|].
  { unfold ready. rewrite Nat.add_0_r. by split_and!. }
  apply read_response_spec in Er as Hs. destruct Hs as (_ & _ & _ & Htx & _).
  rewrite Er. cbn [mbind option_bind app]. apply check_head_None in Hc. rewrite Hc.
  exists c2. by split_and!.
Qed.

(** ** [Connect] ends *)

Lemma read_head_late clocks deadline resp c :
  Exists (late deadline) (turns c) ->
  kMaxHead < Z.of_nat (length resp) + Z.of_nat (length clocks) ->
  Z.of_nat (length resp) <= kMaxHead ->
  is_Some (read_head clocks deadline resp c).
Proof.
  revert resp c. induction clocks as [|now clocks IH]; intros resp c Hts Hl Hr.
  { cbn in Hl. lia. }
  cbn [read_head]. destruct (find head_end resp); [by eexists|].
  destruct (remaining deadline now <=? 0); [by eexists|].
  destruct (ReadExact_late 1 deadline c Hts) as (rc & out & c1 & E & Hlate). rewrite E.
  cbn [mbind option_bind]. destruct (Z.eqb_spec rc 1) as [->|]; cbn [negb]; [|by eexists].
  apply ReadExact_stream in E as (_ & _ & _ & _ & _ & [[_ Ho]|[[?|?] _]]); [|done..].
  destruct (Z.ltb_spec kMaxHead (Z.of_nat (length (resp ++ out)))); [by eexists|].
  apply IH; [by apply Hlate| |done]. rewrite length_app, Ho. cbn [length] in Hl. lia.
Qed.

Lemma tls_handshake_late deadline steps :
  Exists (fun s => remaining deadline (tls_now s) <= 0) steps ->
  is_Some (tls_handshake deadline steps).
Proof.
  induction 1 as [s steps Hs|s steps _ IH]; cbn [tls_handshake].
  - rewrite (proj2 (Z.leb_le _ 0)) by done. cbn [orb].
    repeat case_match; by eexists.
  - repeat case_match; first [by eexists|done].
Qed.

End ConnectTheorems.

(** ** Witnesses *)

(** A server on the second address of the host; its answer, then a frame. *)
Definition demo_sha1 (s : str) : str := take 20 s.
Definition demo_url : str := «"ws://asr.example:8080/v1"».
Definition demo_parts : UrlParts := mkUrlParts false «"asr.example"» 8080 «"/v1"».
Definition demo_nonce : str := «"0123456789abcdef"».
Definition demo_head : str :=
  «"HTTP/1.1 101 Switching Protocols"» ++ crlf ++
  accept_line demo_sha1 (Base64Encode demo_nonce) ++ crlf ++ crlf.

Definition demo_dial (head : str) : dial :=
  mkDial (inr [NoSocket 97; Socket (ConnectFails 111); Socket (InProgress 1 0)]) 0
    true 0 [] demo_nonce 0 0 (replicate 200 0) (head ++ demo_stream)
    (replicate 200 (demo_turn 0 1)) (replicate 200 (mkWriteTurn 0 1 (Send 7))).

Lemma demo_delivers : Forall (delivers 5000) (replicate 200 (demo_turn 0 1)).
Proof. apply Forall_replicate. split_and!; [done..|]. exists 1%nat. split; [lia|by left]. Qed.

Lemma demo_gets_through : gets_through 5000 demo_parts (demo_dial demo_head).
Proof.
  split.
  - eexists. split; [reflexivity|]. by do 2 apply Exists_cons_tl; left.
  - done.
  - apply Forall_replicate. split_and!; [done..|]. exists 7%nat. split; [lia|by left].
  - vm_compute. lia.
  - apply demo_delivers.
  - by apply Forall_replicate.
Qed.

Lemma demo_conforms : conforms demo_sha1 (dial_key (demo_dial demo_head)) demo_head.
Proof.
  split_and!; [eexists; split; vm_compute; reflexivity|by vm_compute|..];
    apply find_contains; vm_compute; by eexists.
Qed.

Lemma upgrade_request_reads_witness :
  read_request (upgrade_request demo_parts (Base64Encode demo_nonce) ++ demo_stream) =
  Some (mkRequest «"GET"» «"/v1"» «"HTTP/1.1"»
          [(«"Host"», «"asr.example:8080"»);
           («"Upgrade"», «"websocket"»); («"Connection"», «"Upgrade"»);
           («"Sec-WebSocket-Key"», «"MDEyMzQ1Njc4OWFiY2RlZg=="»); («"Sec-WebSocket-Version"», «"13"»)],
        demo_stream).
Proof.
  refine (upgrade_request_reads demo_parts demo_nonce demo_stream _ _ _); absent.
Defined.

Lemma Connect_correct_witness :
  exists c head, Connect demo_sha1 to_string demo_url 5000 (demo_dial demo_head) = Some (inr c) /\
    conforms demo_sha1 (dial_key (demo_dial demo_head)) head /\ head ++ incoming c = demo_head ++ demo_stream.
Proof.
  assert (exists c, Connect demo_sha1 to_string demo_url 5000 (demo_dial demo_head) = Some (inr c))
    as [c E] by (eexists; vm_compute; reflexivity).
  destruct (Connect_correct demo_sha1 to_string demo_url 5000 (demo_dial demo_head) c E)
    as (parts & fd & _ & _ & _ & _ & _ & head & Hh & Hp).
  exists c, head. exact (conj E (conj Hh (eq_sym Hp))).
Defined.

Lemma Connect_delivers_witness :
  exists c, Connect demo_sha1 to_string demo_url 5000 (demo_dial demo_head) = Some (inr c) /\
    incoming c = demo_stream.
Proof.
  destruct (Connect_delivers demo_sha1 to_string demo_url 5000 (demo_dial demo_head) demo_parts
              demo_head demo_stream ltac:(vm_compute; reflexivity) demo_gets_through eq_refl
              demo_conforms ltac:(vm_compute; lia) ltac:(vm_compute; lia)) as (c & E & Hi & _).
  exists c. exact (conj E Hi).
Defined.

(** A peer that accepts the request and then stays silent. *)
Definition silent_dial : dial :=
  mkDial (inr [Socket Connects]) 0 true 0 [mkTlsStep 1 0 6000 1 []] demo_nonce 0 0
    (replicate (Z.to_nat 65537) 0) [] [demo_turn 6000 1] [mkWriteTurn 6000 1 (Send 7)].


(** A header name is written in any case, says RFC 7230; the client knows one. *)
Example lower_case_header_refused :
  Connect demo_sha1 to_string demo_url 5000
    (demo_dial («"HTTP/1.1 101 Switching Protocols"» ++ crlf ++ «"sec-websocket-accept: "» ++
                Base64Encode (demo_sha1 (Base64Encode demo_nonce ++
                  «"258EAFA5-E914-47DA-95CA-C5AB0DC85B11"»)) ++ crlf ++ crlf)) =
  Some (inl «"websocket handshake accept key mismatch"»).
Proof. vm_compute. reflexivity. Qed.
