(* ===== verification/Sigpipe.v ===== *)
(** * SIGPIPE (src/ws_client.cc, src/sigpipe.cc)

    [ScopedSigpipeSuppressor], the writes it guards, and
    [IgnoreSigpipeProcessWide].  The signals of the system are the interface
    [Signals], with the behaviour POSIX documents as its laws. *)

From S2P Require Import Prelude WsClient.

Open Scope Z_scope.

(** ** The system *)

(** The calls of the source on [SIGPIPE], and what can be observed of it: the
    mask of the thread, whether one is pending for the thread or for the
    process, how many were delivered to the host, whether it is ignored, and how
    often a wait can still be interrupted.  A call returns its code and the
    state after it. *)
Class Signals (os : Type) := {
  sigset : Type;
  blocks : sigset -> bool;
  thread_mask : os -> sigset;
  thread_pending : os -> bool;
  process_pending : os -> bool;
  deliveries : os -> nat;
  ignored : os -> bool;
  interruptions : os -> nat;
  errno : os -> Z;
  set_errno : Z -> os -> os;
  sigpending : os -> Z * bool * os;
  sigmask_block : os -> Z * sigset * os;
  sigmask_set : sigset -> os -> Z * os;
  sigtimedwait : os -> Z * os;
  sigaction_ignore : os -> Z * os;
}.

Section Guard.
Context {os : Type} `{Signals os}.

(** ** [ScopedSigpipeSuppressor] *)

(** What the preprocessor knows: [SO_NOSIGPIPE], [MSG_NOSIGNAL], Linux. *)
Record platform := mkPlatform { so_nosigpipe : bool; msg_nosignal : bool; linux : bool }.

(** [TRTC_ASR_SIGPIPE_GUARD] *)
Definition Active (p : platform) : bool := negb (so_nosigpipe p) && linux p.

Record ScopedSigpipeSuppressor := mkSuppressor {
  old_mask_ : option sigset; blocked_ : bool; was_pending_ : bool
}.

(** The constructor. *)
Definition suppressor_enter (p : platform) (o : os) : ScopedSigpipeSuppressor * os :=
  if Active p then
    let '(rc, member, o) := sigpending o in
    let was_pending := (rc =? 0) && member in
    let '(rc, old, o) := sigmask_block o in
    (mkSuppressor (Some old) (rc =? 0) was_pending, o)
  else (mkSuppressor None false false, o).

(** The loop around [sigtimedwait], [fuel] calls at most. *)
Fixpoint drain (fuel : nat) (o : os) : option os :=
  match fuel with
  | O => None
  | S fuel =>
      let '(rc, o) := sigtimedwait o in
      if (rc <? 0) && (errno o =? EINTR) then drain fuel o else Some o
  end.

(** The destructor. *)
Definition suppressor_leave (fuel : nat) (s : ScopedSigpipeSuppressor) (o : os) : option os :=
  match old_mask_ s with
  | Some old =>
      if negb (blocked_ s) then Some o
      else
        let saved_errno := errno o in
        o ← (if negb (was_pending_ s) then
               let '(rc, member, o) := sigpending o in
               if (rc =? 0) && member then drain fuel o else Some o
             else Some o);
        Some (set_errno saved_errno (sigmask_set old o).2)
  | None => Some o
  end.

(** A call in the scope of a [ScopedSigpipeSuppressor]. *)
Definition guarded {A} (p : platform) (fuel : nat) (call : os -> A * os) (o : os)
    : option (A * os) :=
  let '(s, o) := suppressor_enter p o in
  let '(a, o) := call o in
  o ← suppressor_leave fuel s o;
  Some (a, o).

(** ** The writes of [WriteAll] *)

(** [SuppressSigpipeOnSocket]: [rc] is what [setsockopt] returns. *)
Definition SuppressSigpipeOnSocket (p : platform) (rc : Z) : bool := so_nosigpipe p && (rc =? 0).

(** [transfer suppressed]: [send] or [SSL_write], with the signal suppressed for
    this call or for its socket, or not. *)
Definition SendNoSignal {A} (p : platform) (on_socket : bool) (transfer : bool -> os -> A * os)
    : os -> A * os :=
  transfer (msg_nosignal p || on_socket).

(** The write of a pass, plain or through OpenSSL, which has no such flag. *)
Definition write_call {A} (p : platform) (fuel : nat) (tls on_socket : bool)
    (transfer : bool -> os -> A * os) (o : os) : option (A * os) :=
  if tls then guarded p fuel (transfer on_socket) o
  else Some (SendNoSignal p on_socket transfer o).

(** ** [IgnoreSigpipeProcessWide] *)

Definition IgnoreSigpipeProcessWide (o : os) : bool * os :=
  let '(rc, o) := sigaction_ignore o in (rc =? 0, o).
End Guard.

(** ** The laws *)

Section Laws.
Context {os : Type} `{Signals os}.

Definition pending (o : os) : bool := thread_pending o || process_pending o.

(** Nothing but [errno] and the mask changes. *)
Definition same_pending (o o' : os) : Prop :=
  thread_pending o' = thread_pending o /\ process_pending o' = process_pending o /\
  deliveries o' = deliveries o /\ ignored o' = ignored o /\
  (interruptions o' <= interruptions o)%nat.

(** Nothing but [errno] changes. *)
Definition same_signals (o o' : os) : Prop :=
  thread_mask o' = thread_mask o /\ same_pending o o'.

(** What a write does to the signals: [SIGPIPE] is raised for the thread, unless
    it is suppressed or ignored, and stays pending if it is blocked. *)
Definition may_raise {A} (suppressed : bool) (call : os -> A * os) : Prop :=
  forall o, let o' := (call o).2 in
    (suppressed || ignored o = true -> same_signals o o') /\
    (blocks (thread_mask o) = true ->
       thread_mask o' = thread_mask o /\ deliveries o' = deliveries o /\
       ignored o' = ignored o /\ (interruptions o' <= interruptions o)%nat /\
       process_pending o' = process_pending o /\
       (thread_pending o = true -> thread_pending o' = true)).
End Laws.

(** POSIX: sigpending(2), pthread_sigmask(3), sigwaitinfo(2), sigaction(2).  A
    signal stays pending only while it is blocked; a mask that does not block it
    delivers it; a wait takes the one of the thread first. *)
Class SignalsOk (os : Type) `{Signals os} := {
  pending_blocked (o : os) : pending o = true -> blocks (thread_mask o) = true;
  set_errno_ok e (o : os) : same_signals o (set_errno e o) /\ errno (set_errno e o) = e;
  sigpending_ok (o : os) :
    exists o', sigpending o = (0, pending o, o') /\ same_signals o o';
  sigmask_block_ok (o : os) :
    exists o', sigmask_block o = (0, thread_mask o, o') /\ blocks (thread_mask o') = true /\
      same_pending o o';
  sigmask_set_ok m (o : os) :
    let o' := (sigmask_set m o).2 in
    thread_mask o' = m /\
    (blocks m || negb (pending o) = true -> same_pending o o') /\
    (blocks m = false -> pending o = true -> (deliveries o < deliveries o')%nat);
  sigtimedwait_ok (o : os) : blocks (thread_mask o) = true ->
    let '(rc, o') := sigtimedwait o in
    thread_mask o' = thread_mask o /\ deliveries o' = deliveries o /\ ignored o' = ignored o /\
    (interruptions o' <= interruptions o)%nat /\
    (if (rc <? 0) && (errno o' =? EINTR)
     then same_pending o o' /\ (interruptions o' < interruptions o)%nat
     else thread_pending o' = false /\ (thread_pending o = true \/ process_pending o = false ->
                                        process_pending o' = process_pending o));
  sigaction_ignore_ok (o : os) : (sigaction_ignore o).1 = 0 -> ignored (sigaction_ignore o).2 = true
}.

(** ** The guard is transparent *)

Section Theorems.
Context {os : Type} `{SignalsOk os}.

#[export] Instance same_pending_preorder : PreOrder same_pending.
Proof.
  split; [by intros o; split_and!|]. intros o1 o2 o3 (A1 & B1 & C1 & D1 & E1) (A2 & B2 & C2 & D2 & E2).
  split_and!; [congruence..|lia].
Qed.

#[export] Instance same_signals_preorder : PreOrder same_signals.
Proof.
  split; [done|]. intros o1 o2 o3 [M1 P1] [M2 P2]. split; [congruence|by etrans].
Qed.

(** What the wait leaves: no [SIGPIPE] pending for the thread. *)
Definition drained (o o' : os) : Prop :=
  thread_mask o' = thread_mask o /\ deliveries o' = deliveries o /\ ignored o' = ignored o /\
  (interruptions o' <= interruptions o)%nat /\ thread_pending o' = false /\ process_pending o' = false.

Lemma drain_ok fuel o :
  blocks (thread_mask o) = true -> process_pending o = false -> (interruptions o < fuel)%nat ->
  exists o', drain fuel o = Some o' /\ drained o o'.
Proof.
  revert o. induction fuel as [|fuel IH]; intros o Hb Hp Hf; [lia|]. cbn [drain].
  pose proof (sigtimedwait_ok o Hb) as Hw. destruct (sigtimedwait o) as [rc o1].
  destruct Hw as (Hm & Hd & Hi & Hn & Hw). destruct ((rc <? 0) && (errno o1 =? EINTR)).
  - destruct Hw as ((Ht & Hpp & _) & Hlt).
    destruct (IH o1) as (o2 & E & Hm2 & Hd2 & Hi2 & Hn2 & H2); [congruence..|lia|].
    exists o2. split; [done|]. split_and!; [congruence..|lia|apply H2|apply H2].
  - destruct Hw as [Ht Hpp]. exists o1. split; [done|]. split_and!; [done..|].
    rewrite Hpp; [done|by right].
Qed.

(** What the host can see of a guarded call: nothing was delivered to it, what it
    had pending is pending, and nothing else is.  ([sigpending] does not tell a
    signal of the thread from one of the process: when one of the process was
    pending already, one of the thread is left beside it.) *)
Definition unseen (o o' : os) : Prop :=
  thread_mask o' = thread_mask o /\ deliveries o' = deliveries o /\ ignored o' = ignored o /\
  pending o' = pending o /\ process_pending o' = process_pending o /\
  (process_pending o = false -> thread_pending o' = thread_pending o).

Lemma same_signals_unseen o o' : same_signals o o' -> unseen o o'.
Proof.
  intros (Hm & Ht & Hp & Hd & Hi & _). split_and!; [done..| |done|done].
  unfold pending. by rewrite Ht, Hp.
Qed.

(** Restoring the mask delivers nothing when what is pending was pending under it. *)
Lemma restore_ok e o o3 :
  deliveries o3 = deliveries o -> ignored o3 = ignored o -> pending o3 = pending o ->
  process_pending o3 = process_pending o ->
  (process_pending o = false -> thread_pending o3 = thread_pending o) ->
  let o' := set_errno e (sigmask_set (thread_mask o) o3).2 in unseen o o' /\ errno o' = e.
Proof.
  intros Hd Hi Hp Hpp Ht.
  destruct (sigmask_set_ok (thread_mask o) o3) as (Hm & Hsame & _).
  assert (blocks (thread_mask o) || negb (pending o3) = true) as Hb.
  { rewrite Hp. pose proof (pending_blocked o) as Hpb.
    destruct (pending o); [by rewrite Hpb|]. by rewrite orb_true_r. }
  destruct (Hsame Hb) as (T & P & D & I & _).
  destruct (set_errno_ok e (sigmask_set (thread_mask o) o3).2) as [(M' & T' & P' & D' & I' & _) He].
  split; [|done]. split_and!; [congruence..| |congruence|]; unfold pending in *; [congruence|].
  intros H'. rewrite T', T. auto.
Qed.

(** The destructor, after calls that raised what they did while it was blocked. *)
Lemma leave_ok fuel o o2 :
  blocks (thread_mask o2) = true -> deliveries o2 = deliveries o -> ignored o2 = ignored o ->
  process_pending o2 = process_pending o -> (thread_pending o = true -> thread_pending o2 = true) ->
  (interruptions o2 < fuel)%nat ->
  exists o', suppressor_leave fuel (mkSuppressor (Some (thread_mask o)) true (pending o)) o2 = Some o' /\
    unseen o o' /\ errno o' = errno o2.
Proof.
  intros Hb Hd Hi Hp Ht Hf. unfold suppressor_leave. cbn [old_mask_ blocked_ was_pending_ negb].
  destruct (pending o) eqn:Hpo; cbn [negb].
  - eexists. split; [reflexivity|]. unfold pending in *. apply restore_ok; [done..| |done|].
    + unfold pending. rewrite Hp. destruct (thread_pending o); [by rewrite Ht|]. cbn in Hpo.
      by rewrite Hpo, orb_true_r.
    + intros Hpp. rewrite Hpp, orb_false_r in Hpo. by rewrite Hpo, Ht.
  - apply orb_false_iff in Hpo as Hn. destruct Hn as [Hto Hppo].
    destruct (sigpending_ok o2) as (o3 & -> & Hm3 & T3 & P3 & D3 & I3 & N3). cbn [Z.eqb andb].
    assert (exists o4, (if pending o2 then drain fuel o3 else Some o3) = Some o4 /\
      deliveries o4 = deliveries o /\ ignored o4 = ignored o /\
      thread_pending o4 = false /\ process_pending o4 = false) as (o4 & -> & D4 & I4 & T4 & P4).
    { destruct (pending o2) eqn:Hp2.
      - destruct (drain_ok fuel o3) as (o4 & E & _ & D4 & I4 & _ & T4 & P4); [congruence..|lia|].
        exists o4. split_and!; [done|congruence..].
      - apply orb_false_iff in Hp2 as [T2 P2]. exists o3. split_and!; [done|congruence..]. }
    cbn [mbind option_bind]. eexists. split; [reflexivity|].
    apply restore_ok; [done..| |congruence|congruence].
    unfold pending. by rewrite T4, P4, Hto, Hppo.
Qed.

(** A call guarded on a system that needs the guard, or suppressed at the socket,
    returns what it would, [errno] included, and the host never sees the
    [SIGPIPE] it may have raised: none is delivered, the mask is as before, and a
    signal that was pending still is. *)
Lemma guarded_unseen {A} p fuel suppressed (call : os -> A * os) o :
  may_raise suppressed call -> Active p || suppressed || ignored o = true ->
  (interruptions o < fuel)%nat ->
  exists o1 o', same_pending o o1 /\ guarded p fuel call o = Some ((call o1).1, o') /\
    unseen o o' /\ errno o' = errno (call o1).2.
Proof.
  intros Hcall Ha Hf. unfold guarded, suppressor_enter. destruct (Active p); cbn [orb] in Ha.
  - destruct (sigpending_ok o) as (o1 & -> & Hm1 & Hs1).
    destruct (sigmask_block_ok o1) as (o2 & -> & Hb2 & Hs2). cbn [Z.eqb andb].
    assert (same_pending o o2) as Hs by (by etrans). exists o2.
    destruct (Hcall o2) as [_ Hc]. destruct (call o2) as [a o3] eqn:Ec. cbn [fst snd] in *.
    destruct (Hc Hb2) as (M3 & D3 & I3 & N3 & P3 & T3). destruct Hs as (T2 & P2 & D2 & I2 & N2).
    rewrite Hm1. destruct (leave_ok fuel o o3) as (o' & -> & Hu & He); [congruence..| |lia|].
    { rewrite <- T2. done. }
    exists o'. by split_and!.
  - exists o. destruct (Hcall o) as [Hc _]. specialize (Hc Ha).
    destruct (call o) as [a o3]. cbn. exists o3. split_and!; [reflexivity|done| |done].
    by apply same_signals_unseen.
Qed.

(** Every platform the SDK is built for: the flag of [send] and the guard on Linux,
    the option of the socket elsewhere. *)
Definition covered (p : platform) (rc : Z) : bool :=
  linux p && msg_nosignal p && negb (so_nosigpipe p) || SuppressSigpipeOnSocket p rc.

(** C15: No write of [WriteAll] raises a [SIGPIPE] the host can see, plain or through
    TLS, whatever the peer has done: none is delivered, the mask is as before, a
    signal that was pending still is, and the result and [errno] are those of the
    write. *)
Theorem writes_unseen {A} p rc fuel tls (transfer : bool -> os -> A * os) o :
  (forall b, may_raise b (transfer b)) -> covered p rc = true -> (interruptions o < fuel)%nat ->
  exists b o1 o', same_pending o o1 /\
    write_call p fuel tls (SuppressSigpipeOnSocket p rc) transfer o = Some ((transfer b o1).1, o') /\
    unseen o o' /\ errno o' = errno (transfer b o1).2.
Proof.
  intros Ht Hc Hf. set (s := SuppressSigpipeOnSocket p rc) in *. unfold write_call. destruct tls.
  - exists s. apply (guarded_unseen p fuel s); [done| |done].
    unfold covered in Hc. unfold Active. fold s in Hc. destruct (linux p), (so_nosigpipe p), s; cbn in *;
      rewrite ?andb_false_r in Hc; done.
  - exists (msg_nosignal p || s), o. unfold SendNoSignal.
    destruct (Ht (msg_nosignal p || s) o) as [Hsame _].
    destruct (transfer (msg_nosignal p || s) o) as [a o'] eqn:E. exists o'. cbn.
    split_and!; [reflexivity|done| |done].
    apply same_signals_unseen, Hsame. unfold covered in Hc. fold s in Hc.
    destruct (msg_nosignal p), s; try done. by rewrite andb_false_r in Hc.
Qed.

(** After [IgnoreSigpipeProcessWide] no write of any kind needs a guard. *)
Lemma ignore_unseen {A} b (transfer : os -> A * os) o o' :
  IgnoreSigpipeProcessWide o = (true, o') -> may_raise b transfer ->
  same_signals o' (transfer o').2.
Proof.
  unfold IgnoreSigpipeProcessWide. pose proof (sigaction_ignore_ok o) as Hi.
  destruct (sigaction_ignore o) as [rc o1]. intros [= Hrc <-] Ht. apply (Ht o1).
  apply Z.eqb_eq in Hrc. cbn in Hi. by rewrite Hi, orb_true_r.
Qed.
End Theorems.

(** ** A system *)

Record demo_os := mkOs {
  os_blocked : bool; os_thread : bool; os_process : bool; os_delivered : nat;
  os_ignored : bool; os_interrupts : nat; os_errno : Z
}.

Definition EPIPE : Z := 32.
Definition SIGPIPE : Z := 13.

(** A signal that is not blocked does not stay pending. *)
Definition os_thread_pending (o : demo_os) : bool := os_blocked o && os_thread o.
Definition os_process_pending (o : demo_os) : bool := os_blocked o && os_process o.

Definition os_set_errno (e : Z) (o : demo_os) : demo_os :=
  mkOs (os_blocked o) (os_thread o) (os_process o) (os_delivered o) (os_ignored o) (os_interrupts o) e.

Definition os_block (o : demo_os) : demo_os :=
  mkOs true (os_thread_pending o) (os_process_pending o) (os_delivered o) (os_ignored o)
    (os_interrupts o) (os_errno o).

Definition os_set_mask (m : bool) (o : demo_os) : demo_os :=
  if m then os_block o
  else mkOs false false false
         (os_delivered o + (if os_thread_pending o then 1 else 0) +
          (if os_process_pending o then 1 else 0))
         (os_ignored o) (os_interrupts o) (os_errno o).

Definition os_wait (o : demo_os) : Z * demo_os :=
  let '(mkOs m t p d i n e) := o in
  match n with
  | S n => (-1, mkOs m t p d i n EINTR)
  | O =>
      if t then (SIGPIPE, mkOs m false p d i 0 e)
      else if p then (SIGPIPE, mkOs m t false d i 0 e)
      else (-1, mkOs m t p d i 0 EAGAIN)
  end.

#[local] Instance demo_signals : Signals demo_os := {|
  sigset := bool; blocks := id; thread_mask := os_blocked;
  thread_pending := os_thread_pending; process_pending := os_process_pending;
  deliveries := os_delivered; ignored := os_ignored; interruptions := os_interrupts;
  errno := os_errno; set_errno := os_set_errno;
  sigpending o := (0, os_thread_pending o || os_process_pending o, o);
  sigmask_block o := (0, os_blocked o, os_block o);
  sigmask_set m o := (0, os_set_mask m o);
  sigtimedwait := os_wait;
  sigaction_ignore o :=
    (0, mkOs (os_blocked o) (os_thread o) (os_process o) (os_delivered o) true
          (os_interrupts o) (os_errno o))
|}.

#[local] Instance demo_signals_ok : SignalsOk demo_os.
Proof.
  split.
  - intros [[] [] [] d i n e]; done.
  - by intros e [m t p d i n e'].
  - intros [m t p d i n e]. by eexists.
  - intros [[] t p d i n e]; eexists; (split; [reflexivity|]); split_and!; try done; split_and!; done.
  - intros [] [[] [] [] d i n e]; cbn; split_and!; try done; intros;
      first [discriminate|lia|split_and!; cbn; first [done|lia]].
  - intros [[] t p d i [|n] e] Hb; try discriminate Hb; cbn.
    + destruct t; [|destruct p]; cbn; split_and!; try done; by intros [|].
    + split_and!; first [done|lia|split_and!; cbn; first [done|lia]].
  - done.
Qed.

(** A write to a peer that is gone. *)
Definition broken_pipe (suppressed : bool) (o : demo_os) : Z * demo_os :=
  let o := os_set_errno EPIPE o in
  (-1,
   if suppressed || os_ignored o then o
   else mkOs (os_blocked o) (os_blocked o) (os_process o)
          (os_delivered o + if os_blocked o then 0 else 1)
          (os_ignored o) (os_interrupts o) (os_errno o)).

Lemma broken_pipe_may_raise b : may_raise b (broken_pipe b).
Proof.
  intros [[] t p d [] n e]; destruct b; cbn; split; intros Hs;
    try discriminate Hs; split_and!; try done; cbn; try lia; by split_and!.
Qed.

Lemma broken_pipe_errno b o : errno (broken_pipe b o).2 = EPIPE.
Proof. cbn. by destruct (b || os_ignored o). Qed.

Definition linux_platform : platform := mkPlatform false true true.
Definition fresh_os : demo_os := mkOs false false false 0 false 2 0.

(** Unguarded, the host gets the signal; guarded, it sees nothing but [EPIPE]. *)
Lemma writes_unseen_witness :
  deliveries (broken_pipe false fresh_os).2 = 1%nat /\
  exists o', write_call linux_platform 3 true false broken_pipe fresh_os = Some (-1, o') /\
    unseen fresh_os o' /\ errno o' = EPIPE.
Proof.
  split; [reflexivity|].
  destruct (writes_unseen linux_platform 0 3 true broken_pipe fresh_os broken_pipe_may_raise
              eq_refl ltac:(cbn; lia)) as (b & o1 & o' & _ & E & Hu & He).
  exists o'. exact (conj E (conj Hu (eq_trans He (broken_pipe_errno b o1)))).
Defined.

(** A [SIGPIPE] the host had pending is still its own; what a naive block and
    unblock would have delivered is gone. *)
Example guard_keeps_pending :
  guarded linux_platform 3 (broken_pipe false) (mkOs true true false 0 false 1 0) =
  Some (-1, mkOs true true false 0 false 1 EPIPE).
Proof. reflexivity. Qed.

Example guard_consumes_own :
  guarded linux_platform 3 (broken_pipe false) fresh_os = Some (-1, mkOs false false false 0 false 0 EPIPE).
Proof. reflexivity. Qed.

(** A signal of the process is not told from one of the thread. *)
Example guard_leaves_one_behind :
  guarded linux_platform 3 (broken_pipe false) (mkOs true false true 0 false 1 0) =
  Some (-1, mkOs true true true 0 false 1 EPIPE).
Proof. reflexivity. Qed.
