(* ===== verification/Types.v ===== *)
(** * Realtime responses (src/types.cc, include/trtc_asr/types.h)

    The response records and their parser.  [json_parse] is the document
    parser of the JSON library and [cast] its out-of-range floating-point
    conversions.  The theorems: a response encoded as the protocol writes it
    parses back to itself; a failure of any kind is an [ASRError] with code
    [kErrReadFailed]; every integer of a parsed response is within its C++
    type; [has_result] holds exactly for frames with a [result] object. *)

From S2P Require Import Prelude StdMap Double Json JsonRead JsonText.

Open Scope Z_scope.

(** ** Data *)

Record WordInfo := mkWordInfo {
  word : str; w_start_time : Z; w_end_time : Z; w_stable_flag : Z; w_speaker_id : Z;
  w_speaker_name : str
}.

Record SpeakerSegment := mkSpeakerSegment {
  s_speaker_id : Z; s_speaker_name : str; s_start_time : Z; s_end_time : Z; s_text : str;
  word_start : option Z; word_end : option Z; s_stable_flag : Z
}.

Record RecognitionResult := mkRecognitionResult {
  slice_type : Z; index : Z; start_time : Z; end_time : Z; voice_text_str : str;
  word_size : Z; word_list : list WordInfo; language : str;
  speaker_segments : list SpeakerSegment; speaker_id : option Z;
  finish_silence_ms : Z; last_token_runtime_ms : Z
}.

Record SpeakerContinue := mkSpeakerContinue {
  continue_status : str; speaker_context_id : str
}.

Record SpeechRecognitionResponse := mkSpeechRecognitionResponse {
  code : Z; message : str; voice_id : str; message_id : str; final_flag : Z;
  result_ : RecognitionResult; has_result : bool; speaker_continue : option SpeakerContinue
}.

Definition empty_result : RecognitionResult :=
  mkRecognitionResult 0 0 0 0 [] 0 [] [] [] None 0 0.

(** ** The parser *)

Section Parser.
Context (json_parse : str -> result json) (cast : Z -> double -> Z).

#[local] Abbreviation value_int := (JsonRead.value_int cast).
#[local] Abbreviation value_int64 := (JsonRead.value_int64 cast).

Definition ParseWordInfo (j : json) : result WordInfo :=
  word <-- value_string «"word"» [] j ;;
  start_time <-- value_int64 «"start_time"» 0 j ;;
  end_time <-- value_int64 «"end_time"» 0 j ;;
  stable_flag <-- value_int «"stable_flag"» 0 j ;;
  speaker_id <-- value_int «"speaker_id"» 0 j ;;
  speaker_name <-- value_string «"speaker_name"» [] j ;;
  Ok (mkWordInfo word start_time end_time stable_flag speaker_id speaker_name).

(** [if (j.contains(key) && j[key].is_number()) out = j[key].get<int>()] *)
Definition optional_int (key : str) (j : json) : result (option Z) :=
  match jfind key j with
  | Some v => if is_number v then n <-- get_int cast v ;; Ok (Some n) else Ok None
  | None => Ok None
  end.

Definition ParseSpeakerSegment (j : json) : result SpeakerSegment :=
  speaker_id <-- value_int «"speaker_id"» 0 j ;;
  speaker_name <-- value_string «"speaker_name"» [] j ;;
  start_time <-- value_int64 «"start_time"» 0 j ;;
  end_time <-- value_int64 «"end_time"» 0 j ;;
  text <-- value_string «"text"» [] j ;;
  word_start <-- optional_int «"word_start"» j ;;
  word_end <-- optional_int «"word_end"» j ;;
  stable_flag <-- value_int «"stable_flag"» 0 j ;;
  Ok (mkSpeakerSegment speaker_id speaker_name start_time end_time text word_start word_end
        stable_flag).

(** The block under [j["result"].is_object()]. *)
Definition parse_result (r : json) : result RecognitionResult :=
  slice_type <-- value_int «"slice_type"» 0 r ;;
  index <-- value_int «"index"» 0 r ;;
  start_time <-- value_int64 «"start_time"» 0 r ;;
  end_time <-- value_int64 «"end_time"» 0 r ;;
  voice_text_str <-- value_string «"voice_text_str"» [] r ;;
  word_size <-- value_int «"word_size"» 0 r ;;
  language <-- value_string «"language"» [] r ;;
  finish_silence_ms <-- value_int64 «"finish_silence_ms"» 0 r ;;
  last_token_runtime_ms <-- value_int64 «"last_token_runtime_ms"» 0 r ;;
  speaker_id <-- optional_int «"speaker_id"» r ;;
  word_list <-- optional_list ParseWordInfo «"word_list"» r ;;
  speaker_segments <-- optional_list ParseSpeakerSegment «"speaker_segments"» r ;;
  Ok (mkRecognitionResult slice_type index start_time end_time voice_text_str word_size
        word_list language speaker_segments speaker_id finish_silence_ms
        last_token_runtime_ms).

Definition ParseSpeechResponseInner (j : json) : result SpeechRecognitionResponse :=
  code <-- value_int «"code"» 0 j ;;
  message <-- value_string «"message"» [] j ;;
  voice_id <-- value_string «"voice_id"» [] j ;;
  message_id <-- value_string «"message_id"» [] j ;;
  final_flag <-- value_int «"final"» 0 j ;;
  speaker_continue <--
    match jfind «"speaker_continue"» j with
    | Some (JObj _ as sc) =>
        status <-- value_string «"continue_status"» [] sc ;;
        context_id <-- value_string «"speaker_context_id"» [] sc ;;
        Ok (Some (mkSpeakerContinue status context_id))
    | _ => Ok None
    end ;;
  match jfind «"result"» j with
  | Some (JObj _ as r) =>
      res <-- parse_result r ;;
      Ok (mkSpeechRecognitionResponse code message voice_id message_id final_flag res true
            speaker_continue)
  | _ =>
      Ok (mkSpeechRecognitionResponse code message voice_id message_id final_flag
            empty_result false speaker_continue)
  end.

Definition ParseSpeechResponse (text : str) : result SpeechRecognitionResponse :=
  j <-- try_catch (json_parse text) unmarshal_failed ;;
  try_catch (ParseSpeechResponseInner j) unmarshal_failed.
End Parser.

(** ** The protocol's encoding of a response *)

Definition opt_int (key : str) (v : option Z) : list (str * json) :=
  match v with Some z => [(key, JInt z)] | None => [] end.

Definition encode_word (w : WordInfo) : json :=
  json_object
    [ («"word"», JStr (word w)); («"start_time"», JInt (w_start_time w));
      («"end_time"», JInt (w_end_time w)); («"stable_flag"», JInt (w_stable_flag w));
      («"speaker_id"», JInt (w_speaker_id w)); («"speaker_name"», JStr (w_speaker_name w)) ].

Definition encode_segment (s : SpeakerSegment) : json :=
  json_object
    ([ («"speaker_id"», JInt (s_speaker_id s)); («"speaker_name"», JStr (s_speaker_name s));
       («"start_time"», JInt (s_start_time s)); («"end_time"», JInt (s_end_time s));
       («"text"», JStr (s_text s)); («"stable_flag"», JInt (s_stable_flag s)) ] ++
     opt_int «"word_start"» (word_start s) ++ opt_int «"word_end"» (word_end s)).

Definition encode_result (r : RecognitionResult) : json :=
  json_object
    ([ («"slice_type"», JInt (slice_type r)); («"index"», JInt (index r));
       («"start_time"», JInt (start_time r)); («"end_time"», JInt (end_time r));
       («"voice_text_str"», JStr (voice_text_str r)); («"word_size"», JInt (word_size r));
       («"language"», JStr (language r)); («"finish_silence_ms"», JInt (finish_silence_ms r));
       («"last_token_runtime_ms"», JInt (last_token_runtime_ms r));
       («"word_list"», JArr (encode_word <$> word_list r));
       («"speaker_segments"», JArr (encode_segment <$> speaker_segments r)) ] ++
     opt_int «"speaker_id"» (speaker_id r)).

Definition encode_continue (c : SpeakerContinue) : json :=
  json_object [ («"continue_status"», JStr (continue_status c));
                («"speaker_context_id"», JStr (speaker_context_id c)) ].

Definition encode_response (r : SpeechRecognitionResponse) : json :=
  json_object
    ([ («"code"», JInt (code r)); («"message"», JStr (message r));
       («"voice_id"», JStr (voice_id r)); («"message_id"», JStr (message_id r));
       («"final"», JInt (final_flag r)) ] ++
     (if has_result r then [(«"result"», encode_result (result_ r))] else []) ++
     (match speaker_continue r with
      | Some c => [(«"speaker_continue"», encode_continue c)] | None => [] end)).

(** ** Integers within their C++ types *)

Definition opt_int32 (o : option Z) : Prop := if o is Some z then int32 z else True.

Definition word_ok (w : WordInfo) : Prop :=
  int64 (w_start_time w) /\ int64 (w_end_time w) /\ int32 (w_stable_flag w) /\
  int32 (w_speaker_id w).

Definition segment_ok (s : SpeakerSegment) : Prop :=
  int32 (s_speaker_id s) /\ int64 (s_start_time s) /\ int64 (s_end_time s) /\
  opt_int32 (word_start s) /\ opt_int32 (word_end s) /\ int32 (s_stable_flag s).

Definition result_ok (r : RecognitionResult) : Prop :=
  int32 (slice_type r) /\ int32 (index r) /\ int64 (start_time r) /\ int64 (end_time r) /\
  int32 (word_size r) /\ Forall word_ok (word_list r) /\
  Forall segment_ok (speaker_segments r) /\ opt_int32 (speaker_id r) /\
  int64 (finish_silence_ms r) /\ int64 (last_token_runtime_ms r).

Definition response_ok (r : SpeechRecognitionResponse) : Prop :=
  int32 (code r) /\ int32 (final_flag r) /\ result_ok (result_ r) /\
  (has_result r = false -> result_ r = empty_result).

(** ** Lemmas *)

Section Theorems.
Context (json_parse : str -> result json) (cast : Z -> double -> Z).

Lemma encode_word_parses w : word_ok w -> ParseWordInfo cast (encode_word w) = Ok w.
Proof.
  intros (? & ? & ? & ?). unfold ParseWordInfo, encode_word. destruct w; simpl in * |-. by read_fields.
Qed.

Lemma encode_segment_parses s :
  segment_ok s -> ParseSpeakerSegment cast (encode_segment s) = Ok s.
Proof.
  intros (? & ? & ? & ? & ? & ?). unfold ParseSpeakerSegment, encode_segment.
  destruct s as [? ? ? ? ? [ws|] [we|] ?]; simpl in * |-; by read_fields.
Qed.

Lemma encode_result_parses r :
  result_ok r -> parse_result cast (encode_result r) = Ok r.
Proof.
  intros (? & ? & ? & ? & ? & Hw & Hs & ? & ? & ?).
  pose proof (parse_all_map _ _ _ _ encode_word_parses Hw) as Ew.
  pose proof (parse_all_map _ _ _ _ encode_segment_parses Hs) as Es.
  destruct r as [? ? ? ? ? ? ws ? ss [sp|] ? ?]; simpl in * |-;
    unfold parse_result, encode_result; simpl; unfold optional_list; simpl;
    rewrite Ew; simpl; rewrite Es; by read_fields.
Qed.

Lemma ParseSpeechResponseInner_encode r :
  response_ok r -> ParseSpeechResponseInner cast (encode_response r) = Ok r.
Proof.
  intros (? & ? & Hr & Hd). pose proof (encode_result_parses _ Hr) as Er.
  destruct r as [? ? ? ? ? res [|] [[]|]]; simpl in * |-; rewrite ?Hd by done;
    unfold ParseSpeechResponseInner, encode_response; simpl; rewrite ?Er; by read_fields.
Qed.

Lemma optional_int_range key j o : cast_ok cast -> optional_int cast key j = Ok o -> opt_int32 o.
Proof.
  intros Hc. unfold optional_int. destruct (jfind key j) as [v|]; [|by intros [= <-]].
  destruct (is_number v); [|by intros [= <-]]. intros H. inv_ok. subst.
  by eapply get_int_range.
Qed.

#[local] Hint Resolve optional_int_range : range.

Lemma ParseWordInfo_ok j w : cast_ok cast -> ParseWordInfo cast j = Ok w -> word_ok w.
Proof.
  unfold ParseWordInfo. intros Hc H. inv_ok. subst. unfold word_ok. simpl.
  split_and!; eauto with range.
Qed.

Lemma ParseSpeakerSegment_ok j s :
  cast_ok cast -> ParseSpeakerSegment cast j = Ok s -> segment_ok s.
Proof.
  unfold ParseSpeakerSegment. intros Hc H. inv_ok. subst. unfold segment_ok. simpl.
  split_and!; eauto with range.
Qed.

Lemma parse_result_ok j r : cast_ok cast -> parse_result cast j = Ok r -> result_ok r.
Proof.
  unfold parse_result. intros Hc H. inv_ok. subst. unfold result_ok. simpl.
  split_and!; eauto with range.
  - eapply optional_list_Forall; [|eassumption]. intros ? ?. by apply ParseWordInfo_ok.
  - eapply optional_list_Forall; [|eassumption]. intros ? ?. by apply ParseSpeakerSegment_ok.
Qed.

Lemma empty_result_ok : result_ok empty_result.
Proof. by repeat split; try constructor. Qed.

Definition present {A} (o : option A) : bool := if o is Some _ then true else false.

Lemma ParseSpeechResponseInner_ok j r :
  cast_ok cast -> ParseSpeechResponseInner cast j = Ok r ->
  response_ok r /\ has_result r = field_is_object «"result"» j /\
  present (speaker_continue r) = field_is_object «"speaker_continue"» j.
Proof.
  unfold ParseSpeechResponseInner, field_is_object. intros Hc H. inv_ok.
  match goal with E : _ = Ok ?o |- _ =>
    assert (present o = match jfind «"speaker_continue"» j with
                        | Some v => is_object v | None => false end) as Ho
      by (destruct (jfind «"speaker_continue"» j) as [[]|]; inv_ok; by subst) end.
  rewrite <- Ho.
  destruct (jfind «"result"» j) as [[]|]; inv_ok; subst r; simpl;
    unfold response_ok; simpl; split_and!;
    eauto using empty_result_ok, parse_result_ok with range; try discriminate.
Qed.

Lemma ParseSpeechResponse_throw text e :
  ParseSpeechResponse json_parse cast text = Throw e ->
  exists m, e = AsrExn (asr_error kErrReadFailed («"unmarshal response failed: "» ++ m)).
Proof.
  unfold ParseSpeechResponse, unmarshal_failed, throw_asr.
  destruct (json_parse text) as [j|e']; simpl; [|intros [= <-]; by eexists].
  destruct (ParseSpeechResponseInner cast j); simpl; [done|intros [= <-]; by eexists].
Qed.

(** Every failure, in the document or in a field, is an [ASRError] with code
    [kErrReadFailed] and the documented prefix. *)
Theorem ParseSpeechResponse_errors text :
  match ParseSpeechResponse json_parse cast text with
  | Ok _ => True
  | Throw e => exists m,
      e = AsrExn (asr_error kErrReadFailed («"unmarshal response failed: "» ++ m))
  end.
Proof.
  destruct (ParseSpeechResponse json_parse cast text) eqn:E; [done|].
  by eapply ParseSpeechResponse_throw.
Qed.

(** C23: A parsed response has every integer within its type, and [has_result]
    exactly when the frame carries a [result] object. *)
Theorem ParseSpeechResponse_ok text j r :
  cast_ok cast -> json_parse text = Ok j -> ParseSpeechResponse json_parse cast text = Ok r ->
  response_ok r /\ has_result r = field_is_object «"result"» j /\
  present (speaker_continue r) = field_is_object «"speaker_continue"» j.
Proof.
  intros Hc Ej. unfold ParseSpeechResponse. rewrite Ej. simpl.
  destruct (ParseSpeechResponseInner cast j) as [r'|] eqn:E; [|done].
  intros [= <-]. by apply ParseSpeechResponseInner_ok.
Qed.
End Theorems.

(** ** The text of a response *)

Section Text.
Context (float_text : double -> str) (parse_error : str -> str) (cast : Z -> double -> Z).

#[local] Instance ParseWordInfo_stable : NormStable (ParseWordInfo cast).
Proof. stable_reads. Qed.

#[local] Instance optional_int_stable key : NormStable (optional_int cast key).
Proof.
  intros j. unfold optional_int. rewrite jfind_norm.
  destruct (jfind key j) as [[ | |z| | | | |]|]; simpl; try done.
  by destruct (0 <=? z).
Qed.

#[local] Instance ParseSpeakerSegment_stable : NormStable (ParseSpeakerSegment cast).
Proof. stable_reads. Qed.

#[local] Instance parse_result_stable : NormStable (parse_result cast).
Proof. stable_reads. Qed.

Lemma norm_object m : exists m', norm (JObj m) = JObj m'.
Proof. by eexists. Qed.

#[local] Instance ParseSpeechResponseInner_stable : NormStable (ParseSpeechResponseInner cast).
Proof.
  intros j. unfold ParseSpeechResponseInner. rewrite !jfind_norm.
  repeat (apply rbind_cong; [apply norm_stable|intros ?]).
  apply rbind_cong.
  - destruct (jfind «"speaker_continue"» j) as [[ | |z| | | | |m]|]; try done;
      cbn [fmap option_fmap option_map norm]; [by destruct (0 <=? z)|].
    change (JObj ((fun kv => (kv.1, norm kv.2)) <$> m)) with (norm (JObj m)).
    apply rbind_cong; [apply norm_stable|intros ?].
    apply rbind_cong; [apply norm_stable|done].
  - intros ?. destruct (jfind «"result"» j) as [[ | |z| | | | |m]|]; try done;
      cbn [fmap option_fmap option_map norm]; [by destruct (0 <=? z)|].
    change (JObj ((fun kv => (kv.1, norm kv.2)) <$> m)) with (norm (JObj m)).
    apply rbind_cong; [apply norm_stable|done].
Qed.

Lemma opt_int_typed key o :
  opt_int32 o -> Forall (fun kv => json_typed float_text kv.2) (opt_int key o).
Proof. destruct o; repeat constructor; by apply int32_int64. Qed.

#[local] Hint Resolve opt_int_typed : typed.

Lemma encode_word_typed w : word_ok w -> json_typed float_text (encode_word w).
Proof. intros (? & ? & ? & ?). apply json_typed_object. typed_entries. Qed.

Lemma encode_segment_typed s : segment_ok s -> json_typed float_text (encode_segment s).
Proof. intros (? & ? & ? & ? & ? & ?). apply json_typed_object. typed_entries. Qed.

Lemma encode_result_typed r : result_ok r -> json_typed float_text (encode_result r).
Proof.
  intros (? & ? & ? & ? & ? & Hw & Hs & ? & ? & ?). apply json_typed_object. typed_entries.
  - by apply (json_typed_list _ _ word_ok _ encode_word_typed).
  - by apply (json_typed_list _ _ segment_ok _ encode_segment_typed).
Qed.

Lemma encode_response_typed r : response_ok r -> json_typed float_text (encode_response r).
Proof.
  intros (? & ? & Hr & _). apply json_typed_object. typed_entries.
  - destruct (has_result r); typed_entries. by apply encode_result_typed.
  - destruct (speaker_continue r); typed_entries. apply json_typed_object. typed_entries.
Qed.

Lemma ParseSpeechResponse_encoded r text :
  response_ok r -> dump float_text (encode_response r) = Ok text ->
  ParseSpeechResponse (json_parse parse_error) cast text = Ok r.
Proof.
  intros Hr E. pose proof (json_parse_dumped float_text parse_error _ _ (encode_response_typed r Hr) E) as P.
  unfold ParseSpeechResponse. rewrite P. cbn [try_catch rbind].
  rewrite norm_stable, ParseSpeechResponseInner_encode by done. done.
Qed.

(** C8: A response serialized as the protocol writes it parses back to itself:
    through the JSON text and through the field reads, for every response
    whose integers fit and whose strings are UTF-8. *)
Theorem ParseSpeechResponse_roundtrip r text :
  response_ok r -> dump float_text (encode_response r) = Ok text ->
  ParseSpeechResponse (json_parse parse_error) cast text = Ok r.
Proof. apply ParseSpeechResponse_encoded. Qed.
End Text.

(** ** Witnesses

    A response with a word, a speaker segment and a continuation, behind a
    document reader that gives its encoding and refuses the empty text. *)

Definition demo_word : WordInfo := mkWordInfo «"hi"» 0 480 1 2 «"host"».

Definition demo_segment : SpeakerSegment :=
  mkSpeakerSegment 2 «"host"» 0 480 «"hi"» (Some 0) (Some 1) 1.

Definition demo_response : SpeechRecognitionResponse :=
  mkSpeechRecognitionResponse 0 «"success"» «"v-1"» «"m-1"» 1
    (mkRecognitionResult 2 0 0 480 «"hi"» 1 [demo_word] «"en"» [demo_segment] (Some 2) 300 20)
    true (Some (mkSpeakerContinue «"ready"» «"ctx-1"»)).

Definition demo_parse (text : str) : result json :=
  if is_empty text then Throw (StdExn «"parse_error"») else Ok (encode_response demo_response).

Lemma demo_response_ok : response_ok demo_response.
Proof.
  assert (word_ok demo_word /\ segment_ok demo_segment) as [Hw Hs].
  { unfold word_ok, segment_ok, opt_int32, int32, int64, in_signed. split_and!; by vm_compute. }
  unfold response_ok, result_ok, opt_int32, int32, int64, in_signed.
  split_and!; first [by apply Forall_singleton|by vm_compute].
Qed.

Lemma ParseSpeechResponse_roundtrip_witness :
  exists text, dump (fun _ => []) (encode_response demo_response) = Ok text /\
    ParseSpeechResponse (json_parse (fun s => s)) (fun _ _ => 0) text = Ok demo_response.
Proof.
  eexists. split; [vm_compute; reflexivity|].
  apply (ParseSpeechResponse_roundtrip (fun _ => []) (fun s => s) (fun _ _ => 0) demo_response);
    [apply demo_response_ok|vm_compute; reflexivity].
Defined.

Lemma ParseSpeechResponse_ok_witness :
  response_ok demo_response /\
  has_result demo_response = field_is_object «"result"» (encode_response demo_response) /\
  present (speaker_continue demo_response) =
    field_is_object «"speaker_continue"» (encode_response demo_response).
Proof.
  apply (ParseSpeechResponse_ok demo_parse (fun _ _ => 0) «"{}"»).
  - intros w d Hw. unfold in_signed. pose proof (Z.pow_pos_nonneg 2 (w - 1)). lia.
  - reflexivity.
  - vm_compute. reflexivity.
Defined.
