(* ===== verification/Http.v ===== *)
(** * HTTP calls (src/http_client.cc, and the request and envelope code of
    src/file_recognizer.cc and src/sentence_recognizer.cc)

    A call of the HTTP API is a [run]: the requests it handed to libcurl, in
    order, and how it ended.  libcurl is a [transfer] per request: what it
    wrote to the callback and how it finished.  On top of [HttpPost], the
    signed POST of the version 1 API and its response envelope. *)

From S2P Require Import Prelude StdMap Double Params Json JsonRead JsonText Uuid Credential SignatureParams UserSig.

Open Scope Z_scope.

(** ** Runs *)

(** The arguments of one [HttpPost]. *)
Record HttpRequest := mkHttpRequest {
  req_url : str; json_body : str; headers : list str; timeout_seconds : Z
}.

(** A call returned or threw; or it wrote through a null pointer; or it is a
    polling loop that has not ended yet. *)
Inductive ending (A : Type) :=
  | Done (r : result A)
  | Crashed
  | Polling.
Arguments Done {A} r.
Arguments Crashed {A}.
Arguments Polling {A}.

Record run (A : Type) := mkRun { posted : list HttpRequest; ended : ending A }.
Arguments mkRun {A} posted ended.
Arguments posted {A} r.
Arguments ended {A} r.

Definition pure {A} (r : result A) : run A := mkRun [] (Done r).

#[export] Instance run_ret : MRet run := fun A a => pure (Ok a).

#[export] Instance run_bind : MBind run := fun A B k m =>
  match ended m with
  | Done (Ok a) => let n := k a in mkRun (posted m ++ posted n) (ended n)
  | Done (Throw e) => mkRun (posted m) (Done (Throw e))
  | Crashed => mkRun (posted m) Crashed
  | Polling => mkRun (posted m) Polling
  end.

Lemma bind_ok {A B} (k : A -> run B) a : (x ← pure (Ok a); k x) = k a.
Proof. unfold mbind, run_bind. simpl. by destruct (k a). Qed.

Lemma bind_throw {A B} (k : A -> run B) e : (x ← pure (Throw e); k x) = pure (Throw e).
Proof. done. Qed.

Lemma bind_done {A B} (m : run A) (k : A -> run B) a :
  ended m = Done (Ok a) -> (x ← m; k x) = mkRun (posted m ++ posted (k a)) (ended (k a)).
Proof. intros E. unfold mbind, run_bind. by rewrite E. Qed.

Lemma bind_failed {A B} (m : run A) (k : A -> run B) e :
  ended m = Done (Throw e) -> (x ← m; k x) = mkRun (posted m) (Done (Throw e)).
Proof. intros E. unfold mbind, run_bind. by rewrite E. Qed.

(** ** [HttpPost] *)

Record HttpResponse := mkHttpResponse { status : Z; body : str }.

(** What libcurl does: [curl_easy_init] fails; or the transfer passes
    [chunks] to [WriteCallback] and then fails, with the text of
    [curl_easy_strerror], or completes with a status code. *)
Inductive transfer :=
  | InitFailed
  | Failed (chunks : list str) (strerror : str)
  | Completed (chunks : list str) (response_code : Z).

Definition WriteCallback (body : str) (chunk : str) : str := body ++ chunk.

(** [s.c_str()], which libcurl reads up to the first NUL. *)
Fixpoint c_str (s : str) : str :=
  match s with
  | [] => []
  | c :: s' => if char_eqb c "000" then [] else c :: c_str s'
  end.

(** [HttpPost]; [err] says whether its error pointer is not null.  It returns
    the response and the error text left in [*err]. *)
Definition HttpPost (url json_body : str) (headers : list str) (timeout_seconds : Z)
    (err : bool) (x : transfer) : run (HttpResponse * str) :=
  let set_err (resp : HttpResponse) (msg : str) : ending (HttpResponse * str) :=
    if err then Done (Ok (resp, msg)) else Crashed in
  let request :=
    mkHttpRequest (c_str url) json_body (c_str <$> headers) timeout_seconds in
  match x with
  | InitFailed => mkRun [] (set_err (mkHttpResponse 0 []) «"curl init failed"»)
  | Failed chunks strerror =>
      mkRun [request]
        (set_err (mkHttpResponse 0 (foldl WriteCallback [] chunks))
           («"http request failed: "» ++ strerror))
  | Completed chunks response_code =>
      mkRun [request]
        (Done (Ok (mkHttpResponse response_code (foldl WriteCallback [] chunks), [])))
  end.

(** ** The signed POST of the version 1 API

    One call of [DoRequest] (and the same statements of
    [SentenceRecognizer::Recognize]) draws a request id, reads the clock twice
    and makes one transfer. *)

Record exchange := mkExchange {
  draw1 : Z; draw2 : Z;            (* the generator of GenerateUuid *)
  ticket_time : Z;                 (* time(nullptr) in GenUserSig *)
  request_time : Z;                (* system_clock::now() *)
  answer : transfer
}.

Section Post.
Context `{Zlib} (t : target).

Definition api_url (c : Credential) (endpoint path request_id : str) (now : Z) : result str :=
  base <-- ResolveHTTPEndpoint endpoint (site_ c) ;;
  Ok (base ++ path ++ «"?AppId="» ++ app_id_str c ++ «"&Secretid="» ++ app_id_str c ++
      «"&RequestId="» ++ request_id ++ «"&Timestamp="» ++ to_string now ++ «"&"» ++
      SdkReportQuery t).

Definition api_headers (c : Credential) (user_sig : str) : list str :=
  [ «"Content-Type: application/json; charset=utf-8"»;
    «"X-TRTC-SdkAppId: "» ++ to_string (sdk_app_id_ c);
    «"X-TRTC-UserSig: "» ++ user_sig ].

(** [if (!err.empty()) throw ...; if (status != 200) throw ...] *)
Definition check_response (answer : HttpResponse * str) : result str :=
  let '(http_resp, err) := answer in
  (if negb (is_empty err) then throw_asr kErrConnectFailed err else Ok tt) ;;;
  (if negb (status http_resp =? 200)
   then throw_asr kErrServerError
          («"http status "» ++ to_string (status http_resp) ++ «": "» ++ body http_resp)
   else Ok tt) ;;;
  Ok (body http_resp).

(** [serialize] is the evaluation of the request body, which the sentence
    recognizer makes after the URL and the file recognizer before the call. *)
Definition DoRequest (c : Credential) (endpoint path : str) (timeout_seconds : Z)
    (serialize : result str) (x : exchange) : run str :=
  let request_id := GenerateUuid (draw1 x) (draw2 x) in
  user_sig ← pure (resolve_user_sig c request_id (ticket_time x));
  url ← pure (api_url c endpoint path request_id (request_time x));
  json_body ← pure serialize;
  resp ← HttpPost url json_body (api_headers c user_sig) timeout_seconds true (answer x);
  pure (check_response resp).
End Post.

(** ** The response envelope *)

Section Envelope.
Context (parse_error : str -> str).

Definition ParseApiEnvelope (body : str) : result json :=
  root <-- try_catch (json_parse parse_error body) unmarshal_failed ;;
  match jfind «"Response"» root with
  | Some (JObj _ as response) =>
      match jfind «"Error"» response with
      | Some (JObj _ as api_err) =>
          throw_asr kErrServerError
            («"server error ["» ++ StringFieldOrEmpty api_err «"Code"» ++ «"]: "» ++
             StringFieldOrEmpty api_err «"Message"» ++ «" (RequestId: "» ++
             StringFieldOrEmpty response «"RequestId"» ++ «")"»)
      | _ => Ok response
      end
  | _ => throw_asr kErrServerError «"empty response from server"»
  end.
End Envelope.

(** ** What a call can do *)

(** An exception of the SDK with one of [codes]. *)
Definition sdk_failure (codes : list Z) (e : exn) : Prop :=
  exists err, e = AsrExn err /\ code_ err ∈ codes.

Lemma sdk_failure_intro {A} codes code msg e :
  throw_asr code msg = Throw (A := A) e -> code ∈ codes -> sdk_failure codes e.
Proof. intros [= <-] H. by eexists. Qed.

Lemma sdk_failure_mono codes codes' e : sdk_failure codes e -> codes ⊆ codes' -> sdk_failure codes' e.
Proof. intros (err & -> & Hc) H. eexists. split; [done|]. by apply H. Qed.

Lemma error_code_failure {A} (r : result A) e code :
  error_code r = Some code -> r = Throw e -> sdk_failure [code] e.
Proof. intros H ->. destruct e as [err|]; [|done]. injection H as <-. exists err. split; [done|by left]. Qed.

(** A refusal of a validator. *)
Lemma validates_failure r P e :
  validates r P -> r = Throw e -> sdk_failure [kErrInvalidParam] e.
Proof. intros [[-> _]|[H _]] E; [done|]. by eapply error_code_failure. Qed.

Lemma ResolveHTTPEndpoint_throw override_ep site e :
  ResolveHTTPEndpoint override_ep site = Throw e -> sdk_failure [kErrInvalidParam] e.
Proof.
  unfold ResolveHTTPEndpoint, HTTPEndpointForSite, HostForSite.
  repeat case_match; try done; intros [= <-]; eexists; (split; [done|by left]).
Qed.

Lemma ResolveWSEndpoint_throw override_ep site e :
  ResolveWSEndpoint override_ep site = Throw e -> sdk_failure [kErrInvalidParam] e.
Proof.
  unfold ResolveWSEndpoint, WSEndpointForSite, HostForSite.
  repeat case_match; try done; intros [= <-]; eexists; (split; [done|by left]).
Qed.

(** What a transfer amounts to, and whether it sends the request. *)
Definition answered (x : transfer) : result str :=
  match x with
  | InitFailed => throw_asr kErrConnectFailed «"curl init failed"»
  | Failed _ strerror => throw_asr kErrConnectFailed («"http request failed: "» ++ strerror)
  | Completed chunks code =>
      if code =? 200 then Ok (concat chunks)
      else throw_asr kErrServerError («"http status "» ++ to_string code ++ «": "» ++ concat chunks)
  end.

Definition sends (x : transfer) : bool := if x is InitFailed then false else true.

Lemma WriteCallback_chunks chunks acc : foldl WriteCallback acc chunks = acc ++ concat chunks.
Proof.
  revert acc. induction chunks as [|c chunks IH]; intros acc; simpl; [by rewrite app_nil_r|].
  by rewrite IH, <- app_assoc.
Qed.

Section PostFacts.
Context `{Zlib} (t : target) (c : Credential) (endpoint path : str) (timeout : Z)
  (serialize : result str) (x : exchange).

Abbreviation request_id := (GenerateUuid (draw1 x) (draw2 x)).

(** The ticket, the URL and the body of the request, in the order the code
    makes them. *)
Definition prepared : result (str * str * str) :=
  user_sig <-- resolve_user_sig c request_id (ticket_time x) ;;
  url <-- api_url t c endpoint path request_id (request_time x) ;;
  text <-- serialize ;;
  Ok (user_sig, url, text).

Definition api_request (user_sig url text : str) : HttpRequest :=
  mkHttpRequest (c_str url) text (c_str <$> api_headers c user_sig) timeout.

Lemma DoRequest_eq :
  DoRequest t c endpoint path timeout serialize x =
  match prepared with
  | Ok (user_sig, url, text) =>
      mkRun (if sends (answer x) then [api_request user_sig url text] else [])
        (Done (answered (answer x)))
  | Throw e => pure (Throw e)
  end.
Proof.
  unfold DoRequest, prepared.
  destruct (resolve_user_sig _ _ _) as [us|]; [|done]. cbn [rbind].
  destruct (api_url _ _ _ _ _ _) as [url|]; [|done]. cbn [rbind].
  destruct serialize as [text|]; [|done]. cbn [rbind].
  destruct (answer x) as [|chunks strerror|chunks code]; [done|done|].
  unfold mbind, run_bind, HttpPost, check_response. cbn -[Z.eqb to_string].
  rewrite WriteCallback_chunks. by destruct (code =? 200).
Qed.

Lemma api_url_throw rid now e :
  api_url t c endpoint path rid now = Throw e -> sdk_failure [kErrInvalidParam] e.
Proof.
  unfold api_url. destruct (ResolveHTTPEndpoint _ _) as [base|e'] eqn:E; [done|].
  intros [= <-]. by eapply ResolveHTTPEndpoint_throw.
Qed.

Lemma prepared_throw e :
  prepared = Throw e -> serialize = Throw e \/ sdk_failure [kErrAuthFailed; kErrInvalidParam] e.
Proof.
  unfold prepared. destruct (resolve_user_sig _ _ _) as [us|e1] eqn:E1; cbn [rbind].
  - destruct (api_url _ _ _ _ _ _) as [url|e2] eqn:E2; cbn [rbind].
    + destruct serialize; [done|]. intros [= ->]. by left.
    + intros [= ->]. right. eapply sdk_failure_mono; [by eapply api_url_throw|set_solver].
  - intros [= ->]. right. apply resolve_user_sig_throw in E1 as [m ->]. eexists.
    split; [done|by left].
Qed.

Lemma DoRequest_posts rq :
  rq ∈ posted (DoRequest t c endpoint path timeout serialize x) ->
  posted (DoRequest t c endpoint path timeout serialize x) = [rq] /\
  exists user_sig url text, prepared = Ok (user_sig, url, text) /\ rq = api_request user_sig url text.
Proof.
  rewrite DoRequest_eq. destruct prepared as [[[us url] text]|]; [|by intros ?%elem_of_nil].
  cbn [posted]. destruct (sends (answer x)); [|by intros ?%elem_of_nil].
  intros ->%list_elem_of_singleton. split; [done|]. eauto.
Qed.

Lemma prepared_ok us url text :
  prepared = Ok (us, url, text) ->
  resolve_user_sig c request_id (ticket_time x) = Ok us /\
  api_url t c endpoint path request_id (request_time x) = Ok url /\ serialize = Ok text.
Proof. unfold prepared. intros E. inv_ok. by simplify_eq. Qed.

Lemma answered_throw e :
  answered (answer x) = Throw e -> sdk_failure [kErrConnectFailed; kErrServerError] e.
Proof.
  unfold answered. repeat case_match; try done; intros [= <-]; eexists;
    (split; [reflexivity|]); cbn; set_solver.
Qed.
End PostFacts.

(** How a call ends: [before] are its failures when nothing was sent, [after]
    those that answer a request; [unwritable] excuses an exception of the
    serializer. *)
Definition ends_well {A} (r : run A) (before after : list Z) (unwritable : exn -> Prop)
    (good : A -> Prop) : Prop :=
  exists out, ended r = Done out /\
  match out with
  | Ok a => good a
  | Throw e =>
      match posted r with
      | [] => sdk_failure before e \/ unwritable e
      | _ => sdk_failure after e
      end
  end.

Lemma DoRequest_ends `{Zlib} t c endpoint path timeout serialize x :
  ends_well (DoRequest t c endpoint path timeout serialize x)
    [kErrAuthFailed; kErrInvalidParam; kErrConnectFailed] [kErrConnectFailed; kErrServerError]
    (fun e => serialize = Throw e)
    (fun body => exists chunks, answer x = Completed chunks 200 /\ body = concat chunks).
Proof.
  rewrite DoRequest_eq. destruct (prepared _ _ _ _ _ _) as [[[us url] text]|e] eqn:E.
  - eexists. split; [reflexivity|]. destruct (answered (answer x)) as [b|e] eqn:Ea; cbn [posted].
    + unfold answered in Ea. repeat case_match; try done. injection Ea as <-.
      eexists. split; [|done]. f_equal. lia.
    + destruct (answer x); cbn in *.
      * left. eapply sdk_failure_intro; [exact Ea|set_solver].
      * eapply sdk_failure_intro; [exact Ea|set_solver].
      * destruct (response_code =? 200); [done|].
        eapply sdk_failure_intro; [exact Ea|set_solver].
  - eexists. split; [reflexivity|]. cbn [posted pure].
    apply prepared_throw in E as [E|E]; [by right|left].
    eapply sdk_failure_mono; [exact E|set_solver].
Qed.

Lemma ParseApiEnvelope_throw parse_error body e :
  ParseApiEnvelope parse_error body = Throw e -> sdk_failure [kErrReadFailed; kErrServerError] e.
Proof.
  unfold ParseApiEnvelope, try_catch, unmarshal_failed.
  destruct (json_parse parse_error body) as [root|e']; cbn [rbind];
    [|intros [= <-]; eexists; split; [done|by left]].
  intros E. repeat case_match; try done; injection E as <-; eexists; (split; [reflexivity|]); cbn; set_solver.
Qed.

Lemma try_unmarshal_throw {A} (m : result A) e :
  try_catch m unmarshal_failed = Throw e -> sdk_failure [kErrReadFailed] e.
Proof.
  destruct m; [done|]. intros [= <-]. eexists. split; [done|by left].
Qed.

(** ** A checked call *)

Lemma posted_read {A B} (m : run A) (f : A -> result B) :
  posted (a ← m; pure (f a)) = posted m.
Proof.
  unfold mbind, run_bind. destruct (ended m) as [[a|e]| |]; [apply app_nil_r|done..].
Qed.

Section ApiCall.
Context `{Zlib} (t : target) (c : Credential) (endpoint path : str) (timeout : Z) {P A : Type}
  (prepare : result P) (serialize : P -> result str) (read : str -> result A) (x : exchange).

(** Local checks, the request, the reading of its answer. *)
Definition api_call : run A :=
  p ← pure prepare;
  body ← DoRequest t c endpoint path timeout (serialize p) x;
  pure (read body).

Lemma api_call_ok p : prepare = Ok p ->
  api_call = (body ← DoRequest t c endpoint path timeout (serialize p) x; pure (read body)).
Proof.
  unfold api_call. intros ->.
  exact (bind_ok (fun p => body ← DoRequest t c endpoint path timeout (serialize p) x;
                           pure (read body)) p).
Qed.

Lemma api_call_posts rq :
  rq ∈ posted api_call ->
  posted api_call = [rq] /\ exists p user_sig url text,
    prepare = Ok p /\ serialize p = Ok text /\
    resolve_user_sig c (GenerateUuid (draw1 x) (draw2 x)) (ticket_time x) = Ok user_sig /\
    api_url t c endpoint path (GenerateUuid (draw1 x) (draw2 x)) (request_time x) = Ok url /\
    rq = api_request c timeout user_sig url text.
Proof.
  destruct prepare as [p|e] eqn:E.
  - rewrite (api_call_ok p), posted_read by done. intros Hin.
    apply DoRequest_posts in Hin as (Hp & us & url & text & Hprep & ->).
    apply prepared_ok in Hprep as (? & ? & ?). split; [done|]. by exists p, us, url, text.
  - unfold api_call. rewrite E. by intros ?%elem_of_nil.
Qed.

Lemma api_call_ends (unwritable : exn -> Prop) :
  (forall e, prepare = Throw e -> sdk_failure [kErrInvalidParam] e \/ unwritable e) ->
  (forall p e, prepare = Ok p -> serialize p = Throw e -> unwritable e) ->
  (forall body e, read body = Throw e -> sdk_failure [kErrServerError; kErrReadFailed] e) ->
  ends_well api_call
    [kErrInvalidParam; kErrAuthFailed; kErrConnectFailed]
    [kErrConnectFailed; kErrServerError; kErrReadFailed]
    unwritable
    (fun a => is_ok prepare = true /\ exists chunks,
       answer x = Completed chunks 200 /\ read (concat chunks) = Ok a).
Proof.
  intros Hprep Hser Hread. unfold ends_well. destruct prepare as [p|e] eqn:E.
  - rewrite (api_call_ok p), posted_read by done.
    destruct (DoRequest_ends t c endpoint path timeout (serialize p) x) as (out & He & Ho).
    unfold mbind, run_bind. rewrite He. destruct out as [body|e].
    + destruct Ho as (chunks & Hc & ->). eexists. split; [reflexivity|].
      destruct (read (concat chunks)) as [a|e] eqn:Er; [by eauto|].
      assert (posted (DoRequest t c endpoint path timeout (serialize p) x) <> []) as Hp.
      { revert He. rewrite DoRequest_eq. destruct (prepared _ _ _ _ _ _) as [[[us url] text]|]; [|done].
        by rewrite Hc. }
      destruct (posted _); [done|]. eapply sdk_failure_mono; [by eapply Hread|set_solver].
    + eexists. split; [reflexivity|]. destruct (posted _).
      * destruct Ho as [Ho|Ho]; [left|right; eauto]. eapply sdk_failure_mono; [exact Ho|set_solver].
      * eapply sdk_failure_mono; [exact Ho|set_solver].
  - unfold api_call. rewrite E. exists (Throw e). split; [done|].
    destruct (Hprep e eq_refl) as [Hs|Hs]; [left|by right].
    eapply sdk_failure_mono; [exact Hs|set_solver].
Qed.
End ApiCall.

(** The envelope, then a reader whose exceptions are reported as one error. *)
Definition read_envelope {A} (parse_error : str -> str) (f : json -> result A) (body : str)
    : result A :=
  response <-- ParseApiEnvelope parse_error body ;; f response.

Lemma read_envelope_throw {A} parse_error (f : json -> result A) body e :
  (forall j e, f j = Throw e -> sdk_failure [kErrServerError; kErrReadFailed] e) ->
  read_envelope parse_error f body = Throw e -> sdk_failure [kErrServerError; kErrReadFailed] e.
Proof.
  unfold read_envelope. intros Hf. destruct (ParseApiEnvelope _ _) as [j|e'] eqn:E; [apply Hf|].
  intros [= <-]. eapply sdk_failure_mono; [by eapply ParseApiEnvelope_throw|set_solver].
Qed.

(** The serializer fails on a document only if it is not UTF-8. *)
Lemma dump_throw_utf8 float_text j e : dump float_text j = Throw e -> json_utf8 j = false.
Proof.
  intros He. pose proof (dump_total float_text j) as Hd. destruct (json_utf8 j); [|done].
  destruct Hd as [text Hd]. by rewrite Hd in He.
Qed.

Lemma ends_well_mono {A} (r : run A) before after unwritable unwritable' good good' :
  ends_well r before after unwritable good ->
  (forall e, unwritable e -> unwritable' e) -> (forall a, good a -> good' a) ->
  ends_well r before after unwritable' good'.
Proof.
  intros (out & He & Ho) Hu Hg. exists out. split; [done|]. destruct out; [auto|].
  destruct (posted r); [|done]. destruct Ho; auto.
Qed.

(** ** The URL, read by the gateway *)

Lemma lower_hex_unreserved c : is_lower_hex c || char_eqb c "-" = true -> is_unreserved c = true.
Proof.
  assert (forall c, negb (is_lower_hex c || char_eqb c "-") || is_unreserved c = true) as H
    by (intros d; by_bytes d).
  intros Hc. specialize (H c). by rewrite Hc in H.
Qed.

Lemma decimal_unreserved c : is_decimal c = true -> is_unreserved c = true.
Proof.
  assert (forall c, negb (is_decimal c) || is_unreserved c = true) as H by (intros d; by_bytes d).
  intros Hc. specialize (H c). by rewrite Hc in H.
Qed.

Lemma QueryEscape_decimal z : QueryEscape (to_string z) = to_string z.
Proof.
  apply QueryEscape_unreserved. eapply Forall_impl; [apply to_string_decimal|].
  intros c Hc. apply Is_true_true, decimal_unreserved. by apply Is_true_true.
Qed.

Lemma QueryEscape_uuid v1 v2 : QueryEscape (GenerateUuid v1 v2) = GenerateUuid v1 v2.
Proof.
  apply QueryEscape_unreserved. eapply Forall_impl; [apply uuid_chars|].
  intros c Hc. by apply Is_true_true, lower_hex_unreserved.
Qed.

(** The parameters of a version 1 call. *)
Definition api_query (t : target) (c : Credential) (request_id : str) (now : Z)
    : list (str * str) :=
  [ («"AppId"», to_string (app_id_ c)); («"Secretid"», to_string (app_id_ c));
    («"RequestId"», request_id); («"Timestamp"», to_string now) ] ++ SdkReportParams t.

Lemma api_query_keys t c rid now : Forall (fun kv => key_ok kv.1) (api_query t c rid now).
Proof.
  unfold api_query. rewrite SdkReportParams_eq. cbn [app].
  repeat (apply Forall_cons_2; [split; [done|]; apply (bool_decide_unpack _); by vm_compute|]).
  constructor.
Qed.

Lemma api_url_reads t c endpoint path v1 v2 now url :
  api_url t c endpoint path (GenerateUuid v1 v2) now = Ok url ->
  exists base query,
    ResolveHTTPEndpoint endpoint (site_ c) = Ok base /\
    url = base ++ path ++ «"?"» ++ query /\
    ParseQuery query = Some (api_query t c (GenerateUuid v1 v2) now).
Proof.
  unfold api_url. intros (base & Hb & E)%rbind_ok. apply Ok_inj in E.
  exists base, (query_loop (api_query t c (GenerateUuid v1 v2) now)). split_and!; [done| |].
  - rewrite <- E. do 2 f_equal.
    pose proof (api_query_keys t c (GenerateUuid v1 v2) now) as Hk.
    pose proof (proj2 (proj1 (Forall_app _ [_; _; _; _] _) Hk)) as Hs.
    unfold SdkReportQuery, api_query in *. rewrite SdkReportParams_eq in *. cbn [app] in *.
    rewrite !query_loop_cons by done. unfold pair_str. cbn [fst snd mbind list_bind].
    rewrite !QueryEscape_decimal, QueryEscape_uuid. unfold app_id_str.
    rewrite ?app_nil_r. cbn [app]. rewrite <- ?app_assoc. reflexivity.
  - apply query_loop_parses; [done|apply api_query_keys].
Qed.
