(* ===== verification/Polling.v ===== *)
(** * Waiting for a task (the [WaitForResultWithInterval] loops of
    src/file_recognizer.cc and src/v3.cc)

    Both file recognizers wait with the same loop around their own query.  The
    loop is a function of the query and of the texts of its errors; what it
    reports, and that it ends, is proved here once. *)

From S2P Require Import Prelude Http.

Open Scope Z_scope.

(** A poll is an exchange, the time it takes and the time [sleep_for] oversleeps
    after it, in milliseconds of the steady clock. *)
Record poll := mkPoll { poll_exchange : exchange; took : Z; overslept : Z }.

Definition poll_ok (p : poll) : Prop := 0 <= took p /\ 0 <= overslept p.

(** What a client gives the loop: its query, and how it reads a status. *)
Class Query (St : Type) := mkQuery {
  describe : exchange -> run St;
  task_status : St -> Z;
  status_success : Z;
  status_failed : Z;
  failed_text : St -> str;
  timeout_text : St -> str
}.

Section Wait.
Context `{Query St} (interval deadline : Z).

(** The loop, entered when the clock shows [now]; the polls are those to come. *)
Fixpoint wait_loop (now : Z) (polls : list poll) : run St :=
  match polls with
  | [] => mkRun [] Polling
  | p :: polls =>
      s ← describe (poll_exchange p);
      if task_status s =? status_success then mret s
      else if task_status s =? status_failed then
        pure (throw_asr kErrServerError (failed_text s))
      else
        let now := now + took p in
        if deadline <? now then pure (throw_asr kErrTimeout (timeout_text s))
        else wait_loop (now + Z.max 0 interval + overslept p) polls
  end.

(** The clock at the start of the iteration after [polls]. *)
Definition clock (now : Z) (polls : list poll) : Z :=
  foldl (fun now p => now + took p + Z.max 0 interval + overslept p) now polls.

Definition unfinished (s : St) : Prop :=
  task_status s <> status_success /\ task_status s <> status_failed.

Abbreviation reports p out := (ended (describe (poll_exchange p)) = out).

(** What ended a wait. *)
Definition wait_ended (now_last : Z) (last : poll) (out : ending St) : Prop :=
  match out with
  | Done (Ok s) => reports last (Done (Ok s)) /\ task_status s = status_success
  | Done (Throw e) =>
      reports last (Done (Throw e)) \/
      exists s, reports last (Done (Ok s)) /\
        (task_status s = status_failed /\ throw_asr (A := St) kErrServerError (failed_text s) = Throw e \/
         unfinished s /\ throw_asr (A := St) kErrTimeout (timeout_text s) = Throw e /\
         deadline < now_last + took last)
  | Crashed => reports last Crashed
  | Polling => False
  end.

(** One iteration stops the wait or goes round. *)
Lemma wait_loop_step now p polls :
  ended (describe (poll_exchange p)) <> Polling ->
  (exists out,
     wait_loop now (p :: polls) = mkRun (posted (describe (poll_exchange p))) out /\
     wait_ended now p out) \/
  (exists s, reports p (Done (Ok s)) /\ unfinished s /\ now + took p <= deadline /\
     let rest := wait_loop (now + took p + Z.max 0 interval + overslept p) polls in
     wait_loop now (p :: polls) =
       mkRun (posted (describe (poll_exchange p)) ++ posted rest) (ended rest)).
Proof.
  intros Hnp. cbn [wait_loop]. destruct (ended (describe (poll_exchange p))) as [[s|e]| |] eqn:Hp;
    [rewrite (bind_done _ _ s Hp)
    |rewrite (bind_failed _ _ e Hp); left; eexists; split; [reflexivity|by left]
    |unfold mbind, run_bind; rewrite Hp; left; eexists; by split|done].
  destruct (Z.eqb_spec (task_status s) status_success) as [Hs|Hs].
  { left. exists (Done (Ok s)). cbn [posted ended mret run_ret pure]. by rewrite app_nil_r. }
  destruct (Z.eqb_spec (task_status s) status_failed) as [Hf|Hf].
  { left. eexists. cbn [posted ended pure]. rewrite app_nil_r. split; [done|].
    right. exists s. split; [done|]. by left. }
  cbn zeta. destruct (Z.ltb_spec deadline (now + took p)) as [Hd|Hd].
  - left. eexists. cbn [posted ended pure]. rewrite app_nil_r. split; [done|].
    right. exists s. split; [done|]. right. by split_and!.
  - right. by exists s.
Qed.

(** A query that ends. *)
Definition query_ends : Prop := forall x, ended (describe x) <> Polling.

Lemma wait_loop_ended now polls :
  query_ends -> ended (wait_loop now polls) <> Polling ->
  exists earlier last rest,
    polls = earlier ++ last :: rest /\
    Forall (fun p => exists s, reports p (Done (Ok s)) /\ unfinished s) earlier /\
    posted (wait_loop now polls) =
      ((earlier ++ [last]) ≫= fun p => posted (describe (poll_exchange p))) /\
    wait_ended (clock now earlier) last (ended (wait_loop now polls)).
Proof.
  intros Hq. revert now. induction polls as [|p polls IH]; intros now He; [done|].
  destruct (wait_loop_step now p polls (Hq _)) as [(out & E & Hw)|(s & Hp & Hs & _ & E)];
    rewrite E in *; cbn [ended posted] in *.
  - exists [], p, polls. split_and!; [done|constructor| |done]. simpl. by rewrite app_nil_r.
  - destruct (IH _ He) as (earlier & last & rest & -> & Hall & Hpost & Hw).
    exists (p :: earlier), last, rest. split_and!; [done|by constructor; [exists s|]| |done].
    by rewrite Hpost.
Qed.

Lemma wait_loop_terminates now polls :
  query_ends -> 0 < interval -> Forall poll_ok polls ->
  Z.max 0 ((deadline - now) / interval + 1) < Z.of_nat (length polls) ->
  ended (wait_loop now polls) <> Polling.
Proof.
  intros Hq Hi Hok. revert now. induction Hok as [|p polls [Ht Ho] _ IH]; intros now Hn; [simpl in Hn; lia|].
  destruct (wait_loop_step now p polls (Hq _)) as [(out & -> & Hw)|(s & _ & _ & Hd & ->)];
    [by destruct out|]. cbn [ended].
  apply IH. rewrite (Z.max_r 0 interval) by lia.
  assert ((deadline - (now + took p + interval + overslept p)) / interval + 1
          <= (deadline - now) / interval) as Hdiv.
  { replace ((deadline - now) / interval) with ((deadline - now - interval) / interval + 1).
    - apply Z.add_le_mono_r, Z.div_le_mono; lia.
    - rewrite <- Z.div_add by lia. f_equal. lia. }
  assert (0 <= (deadline - now) / interval) by (apply Z.div_pos; lia).
  simpl length in Hn. lia.
Qed.
End Wait.

(** [timeout / interval + 2] polls are enough. *)
Lemma wait_terminates `{Query St} interval timeout now polls :
  query_ends -> 0 < interval -> 0 <= timeout -> Forall poll_ok polls ->
  timeout / interval + 2 <= Z.of_nat (length polls) ->
  ended (wait_loop interval (now + timeout) now polls) <> Polling.
Proof.
  intros Hq Hi Ht Hok Hn. apply wait_loop_terminates; [done..|].
  replace (now + timeout - now) with timeout by lia.
  assert (0 <= timeout / interval) by (apply Z.div_pos; lia). lia.
Qed.
