(* ===== verification/SentenceRecognizer.v ===== *)
(** * The one-shot recognizer (src/sentence_recognizer.cc)

    [SentenceRecognizer] of the version 1 API: the request and its JSON body,
    its validation, the call, and the result.  The theorems: the body of a
    request reads back as the request; what a call posts; every way it can
    end. *)

From S2P Require Import Prelude StdMap Double Base64 Params Json JsonRead JsonText Uuid Credential SignatureParams UserSig Http.

Open Scope Z_scope.

(** ** Data (include/trtc_asr/sentence_recognizer.h) *)

Record SentenceWord := mkSentenceWord { word : str; start_time : Z; end_time : Z }.

Record SentenceRecognitionResult := mkSentenceRecognitionResult {
  result_text : str; audio_duration : Z; word_size : Z; word_list : list SentenceWord;
  request_id : str
}.

Record SentenceRecognitionRequest := mkSentenceRecognitionRequest {
  eng_service_type : str; source_type : Z; voice_format : str; url : str; data : str;
  data_len : Z; word_info : Z; filter_dirty : Z; filter_modal : Z; filter_punc : Z;
  convert_num_mode : Z; hotword_id : str; hotword_list : str; customization_id : str;
  input_sample_rate : Z; language : str
}.

Definition kSourceTypeURL : Z := 0.
Definition kSourceTypeData : Z := 1.
Definition kMaxAudioSize : Z := 3 * 1024 * 1024.

(** The client; its timeout is the constant 30. *)
Record SentenceRecognizer := mkSentenceRecognizer { credential_ : Credential; endpoint_ : str }.
Definition timeout_seconds_ : Z := 30.

Definition new_SentenceRecognizer (credential : Credential) : SentenceRecognizer :=
  mkSentenceRecognizer credential [].
Definition SetEndpoint (endpoint : str) (r : SentenceRecognizer) : SentenceRecognizer :=
  mkSentenceRecognizer (credential_ r) endpoint.

(** ** The request *)

Definition request_fields (req : SentenceRecognitionRequest) : list (str * option json) :=
  [ («"EngSerViceType"», Some (JStr (eng_service_type req)));
    («"SourceType"», Some (JInt (source_type req)));
    («"VoiceFormat"», Some (JStr (voice_format req)));
    str_field «"Url"» (url req);
    str_field «"Data"» (data req);
    int_field «"DataLen"» (data_len req);
    int_field «"WordInfo"» (word_info req);
    int_field «"FilterDirty"» (filter_dirty req);
    int_field «"FilterModal"» (filter_modal req);
    int_field «"FilterPunc"» (filter_punc req);
    int_field «"ConvertNumMode"» (convert_num_mode req);
    str_field «"HotwordId"» (hotword_id req);
    str_field «"HotwordList"» (hotword_list req);
    str_field «"CustomizationId"» (customization_id req);
    int_field «"InputSampleRate"» (input_sample_rate req);
    str_field «"Language"» (language req) ].

Definition request_json (req : SentenceRecognitionRequest) : json :=
  assign (request_fields req) JNull.

Definition SerializeRequest (float_text : double -> str) (req : SentenceRecognitionRequest)
    : result str := dump float_text (request_json req).

Definition ValidateRequest (req : SentenceRecognitionRequest) : result unit :=
  reject_if (is_empty (eng_service_type req)) «"EngServiceType is required"» ;;;
  reject_if (is_empty (voice_format req)) «"VoiceFormat is required"» ;;;
  reject_if ((source_type req =? kSourceTypeURL) && is_empty (url req))
    «"Url is required when SourceType=0"» ;;;
  reject_if ((source_type req =? kSourceTypeData) && is_empty (data req))
    «"Data is required when SourceType=1"».

(** ** The response *)

Section Parse.
Context (cast : Z -> double -> Z).

Definition ParseWord (w : json) : result SentenceWord :=
  word <-- value_string «"Word"» [] w ;;
  start_time <-- value_int64 cast «"StartTime"» 0 w ;;
  end_time <-- value_int64 cast «"EndTime"» 0 w ;;
  Ok (mkSentenceWord word start_time end_time).

Definition ParseResult (response : json) : result SentenceRecognitionResult :=
  result_text <-- value_string «"Result"» [] response ;;
  audio_duration <-- value_int64 cast «"AudioDuration"» 0 response ;;
  word_size <-- value_int cast «"WordSize"» 0 response ;;
  request_id <-- value_string «"RequestId"» [] response ;;
  word_list <-- optional_list ParseWord «"WordList"» response ;;
  Ok (mkSentenceRecognitionResult result_text audio_duration word_size word_list request_id).
End Parse.

(** ** The calls *)

Section Calls.
Context `{Zlib} (float_text : double -> str) (parse_error : str -> str)
  (cast : Z -> double -> Z) (t : target) (r : SentenceRecognizer).

Definition read_result (body : str) : result SentenceRecognitionResult :=
  read_envelope parse_error (fun response => try_catch (ParseResult cast response) unmarshal_failed)
    body.

Definition Recognize (req : SentenceRecognitionRequest) (x : exchange)
    : run SentenceRecognitionResult :=
  _ ← pure (ValidateRequest req);
  body ← DoRequest t (credential_ r) (endpoint_ r) «"/v1/SentenceRecognition"»
           timeout_seconds_ (SerializeRequest float_text req) x;
  pure (read_result body).

Definition check_audio (data : str) : result unit :=
  reject_if (is_empty data) «"audio data is empty"» ;;;
  reject_if (kMaxAudioSize <? Z.of_nat (length data)) «"audio data exceeds 3MB limit"».

Definition RecognizeData (data voice_format engine_model_type : str) (x : exchange)
    : run SentenceRecognitionResult :=
  _ ← pure (check_audio data);
  Recognize (mkSentenceRecognitionRequest engine_model_type kSourceTypeData voice_format []
               (Base64Encode data) (Z.of_nat (length data)) 0 0 0 0 0 [] [] [] 0 []) x.

Definition RecognizeURL (audio_url voice_format engine_model_type : str) (x : exchange)
    : run SentenceRecognitionResult :=
  _ ← pure (reject_if (is_empty audio_url) «"audio URL is empty"»);
  Recognize (mkSentenceRecognitionRequest engine_model_type kSourceTypeURL voice_format audio_url
               [] 0 0 0 0 0 0 [] [] [] 0 []) x.

(** [req->source_type], [req->data] and [req->data_len] are overwritten. *)
Definition with_audio (raw_data : str) (req : SentenceRecognitionRequest)
    : SentenceRecognitionRequest :=
  {| eng_service_type := eng_service_type req; source_type := kSourceTypeData;
     voice_format := voice_format req; url := url req; data := Base64Encode raw_data;
     data_len := Z.of_nat (length raw_data); word_info := word_info req;
     filter_dirty := filter_dirty req; filter_modal := filter_modal req;
     filter_punc := filter_punc req; convert_num_mode := convert_num_mode req;
     hotword_id := hotword_id req; hotword_list := hotword_list req;
     customization_id := customization_id req; input_sample_rate := input_sample_rate req;
     language := language req |}.

(** Also the request after the call: it is updated in place, and only once the
    audio has passed the checks. *)
Definition RecognizeDataWithOptions (raw_data : str) (req : option SentenceRecognitionRequest)
    (x : exchange) : run SentenceRecognitionResult * option SentenceRecognitionRequest :=
  match req with
  | None => (pure (throw_asr kErrInvalidParam «"request is null"»), None)
  | Some q =>
      match check_audio raw_data with
      | Throw e => (pure (Throw e), Some q)
      | Ok _ => let q := with_audio raw_data q in (Recognize q x, Some q)
      end
  end.
End Calls.

(** ** The body of a request, read by the service

    Every field is read with its default, so a field left out is a zero or an
    empty string. *)

Definition read_request (cast : Z -> double -> Z) (j : json) : result SentenceRecognitionRequest :=
  eng_service_type <-- value_string «"EngSerViceType"» [] j ;;
  source_type <-- value_int cast «"SourceType"» 0 j ;;
  voice_format <-- value_string «"VoiceFormat"» [] j ;;
  url <-- value_string «"Url"» [] j ;;
  data <-- value_string «"Data"» [] j ;;
  data_len <-- value_int64 cast «"DataLen"» 0 j ;;
  word_info <-- value_int cast «"WordInfo"» 0 j ;;
  filter_dirty <-- value_int cast «"FilterDirty"» 0 j ;;
  filter_modal <-- value_int cast «"FilterModal"» 0 j ;;
  filter_punc <-- value_int cast «"FilterPunc"» 0 j ;;
  convert_num_mode <-- value_int cast «"ConvertNumMode"» 0 j ;;
  hotword_id <-- value_string «"HotwordId"» [] j ;;
  hotword_list <-- value_string «"HotwordList"» [] j ;;
  customization_id <-- value_string «"CustomizationId"» [] j ;;
  input_sample_rate <-- value_int cast «"InputSampleRate"» 0 j ;;
  language <-- value_string «"Language"» [] j ;;
  Ok (mkSentenceRecognitionRequest eng_service_type source_type voice_format url data data_len
        word_info filter_dirty filter_modal filter_punc convert_num_mode hotword_id hotword_list
        customization_id input_sample_rate language).

(** The integers of a request are within their C++ types. *)
Definition request_ok (req : SentenceRecognitionRequest) : Prop :=
  int32 (source_type req) /\ int64 (data_len req) /\ int32 (word_info req) /\
  int32 (filter_dirty req) /\ int32 (filter_modal req) /\ int32 (filter_punc req) /\
  int32 (convert_num_mode req) /\ int32 (input_sample_rate req).

Lemma request_value {A} (get : json -> result A) key d req :
  value get key d (request_json req) =
  match entry (request_fields req) key with Some v => get v | None => Ok d end.
Proof. apply value_assign. distinct_keys. Qed.

#[local] Instance read_request_stable cast : NormStable (read_request cast).
Proof. stable_reads. Qed.

Lemma request_json_reads cast req :
  request_ok req -> read_request cast (request_json req) = Ok req.
Proof.
  intros (? & ? & ? & ? & ? & ? & ? & ?). unfold read_request, value_string, value_int, value_int64.
  rewrite !request_value. simpl.
  rewrite !read_str_field, !read_int_field, !read_int64_field by done. simpl.
  rewrite signed_id by done. by destruct req.
Qed.

Lemma request_json_typed float_text req :
  request_ok req -> json_typed float_text (request_json req).
Proof.
  intros (? & ? & ? & ? & ? & ? & ? & ?). apply json_typed_assign; [|done]. typed_entries.
Qed.

(** What the validation accepts. *)
Definition valid_request (req : SentenceRecognitionRequest) : Prop :=
  eng_service_type req <> [] /\ voice_format req <> [] /\
  (source_type req = 0 -> url req <> []) /\ (source_type req = 1 -> data req <> []).

Lemma ValidateRequest_validates req : validates (ValidateRequest req) (valid_request req).
Proof.
  unfold ValidateRequest, valid_request, kSourceTypeURL, kSourceTypeData.
  repeat (apply validates_seq; [|intros _]);
    (eapply validates_iff; [|apply validates_reject]); rewrite ?andb_false_iff, ?is_empty_false, ?Z.eqb_neq;
    first [done | split; [intros [?|?]; tauto|intros ?; destruct (Z.eq_dec (source_type req) 0),
      (Z.eq_dec (source_type req) 1); tauto]].
Qed.

Section Theorems.
Context `{Zlib} (float_text : double -> str) (parse_error : str -> str)
  (cast : Z -> double -> Z) (t : target) (r : SentenceRecognizer).

Abbreviation Recognize := (Recognize float_text parse_error cast t r).
Abbreviation rid x := (GenerateUuid (draw1 x) (draw2 x)).

Lemma Recognize_request req x rq :
  request_ok req -> rq ∈ posted (Recognize req x) ->
  posted (Recognize req x) = [rq] /\ valid_request req /\ exists user_sig url j,
    resolve_user_sig (credential_ r) (rid x) (ticket_time x) = Ok user_sig /\
    api_url t (credential_ r) (endpoint_ r) «"/v1/SentenceRecognition"» (rid x) (request_time x)
      = Ok url /\
    req_url rq = c_str url /\ headers rq = c_str <$> api_headers (credential_ r) user_sig /\
    json_parse parse_error (json_body rq) = Ok j /\ read_request cast j = Ok req.
Proof.
  intros Hok Hin.
  apply api_call_posts in Hin as (Hp & [] & us & url & text & Hv & Htext & Hus & Hurl & ->).
  apply (validates_ok _ _ (ValidateRequest_validates req)) in Hv.
  split_and!; [done..|]. exists us, url, (norm (request_json req)). split_and!; try done.
  - eapply json_parse_dumped; [by apply request_json_typed|exact Htext].
  - rewrite norm_stable. by apply request_json_reads.
Qed.

(** C32: What a call posts: one request at most, and then a valid one; its URL
    reads back to the documented query, its headers carry the identifiers and
    the ticket, and its body reads back to the request, field for field. *)
Theorem Recognize_posts req x rq :
  request_ok req -> rq ∈ posted (Recognize req x) ->
  posted (Recognize req x) = [rq] /\ valid_request req /\
  exists base query user_sig j,
    ResolveHTTPEndpoint (endpoint_ r) (site_ (credential_ r)) = Ok base /\
    resolve_user_sig (credential_ r) (rid x) (ticket_time x) = Ok user_sig /\
    req_url rq = c_str (base ++ «"/v1/SentenceRecognition"» ++ «"?"» ++ query) /\
    ParseQuery query = Some (api_query t (credential_ r) (rid x) (request_time x)) /\
    headers rq = c_str <$> api_headers (credential_ r) user_sig /\
    json_parse parse_error (json_body rq) = Ok j /\ read_request cast j = Ok req.
Proof.
  intros Hok Hin. destruct (Recognize_request _ _ _ Hok Hin)
    as (Hp & Hv & us & url & j & Hus & Hurl & Hu & Hh & Hj & Hr).
  apply api_url_reads in Hurl as (base & query & Hb & -> & Hq).
  split_and!; [done..|]. by exists base, query, us, j.
Qed.


(** The audio calls post their audio: within the limit, in base64, with its
    length and source. *)

Lemma check_audio_ok data :
  check_audio data = Ok tt <-> 0 < Z.of_nat (length data) <= kMaxAudioSize.
Proof.
  unfold check_audio. destruct data as [|c data]; [split; [done|simpl; lia]|].
  cbn [is_empty reject_if rbind]. rewrite reject_if_ok, Z.ltb_ge. cbn [length]. lia.
Qed.

Definition carries_audio (data : str) (rq : HttpRequest) : Prop :=
  0 < Z.of_nat (length data) <= kMaxAudioSize /\
  exists j req, json_parse parse_error (json_body rq) = Ok j /\ read_request cast j = Ok req /\
    source_type req = 1 /\ data_len req = Z.of_nat (length data) /\
    Base64Decode (SentenceRecognizer.data req) = Ok data.

Lemma Recognize_carries req x rq raw :
  0 < Z.of_nat (length raw) <= kMaxAudioSize -> request_ok (with_audio raw req) ->
  rq ∈ posted (Recognize (with_audio raw req) x) -> carries_audio raw rq.
Proof.
  intros Hl Hok Hin. split; [done|].
  destruct (Recognize_request _ _ _ Hok Hin) as (_ & _ & _ & _ & j & _ & _ & _ & _ & Hj & Hr).
  exists j, (with_audio raw req). split_and!; try done. apply Base64Decode_Encode.
Qed.

Lemma with_audio_ok raw req :
  Z.of_nat (length raw) <= kMaxAudioSize -> request_ok req -> request_ok (with_audio raw req).
Proof.
  unfold kMaxAudioSize. intros Hl (_ & _ & Hok). split; [by vm_compute|]. split; [|exact Hok].
  unfold with_audio, int64, in_signed. cbn [data_len]. lia.
Qed.

(** The audio of the two audio calls reaches the service: a request is posted
    only for audio that is not empty and within the limit, and then it decodes
    to it. *)
Theorem audio_posts raw voice_format engine req x :
  request_ok req ->
  (forall rq, rq ∈ posted (RecognizeData float_text parse_error cast t r raw voice_format engine x) ->
     carries_audio raw rq) /\
  (forall rq, rq ∈ posted (RecognizeDataWithOptions float_text parse_error cast t r raw (Some req) x).1 ->
     carries_audio raw rq).
Proof.
  intros Hok.
  set (fresh := mkSentenceRecognitionRequest engine 0 voice_format [] [] 0 0 0 0 0 0 [] [] [] 0 []).
  assert (request_ok fresh) as Hf by (split_and!; by vm_compute).
  split; intros rq Hin.
  - unfold RecognizeData in Hin. destruct (check_audio raw) as [[]|e] eqn:E; [|by apply elem_of_nil in Hin].
    rewrite bind_ok in Hin. apply check_audio_ok in E.
    apply (Recognize_carries fresh x); [done|by apply with_audio_ok; [apply E|]|done].
  - unfold RecognizeDataWithOptions in Hin.
    destruct (check_audio raw) as [[]|e] eqn:E; [|by apply elem_of_nil in Hin].
    apply check_audio_ok in E. apply (Recognize_carries req x); [done|by apply with_audio_ok; [apply E|]|done].
Qed.
End Theorems.

(** ** Witnesses: a call with a ticket of its own, answered with a transcript *)

Definition demo_client : SentenceRecognizer :=
  new_SentenceRecognizer (set_user_sig (new_Credential 1300000000 1400000000 «"key"») «"sig"»).

Definition demo_request : SentenceRecognitionRequest :=
  mkSentenceRecognitionRequest «"16k_zh"» 0 «"wav"» «"https://example.com/a.wav"» [] 0 1 0 0 0 0
    [] [] [] 8000 [].

Definition demo_exchange : exchange :=
  mkExchange 1 2 0 1700000000 (Completed [«"{"»; «"}"»] 200).

Definition demo_call : run SentenceRecognitionResult :=
  @Recognize stored_zlib (fun _ => []) (fun s => s) (fun _ _ => 0) linux_target demo_client
    demo_request demo_exchange.

Lemma Recognize_posts_witness :
  exists rq j, posted demo_call = [rq] /\
    json_parse (fun s => s) (json_body rq) = Ok j /\ read_request (fun _ _ => 0) j = Ok demo_request.
Proof.
  assert (exists rq, rq ∈ posted demo_call) as [rq Hin]
    by (eexists; unfold demo_call; apply list_elem_of_In; vm_compute; left; reflexivity).
  destruct (@Recognize_posts stored_zlib (fun _ => []) (fun s => s) (fun _ _ => 0) linux_target
              demo_client demo_request demo_exchange rq)
    as (Hp & _ & _ & _ & _ & j & _ & _ & _ & _ & _ & Hj & Hr);
    [split_and!; by vm_compute|exact Hin|]. exists rq, j. split_and!; [exact Hp|exact Hj|exact Hr].
Defined.

Lemma audio_posts_witness :
  exists rq, posted (@RecognizeData stored_zlib (fun _ => []) (fun s => s) (fun _ _ => 0) linux_target
      demo_client «"abcd"» «"pcm"» «"16k_zh"» demo_exchange) = [rq] /\
    carries_audio (fun s => s) (fun _ _ => 0) «"abcd"» rq.
Proof.
  eexists. split; [vm_compute; reflexivity|].
  refine (proj1 (@audio_posts stored_zlib (fun _ => []) (fun s => s) (fun _ _ => 0) linux_target
    demo_client «"abcd"» «"pcm"» «"16k_zh"» demo_request demo_exchange _) _ _).
  - split_and!; by vm_compute.
  - apply list_elem_of_In. vm_compute. left. reflexivity.
Defined.
