(* ===== verification/FileRecognizer.v ===== *)
(** * The file recognizer (src/file_recognizer.cc)

    [FileRecognizer] of the version 1 API: task creation and its JSON body, the
    status of a task, and the loop that waits for one.  The theorems: the body
    of a task reads back as the request; how a call ends; how the wait ends,
    and that it does. *)

From S2P Require Import Prelude StdMap Double Base64 Params Json JsonRead JsonText Uuid Credential SignatureParams UserSig Http Polling.

Open Scope Z_scope.

(** ** Data (include/trtc_asr/file_recognizer.h) *)

Definition kTaskStatusWaiting : Z := 0.
Definition kTaskStatusRunning : Z := 1.
Definition kTaskStatusSuccess : Z := 2.
Definition kTaskStatusFailed : Z := 3.

Record SentenceWords := mkSentenceWords {
  word : str; offset_start_ms : Z; offset_end_ms : Z
}.

Record SentenceDetail := mkSentenceDetail {
  final_sentence : str; slice_sentence : str; written_text : str; start_ms : Z; end_ms : Z;
  words_num : Z; words : list SentenceWords; speech_speed : double; silence_time : Z;
  speaker_id : Z; speaker_role_name : str; channel_id : Z; detail_language : str
}.

Record TaskStatus := mkTaskStatus {
  rec_task_id : str; status : Z; status_str : str; progress : Z; result_text : str;
  error_msg : str; result_detail : list SentenceDetail; audio_duration : double
}.

Record CreateRecTaskRequest := mkCreateRecTaskRequest {
  engine_model_type : str; channel_num : Z; res_text_format : Z; source_type : Z; url : str;
  data : str; data_len : Z; callback_url : str; filter_dirty : Z; filter_modal : Z;
  filter_punc : Z; convert_num_mode : Z; hotword_id : str; hotword_list : str;
  customization_id : str; replace_text_id : str; language : str; speaker_diarization : Z;
  speaker_number : Z; speaker_roles : list SpeakerRole; voiceprint_ids : list str;
  vad_silence_ms : Z; vad_level : option Z; noise_threshold : option double
}.

Definition kMaxAudioSize : Z := 5 * 1024 * 1024.

(** The client; its timeout is the constant 60. *)
Record FileRecognizer := mkFileRecognizer { credential_ : Credential; endpoint_ : str }.
Definition timeout_seconds_ : Z := 60.

Definition new_FileRecognizer (credential : Credential) : FileRecognizer :=
  mkFileRecognizer credential [].
Definition SetEndpoint (endpoint : str) (r : FileRecognizer) : FileRecognizer :=
  mkFileRecognizer (credential_ r) endpoint.

(** ** The request *)

Section Request.
Context (float_text : double -> str) (parse_error : str -> str).

(** [roles] is the parsed [SpeakerRoles] document. *)
Definition request_fields (req : CreateRecTaskRequest) (roles : option json)
    : list (str * option json) :=
  [ («"EngineModelType"», Some (JStr (engine_model_type req)));
    («"ChannelNum"», Some (JInt (channel_num req)));
    («"ResTextFormat"», Some (JInt (res_text_format req)));
    («"SourceType"», Some (JInt (source_type req)));
    str_field «"Url"» (url req);
    str_field «"Data"» (data req);
    int_field «"DataLen"» (data_len req);
    str_field «"CallbackUrl"» (callback_url req);
    int_field «"FilterDirty"» (filter_dirty req);
    int_field «"FilterModal"» (filter_modal req);
    int_field «"FilterPunc"» (filter_punc req);
    int_field «"ConvertNumMode"» (convert_num_mode req);
    str_field «"HotwordId"» (hotword_id req);
    str_field «"HotwordList"» (hotword_list req);
    str_field «"CustomizationId"» (customization_id req);
    str_field «"ReplaceTextId"» (replace_text_id req);
    str_field «"Language"» (language req);
    int_field «"SpeakerDiarization"» (speaker_diarization req);
    int_field «"SpeakerNumber"» (speaker_number req);
    («"SpeakerRoles"», roles);
    strs_field «"VoiceprintIds"» (voiceprint_ids req);
    int_field «"VadSilenceMs"» (vad_silence_ms req);
    opt_field «"VadLevel"» (vad_level req);
    («"NoiseThreshold"», JFloat <$> noise_threshold req) ].

(** [json::parse(SerializeSpeakerRoles(req.speaker_roles))] *)
Definition roles_field (req : CreateRecTaskRequest) : result (option json) :=
  if negb (is_empty (speaker_roles req)) then
    text <-- SerializeSpeakerRoles float_text (speaker_roles req) ;;
    j <-- json_parse parse_error text ;;
    Ok (Some j)
  else Ok None.

Definition SerializeRequest (req : CreateRecTaskRequest) : result str :=
  roles <-- roles_field req ;;
  dump float_text (assign (request_fields req roles) JNull).
End Request.

Definition ValidateCreateRequest (req : CreateRecTaskRequest) : result unit :=
  reject_if (is_empty (engine_model_type req)) «"EngineModelType is required"» ;;;
  reject_if (channel_num req <=? 0) «"ChannelNum must be positive"» ;;;
  reject_if ((source_type req =? 0) && is_empty (url req)) «"Url is required when SourceType=0"» ;;;
  reject_if ((source_type req =? 1) && is_empty (data req)) «"Data is required when SourceType=1"» ;;;
  ValidateSpeakerDiarization (speaker_diarization req) (speaker_number req) (speaker_roles req)
    (voiceprint_ids req) ;;;
  ValidateVadTuning (vad_level req) (noise_threshold req).

(** ** The responses *)

Section Parse.
Context (cast : Z -> double -> Z).

(** The first key that is present and not null. *)
Definition PickInt (j : json) (primary fallback : str) : result Z :=
  match jfind primary j with
  | Some v =>
      if is_null v then
        match jfind fallback j with
        | Some w => if is_null w then Ok 0 else get_int64 cast w
        | None => Ok 0
        end
      else get_int64 cast v
  | None =>
      match jfind fallback j with
      | Some w => if is_null w then Ok 0 else get_int64 cast w
      | None => Ok 0
      end
  end.

Definition ParseWords (w : json) : result SentenceWords :=
  word <-- value_string «"Word"» [] w ;;
  offset_start_ms <-- PickInt w «"StartTime"» «"OffsetStartMs"» ;;
  offset_end_ms <-- PickInt w «"EndTime"» «"OffsetEndMs"» ;;
  Ok (mkSentenceWords word offset_start_ms offset_end_ms).

Definition ParseSentenceDetail (j : json) : result SentenceDetail :=
  final_sentence <-- value_string «"FinalSentence"» [] j ;;
  slice_sentence <-- value_string «"SliceSentence"» [] j ;;
  written_text <-- value_string «"WrittenText"» [] j ;;
  start_ms <-- value_int64 cast «"StartMs"» 0 j ;;
  end_ms <-- value_int64 cast «"EndMs"» 0 j ;;
  words_num <-- value_int cast «"WordsNum"» 0 j ;;
  speech_speed <-- value_double «"SpeechSpeed"» d_zero j ;;
  silence_time <-- value_int64 cast «"SilenceTime"» 0 j ;;
  speaker_id <-- value_int cast «"SpeakerId"» 0 j ;;
  speaker_role_name <-- value_string «"SpeakerRoleName"» [] j ;;
  channel_id <-- value_int cast «"ChannelId"» 0 j ;;
  language <-- value_string «"Language"» [] j ;;
  words <-- optional_list ParseWords «"Words"» j ;;
  Ok (mkSentenceDetail final_sentence slice_sentence written_text start_ms end_ms words_num words
        speech_speed silence_time speaker_id speaker_role_name channel_id language).

Definition ParseTaskStatus (j : json) : result TaskStatus :=
  rec_task_id <-- value_string «"RecTaskId"» [] j ;;
  status <-- value_int cast «"Status"» 0 j ;;
  status_str <-- value_string «"StatusStr"» [] j ;;
  progress <-- value_int cast «"Progress"» 0 j ;;
  result_text <-- value_string «"Result"» [] j ;;
  error_msg <-- value_string «"ErrorMsg"» [] j ;;
  audio_duration <-- value_double «"AudioDuration"» d_zero j ;;
  result_detail <-- optional_list ParseSentenceDetail «"ResultDetail"» j ;;
  Ok (mkTaskStatus rec_task_id status status_str progress result_text error_msg result_detail
        audio_duration).

(** The task id of a creation, from the envelope's content. *)
Definition read_task_id (response : json) : result str :=
  task_id <--
    match jfind «"Data"» response with
    | Some (JObj _ as d) => try_catch (value_string «"RecTaskId"» [] d) unmarshal_failed
    | _ => Ok []
    end ;;
  if is_empty task_id then throw_asr kErrServerError «"empty RecTaskId in response"»
  else Ok task_id.

Definition read_status (response : json) : result TaskStatus :=
  match jfind «"Data"» response with
  | Some (JObj _ as d) => try_catch (ParseTaskStatus d) unmarshal_failed
  | _ => throw_asr kErrServerError «"empty response from server"»
  end.
End Parse.

(** ** The calls *)

Section Calls.
Context `{Zlib} (float_text : double -> str) (parse_error : str -> str)
  (cast : Z -> double -> Z) (t : target) (r : FileRecognizer).

(** The body is serialized before [DoRequest] is entered. *)
Definition CreateTask (req : CreateRecTaskRequest) (x : exchange) : run str :=
  json_body ← pure (ValidateCreateRequest req ;;; SerializeRequest float_text parse_error req);
  resp_body ← DoRequest t (credential_ r) (endpoint_ r) «"/v1/CreateRecTask"» timeout_seconds_
                (Ok json_body) x;
  pure (read_envelope parse_error read_task_id resp_body).

Definition check_audio (data : str) : result unit :=
  reject_if (is_empty data) «"audio data is empty"» ;;;
  reject_if (kMaxAudioSize <? Z.of_nat (length data)) «"audio data exceeds 5MB limit"».

(** A request with the engine, [channel_num = 1], [res_text_format = 1], and
    the default of every other field. *)
Definition basic_request (engine_model_type : str) (source_type : Z) (url data : str) (data_len : Z)
    : CreateRecTaskRequest :=
  mkCreateRecTaskRequest engine_model_type 1 1 source_type url data data_len [] 0 0 0 0 [] [] [] []
    [] 0 0 [] [] 0 None None.

Definition CreateTaskFromData (data voice_format engine_model_type : str) (x : exchange) : run str :=
  _ ← pure (check_audio data);
  CreateTask (basic_request engine_model_type 1 [] (Base64Encode data) (Z.of_nat (length data))) x.

Definition CreateTaskFromURL (audio_url engine_model_type : str) (x : exchange) : run str :=
  _ ← pure (reject_if (is_empty audio_url) «"audio URL is empty"»);
  CreateTask (basic_request engine_model_type 0 audio_url [] 0) x.

(** [req->source_type], [req->data] and [req->data_len] are overwritten. *)
Definition with_audio (raw_data : str) (req : CreateRecTaskRequest) : CreateRecTaskRequest :=
  {| engine_model_type := engine_model_type req; channel_num := channel_num req;
     res_text_format := res_text_format req; source_type := 1; url := url req;
     data := Base64Encode raw_data; data_len := Z.of_nat (length raw_data);
     callback_url := callback_url req; filter_dirty := filter_dirty req;
     filter_modal := filter_modal req; filter_punc := filter_punc req;
     convert_num_mode := convert_num_mode req; hotword_id := hotword_id req;
     hotword_list := hotword_list req; customization_id := customization_id req;
     replace_text_id := replace_text_id req; language := language req;
     speaker_diarization := speaker_diarization req; speaker_number := speaker_number req;
     speaker_roles := speaker_roles req; voiceprint_ids := voiceprint_ids req;
     vad_silence_ms := vad_silence_ms req; vad_level := vad_level req;
     noise_threshold := noise_threshold req |}.

Definition CreateTaskFromDataWithOptions (raw_data : str) (req : option CreateRecTaskRequest)
    (x : exchange) : run str * option CreateRecTaskRequest :=
  match req with
  | None => (pure (throw_asr kErrInvalidParam «"request is null"»), None)
  | Some q =>
      match check_audio raw_data with
      | Throw e => (pure (Throw e), Some q)
      | Ok _ => let q := with_audio raw_data q in (CreateTask q x, Some q)
      end
  end.

Definition DescribeTaskStatus (rec_task_id : str) (x : exchange) : run TaskStatus :=
  json_body ← pure (reject_if (is_empty rec_task_id) «"RecTaskId is empty"» ;;;
                    dump float_text (jset «"RecTaskId"» (JStr rec_task_id) JNull));
  resp_body ← DoRequest t (credential_ r) (endpoint_ r) «"/v1/DescribeTaskStatus"» timeout_seconds_
                (Ok json_body) x;
  pure (read_envelope parse_error (read_status cast) resp_body).

(** ** Waiting

    The loop is Polling's, around [DescribeTaskStatus]; [id] and [timeout] are
    those of the call, for its messages. *)

#[local] Instance task_query (id : str) (timeout : Z) : Query TaskStatus := {|
  describe := DescribeTaskStatus id;
  task_status := status;
  status_success := kTaskStatusSuccess;
  status_failed := kTaskStatusFailed;
  failed_text s :=
    «"task failed: "» ++ error_msg s ++ «" (RecTaskId: "» ++ rec_task_id s ++ «")"»;
  timeout_text s :=
    «"task not completed within "» ++ to_string timeout ++ «"ms"» ++
    «" (RecTaskId: "» ++ id ++ «", Status: "» ++ status_str s ++ «")"»
|}.

Definition WaitForResultWithInterval (id : str) (interval timeout now : Z)
    (polls : list poll) : run TaskStatus :=
  @wait_loop _ (task_query id timeout) interval (now + timeout) now polls.

Definition WaitForResult (id : str) (now : Z) (polls : list poll) : run TaskStatus :=
  WaitForResultWithInterval id 1000 600000 now polls.
End Calls.

(** ** The body of a task, read by the service *)

Definition read_role (j : json) : result SpeakerRole :=
  role_name <-- value_string «"RoleName"» [] j ;;
  audio_url <-- value_string «"AudioUrl"» [] j ;;
  Ok (mkSpeakerRole role_name audio_url).

Definition read_request (cast : Z -> double -> Z) (j : json) : result CreateRecTaskRequest :=
  engine_model_type <-- value_string «"EngineModelType"» [] j ;;
  channel_num <-- value_int cast «"ChannelNum"» 0 j ;;
  res_text_format <-- value_int cast «"ResTextFormat"» 0 j ;;
  source_type <-- value_int cast «"SourceType"» 0 j ;;
  url <-- value_string «"Url"» [] j ;;
  data <-- value_string «"Data"» [] j ;;
  data_len <-- value_int64 cast «"DataLen"» 0 j ;;
  callback_url <-- value_string «"CallbackUrl"» [] j ;;
  filter_dirty <-- value_int cast «"FilterDirty"» 0 j ;;
  filter_modal <-- value_int cast «"FilterModal"» 0 j ;;
  filter_punc <-- value_int cast «"FilterPunc"» 0 j ;;
  convert_num_mode <-- value_int cast «"ConvertNumMode"» 0 j ;;
  hotword_id <-- value_string «"HotwordId"» [] j ;;
  hotword_list <-- value_string «"HotwordList"» [] j ;;
  customization_id <-- value_string «"CustomizationId"» [] j ;;
  replace_text_id <-- value_string «"ReplaceTextId"» [] j ;;
  language <-- value_string «"Language"» [] j ;;
  speaker_diarization <-- value_int cast «"SpeakerDiarization"» 0 j ;;
  speaker_number <-- value_int cast «"SpeakerNumber"» 0 j ;;
  speaker_roles <-- optional_list read_role «"SpeakerRoles"» j ;;
  voiceprint_ids <-- optional_list get_string «"VoiceprintIds"» j ;;
  vad_silence_ms <-- value_int cast «"VadSilenceMs"» 0 j ;;
  vad_level <-- read_opt (get_int cast) «"VadLevel"» j ;;
  noise_threshold <-- read_opt get_double «"NoiseThreshold"» j ;;
  Ok (mkCreateRecTaskRequest engine_model_type channel_num res_text_format source_type url data
        data_len callback_url filter_dirty filter_modal filter_punc convert_num_mode hotword_id
        hotword_list customization_id replace_text_id language speaker_diarization speaker_number
        speaker_roles voiceprint_ids vad_silence_ms vad_level noise_threshold).

(** The integers of a request are within their C++ types, and the text of its
    noise threshold reads back. *)
Definition request_ok (float_text : double -> str) (req : CreateRecTaskRequest) : Prop :=
  (int32 (channel_num req) /\ int32 (res_text_format req) /\ int32 (source_type req) /\
   int64 (data_len req) /\ int32 (filter_dirty req) /\ int32 (filter_modal req) /\
   int32 (filter_punc req) /\ int32 (convert_num_mode req) /\ int32 (speaker_diarization req) /\
   int32 (speaker_number req) /\ int32 (vad_silence_ms req)) /\
  (forall v, vad_level req = Some v -> int32 v) /\
  (forall d, noise_threshold req = Some d -> float_reads float_text d).

Definition role_json (role : SpeakerRole) : json :=
  jset «"AudioUrl"» (JStr (audio_url role)) (jset «"RoleName"» (JStr (role_name role)) JNull).

(** What the request fields are made of, once the role document is parsed. *)
Definition request_json (req : CreateRecTaskRequest) : json :=
  assign (request_fields req (when (negb (is_empty (speaker_roles req)))
                                (JArr (role_json <$> speaker_roles req)))) JNull.

#[local] Instance read_role_stable : NormStable read_role.
Proof. stable_reads. Qed.

#[local] Instance read_request_stable cast : NormStable (read_request cast).
Proof. stable_reads. Qed.

Lemma roles_typed float_text roles : json_typed float_text (JArr (role_json <$> roles)).
Proof.
  apply json_typed_arr, Forall_fmap, Forall_forall. intros role _.
  by do 2 (apply json_typed_jset; [done|]).
Qed.

Lemma roles_norm roles : norm (JArr (role_json <$> roles)) = JArr (role_json <$> roles).
Proof. cbn [norm]. f_equal. induction roles; [done|]. rewrite !fmap_cons. by f_equal. Qed.

Lemma SerializeSpeakerRoles_eq float_text roles :
  SerializeSpeakerRoles float_text roles = dump float_text (JArr (role_json <$> roles)).
Proof. reflexivity. Qed.

(** Parsing the role document back gives the document. *)
Lemma SerializeRequest_eq float_text parse_error req text :
  SerializeRequest float_text parse_error req = Ok text ->
  dump float_text (request_json req) = Ok text.
Proof.
  unfold SerializeRequest, roles_field, request_json.
  destruct (negb (is_empty (speaker_roles req))); [|cbn [rbind when]; intros E; exact E].
  intros (roles & Hr & E)%rbind_ok.
  apply rbind_ok in Hr as (rt & Hrt & Hr). apply rbind_ok in Hr as (j & Hj & Hr).
  apply Ok_inj in Hr as <-. rewrite SerializeSpeakerRoles_eq in Hrt.
  rewrite (json_parse_dumped float_text parse_error _ _ (roles_typed _ _) Hrt) in Hj.
  apply Ok_inj in Hj as <-. rewrite roles_norm in E. cbn [when]. exact E.
Qed.

Lemma request_entries req :
  NoDup (request_fields req (when (negb (is_empty (speaker_roles req)))
           (JArr (role_json <$> speaker_roles req)))).*1.
Proof. distinct_keys. Qed.

Lemma task_value {A} (get : json -> result A) key d req :
  value get key d (request_json req) =
  match entry (request_fields req (when (negb (is_empty (speaker_roles req)))
    (JArr (role_json <$> speaker_roles req)))) key with Some v => get v | None => Ok d end.
Proof. apply value_assign, request_entries. Qed.

Lemma task_find key req :
  jfind key (request_json req) =
  entry (request_fields req (when (negb (is_empty (speaker_roles req)))
    (JArr (role_json <$> speaker_roles req)))) key.
Proof. apply jfind_assign, request_entries. Qed.

Lemma parse_roles roles : parse_all read_role (role_json <$> roles) = Ok roles.
Proof. apply (parse_all_map _ _ (fun _ => True)); [by intros []|by apply Forall_forall]. Qed.

Lemma task_json_reads cast float_text req :
  request_ok float_text req -> read_request cast (request_json req) = Ok req.
Proof.
  intros (Hints & Hv & _). destruct_and! Hints.
  unfold read_request, value_string, value_int, value_int64, optional_list, read_opt.
  rewrite !task_value, !task_find. simpl.
  rewrite !read_str_field, !read_int_field, !read_int64_field by done. simpl.
  rewrite !signed_id by done. cbn [rbind].
  rewrite (read_list_field _ _ _ _ (parse_roles _)). cbn [rbind].
  rewrite (read_list_field _ _ _ _ (parse_strs _)), read_opt_field by done. cbn [rbind].
  destruct req as [? ? ? ? ? ? ? ? ? ? ? ? ? ? ? ? ? ? ? ? ? ? ? [d|]]; done.
Qed.

Lemma task_json_typed float_text req :
  request_ok float_text req -> json_typed float_text (request_json req).
Proof.
  intros (Hints & Hv & Hn). destruct_and! Hints.
  apply json_typed_assign; [|done]. unfold request_fields. typed_entries.
  apply when_typed, roles_typed.
Qed.

(** ** What the validation accepts *)

Definition valid_request (req : CreateRecTaskRequest) : Prop :=
  engine_model_type req <> [] /\ 0 < channel_num req /\
  (source_type req = 0 -> url req <> []) /\ (source_type req = 1 -> data req <> []) /\
  diarization_ok (speaker_diarization req) (speaker_number req) (speaker_roles req)
    (voiceprint_ids req) /\
  vad_tuning_ok (vad_level req) (noise_threshold req).

Definition noise_wf (req : CreateRecTaskRequest) : Prop :=
  forall d, noise_threshold req = Some d -> double_wf d.

Lemma ValidateCreateRequest_validates req :
  noise_wf req -> validates (ValidateCreateRequest req) (valid_request req).
Proof.
  intros Hn. unfold ValidateCreateRequest, valid_request.
  repeat (apply validates_seq; [first [apply ValidateSpeakerDiarization_validates
    | eapply validates_iff; [|apply validates_reject]]|intros _]).
  1-4: rewrite ?andb_false_iff, ?is_empty_false, ?Z.eqb_neq, ?Z.leb_gt; tauto || idtac.
  - destruct (Z.eq_dec (source_type req) 0); tauto.
  - destruct (Z.eq_dec (source_type req) 1); tauto.
  - by apply ValidateVadTuning_validates.
Qed.

(** ** The calls *)

Section Theorems.
Context `{Zlib} (float_text : double -> str) (parse_error : str -> str)
  (cast : Z -> double -> Z) (t : target) (r : FileRecognizer).

Abbreviation CreateTask := (CreateTask float_text parse_error t r).
Abbreviation DescribeTaskStatus := (DescribeTaskStatus float_text parse_error cast t r).
Abbreviation rid x := (GenerateUuid (draw1 x) (draw2 x)).

Lemma CreateTask_request req x rq :
  request_ok float_text req -> noise_wf req -> rq ∈ posted (CreateTask req x) ->
  posted (CreateTask req x) = [rq] /\ valid_request req /\ exists user_sig url j,
    resolve_user_sig (credential_ r) (rid x) (ticket_time x) = Ok user_sig /\
    api_url t (credential_ r) (endpoint_ r) «"/v1/CreateRecTask"» (rid x) (request_time x)
      = Ok url /\
    req_url rq = c_str url /\ headers rq = c_str <$> api_headers (credential_ r) user_sig /\
    json_parse parse_error (json_body rq) = Ok j /\ read_request cast j = Ok req.
Proof.
  intros Hok Hn Hin.
  apply api_call_posts in Hin as (Hp & body & us & url & text & Hprep & Htext & Hus & Hurl & ->).
  apply rbind_ok in Hprep as ([] & Hv & Hs). apply Ok_inj in Htext as ->.
  apply (validates_ok _ _ (ValidateCreateRequest_validates req Hn)) in Hv.
  split_and!; [done..|]. exists us, url, (norm (request_json req)). split_and!; try done.
  - eapply json_parse_dumped; [by apply task_json_typed|]. by eapply SerializeRequest_eq.
  - rewrite norm_stable. by eapply task_json_reads.
Qed.

(** C33: What a task creation posts: one request at most, and then a valid one,
    at the documented URL with the documented headers, whose body reads back
    to the request, field for field. *)
Theorem CreateTask_posts req x rq :
  request_ok float_text req -> noise_wf req -> rq ∈ posted (CreateTask req x) ->
  posted (CreateTask req x) = [rq] /\ valid_request req /\
  exists base query user_sig j,
    ResolveHTTPEndpoint (endpoint_ r) (site_ (credential_ r)) = Ok base /\
    resolve_user_sig (credential_ r) (rid x) (ticket_time x) = Ok user_sig /\
    req_url rq = c_str (base ++ «"/v1/CreateRecTask"» ++ «"?"» ++ query) /\
    ParseQuery query = Some (api_query t (credential_ r) (rid x) (request_time x)) /\
    headers rq = c_str <$> api_headers (credential_ r) user_sig /\
    json_parse parse_error (json_body rq) = Ok j /\ read_request cast j = Ok req.
Proof.
  intros Hok Hn Hin. destruct (CreateTask_request _ _ _ Hok Hn Hin)
    as (Hp & Hv & us & url & j & Hus & Hurl & Hu & Hh & Hj & Hr).
  apply api_url_reads in Hurl as (base & query & Hb & -> & Hq).
  split_and!; [done..|]. by exists base, query, us, j.
Qed.

(** What a poll posts: the task id, to the status endpoint. *)
Lemma DescribeTaskStatus_request id x rq :
  rq ∈ posted (DescribeTaskStatus id x) ->
  posted (DescribeTaskStatus id x) = [rq] /\ id <> [] /\ exists url j,
    api_url t (credential_ r) (endpoint_ r) «"/v1/DescribeTaskStatus"» (rid x) (request_time x)
      = Ok url /\
    req_url rq = c_str url /\ json_parse parse_error (json_body rq) = Ok j /\
    value_string «"RecTaskId"» [] j = Ok id.
Proof.
  intros Hin.
  apply api_call_posts in Hin as (Hp & body & us & url & text & Hprep & Htext & Hus & Hurl & ->).
  apply rbind_ok in Hprep as ([] & Hv & Hs). apply Ok_inj in Htext as ->.
  apply reject_if_ok, is_empty_false in Hv. split_and!; [done..|].
  exists url, (norm (jset «"RecTaskId"» (JStr id) JNull)). split_and!; [done..| |done].
  eapply json_parse_dumped; [|exact Hs]. by apply json_typed_jset.
Qed.

Lemma read_task_id_throw j e :
  read_task_id j = Throw e -> sdk_failure [kErrServerError; kErrReadFailed] e.
Proof.
  unfold read_task_id. intros E.
  destruct (match jfind «"Data"» j with Some (JObj _ as d) => _ | _ => _ end) as [id|e'] eqn:Ed.
  - cbn [rbind] in E. destruct (is_empty id); [|done]. eapply sdk_failure_intro; [exact E|set_solver].
  - injection E as ->. repeat case_match; try done.
    eapply sdk_failure_mono; [by eapply try_unmarshal_throw|set_solver].
Qed.

Lemma read_status_throw j e :
  read_status cast j = Throw e -> sdk_failure [kErrServerError; kErrReadFailed] e.
Proof.
  unfold read_status. intros E. repeat case_match;
    first [eapply sdk_failure_mono; [by eapply try_unmarshal_throw|set_solver]
          |eapply sdk_failure_intro; [exact E|set_solver]].
Qed.

(** A request whose strings are UTF-8 can be written. *)
Lemma roles_utf8 float_text' roles e :
  dump float_text' (JArr (role_json <$> roles)) = Throw e ->
  json_utf8 (JArr (role_json <$> roles)) = false.
Proof. apply dump_throw_utf8. Qed.

Lemma SerializeRequest_throw req e :
  request_ok float_text req -> SerializeRequest float_text parse_error req = Throw e ->
  json_utf8 (request_json req) = false \/ json_utf8 (JArr (role_json <$> speaker_roles req)) = false.
Proof.
  intros Hok. unfold SerializeRequest, roles_field, request_json.
  destruct (negb (is_empty (speaker_roles req))).
  - rewrite SerializeSpeakerRoles_eq.
    destruct (dump float_text (JArr (role_json <$> speaker_roles req))) as [text|e'] eqn:Ed;
      [|intros _; right; by eapply roles_utf8].
    cbn [rbind]. rewrite (json_parse_dumped float_text parse_error _ _ (roles_typed _ _) Ed).
    rewrite roles_norm. cbn [rbind when]. intros He. left. by eapply dump_throw_utf8.
  - cbn [rbind when]. intros He. left. by eapply dump_throw_utf8.
Qed.


(** *** Waiting *)

Abbreviation wait id interval timeout now polls :=
  (WaitForResultWithInterval float_text parse_error cast t r id interval timeout now polls).
Abbreviation query id timeout := (task_query float_text parse_error cast t r id timeout).

Lemma DescribeTaskStatus_done id x : exists out, ended (DescribeTaskStatus id x) = Done out.
Proof.
  edestruct (api_call_ends t (credential_ r) (endpoint_ r) «"/v1/DescribeTaskStatus"» timeout_seconds_
    (reject_if (is_empty id) «"RecTaskId is empty"» ;;;
     dump float_text (jset «"RecTaskId"» (JStr id) JNull)) Ok
    (read_envelope parse_error (read_status cast)) x (fun _ => True)) as (out & He & _); try done.
  - by right.
  - intros body e. apply read_envelope_throw, read_status_throw.
  - by exists out.
Qed.

Lemma query_ends_v1 id timeout : @query_ends _ (query id timeout).
Proof.
  intros x. cbn [describe task_query]. destruct (DescribeTaskStatus_done id x) as [out E].
  by rewrite E.
Qed.

(** How a wait ends: after any number of polls of an unfinished task, with
    the status of the poll that reports success, or an error: that of a poll
    that failed, [kErrServerError] for a failed task, or [kErrTimeout], and
    then the deadline has passed.  Nothing is posted but those polls. *)
Theorem WaitForResult_ends id interval timeout now polls :
  ended (wait id interval timeout now polls) <> Polling ->
  exists earlier last rest,
    polls = earlier ++ last :: rest /\
    Forall (fun p => exists s, ended (DescribeTaskStatus id (poll_exchange p)) = Done (Ok s) /\
              status s <> kTaskStatusSuccess /\ status s <> kTaskStatusFailed) earlier /\
    posted (wait id interval timeout now polls) =
      ((earlier ++ [last]) ≫= fun p => posted (DescribeTaskStatus id (poll_exchange p))) /\
    @wait_ended _ (query id timeout) (now + timeout) (clock interval now earlier) last
      (ended (wait id interval timeout now polls)).
Proof. exact (@wait_loop_ended _ (query id timeout) _ _ _ _ (query_ends_v1 id timeout)). Qed.

(** A wait ends: with a positive interval, [timeout / interval + 2] polls are
    always enough, whatever the server answers. *)
Theorem WaitForResult_terminates id interval timeout now polls :
  0 < interval -> 0 <= timeout -> Forall poll_ok polls ->
  timeout / interval + 2 <= Z.of_nat (length polls) ->
  ended (wait id interval timeout now polls) <> Polling.
Proof. exact (@wait_terminates _ (query id timeout) _ _ _ _ (query_ends_v1 id timeout)). Qed.
End Theorems.

(** ** Witnesses: a stereo task, created and polled until it has succeeded *)

Definition demo_client : FileRecognizer :=
  new_FileRecognizer (set_user_sig (new_Credential 1300000000 1400000000 «"key"») «"sig"»).

Definition demo_request : CreateRecTaskRequest :=
  mkCreateRecTaskRequest «"16k_zh"» 2 1 0 «"https://example.com/a.wav"» [] 0 [] 0 0 0 1 [] [] [] [] []
    3 2 [mkSpeakerRole «"host"» «"https://example.com/host.wav"»] [«"vp-1"»] 500 (Some 0) None.

Lemma demo_request_ok : request_ok (fun _ => []) demo_request /\ noise_wf demo_request.
Proof.
  split; [|done]. split; [split_and!; by vm_compute|]. split; [|done].
  intros v [= <-]. by vm_compute.
Qed.

(** The text of an answer that carries [d]. *)
Definition demo_answer (d : json) : str :=
  match dump (fun _ => []) (JObj [(«"Response"», JObj [(«"Data"», d)])]) with
  | Ok text => text | Throw _ => []
  end.

Definition demo_exchange (d : json) : exchange :=
  mkExchange 1 2 0 1700000000 (Completed [demo_answer d] 200).

Definition demo_status (n : Z) : json :=
  JObj [(«"RecTaskId"», JStr «"task-1"»); («"Status"», JInt n)].

Definition demo_poll (n : Z) : poll := mkPoll (demo_exchange (demo_status n)) 20 1.

Definition demo_create : run str :=
  @CreateTask stored_zlib (fun _ => []) (fun s => s) linux_target demo_client demo_request
    (demo_exchange (demo_status 0)).

Definition demo_wait (polls : list poll) : run TaskStatus :=
  @WaitForResultWithInterval stored_zlib (fun _ => []) (fun s => s) (fun _ _ => 0) linux_target
    demo_client «"task-1"» 1000 5000 0 polls.

Lemma CreateTask_posts_witness :
  exists rq j, posted demo_create = [rq] /\
    json_parse (fun s => s) (json_body rq) = Ok j /\ read_request (fun _ _ => 0) j = Ok demo_request.
Proof.
  assert (exists rq, rq ∈ posted demo_create) as [rq Hin]
    by (eexists; apply list_elem_of_In; vm_compute; left; reflexivity).
  destruct (@CreateTask_posts stored_zlib (fun _ => []) (fun s => s) (fun _ _ => 0) linux_target
              demo_client demo_request (demo_exchange (demo_status 0)) rq)
    as (Hp & _ & _ & _ & _ & j & _ & _ & _ & _ & _ & Hj & Hr);
    [apply demo_request_ok..|exact Hin|]. exists rq, j. split_and!; [exact Hp|exact Hj|exact Hr].
Defined.


Lemma WaitForResult_ends_witness :
  exists earlier last rest,
    [demo_poll 1; demo_poll 2; demo_poll 3] = earlier ++ last :: rest /\
    posted (demo_wait [demo_poll 1; demo_poll 2; demo_poll 3]) <> [].
Proof.
  destruct (@WaitForResult_ends stored_zlib (fun _ => []) (fun s => s) (fun _ _ => 0) linux_target
    demo_client «"task-1"» 1000 5000 0 [demo_poll 1; demo_poll 2; demo_poll 3])
    as (earlier & last & rest & Hp & _ & _ & _); [by vm_compute|].
  exists earlier, last, rest. split; [exact Hp|by vm_compute].
Defined.

Lemma WaitForResult_terminates_witness :
  ended (demo_wait (replicate 7 (demo_poll 1))) <> Polling.
Proof.
  apply (@WaitForResult_terminates stored_zlib (fun _ => []) (fun s => s) (fun _ _ => 0) linux_target
    demo_client «"task-1"» 1000 5000 0 (replicate 7 (demo_poll 1)));
    [lia|lia| |by vm_compute].
  apply Forall_replicate. by split; vm_compute.
Defined.
