(* ===== verification/V3Types.v ===== *)
(** * The version 3 API: data and validators (src/v3.cc, include/trtc_asr/v3.h)

    The request and response records of the version 3 interfaces, their local
    validation, and the JSON they are written to and read from.  The theorems:
    what each validator accepts. *)

From S2P Require Import Prelude StdMap Double Params Json JsonRead JsonText Credential.

Open Scope Z_scope.

(** ** Constants and data (include/trtc_asr/v3.h) *)

Definition kSourceTypeUrl : Z := 0.
Definition kSourceTypeData : Z := 1.

Definition kTaskStatusWaiting : Z := 0.
Definition kTaskStatusRunning : Z := 1.
Definition kTaskStatusSuccess : Z := 2.
Definition kTaskStatusFailed : Z := 3.

(** [NewCredential]: the AppID is not used. *)
Definition NewCredential (sdk_app_id : Z) (secret_key : str) : Credential :=
  new_Credential 0 sdk_app_id secret_key.

Record AudioURLItem := mkAudioURLItem { item_index : Z; item_url : str; label : str }.

Record TranscribeRequest := mkTranscribeRequest {
  t_engine_model_type : str; t_source_type : Z; t_voice_format : str; t_url : str; t_data : str;
  t_data_len : Z; t_word_info : Z; t_filter_dirty : Z; t_filter_modal : Z; t_filter_punc : Z;
  t_convert_num_mode : Z; t_hotword_id : str; t_customization_id : str; t_hotword_list : str;
  t_input_sample_rate : Z; t_needvad : option Z; t_vad_silence_time : option Z; t_language : str;
  t_speaker_diarization : Z; t_speaker_number : Z
}.

Record Word := mkWord { word : str; start_time : Z; end_time : Z }.

Record TranscribeResponse := mkTranscribeResponse {
  r_code : Z; r_message : str; r_request_id : str; r_result : str; r_audio_duration : Z;
  r_language : str; r_language_b47 : str; r_word_size : Z; r_word_list : list Word
}.

Record CreateTranscriptionRequest := mkCreateTranscriptionRequest {
  engine_model_type : str; channel_num : Z; res_text_format : Z; source_type : Z; url : str;
  data : str; data_len : Z; audio_urls : list AudioURLItem; callback_url : str;
  speaker_diarization : Z; speaker_number : Z; voiceprint_ids : list str;
  speaker_roles : list SpeakerRole; hotword_id : str; customization_id : str; hotword_list : str;
  keyword_lib_id_list : list str; replace_text_id : str; convert_num_mode : Z; filter_dirty : Z;
  filter_punc : Z; filter_modal : Z; sentence_max_length : Z; extra : str; vad_silence_ms : Z;
  vad_level : option Z; noise_threshold : option double; language : str
}.

Record SentenceDetail := mkSentenceDetail {
  final_sentence : str; slice_sentence : str; written_text : str; start_ms : Z; end_ms : Z;
  words_num : Z; words : list Word; speech_speed : double; speaker_id : Z; channel_id : Z;
  speaker_role_name : str; silence_time : Z; d_language : str; d_language_b47 : str
}.

Record TranscriptionStatus := mkTranscriptionStatus {
  s_code : Z; s_message : str; s_request_id : str; transcription_id : str; status : Z;
  status_str : str; progress : Z; audio_duration : double; s_result : str;
  result_detail : list SentenceDetail; error_msg : str
}.

(** ** Validators ([v3::internal]) *)

(** The same function as in src/params.cc. *)
Definition ValidateEnumOption (name : str) (value : Z) (allowed : list Z) : result unit :=
  Params.ValidateEnumOption name value allowed.

Definition ValidateVadTuning (vad_level : option Z) (noise_threshold : option double)
    : result unit :=
  (if vad_level is Some v
   then reject_if (negb (v =? 0) && negb (v =? 1))
          («"VadLevel must be 0 (high recall) or 1 (far-field filtering), got "» ++ to_string v)
   else Ok tt) ;;;
  (if noise_threshold is Some v
   then reject_if (negb (isfinite v && dle d_zero v && dle v d_four))
          («"NoiseThreshold must be between 0.0 and 4.0, got "» ++ to_string_double v)
   else Ok tt).

Definition ValidateSpeakerContext (mode diarization : Z) : result unit :=
  reject_if (negb (mode =? kSpeakerContextOff) && negb (mode =? kSpeakerContextSync) &&
             negb (mode =? kSpeakerContextAsync))
    («"EnableSpeakerContext must be 0 (off), 1 (sync) or 2 (async), got "» ++ to_string mode) ;;;
  reject_if (negb (mode =? kSpeakerContextOff) && (diarization =? kSpeakerDiarizationOff))
    «"EnableSpeakerContext requires SpeakerDiarization=1 or 3"».

(** [url.find("http://") != 0 && url.find("https://") != 0] *)
Definition not_http (url : str) : bool :=
  negb (bool_decide (find «"http://"» url = Some 0%nat)) &&
  negb (bool_decide (find «"https://"» url = Some 0%nat)).

Fixpoint validate_roles (i : nat) (roles : list SpeakerRole) : result unit :=
  match roles with
  | [] => Ok tt
  | role :: roles' =>
      reject_if (is_empty (role_name role))
        («"SpeakerRoles["» ++ to_string (Z.of_nat i) ++ «"].RoleName is empty"») ;;;
      reject_if (not_http (audio_url role))
        («"SpeakerRoles["» ++ to_string (Z.of_nat i) ++
         «"].AudioURL must be a valid http/https URL"») ;;;
      validate_roles (S i) roles'
  end.

Definition ValidateSpeakerDiarization (mode speaker_number : Z) (roles : list SpeakerRole)
    (voiceprint_ids : list str) : result unit :=
  reject_if (negb (mode =? kSpeakerDiarizationOff) && negb (mode =? 1) &&
             negb (mode =? kSpeakerDiarizationVoiceprint))
    («"SpeakerDiarization must be 0 (off), 1 (cluster) or 3 (voiceprint), got "» ++
     to_string mode) ;;;
  reject_if (speaker_number <? 0)
    («"SpeakerNumber must be >= 0 (0 = auto detection), got "» ++ to_string speaker_number) ;;;
  reject_if (negb (mode =? kSpeakerDiarizationVoiceprint) &&
             (negb (is_empty roles) || negb (is_empty voiceprint_ids)))
    «"SpeakerRoles/VoiceprintIds require SpeakerDiarization=3"» ;;;
  validate_roles 0 roles ;;;
  validate_voiceprint_ids 0 voiceprint_ids.

(** The loop over the items, with the indices seen so far. *)
Fixpoint validate_items (i : nat) (seen : list Z) (items : list AudioURLItem) : result unit :=
  match items with
  | [] => Ok tt
  | item :: items' =>
      reject_if (item_index item <? 0)
        («"AudioURLs["» ++ to_string (Z.of_nat i) ++ «"].Index must be non-negative"») ;;;
      reject_if (existsb (fun prev => prev =? item_index item) seen)
        («"AudioURLs index duplicated: "» ++ to_string (item_index item)) ;;;
      reject_if (not_http (item_url item))
        («"AudioURLs["» ++ to_string (Z.of_nat i) ++ «"].URL must be a valid http/https URL"») ;;;
      validate_items (S i) (seen ++ [item_index item]) items'
  end.

Definition ValidateAudioURLs (source_type : Z) (url data : str) (audio_urls : list AudioURLItem)
    : result unit :=
  reject_if (negb (source_type =? kSourceTypeUrl) || negb (is_empty url) || negb (is_empty data))
    «"AudioURLs cannot be used together with non-zero sourceType, url or data"» ;;;
  validate_items 0 [] audio_urls.

(** [TranscribeRequest::Validate] *)
Definition ValidateTranscribe (req : TranscribeRequest) : result unit :=
  reject_if (is_empty (t_engine_model_type req)) «"engine_model_type is required"» ;;;
  reject_if (is_empty (t_voice_format req)) «"voice_format is required"» ;;;
  reject_if ((t_source_type req =? kSourceTypeUrl) && is_empty (t_url req))
    «"url is required when source_type=0"» ;;;
  reject_if ((t_source_type req =? kSourceTypeData) && is_empty (t_data req))
    «"data is required when source_type=1"» ;;;
  (if negb (t_speaker_diarization req =? 0) || negb (t_speaker_number req =? 0)
   then ValidateSpeakerDiarization (t_speaker_diarization req) (t_speaker_number req) [] []
   else Ok tt) ;;;
  (if t_needvad req is Some v then ValidateEnumOption «"needvad"» v [0; 1] else Ok tt) ;;;
  ValidateEnumOption «"input_sample_rate"» (t_input_sample_rate req) [0; 8000].

(** [CreateTranscriptionRequest::Validate] *)
Definition ValidateCreate (req : CreateTranscriptionRequest) : result unit :=
  reject_if (is_empty (engine_model_type req)) «"engine_model_type is required"» ;;;
  reject_if (negb (channel_num req =? 1) && negb (channel_num req =? 2))
    «"channel_num must be 1 or 2"» ;;;
  reject_if ((res_text_format req <? 0) || (3 <? res_text_format req))
    («"res_text_format must be one of [0, 1, 2, 3], got "» ++ to_string (res_text_format req)) ;;;
  reject_if ((channel_num req =? 2) && negb (speaker_diarization req =? 0))
    («"speaker_diarization is not supported for stereo (channel_num=2); "» ++
     «"sentences carry channel_id instead"») ;;;
  (if negb (is_empty (audio_urls req)) then
     ValidateAudioURLs (source_type req) (url req) (data req) (audio_urls req)
   else
     reject_if ((source_type req =? kSourceTypeUrl) && is_empty (url req))
       «"url is required when source_type=0"» ;;;
     reject_if ((source_type req =? kSourceTypeData) && is_empty (data req))
       «"data is required when source_type=1"») ;;;
  ValidateSpeakerDiarization (speaker_diarization req) (speaker_number req) (speaker_roles req)
    (voiceprint_ids req) ;;;
  ValidateVadTuning (vad_level req) (noise_threshold req).

(** ** Requests on the wire *)

Definition transcribe_fields (req : TranscribeRequest) : list (str * option json) :=
    ([ («"engine_model_type"», Some (JStr (t_engine_model_type req)));
       («"source_type"», Some (JInt (t_source_type req)));
       («"voice_format"», Some (JStr (t_voice_format req))) ] ++
     (if t_source_type req =? kSourceTypeUrl
      then [ («"url"», Some (JStr (t_url req))) ]
      else [ («"data"», Some (JStr (t_data req))); («"data_len"», Some (JInt (t_data_len req))) ]) ++
     [ int_field «"word_info"» (t_word_info req);
       int_field «"filter_dirty"» (t_filter_dirty req);
       int_field «"filter_modal"» (t_filter_modal req);
       int_field «"filter_punc"» (t_filter_punc req);
       int_field «"convert_num_mode"» (t_convert_num_mode req);
       str_field «"hotword_id"» (t_hotword_id req);
       str_field «"customization_id"» (t_customization_id req);
       str_field «"hotword_list"» (t_hotword_list req);
       int_field «"input_sample_rate"» (t_input_sample_rate req);
       opt_field «"needvad"» (t_needvad req);
       opt_field «"vad_silence_time"» (t_vad_silence_time req);
       str_field «"language"» (t_language req) ] ++
     (if negb (t_speaker_diarization req =? 0)
      then [ («"speaker_diarization"», Some (JInt (t_speaker_diarization req)));
             int_field «"speaker_number"» (t_speaker_number req) ]
      else [])).

Definition TranscribeRequestToWire (req : TranscribeRequest) : json :=
  assign (transcribe_fields req) JNull.

(** The items of [audio_urls]; the key of the URL is the source's. *)
Definition item_json (item : AudioURLItem) : json :=
  assign [ («"index"», Some (JInt (item_index item)));
           («"req.url"», Some (JStr (item_url item)));
           str_field «"label"» (label item) ] JNull.

(** The items of [speaker_roles], in every version 3 request. *)
Definition role_json (role : SpeakerRole) : json :=
  assign [ («"role_name"», Some (JStr (role_name role)));
           («"audio_url"», Some (JStr (audio_url role))) ] JNull.

Definition create_fields (req : CreateTranscriptionRequest) : list (str * option json) :=
    ([ («"engine_model_type"», Some (JStr (engine_model_type req)));
       («"channel_num"», Some (JInt (channel_num req)));
       («"res_text_format"», Some (JInt (res_text_format req)));
       («"source_type"», Some (JInt (source_type req))) ] ++
     (if (source_type req =? kSourceTypeUrl) && negb (is_empty (url req))
      then [ («"url"», Some (JStr (url req))) ]
      else if (source_type req =? kSourceTypeData) && negb (is_empty (data req))
      then [ («"data"», Some (JStr (data req))); («"data_len"», Some (JInt (data_len req))) ]
      else []) ++
     [ list_field «"audio_urls"» item_json (audio_urls req);
       str_field «"callback_url"» (callback_url req) ] ++
     (if negb (speaker_diarization req =? 0)
      then [ («"speaker_diarization"», Some (JInt (speaker_diarization req)));
             int_field «"speaker_number"» (speaker_number req) ]
      else []) ++
     (if speaker_diarization req =? kSpeakerDiarizationVoiceprint
      then [ strs_field «"voiceprint_ids"» (voiceprint_ids req);
             list_field «"speaker_roles"» role_json (speaker_roles req) ]
      else []) ++
     [ str_field «"hotword_id"» (hotword_id req);
       str_field «"customization_id"» (customization_id req);
       str_field «"hotword_list"» (hotword_list req);
       strs_field «"keyword_lib_id_list"» (keyword_lib_id_list req);
       str_field «"replace_text_id"» (replace_text_id req);
       int_field «"convert_num_mode"» (convert_num_mode req);
       int_field «"filter_dirty"» (filter_dirty req);
       int_field «"filter_punc"» (filter_punc req);
       int_field «"filter_modal"» (filter_modal req);
       int_field «"sentence_max_length"» (sentence_max_length req);
       str_field «"extra"» (extra req);
       int_field «"vad_silence_ms"» (vad_silence_ms req);
       opt_field «"vad_level"» (vad_level req);
       («"noise_threshold"», JFloat <$> noise_threshold req);
       str_field «"language"» (language req) ]).

Definition CreateTranscriptionRequestToWire (req : CreateTranscriptionRequest) : json :=
  assign (create_fields req) JNull.

(** ** Responses

    [j.value(key, 0)] is a read of an [int]: a 64-bit field is read through 32
    bits. *)

Section Parse.
Context (cast : Z -> double -> Z).

Definition WordFromJson (j : json) : result Word :=
  word <-- value_string «"word"» [] j ;;
  start_time <-- value_int cast «"start_time"» 0 j ;;
  end_time <-- value_int cast «"end_time"» 0 j ;;
  Ok (mkWord word start_time end_time).

Definition TranscribeResponseFromJson (j : json) : result TranscribeResponse :=
  code <-- value_int cast «"code"» 0 j ;;
  message <-- value_string «"message"» [] j ;;
  request_id <-- value_string «"request_id"» [] j ;;
  result <-- value_string «"result"» [] j ;;
  audio_duration <-- value_int cast «"audio_duration"» 0 j ;;
  language <-- value_string «"language"» [] j ;;
  language_b47 <-- value_string «"language_b47"» [] j ;;
  word_size <-- value_int cast «"word_size"» 0 j ;;
  word_list <-- optional_list WordFromJson «"word_list"» j ;;
  Ok (mkTranscribeResponse code message request_id result audio_duration language language_b47
        word_size word_list).

Definition SentenceDetailFromJson (j : json) : result SentenceDetail :=
  final_sentence <-- value_string «"final_sentence"» [] j ;;
  slice_sentence <-- value_string «"slice_sentence"» [] j ;;
  written_text <-- value_string «"written_text"» [] j ;;
  start_ms <-- value_int cast «"start_ms"» 0 j ;;
  end_ms <-- value_int cast «"end_ms"» 0 j ;;
  words_num <-- value_int cast «"words_num"» 0 j ;;
  words <-- optional_list WordFromJson «"words"» j ;;
  speech_speed <-- value_double «"speech_speed"» d_zero j ;;
  speaker_id <-- value_int cast «"speaker_id"» 0 j ;;
  channel_id <-- value_int cast «"channel_id"» 0 j ;;
  speaker_role_name <-- value_string «"speaker_role_name"» [] j ;;
  silence_time <-- value_int cast «"silence_time"» 0 j ;;
  language <-- value_string «"language"» [] j ;;
  language_b47 <-- value_string «"language_b47"» [] j ;;
  Ok (mkSentenceDetail final_sentence slice_sentence written_text start_ms end_ms words_num words
        speech_speed speaker_id channel_id speaker_role_name silence_time language language_b47).

Definition TranscriptionStatusFromJson (j : json) : result TranscriptionStatus :=
  code <-- value_int cast «"code"» 0 j ;;
  message <-- value_string «"message"» [] j ;;
  request_id <-- value_string «"request_id"» [] j ;;
  transcription_id <-- value_string «"transcription_id"» [] j ;;
  status <-- value_int cast «"status"» 0 j ;;
  status_str <-- value_string «"status_str"» [] j ;;
  progress <-- value_int cast «"progress"» 0 j ;;
  audio_duration <-- value_double «"audio_duration"» d_zero j ;;
  result <-- value_string «"result"» [] j ;;
  result_detail <-- optional_list SentenceDetailFromJson «"result_detail"» j ;;
  error_msg <-- value_string «"error_msg"» [] j ;;
  Ok (mkTranscriptionStatus code message request_id transcription_id status status_str progress
        audio_duration result result_detail error_msg).
End Parse.

(** The readers throw only exceptions of the JSON library. *)
#[export] Instance WordFromJson_throws cast : JsonThrows (WordFromJson cast).
Proof. json_reads_throw. Qed.
#[export] Instance TranscribeResponseFromJson_throws cast : JsonThrows (TranscribeResponseFromJson cast).
Proof. json_reads_throw. Qed.
#[export] Instance SentenceDetailFromJson_throws cast : JsonThrows (SentenceDetailFromJson cast).
Proof. json_reads_throw. Qed.
#[export] Instance TranscriptionStatusFromJson_throws cast :
  JsonThrows (TranscriptionStatusFromJson cast).
Proof. json_reads_throw. Qed.

(** ** What the validators accept *)

Definition http_url (url : str) : Prop :=
  exists rest, url = «"http://"» ++ rest \/ url = «"https://"» ++ rest.

Lemma find_0 needle s : find needle s = Some 0%nat <-> exists rest, s = needle ++ rest.
Proof.
  rewrite <- starts_with_spec. destruct s as [|c s]; cbn [find];
    destruct (starts_with needle _); try done. by destruct (find needle s).
Qed.

Lemma not_http_false url : not_http url = false <-> http_url url.
Proof.
  unfold not_http, http_url. rewrite andb_false_iff, !negb_false_iff, !bool_decide_eq_true, !find_0.
  naive_solver.
Qed.

Definition role_ok (r : SpeakerRole) : Prop := role_name r <> [] /\ http_url (audio_url r).

Definition diarization_ok (mode n : Z) (roles : list SpeakerRole) (ids : list str) : Prop :=
  (mode = 0 \/ mode = 1 \/ mode = 3) /\ 0 <= n /\
  (mode = 3 \/ roles = [] /\ ids = []) /\
  Forall role_ok roles /\ Forall (fun id => id <> []) ids.

Definition items_ok (items : list AudioURLItem) : Prop :=
  Forall (fun item => 0 <= item_index item /\ http_url (item_url item)) items /\
  NoDup (item_index <$> items).

Definition transcribe_ok (req : TranscribeRequest) : Prop :=
  t_engine_model_type req <> [] /\ t_voice_format req <> [] /\
  (t_source_type req = 0 -> t_url req <> []) /\ (t_source_type req = 1 -> t_data req <> []) /\
  ((t_speaker_diarization req = 0 \/ t_speaker_diarization req = 1 \/ t_speaker_diarization req = 3) /\
   0 <= t_speaker_number req) /\
  (forall v, t_needvad req = Some v -> v = 0 \/ v = 1) /\
  (t_input_sample_rate req = 0 \/ t_input_sample_rate req = 8000).

(** The source of a task: distributed pieces with nothing else set, a URL, or
    data. *)
Definition source_ok (req : CreateTranscriptionRequest) : Prop :=
  if is_empty (audio_urls req) then
    (source_type req = 0 -> url req <> []) /\ (source_type req = 1 -> data req <> [])
  else (source_type req = 0 /\ url req = [] /\ data req = []) /\ items_ok (audio_urls req).

Definition create_ok (req : CreateTranscriptionRequest) : Prop :=
  engine_model_type req <> [] /\ (channel_num req = 1 \/ channel_num req = 2) /\
  0 <= res_text_format req <= 3 /\
  (channel_num req = 2 -> speaker_diarization req = 0) /\
  source_ok req /\
  diarization_ok (speaker_diarization req) (speaker_number req) (speaker_roles req)
    (voiceprint_ids req) /\
  vad_tuning_ok (vad_level req) (noise_threshold req).

Lemma v3_validate_roles_validates i roles :
  validates (validate_roles i roles) (Forall role_ok roles).
Proof.
  revert i; induction roles as [|r roles IH]; intros i; cbn [validate_roles];
    [left; split; [done|constructor]|].
  eapply (validates_iff _ (is_empty (role_name r) = false /\
    not_http (audio_url r) = false /\ Forall role_ok roles)).
  { rewrite Forall_cons, is_empty_false, not_http_false. unfold role_ok. tauto. }
  do 2 (apply validates_seq; [apply validates_reject|intros _]). apply IH.
Qed.

Lemma v3_ValidateSpeakerDiarization_validates mode n roles ids :
  validates (ValidateSpeakerDiarization mode n roles ids) (diarization_ok mode n roles ids).
Proof.
  unfold ValidateSpeakerDiarization, diarization_ok, kSpeakerDiarizationOff,
    kSpeakerDiarizationVoiceprint.
  apply validates_seq; [eapply validates_iff; [|apply validates_reject]; lia|intros _].
  apply validates_seq; [eapply validates_iff; [|apply validates_reject]; lia|intros _].
  apply validates_seq; [|intros _].
  { eapply validates_iff; [|apply validates_reject].
    rewrite andb_false_iff, orb_false_iff, !negb_false_iff, !is_empty_true, Z.eqb_eq. done. }
  apply validates_seq; [apply v3_validate_roles_validates|intros _].
  apply validate_voiceprint_ids_validates.
Qed.

Lemma validate_items_validates i seen items :
  validates (validate_items i seen items)
    (items_ok items /\ Forall (fun item => item_index item ∉ seen) items).
Proof.
  revert i seen; induction items as [|item items IH]; intros i seen; cbn [validate_items].
  { left. split; [done|]. repeat constructor. }
  eapply (validates_iff _ ((item_index item <? 0) = false /\
    existsb (fun prev => prev =? item_index item) seen = false /\
    not_http (item_url item) = false /\
    (items_ok items /\ Forall (fun it => item_index it ∉ seen ++ [item_index item]) items))).
  { assert (existsb (fun prev => prev =? item_index item) seen = false <-> item_index item ∉ seen) as ->.
    { rewrite <- not_true_iff_false, existsb_exists. apply not_iff_compat.
      setoid_rewrite list_elem_of_In. setoid_rewrite Z.eqb_eq. naive_solver. }
    rewrite Z.ltb_ge, not_http_false. unfold items_ok.
    rewrite fmap_cons, NoDup_cons, !Forall_cons, list_elem_of_fmap, !Forall_forall.
    split.
    - intros (H1 & H2 & H3 & (H4 & H5) & H6). split_and!; try done.
      + intros (it & Heq & Hin). specialize (H6 it Hin). set_solver.
      + intros it Hin. specialize (H6 it Hin). set_solver.
    - intros ((((H1 & H3) & H4) & H5 & H7) & H2 & H6). split_and!; try done.
      intros it Hin Hs. apply elem_of_app in Hs as [Hs|Hs]; [by eapply H6|].
      apply list_elem_of_singleton in Hs. apply H5. by exists it. }
  do 3 (apply validates_seq; [apply validates_reject|intros _]). apply IH.
Qed.

Lemma v3_ValidateVadTuning_validates vad_level noise :
  (forall x, noise = Some x -> double_wf x) ->
  validates (ValidateVadTuning vad_level noise) (vad_tuning_ok vad_level noise).
Proof.
  intros Hwf. unfold ValidateVadTuning, vad_tuning_ok. apply validates_seq.
  - apply (validates_when vad_level _ (fun v => v = 0 \/ v = 1)). intros v.
    eapply validates_iff; [|apply validates_reject]. lia.
  - intros _. destruct noise as [x|]; [|left; naive_solver].
    eapply validates_iff; [|apply validates_reject].
    pose proof (noise_range_correct x (Hwf x eq_refl)) as Hr.
    unfold kMinNoiseThreshold, kMaxNoiseThreshold in Hr.
    rewrite negb_false_iff, !andb_true_iff. rewrite andb_true_iff in Hr. split.
    + intros [[_ ?] ?] y [= <-]. tauto.
    + intros Hx. specialize (Hx x eq_refl). pose proof (proj2 Hr Hx) as [? ?].
      split_and!; try done. by destruct x.
Qed.

Lemma ValidateTranscribe_validates req : validates (ValidateTranscribe req) (transcribe_ok req).
Proof.
  unfold ValidateTranscribe, transcribe_ok, kSourceTypeUrl, kSourceTypeData.
  do 4 (apply validates_seq; [eapply validates_iff; [|apply validates_reject];
    rewrite ?andb_false_iff, ?is_empty_false, ?Z.eqb_neq;
    first [tauto | destruct (Z.eq_dec (t_source_type req) 0), (Z.eq_dec (t_source_type req) 1); tauto]
   |intros _]).
  apply validates_seq; [|intros _; apply validates_seq; [|intros _]].
  - destruct (negb (t_speaker_diarization req =? 0) || negb (t_speaker_number req =? 0)) eqn:E.
    + eapply validates_iff; [|apply v3_ValidateSpeakerDiarization_validates].
      unfold diarization_ok. rewrite !Forall_nil. tauto.
    + left. split; [done|]. lia.
  - apply (validates_when (t_needvad req) _ (fun v => v = 0 \/ v = 1)). intros v.
    eapply validates_iff; [|apply ValidateEnumOption_validates].
    rewrite !elem_of_cons, elem_of_nil. tauto.
  - eapply validates_iff; [|apply ValidateEnumOption_validates].
    rewrite !elem_of_cons, elem_of_nil. tauto.
Qed.

Lemma source_validates req :
  validates
    (if negb (is_empty (audio_urls req)) then
       ValidateAudioURLs (source_type req) (url req) (data req) (audio_urls req)
     else
       reject_if ((source_type req =? kSourceTypeUrl) && is_empty (url req))
         «"url is required when source_type=0"» ;;;
       reject_if ((source_type req =? kSourceTypeData) && is_empty (data req))
         «"data is required when source_type=1"») (source_ok req).
Proof.
  unfold source_ok, ValidateAudioURLs, kSourceTypeUrl, kSourceTypeData.
  destruct (is_empty (audio_urls req)); cbn [negb].
  - apply validates_seq; [|intros _]; (eapply validates_iff; [|apply validates_reject]);
      rewrite andb_false_iff, is_empty_false, Z.eqb_neq;
      destruct (Z.eq_dec (source_type req) 0), (Z.eq_dec (source_type req) 1); tauto.
  - apply validates_seq; [eapply validates_iff; [|apply validates_reject]|intros _].
    + rewrite !orb_false_iff, !negb_false_iff, !is_empty_true, Z.eqb_eq. tauto.
    + eapply validates_iff; [|apply validate_items_validates].
      split; [tauto|]. intros ?. split; [done|]. apply Forall_forall. intros it _ Hin.
      by apply elem_of_nil in Hin.
Qed.

Lemma ValidateCreate_validates req :
  (forall d, noise_threshold req = Some d -> double_wf d) ->
  validates (ValidateCreate req) (create_ok req).
Proof.
  intros Hn. unfold ValidateCreate, create_ok.
  apply validates_seq; [rewrite <- is_empty_false; apply validates_reject|intros _].
  do 3 (apply validates_seq; [eapply validates_iff; [|apply validates_reject]; lia|intros _]).
  apply validates_seq; [apply source_validates|intros _].
  apply validates_seq; [apply v3_ValidateSpeakerDiarization_validates|intros _].
  by apply v3_ValidateVadTuning_validates.
Qed.
