(* ===== verification/V3Wire.v ===== *)
(** * The version 3 requests, read by the service

    The JSON that src/v3.cc writes for a transcription and for a task, read
    with the documented keys (README.en.md).  A field that was not sent reads
    as its default.  The theorems: what is read is what the request says, less
    the fields its source or its diarization mode leave out, and less the URLs
    of a distributed task. *)

From S2P Require Import Prelude StdMap Double Params Json JsonRead JsonText SignatureParams V3Types.

Open Scope Z_scope.

(** [nlohmann::json(SdkReportParams())], in every version 3 request. *)
Definition sdk_info (t : target) : json := JObj ((fun kv => (kv.1, JStr kv.2)) <$> SdkReportParams t).

Lemma sdk_info_typed float_text t : json_typed float_text (sdk_info t).
Proof. apply json_typed_obj. split; [repeat constructor|]. unfold sdk_info. by repeat constructor. Qed.

Lemma sdk_info_field_typed float_text k t : field_typed float_text (k, Some (sdk_info t)).
Proof. apply sdk_info_typed. Qed.
#[export] Hint Resolve sdk_info_field_typed : typed.

(** ** Transcription *)

Definition read_transcribe (cast : Z -> double -> Z) (j : json) : result TranscribeRequest :=
  engine_model_type <-- value_string «"engine_model_type"» [] j ;;
  source_type <-- value_int cast «"source_type"» 0 j ;;
  voice_format <-- value_string «"voice_format"» [] j ;;
  url <-- value_string «"url"» [] j ;;
  data <-- value_string «"data"» [] j ;;
  data_len <-- value_int64 cast «"data_len"» 0 j ;;
  word_info <-- value_int cast «"word_info"» 0 j ;;
  filter_dirty <-- value_int cast «"filter_dirty"» 0 j ;;
  filter_modal <-- value_int cast «"filter_modal"» 0 j ;;
  filter_punc <-- value_int cast «"filter_punc"» 0 j ;;
  convert_num_mode <-- value_int cast «"convert_num_mode"» 0 j ;;
  hotword_id <-- value_string «"hotword_id"» [] j ;;
  customization_id <-- value_string «"customization_id"» [] j ;;
  hotword_list <-- value_string «"hotword_list"» [] j ;;
  input_sample_rate <-- value_int cast «"input_sample_rate"» 0 j ;;
  needvad <-- read_opt (get_int cast) «"needvad"» j ;;
  vad_silence_time <-- read_opt (get_int cast) «"vad_silence_time"» j ;;
  language <-- value_string «"language"» [] j ;;
  speaker_diarization <-- value_int cast «"speaker_diarization"» 0 j ;;
  speaker_number <-- value_int cast «"speaker_number"» 0 j ;;
  Ok (mkTranscribeRequest engine_model_type source_type voice_format url data data_len word_info
        filter_dirty filter_modal filter_punc convert_num_mode hotword_id customization_id
        hotword_list input_sample_rate needvad vad_silence_time language speaker_diarization
        speaker_number).

(** What a request says once the fields its source or its diarization mode
    leave out are dropped. *)
Definition sent_transcribe (req : TranscribeRequest) : TranscribeRequest :=
  let by_url := t_source_type req =? kSourceTypeUrl in
  {| t_engine_model_type := t_engine_model_type req; t_source_type := t_source_type req;
     t_voice_format := t_voice_format req; t_url := if by_url then t_url req else [];
     t_data := if by_url then [] else t_data req; t_data_len := if by_url then 0 else t_data_len req;
     t_word_info := t_word_info req; t_filter_dirty := t_filter_dirty req;
     t_filter_modal := t_filter_modal req; t_filter_punc := t_filter_punc req;
     t_convert_num_mode := t_convert_num_mode req; t_hotword_id := t_hotword_id req;
     t_customization_id := t_customization_id req; t_hotword_list := t_hotword_list req;
     t_input_sample_rate := t_input_sample_rate req; t_needvad := t_needvad req;
     t_vad_silence_time := t_vad_silence_time req; t_language := t_language req;
     t_speaker_diarization := t_speaker_diarization req;
     t_speaker_number := if t_speaker_diarization req =? 0 then 0 else t_speaker_number req |}.

Definition transcribe_typed (req : TranscribeRequest) : Prop :=
  (int32 (t_source_type req) /\ int64 (t_data_len req) /\ int32 (t_word_info req) /\
   int32 (t_filter_dirty req) /\ int32 (t_filter_modal req) /\ int32 (t_filter_punc req) /\
   int32 (t_convert_num_mode req) /\ int32 (t_input_sample_rate req) /\
   int32 (t_speaker_diarization req) /\ int32 (t_speaker_number req)) /\
  (forall v, t_needvad req = Some v -> int32 v) /\
  (forall v, t_vad_silence_time req = Some v -> int32 v).

(** The same assignments, each under its own condition. *)
Definition transcribe_entries (req : TranscribeRequest) : list (str * option json) :=
  let by_url := t_source_type req =? kSourceTypeUrl in
  let diarized := negb (t_speaker_diarization req =? 0) in
  [ («"engine_model_type"», Some (JStr (t_engine_model_type req)));
    («"source_type"», Some (JInt (t_source_type req)));
    («"voice_format"», Some (JStr (t_voice_format req))) ] ++
  [ («"url"», when by_url (JStr (t_url req)));
    («"data"», when (negb by_url) (JStr (t_data req)));
    («"data_len"», when (negb by_url) (JInt (t_data_len req))) ] ++
  [ int_field «"word_info"» (t_word_info req);
    int_field «"filter_dirty"» (t_filter_dirty req);
    int_field «"filter_modal"» (t_filter_modal req);
    int_field «"filter_punc"» (t_filter_punc req);
    int_field «"convert_num_mode"» (t_convert_num_mode req);
    str_field «"hotword_id"» (t_hotword_id req);
    str_field «"customization_id"» (t_customization_id req);
    str_field «"hotword_list"» (t_hotword_list req);
    int_field «"input_sample_rate"» (t_input_sample_rate req);
    opt_field «"needvad"» (t_needvad req);
    opt_field «"vad_silence_time"» (t_vad_silence_time req);
    str_field «"language"» (t_language req) ] ++
  [ int_field «"speaker_diarization"» (t_speaker_diarization req);
    («"speaker_number"»,
      when (diarized && negb (t_speaker_number req =? 0)) (JInt (t_speaker_number req))) ].

Lemma transcribe_flat req :
  TranscribeRequestToWire req = assign (transcribe_entries req) JNull.
Proof. unfold TranscribeRequestToWire, transcribe_fields, transcribe_entries. flatten_assign. Qed.

Lemma transcribe_value {A} (get : json -> result A) key d req :
  value get key d (TranscribeRequestToWire req) =
  match entry (transcribe_entries req) key with Some v => get v | None => Ok d end.
Proof. rewrite transcribe_flat. apply value_assign. distinct_keys. Qed.

Lemma transcribe_find key req :
  jfind key (TranscribeRequestToWire req) = entry (transcribe_entries req) key.
Proof. rewrite transcribe_flat. apply jfind_assign. distinct_keys. Qed.

#[export] Instance read_transcribe_stable cast : NormStable (read_transcribe cast).
Proof. stable_reads. Qed.

Lemma transcribe_reads cast req :
  transcribe_typed req ->
  read_transcribe cast (TranscribeRequestToWire req) = Ok (sent_transcribe req).
Proof.
  intros (Hints & Hv & Hs). destruct_and! Hints.
  unfold read_transcribe, value_string, value_int, value_int64, read_opt, sent_transcribe.
  rewrite !transcribe_value, !transcribe_find. simpl.
  rewrite !read_str_field, !read_when_str, !read_opt_field by done.
  rewrite !read_int_field, !read_when_int, !read_when_int64 by done. cbn [rbind].
  rewrite !signed_id by done. cbn [rbind].
  destruct (Z.eqb_spec (t_speaker_diarization req) 0), (t_source_type req =? kSourceTypeUrl),
    (Z.eqb_spec (t_speaker_number req) 0) as [->|]; done.
Qed.

Lemma transcribe_json_typed float_text req :
  transcribe_typed req -> json_typed float_text (TranscribeRequestToWire req).
Proof.
  intros (Hints & Hv & Hs). destruct_and! Hints.
  apply json_typed_assign; [|done]. unfold transcribe_fields.
  destruct (t_source_type req =? kSourceTypeUrl), (t_speaker_diarization req =? 0); typed_entries.
Qed.

(** ** Task creation *)

Definition read_item (cast : Z -> double -> Z) (j : json) : result AudioURLItem :=
  index <-- value_int64 cast «"index"» 0 j ;;
  url <-- value_string «"url"» [] j ;;
  label <-- value_string «"label"» [] j ;;
  Ok (mkAudioURLItem index url label).

Definition read_role (j : json) : result SpeakerRole :=
  role_name <-- value_string «"role_name"» [] j ;;
  audio_url <-- value_string «"audio_url"» [] j ;;
  Ok (mkSpeakerRole role_name audio_url).

Definition read_create (cast : Z -> double -> Z) (j : json) : result CreateTranscriptionRequest :=
  engine_model_type <-- value_string «"engine_model_type"» [] j ;;
  channel_num <-- value_int cast «"channel_num"» 0 j ;;
  res_text_format <-- value_int cast «"res_text_format"» 0 j ;;
  source_type <-- value_int cast «"source_type"» 0 j ;;
  url <-- value_string «"url"» [] j ;;
  data <-- value_string «"data"» [] j ;;
  data_len <-- value_int64 cast «"data_len"» 0 j ;;
  audio_urls <-- optional_list (read_item cast) «"audio_urls"» j ;;
  callback_url <-- value_string «"callback_url"» [] j ;;
  speaker_diarization <-- value_int cast «"speaker_diarization"» 0 j ;;
  speaker_number <-- value_int cast «"speaker_number"» 0 j ;;
  voiceprint_ids <-- optional_list get_string «"voiceprint_ids"» j ;;
  speaker_roles <-- optional_list read_role «"speaker_roles"» j ;;
  hotword_id <-- value_string «"hotword_id"» [] j ;;
  customization_id <-- value_string «"customization_id"» [] j ;;
  hotword_list <-- value_string «"hotword_list"» [] j ;;
  keyword_lib_id_list <-- optional_list get_string «"keyword_lib_id_list"» j ;;
  replace_text_id <-- value_string «"replace_text_id"» [] j ;;
  convert_num_mode <-- value_int cast «"convert_num_mode"» 0 j ;;
  filter_dirty <-- value_int cast «"filter_dirty"» 0 j ;;
  filter_punc <-- value_int cast «"filter_punc"» 0 j ;;
  filter_modal <-- value_int cast «"filter_modal"» 0 j ;;
  sentence_max_length <-- value_int cast «"sentence_max_length"» 0 j ;;
  extra <-- value_string «"extra"» [] j ;;
  vad_silence_ms <-- value_int cast «"vad_silence_ms"» 0 j ;;
  vad_level <-- read_opt (get_int cast) «"vad_level"» j ;;
  noise_threshold <-- read_opt get_double «"noise_threshold"» j ;;
  language <-- value_string «"language"» [] j ;;
  Ok (mkCreateTranscriptionRequest engine_model_type channel_num res_text_format source_type url
        data data_len audio_urls callback_url speaker_diarization speaker_number voiceprint_ids
        speaker_roles hotword_id customization_id hotword_list keyword_lib_id_list replace_text_id
        convert_num_mode filter_dirty filter_punc filter_modal sentence_max_length extra
        vad_silence_ms vad_level noise_threshold language).

(** A piece of a distributed task as the service sees it: its URL is under a
    key that is not the documented one. *)
Definition sent_item (item : AudioURLItem) : AudioURLItem :=
  mkAudioURLItem (item_index item) [] (label item).

Definition sent_create (req : CreateTranscriptionRequest) : CreateTranscriptionRequest :=
  let by_url := source_type req =? 0 in
  let by_data := (source_type req =? 1) && negb (is_empty (data req)) in
  let diarized := negb (speaker_diarization req =? 0) in
  let enrolled := speaker_diarization req =? 3 in
  {| engine_model_type := engine_model_type req; channel_num := channel_num req;
     res_text_format := res_text_format req; source_type := source_type req;
     url := if by_url then url req else []; data := if by_data then data req else [];
     data_len := if by_data then data_len req else 0;
     audio_urls := sent_item <$> audio_urls req; callback_url := callback_url req;
     speaker_diarization := speaker_diarization req;
     speaker_number := if diarized then speaker_number req else 0;
     voiceprint_ids := if enrolled then voiceprint_ids req else [];
     speaker_roles := if enrolled then speaker_roles req else []; hotword_id := hotword_id req;
     customization_id := customization_id req; hotword_list := hotword_list req;
     keyword_lib_id_list := keyword_lib_id_list req; replace_text_id := replace_text_id req;
     convert_num_mode := convert_num_mode req; filter_dirty := filter_dirty req;
     filter_punc := filter_punc req; filter_modal := filter_modal req;
     sentence_max_length := sentence_max_length req; extra := extra req;
     vad_silence_ms := vad_silence_ms req; vad_level := vad_level req;
     noise_threshold := noise_threshold req; language := language req |}.

Definition create_typed (float_text : double -> str) (req : CreateTranscriptionRequest) : Prop :=
  (int32 (channel_num req) /\ int32 (res_text_format req) /\ int32 (source_type req) /\
   int64 (data_len req) /\ int32 (speaker_diarization req) /\ int32 (speaker_number req) /\
   int32 (convert_num_mode req) /\ int32 (filter_dirty req) /\ int32 (filter_punc req) /\
   int32 (filter_modal req) /\ int32 (sentence_max_length req) /\ int32 (vad_silence_ms req)) /\
  Forall (fun item => int64 (item_index item)) (audio_urls req) /\
  (forall v, vad_level req = Some v -> int32 v) /\
  (forall d, noise_threshold req = Some d -> float_reads float_text d).

(** The same assignments, each under its own condition. *)
Definition create_entries (req : CreateTranscriptionRequest) : list (str * option json) :=
  let by_url := (source_type req =? kSourceTypeUrl) && negb (is_empty (url req)) in
  let by_data := (source_type req =? kSourceTypeData) && negb (is_empty (data req)) in
  let diarized := negb (speaker_diarization req =? 0) in
  let enrolled := speaker_diarization req =? kSpeakerDiarizationVoiceprint in
  [ («"engine_model_type"», Some (JStr (engine_model_type req)));
    («"channel_num"», Some (JInt (channel_num req)));
    («"res_text_format"», Some (JInt (res_text_format req)));
    («"source_type"», Some (JInt (source_type req))) ] ++
  [ («"url"», when by_url (JStr (url req)));
    («"data"», when (negb by_url && by_data) (JStr (data req)));
    («"data_len"», when (negb by_url && by_data) (JInt (data_len req))) ] ++
  [ list_field «"audio_urls"» item_json (audio_urls req);
    str_field «"callback_url"» (callback_url req) ] ++
  [ int_field «"speaker_diarization"» (speaker_diarization req);
    («"speaker_number"»,
      when (diarized && negb (speaker_number req =? 0)) (JInt (speaker_number req))) ] ++
  [ («"voiceprint_ids"»,
      when (enrolled && negb (is_empty (voiceprint_ids req))) (JArr (JStr <$> voiceprint_ids req)));
    («"speaker_roles"»,
      when (enrolled && negb (is_empty (speaker_roles req)))
        (JArr (role_json <$> speaker_roles req))) ] ++
  [ str_field «"hotword_id"» (hotword_id req);
    str_field «"customization_id"» (customization_id req);
    str_field «"hotword_list"» (hotword_list req);
    strs_field «"keyword_lib_id_list"» (keyword_lib_id_list req);
    str_field «"replace_text_id"» (replace_text_id req);
    int_field «"convert_num_mode"» (convert_num_mode req);
    int_field «"filter_dirty"» (filter_dirty req);
    int_field «"filter_punc"» (filter_punc req);
    int_field «"filter_modal"» (filter_modal req);
    int_field «"sentence_max_length"» (sentence_max_length req);
    str_field «"extra"» (extra req);
    int_field «"vad_silence_ms"» (vad_silence_ms req);
    opt_field «"vad_level"» (vad_level req);
    («"noise_threshold"», JFloat <$> noise_threshold req);
    str_field «"language"» (language req) ].

Lemma create_flat req :
  CreateTranscriptionRequestToWire req = assign (create_entries req) JNull.
Proof.
  unfold CreateTranscriptionRequestToWire, create_fields, create_entries, strs_field. flatten_assign.
Qed.

Lemma create_value {A} (get : json -> result A) key d req :
  value get key d (CreateTranscriptionRequestToWire req) =
  match entry (create_entries req) key with Some v => get v | None => Ok d end.
Proof. rewrite create_flat. apply value_assign. distinct_keys. Qed.

Lemma create_find key req :
  jfind key (CreateTranscriptionRequestToWire req) = entry (create_entries req) key.
Proof. rewrite create_flat. apply jfind_assign. distinct_keys. Qed.

#[export] Instance read_item_stable cast : NormStable (read_item cast).
Proof. stable_reads. Qed.

#[export] Instance read_role_stable : NormStable read_role.
Proof. stable_reads. Qed.

#[export] Instance read_create_stable cast : NormStable (read_create cast).
Proof. stable_reads. Qed.

(** The URL of a piece is not found. *)
Lemma read_item_sent cast item :
  int64 (item_index item) -> read_item cast (item_json item) = Ok (sent_item item).
Proof.
  intros Hi. unfold read_item, item_json, value_int64, value_string.
  rewrite !value_assign by distinct_keys. simpl. rewrite read_str_field, signed_id by done. done.
Qed.

Lemma parse_items cast items :
  Forall (fun item => int64 (item_index item)) items ->
  parse_all (read_item cast) (item_json <$> items) = Ok (sent_item <$> items).
Proof.
  induction 1 as [|item items Hi _ IH]; [done|]. rewrite !fmap_cons. cbn [parse_all].
  rewrite read_item_sent by done. cbn [rbind]. by rewrite IH.
Qed.

Lemma v3_parse_roles roles : parse_all read_role (role_json <$> roles) = Ok roles.
Proof. apply (parse_all_map _ _ (fun _ => True)); [by intros []|by apply Forall_forall]. Qed.

(** A guard against the default value changes nothing. *)
Lemma guard_list {A} (b : bool) (l : list A) :
  (if b && negb (is_empty l) then l else []) = if b then l else [].
Proof. by destruct b, l. Qed.

Lemma guard_int (b : bool) z : (if b && negb (z =? 0) then z else 0) = if b then z else 0.
Proof. destruct b; [|done]. by destruct (Z.eqb_spec z 0). Qed.

Lemma create_reads cast float_text req :
  create_typed float_text req ->
  read_create cast (CreateTranscriptionRequestToWire req) = Ok (sent_create req).
Proof.
  intros (Hints & Hitems & Hv & _). destruct_and! Hints.
  unfold read_create, value_string, value_int, value_int64, read_opt, optional_list.
  rewrite !create_value, !create_find. simpl.
  rewrite !read_str_field, !read_when_str, !read_opt_field by done.
  rewrite !read_int_field, !read_when_int, !read_when_int64 by done. cbn [rbind].
  rewrite !signed_id by done. cbn [rbind].
  rewrite (read_list_field _ _ _ _ (parse_items _ _ Hitems)). cbn [rbind].
  rewrite (read_list_field _ _ _ _ (parse_strs _)).
  rewrite (read_when_arr _ _ _ _ (parse_strs _)). cbn [rbind].
  rewrite (read_when_arr _ _ _ _ (v3_parse_roles _)). cbn [rbind].
  set (noise := match JFloat <$> noise_threshold req with Some v => _ | None => _ end).
  assert (noise = Ok (noise_threshold req)) as -> by (subst noise; by destruct (noise_threshold req)).
  cbn [rbind]. unfold sent_create, kSourceTypeUrl, kSourceTypeData, kSpeakerDiarizationVoiceprint.
  do 2 f_equal.
  all: try apply guard_list; try apply guard_int; try done.
  all: destruct (Z.eqb_spec (source_type req) 0) as [->|]; simpl; rewrite ?andb_false_r; done.
Qed.

Lemma items_typed float_text items :
  Forall (fun item => int64 (item_index item)) items ->
  json_typed float_text (JArr (item_json <$> items)).
Proof.
  apply json_typed_list. intros item Hi. apply json_typed_assign; [|done]. typed_entries.
Qed.

Lemma v3_roles_typed float_text roles : json_typed float_text (JArr (role_json <$> roles)).
Proof.
  apply (json_typed_list _ _ (fun _ => True)); [|by apply Forall_forall].
  intros role _. apply json_typed_assign; [|done]. typed_entries.
Qed.
#[export] Hint Resolve items_typed v3_roles_typed : typed.

Lemma create_json_typed float_text req :
  create_typed float_text req -> json_typed float_text (CreateTranscriptionRequestToWire req).
Proof.
  intros (Hints & Hitems & Hv & Hn). destruct_and! Hints. rewrite create_flat.
  apply json_typed_assign; [|done]. unfold create_entries. typed_entries.
Qed.
