(* ===== verification/V3Offline.v ===== *)
(** * The version 3 offline clients (src/v3.cc, [SentenceRecognizer] and
    [FileRecognizer])

    One POST per call, with the credential and the parameters in its body and a
    flat response.  [HttpPost] is called with a null error pointer, so a
    transfer that does not complete ends a run in [Crashed].  An exchange is
    that of Http; its [request_time] is not used. *)

From S2P Require Import Prelude StdMap Double Base64 Params Json JsonRead JsonText Uuid Credential SignatureParams UserSig Http Polling V3Types V3Wire.

Open Scope Z_scope.

(** ** The clients (include/trtc_asr/v3.h) *)

Record SentenceRecognizer := mkSentenceRecognizer {
  sr_credential_ : Credential; sr_endpoint_ : str; sr_timeout_ : Z
}.
Definition new_SentenceRecognizer (credential : Credential) : SentenceRecognizer :=
  mkSentenceRecognizer credential [] 30.

Record FileRecognizer := mkFileRecognizer {
  fr_credential_ : Credential; fr_endpoint_ : str; fr_timeout_ : Z
}.
Definition new_FileRecognizer (credential : Credential) : FileRecognizer :=
  mkFileRecognizer credential [] 60.

(** ** The call *)

Section Call.
Context `{Zlib} (float_text : double -> str) (parse_error : str -> str)
  (cast : Z -> double -> Z) (t : target).

(** The body, given the ticket. *)
Definition envelope (c : Credential) (request_id : str) (params : json) (user_sig : str) : json :=
  let params := jset «"sdk_info"» (sdk_info t) params in
  let auth := jset «"sdkappid"» (JStr (to_string (sdk_app_id_ c))) JNull in
  let auth := jset «"usersig"» (JStr user_sig) auth in
  let auth := jset «"request_id"» (JStr request_id) auth in
  jset «"params"» params (jset «"auth"» auth JNull).

Definition OfflineEnvelope (c : Credential) (request_id : str) (params : json) (now : Z)
    : result json :=
  user_sig <-- resolve_user_sig c request_id now ;;
  Ok (envelope c request_id params user_sig).

Definition content_type : list str := [ «"Content-Type: application/json; charset=utf-8"» ].

(** What [PostFlat] makes of a response. *)
Definition read_flat (resp : HttpResponse) : result json :=
  data <-- try_catch (json_parse parse_error (body resp)) (fun e =>
    throw_asr kErrServerError
      («"invalid response (http "» ++ to_string (Http.status resp) ++ «"): "» ++ what e)) ;;
  (if negb (is_object data)
   then throw_asr kErrServerError
          («"invalid response (http "» ++ to_string (Http.status resp) ++ «"): not a JSON object"»)
   else Ok tt) ;;;
  code <-- value_int cast «"code"» 0 data ;;
  if ((Http.status resp <? 200) || (299 <? Http.status resp)) && (code =? 0) then
    throw_asr kErrServerError
      («"http "» ++ to_string (Http.status resp) ++ «" with non-v3 response body: "» ++
       take 256 (body resp) ++
       (if (256 <? length (body resp))%nat then «"..."» else []))
  else Ok data.

Definition PostFlat (c : Credential) (endpoint path : str) (body : json) (timeout : Z)
    (x : transfer) : run json :=
  url ← pure (base <-- ResolveHTTPEndpoint endpoint (site_ c) ;; Ok (base ++ path));
  text ← pure (dump float_text body);
  resp ← HttpPost url text content_type (signed 32 timeout) false x;
  pure (read_flat resp.1).

(** Always an exception: the server's error, or that of reading it. *)
Definition ServerError {A} (data : json) : result A :=
  code <-- value_int cast «"code"» 0 data ;;
  message <-- value_string «"message"» [] data ;;
  request_id <-- value_string «"request_id"» [] data ;;
  throw_asr code
    (if negb (is_empty request_id)
     then message ++ «" (request_id: "» ++ request_id ++ «")"» else message).

Definition CheckCode (data : json) : result unit :=
  code <-- value_int cast «"code"» 0 data ;;
  if negb (code =? 0) then ServerError data else Ok tt.

(** The statements the three calls share, from the request id on. *)
Definition flat_call {A} (c : Credential) (endpoint path : str) (timeout : Z) (params : json)
    (read : json -> result A) (x : exchange) : run A :=
  body ← pure (OfflineEnvelope c (GenerateUuid (draw1 x) (draw2 x)) params (ticket_time x));
  data ← PostFlat c endpoint path body timeout (answer x);
  pure (CheckCode data ;;; read data).
End Call.

(** ** [SentenceRecognizer] *)

Section Sentence.
Context `{Zlib} (float_text : double -> str) (parse_error : str -> str)
  (cast : Z -> double -> Z) (t : target) (r : SentenceRecognizer).

Definition Recognize (req : TranscribeRequest) (x : exchange) : run TranscribeResponse :=
  _ ← pure (ValidateTranscribe req);
  flat_call float_text parse_error cast t (sr_credential_ r) (sr_endpoint_ r) «"/v3/transcribe"»
    (sr_timeout_ r) (TranscribeRequestToWire req) (TranscribeResponseFromJson cast) x.

Definition check_audio (limit : Z) (name data : str) : result unit :=
  reject_if (is_empty data) «"audio data is empty"» ;;;
  reject_if (limit <? Z.of_nat (length data)) («"audio data exceeds "» ++ name ++ «" limit"»).

Definition sentence_limit : Z := 3 * 1024 * 1024.

(** [req->source_type], [req->data] and [req->data_len] are overwritten. *)
Definition transcribe_audio (raw_data : str) (req : TranscribeRequest) : TranscribeRequest :=
  {| t_engine_model_type := t_engine_model_type req; t_source_type := kSourceTypeData;
     t_voice_format := t_voice_format req; t_url := t_url req; t_data := Base64Encode raw_data;
     t_data_len := Z.of_nat (length raw_data); t_word_info := t_word_info req;
     t_filter_dirty := t_filter_dirty req; t_filter_modal := t_filter_modal req;
     t_filter_punc := t_filter_punc req; t_convert_num_mode := t_convert_num_mode req;
     t_hotword_id := t_hotword_id req; t_customization_id := t_customization_id req;
     t_hotword_list := t_hotword_list req; t_input_sample_rate := t_input_sample_rate req;
     t_needvad := t_needvad req; t_vad_silence_time := t_vad_silence_time req;
     t_language := t_language req; t_speaker_diarization := t_speaker_diarization req;
     t_speaker_number := t_speaker_number req |}.

(** A request with the defaults of the struct. *)
Definition new_TranscribeRequest (engine voice_format : str) (source_type : Z) (url : str)
    : TranscribeRequest :=
  mkTranscribeRequest engine source_type voice_format url [] 0 0 0 0 0 0 [] [] [] 0 None None [] 0 0.

Definition RecognizeData (data voice_format engine_model_type : str) (x : exchange)
    : run TranscribeResponse :=
  _ ← pure (check_audio sentence_limit «"3MB"» data);
  Recognize (transcribe_audio data (new_TranscribeRequest engine_model_type voice_format kSourceTypeData [])) x.

(** Also the request after the call. *)
Definition RecognizeDataWithOptions (data : str) (req : option TranscribeRequest) (x : exchange)
    : run TranscribeResponse * option TranscribeRequest :=
  match req with
  | None => (pure (throw_asr kErrInvalidParam «"request is null"»), None)
  | Some q =>
      match check_audio sentence_limit «"3MB"» data with
      | Throw e => (pure (Throw e), Some q)
      | Ok _ => let q := transcribe_audio data q in (Recognize q x, Some q)
      end
  end.

Definition RecognizeUrl (audio_url voice_format engine_model_type : str) (x : exchange)
    : run TranscribeResponse :=
  _ ← pure (reject_if (is_empty audio_url) «"audio URL is empty"»);
  Recognize (new_TranscribeRequest engine_model_type voice_format kSourceTypeUrl audio_url) x.
End Sentence.

(** ** [FileRecognizer] *)

Definition file_limit : Z := 5 * 1024 * 1024.

(** A request with the engine, [channel_num = 1], [res_text_format = 1] and the
    defaults of the struct. *)
Definition new_CreateTranscriptionRequest (engine : str) (source_type : Z) (url : str)
    : CreateTranscriptionRequest :=
  mkCreateTranscriptionRequest engine 1 1 source_type url [] 0 [] [] 0 0 [] [] [] [] [] [] [] 0 0 0
    0 0 [] 0 None None [].

(** [req->source_type], [req->data] and [req->data_len] are overwritten. *)
Definition create_audio (raw_data : str) (req : CreateTranscriptionRequest)
    : CreateTranscriptionRequest :=
  {| engine_model_type := engine_model_type req; channel_num := channel_num req;
     res_text_format := res_text_format req; source_type := kSourceTypeData; url := url req;
     data := Base64Encode raw_data; data_len := Z.of_nat (length raw_data);
     audio_urls := audio_urls req; callback_url := callback_url req;
     speaker_diarization := speaker_diarization req; speaker_number := speaker_number req;
     voiceprint_ids := voiceprint_ids req; speaker_roles := speaker_roles req;
     hotword_id := hotword_id req; customization_id := customization_id req;
     hotword_list := hotword_list req; keyword_lib_id_list := keyword_lib_id_list req;
     replace_text_id := replace_text_id req; convert_num_mode := convert_num_mode req;
     filter_dirty := filter_dirty req; filter_punc := filter_punc req;
     filter_modal := filter_modal req; sentence_max_length := sentence_max_length req;
     extra := extra req; vad_silence_ms := vad_silence_ms req; vad_level := vad_level req;
     noise_threshold := noise_threshold req; language := language req |}.

(** The id of the task created. *)
Definition read_transcription_id (data : json) : result str :=
  id <-- value_string «"transcription_id"» [] data ;;
  if is_empty id then throw_asr kErrServerError «"empty transcription_id in response"» else Ok id.

Lemma read_transcription_id_throw j e :
  read_transcription_id j = Throw e -> sdk_failure [kErrServerError] e \/ exists w, e = StdExn w.
Proof.
  unfold read_transcription_id. intros E. destruct (value_string _ _ j) as [id|e'] eqn:Ei; cbn [rbind] in E.
  - destruct (is_empty id); [|done]. left. eapply sdk_failure_intro; [exact E|by left].
  - injection E as ->. right. by eapply (value_throws get_string) in Ei; [|apply _].
Qed.

Section File.
Context `{Zlib} (float_text : double -> str) (parse_error : str -> str)
  (cast : Z -> double -> Z) (t : target) (r : FileRecognizer).

Definition CreateTask (req : CreateTranscriptionRequest) (x : exchange) : run str :=
  _ ← pure (ValidateCreate req);
  flat_call float_text parse_error cast t (fr_credential_ r) (fr_endpoint_ r)
    «"/v3/create_transcription"» (fr_timeout_ r) (CreateTranscriptionRequestToWire req)
    read_transcription_id x.

Definition CreateTaskFromData (data engine_model_type : str) (x : exchange) : run str :=
  _ ← pure (check_audio file_limit «"5MB"» data);
  CreateTask (create_audio data (new_CreateTranscriptionRequest engine_model_type kSourceTypeData []))
    x.

(** Also the request after the call. *)
Definition CreateTaskFromDataWithOptions (data : str) (req : option CreateTranscriptionRequest)
    (x : exchange) : run str * option CreateTranscriptionRequest :=
  match req with
  | None => (pure (throw_asr kErrInvalidParam «"request is null"»), None)
  | Some q =>
      match check_audio file_limit «"5MB"» data with
      | Throw e => (pure (Throw e), Some q)
      | Ok _ => let q := create_audio data q in (CreateTask q x, Some q)
      end
  end.

Definition CreateTaskFromUrl (audio_url engine_model_type : str) (x : exchange) : run str :=
  _ ← pure (reject_if (is_empty audio_url) «"audio URL is empty"»);
  CreateTask (new_CreateTranscriptionRequest engine_model_type kSourceTypeUrl audio_url) x.

Definition DescribeTask (transcription_id : str) (x : exchange) : run TranscriptionStatus :=
  _ ← pure (reject_if (is_empty transcription_id) «"transcription_id is empty"»);
  flat_call float_text parse_error cast t (fr_credential_ r) (fr_endpoint_ r)
    «"/v3/describe_transcription"» (fr_timeout_ r)
    (jset «"transcription_id"» (JStr transcription_id) JNull) (TranscriptionStatusFromJson cast) x.

(** The loop is Polling's, around [DescribeTask]. *)
#[local] Instance transcription_query (id : str) (timeout : Z) : Query TranscriptionStatus := {|
  describe := DescribeTask id;
  task_status := status;
  status_success := kTaskStatusSuccess;
  status_failed := kTaskStatusFailed;
  failed_text s :=
    «"task failed: "» ++ error_msg s ++ «" (transcription_id: "» ++ transcription_id s ++ «")"»;
  timeout_text s :=
    «"task not completed within "» ++ to_string timeout ++ «"ms (transcription_id: "» ++ id ++
    «", Status: "» ++ status_str s ++ «")"»
|}.

Definition WaitForResultWithInterval (id : str) (interval timeout now : Z) (polls : list poll)
    : run TranscriptionStatus :=
  @wait_loop _ (transcription_query id timeout) interval (now + timeout) now polls.

Definition WaitForResult (id : str) (now : Z) (polls : list poll) : run TranscriptionStatus :=
  WaitForResultWithInterval id 1000 600000 now polls.
End File.

(** ** The body, read by the service *)

(** The SDK's application id, the ticket and the request id. *)
Definition read_auth (j : json) : result (str * str * str) :=
  match jfind «"auth"» j with
  | Some a =>
      sdkappid <-- value_string «"sdkappid"» [] a ;;
      usersig <-- value_string «"usersig"» [] a ;;
      request_id <-- value_string «"request_id"» [] a ;;
      Ok (sdkappid, usersig, request_id)
  | None => type_error 302 []
  end.

(** The parameters, to be read with [get], and the report of the SDK in them. *)
Definition read_params {A} (get : json -> result A) (j : json) : result (A * option json) :=
  match jfind «"params"» j with
  | Some p => a <-- get p ;; Ok (a, jfind «"sdk_info"» p)
  | None => type_error 302 []
  end.

#[local] Instance read_auth_stable : NormStable read_auth.
Proof.
  intros j. unfold read_auth. rewrite jfind_norm. destruct (jfind _ j) as [a|]; [|done].
  cbn [fmap option_fmap option_map]. unfold value_string. by rewrite !norm_stable.
Qed.

(** A reader that does not look at the report of the SDK. *)
Class IgnoresSdkInfo {A} (get : json -> result A) : Prop :=
  ignores_sdk_info v m : map_wf m -> get (jset «"sdk_info"» v (JObj m)) = get (JObj m).

#[local] Instance read_transcribe_ignores cast : IgnoresSdkInfo (read_transcribe cast).
Proof.
  intros v m Hm. unfold read_transcribe, value_string, value_int, value_int64, read_opt.
  by rewrite !value_skip, !jfind_skip by done.
Qed.

#[local] Instance read_create_ignores cast : IgnoresSdkInfo (read_create cast).
Proof.
  intros v m Hm.
  unfold read_create, value_string, value_int, value_int64, read_opt, optional_list.
  by rewrite !value_skip, !jfind_skip by done.
Qed.

Definition read_id : json -> result str := value_string «"transcription_id"» [].

#[local] Instance read_id_ignores : IgnoresSdkInfo read_id.
Proof. intros v m Hm. by apply value_skip. Qed.

(** ** The calls *)

Section Theorems.
Context `{Zlib} (float_text : double -> str) (parse_error : str -> str)
  (cast : Z -> double -> Z) (t : target).

Lemma envelope_typed c rid params us :
  json_typed float_text params -> json_typed float_text (envelope t c rid params us).
Proof.
  intros Hp. unfold envelope.
  repeat first [exact I | exact Hp | apply json_typed_jset | exact (sdk_info_typed float_text t)].
Qed.

Lemma read_auth_envelope c rid params us :
  read_auth (envelope t c rid params us) = Ok (to_string (sdk_app_id_ c), us, rid).
Proof. reflexivity. Qed.

Lemma read_params_envelope {A} (get : json -> result A) `{!NormStable get, !IgnoresSdkInfo get}
    c rid m us a :
  map_wf m -> get (JObj m) = Ok a ->
  read_params get (norm (envelope t c rid (JObj m) us)) = Ok (a, Some (sdk_info t)).
Proof.
  intros Hm Ha. unfold read_params. rewrite jfind_norm.
  change (jfind «"params"» (envelope t c rid (JObj m) us))
    with (Some (jset «"sdk_info"» (sdk_info t) (JObj m))).
  cbn [fmap option_fmap option_map]. rewrite norm_stable, ignores_sdk_info, Ha by done. cbn [rbind].
  rewrite jfind_norm. cbn [jset jfind]. by rewrite map_find_set_eq.
Qed.

Section Flat.
Context {A : Type} (c : Credential) (endpoint path : str) (timeout : Z) (check : result unit)
  (params : json) (read : json -> result A) (x : exchange).

Abbreviation rid := (GenerateUuid (draw1 x) (draw2 x)).

(** A call with its local checks. *)
Definition checked_call : run A :=
  _ ← pure check; flat_call float_text parse_error cast t c endpoint path timeout params read x.

(** What precedes the transfer: the ticket, the URL and the text of the body. *)
Definition flat_prepared : result (str * str * str) :=
  check ;;;
  user_sig <-- resolve_user_sig c rid (ticket_time x) ;;
  base <-- ResolveHTTPEndpoint endpoint (site_ c) ;;
  text <-- dump float_text (envelope t c rid params user_sig) ;;
  Ok (user_sig, base, text).

Definition flat_request (base text : str) : HttpRequest :=
  mkHttpRequest (c_str (base ++ path)) text (c_str <$> content_type) (signed 32 timeout).

(** What a response amounts to. *)
Definition flat_result (chunks : list str) (code : Z) : result A :=
  data <-- read_flat parse_error cast (mkHttpResponse code (concat chunks)) ;;
  CheckCode cast data ;;; read data.

Lemma checked_call_eq :
  checked_call =
  match flat_prepared with
  | Throw e => pure (Throw e)
  | Ok (_, base, text) =>
      mkRun (if sends (answer x) then [flat_request base text] else [])
        (if answer x is Completed chunks code then Done (flat_result chunks code) else Crashed)
  end.
Proof.
  unfold checked_call, flat_prepared. destruct check as [[]|]; [|done]. cbn [rbind].
  rewrite bind_ok. unfold flat_call, OfflineEnvelope, PostFlat.
  destruct (resolve_user_sig _ _ _) as [us|]; [|done]. cbn [rbind]. rewrite bind_ok.
  destruct (ResolveHTTPEndpoint _ _) as [base|]; [|done]. cbn [rbind]. rewrite bind_ok.
  destruct (dump _ _) as [text|]; [|done]. cbn [rbind]. rewrite bind_ok.
  unfold flat_result. destruct (answer x) as [|chunks strerror|chunks code]; [done|done|].
  unfold mbind, run_bind, HttpPost. cbn [ended posted fst pure].
  rewrite WriteCallback_chunks. cbn [app].
  by destruct (read_flat _ _ _) as [data|].
Qed.

Lemma checked_call_posts rq :
  rq ∈ posted checked_call ->
  posted checked_call = [rq] /\ check = Ok tt /\ exists user_sig base text,
    resolve_user_sig c rid (ticket_time x) = Ok user_sig /\
    ResolveHTTPEndpoint endpoint (site_ c) = Ok base /\
    dump float_text (envelope t c rid params user_sig) = Ok text /\ rq = flat_request base text.
Proof.
  rewrite checked_call_eq. destruct flat_prepared as [[[us base] text]|] eqn:E;
    [|by intros ?%elem_of_nil].
  cbn [posted]. destruct (sends (answer x)); [|by intros ?%elem_of_nil].
  intros ->%list_elem_of_singleton. split; [done|]. unfold flat_prepared in E.
  apply rbind_ok in E as ([] & Hc & E). apply rbind_ok in E as (us' & Hus & E).
  apply rbind_ok in E as (base' & Hbase & E). apply rbind_ok in E as (text' & Htext & E).
  apply Ok_inj in E. injection E as -> -> ->. split; [exact Hc|].
  exists us, base, text. split_and!; [exact Hus|exact Hbase|exact Htext|reflexivity].
Qed.

(** The body of a request reads back: the identity of the caller, and what
    [get] finds in the parameters. *)
Definition body_reads {B} (get : json -> result B) (b : B) (rq : HttpRequest) (user_sig : str)
    : Prop :=
  exists j, json_parse parse_error (json_body rq) = Ok j /\
    read_auth j = Ok (to_string (sdk_app_id_ c), user_sig, rid) /\
    read_params get j = Ok (b, Some (sdk_info t)).

Lemma checked_call_reads {B} (get : json -> result B) `{!NormStable get, !IgnoresSdkInfo get}
    b m rq :
  params = JObj m -> map_wf m -> json_typed float_text params -> get params = Ok b ->
  rq ∈ posted checked_call ->
  posted checked_call = [rq] /\ check = Ok tt /\ exists user_sig base,
    resolve_user_sig c rid (ticket_time x) = Ok user_sig /\
    ResolveHTTPEndpoint endpoint (site_ c) = Ok base /\
    req_url rq = c_str (base ++ path) /\ headers rq = content_type /\
    body_reads get b rq user_sig.
Proof.
  intros Hobj Hm Ht Hb Hin.
  destruct (checked_call_posts rq Hin) as (Hp & Hc & us & base & text & Hus & Hbase & Htext & ->).
  split_and!; [done..|]. exists us, base. split_and!; [done..|].
  exists (norm (envelope t c rid params us)). split_and!.
  - eapply json_parse_dumped; [by apply envelope_typed|exact Htext].
  - rewrite norm_stable. apply read_auth_envelope.
  - rewrite Hobj in *. by apply read_params_envelope.
Qed.

(** How a call ends.  A transfer that does not complete is a crash, whatever
    was asked. *)
Definition flat_ends (r : run A) (unwritable : Prop) : Prop :=
  match ended r with
  | Done (Ok a) =>
      check = Ok tt /\ exists chunks code data,
        answer x = Completed chunks code /\
        read_flat parse_error cast (mkHttpResponse code (concat chunks)) = Ok data /\
        value_int cast «"code"» 0 data = Ok 0 /\ read data = Ok a
  | Done (Throw e) =>
      match posted r with
      | [] => sdk_failure [kErrInvalidParam; kErrAuthFailed] e \/ unwritable
      | _ =>
          sdk_failure [kErrServerError] e \/ (exists w, e = StdExn w) \/
          exists chunks code data n msg,
            answer x = Completed chunks code /\
            read_flat parse_error cast (mkHttpResponse code (concat chunks)) = Ok data /\
            value_int cast «"code"» 0 data = Ok n /\ n <> 0 /\ e = AsrExn (asr_error n msg)
      end
  | Crashed => forall chunks code, answer x <> Completed chunks code
  | Polling => False
  end.

Lemma flat_prepared_throw e :
  (forall e, check = Throw e -> sdk_failure [kErrInvalidParam] e) ->
  flat_prepared = Throw e ->
  sdk_failure [kErrInvalidParam; kErrAuthFailed] e \/
  exists us, json_utf8 (envelope t c rid params us) = false.
Proof.
  intros Hcheck. unfold flat_prepared. destruct check as [[]|ec]; cbn [rbind].
  2:{ intros [= <-]. left. eapply sdk_failure_mono; [by apply Hcheck|set_solver]. }
  destruct (resolve_user_sig _ _ _) as [us|e1] eqn:E1; cbn [rbind].
  2:{ intros [= <-]. left. apply resolve_user_sig_throw in E1 as [m ->]. eexists.
      split; [done|cbn; set_solver]. }
  destruct (ResolveHTTPEndpoint _ _) as [base|e2] eqn:E2; cbn [rbind].
  2:{ intros [= <-]. left. apply ResolveHTTPEndpoint_throw in E2.
      eapply sdk_failure_mono; [exact E2|set_solver]. }
  destruct (dump _ _) as [text|e3] eqn:E3; cbn [rbind]; [done|].
  intros _. right. exists us. by eapply dump_throw_utf8.
Qed.

Lemma read_flat_throw resp e :
  read_flat parse_error cast resp = Throw e ->
  sdk_failure [kErrServerError] e \/ exists w, e = StdExn w.
Proof.
  unfold read_flat, try_catch. destruct (json_parse _ _) as [data|e']; cbn [rbind];
    [|intros E; left; eapply sdk_failure_intro; [exact E|by left]].
  destruct (negb (is_object data)); cbn [rbind];
    [intros E; left; eapply sdk_failure_intro; [exact E|by left]|].
  destruct (value_int _ _ _ _) as [n|e'] eqn:E; cbn [rbind].
  - case_match; [|done]. intros E'. left. eapply sdk_failure_intro; [exact E'|by left].
  - intros [= <-]. right. by eapply (value_throws (get_int cast)) in E; [|apply _].
Qed.

Lemma CheckCode_spec data :
  match CheckCode cast data with
  | Ok _ => value_int cast «"code"» 0 data = Ok 0
  | Throw e =>
      (exists w, e = StdExn w) \/
      exists n msg, value_int cast «"code"» 0 data = Ok n /\ n <> 0 /\ e = AsrExn (asr_error n msg)
  end.
Proof.
  unfold CheckCode, ServerError.
  assert (forall key d e, value_string key d data = Throw e -> exists w, e = StdExn w) as Hs
    by (intros key d e; apply json_throws).
  destruct (value_int _ _ _ _) as [n|e] eqn:E; cbn [rbind];
    [|left; by eapply (value_throws (get_int cast)) in E; [|apply _]].
  destruct (Z.eqb_spec n 0) as [->|Hn]; cbn [negb]; [done|].
  destruct (value_string _ _ data) as [msg|e] eqn:Em; cbn [rbind]; [|left; by eapply Hs].
  destruct (value_string «"request_id"» _ data) as [id|e] eqn:Ei; cbn [rbind]; [|left; by eapply Hs].
  right. eexists n, _. split_and!; [done..|reflexivity].
Qed.

Lemma checked_call_ends :
  (forall j e, read j = Throw e -> sdk_failure [kErrServerError] e \/ exists w, e = StdExn w) ->
  (forall e, check = Throw e -> sdk_failure [kErrInvalidParam] e) ->
  flat_ends checked_call (exists us, json_utf8 (envelope t c rid params us) = false).
Proof.
  intros Hread Hcheck. unfold flat_ends. rewrite checked_call_eq.
  destruct flat_prepared as [[[us base] text]|e] eqn:E; cbn [ended posted pure];
    [|by eapply flat_prepared_throw].
  assert (check = Ok tt) as Hc.
  { unfold flat_prepared in E. destruct check as [[]|]; [done|discriminate]. }
  destruct (answer x) as [|chunks strerror|chunks code]; [done|done|]. cbn [sends].
  unfold flat_result. destruct (read_flat _ _ _) as [data|e] eqn:Er; cbn [rbind].
  2:{ apply read_flat_throw in Er as [?|?]; [by left|by right; left]. }
  pose proof (CheckCode_spec data) as Hcode. destruct (CheckCode cast data) as [[]|e]; cbn [rbind].
  - destruct (read data) as [a|e] eqn:Ea.
    + split; [done|]. by exists chunks, code, data.
    + apply Hread in Ea as [?|?]; [by left|by right; left].
  - right. destruct Hcode as [?|(n & msg & Hn & Hn0 & ->)]; [by left|right].
    by exists chunks, code, data, n, msg.
Qed.
End Flat.
End Theorems.

(** ** The operations *)

Section Operations.
Context `{Zlib} (float_text : double -> str) (parse_error : str -> str)
  (cast : Z -> double -> Z) (t : target) (s : SentenceRecognizer) (r : FileRecognizer).

Abbreviation Recognize := (Recognize float_text parse_error cast t s).
Abbreviation CreateTask := (CreateTask float_text parse_error cast t r).
Abbreviation DescribeTask := (DescribeTask float_text parse_error cast t r).
Abbreviation rid x := (GenerateUuid (draw1 x) (draw2 x)).
Abbreviation reads := (body_reads parse_error t).

Definition noise_wf (req : CreateTranscriptionRequest) : Prop :=
  forall d, noise_threshold req = Some d -> double_wf d.

Lemma transcribe_request req x rq :
  transcribe_typed req -> rq ∈ posted (Recognize req x) ->
  posted (Recognize req x) = [rq] /\ transcribe_ok req /\ exists user_sig base,
    resolve_user_sig (sr_credential_ s) (rid x) (ticket_time x) = Ok user_sig /\
    ResolveHTTPEndpoint (sr_endpoint_ s) (site_ (sr_credential_ s)) = Ok base /\
    req_url rq = c_str (base ++ «"/v3/transcribe"») /\ headers rq = content_type /\
    reads (sr_credential_ s) x (read_transcribe cast) (sent_transcribe req) rq user_sig.
Proof.
  intros Ht Hin.
  destruct (assign_wf «"engine_model_type"» (JStr (t_engine_model_type req))
    (drop 1 (transcribe_fields req))) as (m & Hm & Hwf).
  edestruct (checked_call_reads float_text parse_error cast t (sr_credential_ s) (sr_endpoint_ s)
    «"/v3/transcribe"» (sr_timeout_ s) (ValidateTranscribe req) (TranscribeRequestToWire req)
    (TranscribeResponseFromJson cast) x (read_transcribe cast) (sent_transcribe req) m rq)
    as (Hp & Hc & us & base & Hrest).
  - exact Hm.
  - exact Hwf.
  - by apply transcribe_json_typed.
  - by apply transcribe_reads.
  - exact Hin.
  - split; [exact Hp|]. split; [|by exists us, base].
    by apply (validates_ok _ _ (ValidateTranscribe_validates req)).
Qed.

(** C34: What a transcription posts: one request at most, and then a valid one,
    at the URL of the endpoint, whose body carries the identity of the caller
    and the SDK's report and reads back to what the request says. *)
Theorem transcribe_posts req x rq :
  transcribe_typed req -> rq ∈ posted (Recognize req x) ->
  posted (Recognize req x) = [rq] /\ transcribe_ok req /\ exists user_sig base,
    resolve_user_sig (sr_credential_ s) (rid x) (ticket_time x) = Ok user_sig /\
    ResolveHTTPEndpoint (sr_endpoint_ s) (site_ (sr_credential_ s)) = Ok base /\
    req_url rq = c_str (base ++ «"/v3/transcribe"») /\ headers rq = content_type /\
    reads (sr_credential_ s) x (read_transcribe cast) (sent_transcribe req) rq user_sig.
Proof. apply transcribe_request. Qed.

Lemma create_request req x rq :
  create_typed float_text req -> noise_wf req -> rq ∈ posted (CreateTask req x) ->
  posted (CreateTask req x) = [rq] /\ create_ok req /\ exists user_sig base,
    resolve_user_sig (fr_credential_ r) (rid x) (ticket_time x) = Ok user_sig /\
    ResolveHTTPEndpoint (fr_endpoint_ r) (site_ (fr_credential_ r)) = Ok base /\
    req_url rq = c_str (base ++ «"/v3/create_transcription"») /\ headers rq = content_type /\
    reads (fr_credential_ r) x (read_create cast) (sent_create req) rq user_sig.
Proof.
  intros Ht Hn Hin.
  destruct (assign_wf «"engine_model_type"» (JStr (engine_model_type req))
    (drop 1 (create_fields req))) as (m & Hm & Hwf).
  edestruct (checked_call_reads float_text parse_error cast t (fr_credential_ r) (fr_endpoint_ r)
    «"/v3/create_transcription"» (fr_timeout_ r) (ValidateCreate req)
    (CreateTranscriptionRequestToWire req) read_transcription_id x (read_create cast)
    (sent_create req) m rq) as (Hp & Hc & us & base & Hrest).
  - exact Hm.
  - exact Hwf.
  - by apply create_json_typed.
  - by eapply create_reads.
  - exact Hin.
  - split; [exact Hp|]. split; [|by exists us, base].
    by apply (validates_ok _ _ (ValidateCreate_validates req Hn)).
Qed.

(** C35: What a task creation and a query of its status post: one request at
    most.  A creation posts only a valid request, and its body reads back to
    what the request says; but the pieces of a distributed task reach the
    service without their URLs.  A query carries the id it is given. *)
Theorem task_calls_post req id x rq :
  create_typed float_text req -> noise_wf req ->
  (rq ∈ posted (CreateTask req x) ->
   posted (CreateTask req x) = [rq] /\ create_ok req /\ exists user_sig base,
     resolve_user_sig (fr_credential_ r) (rid x) (ticket_time x) = Ok user_sig /\
     ResolveHTTPEndpoint (fr_endpoint_ r) (site_ (fr_credential_ r)) = Ok base /\
     req_url rq = c_str (base ++ «"/v3/create_transcription"») /\ headers rq = content_type /\
     reads (fr_credential_ r) x (read_create cast) (sent_create req) rq user_sig) /\
  (rq ∈ posted (DescribeTask id x) ->
   posted (DescribeTask id x) = [rq] /\ id <> [] /\ exists user_sig base,
     resolve_user_sig (fr_credential_ r) (rid x) (ticket_time x) = Ok user_sig /\
     ResolveHTTPEndpoint (fr_endpoint_ r) (site_ (fr_credential_ r)) = Ok base /\
     req_url rq = c_str (base ++ «"/v3/describe_transcription"») /\ headers rq = content_type /\
     reads (fr_credential_ r) x read_id id rq user_sig).
Proof.
  intros Ht Hn. split; [by apply create_request|]. intros Hin.
  edestruct (checked_call_reads float_text parse_error cast t (fr_credential_ r) (fr_endpoint_ r)
    «"/v3/describe_transcription"» (fr_timeout_ r)
    (reject_if (is_empty id) «"transcription_id is empty"»)
    (jset «"transcription_id"» (JStr id) JNull) (TranscriptionStatusFromJson cast) x read_id id
    (map_set «"transcription_id"» (JStr id) []) rq) as (Hp & Hc & us & base & Hrest).
  - reflexivity.
  - apply map_set_wf, map_wf_nil.
  - by apply json_typed_jset.
  - reflexivity.
  - exact Hin.
  - apply reject_if_ok, is_empty_false in Hc. split; [exact Hp|]. split; [exact Hc|]. by exists us, base.
Qed.

(** *** Audio *)

Lemma v3_check_audio_ok limit name raw :
  check_audio limit name raw = Ok tt <-> 0 < Z.of_nat (length raw) <= limit.
Proof.
  unfold check_audio. destruct raw as [|c raw]; [split; [done|simpl; lia]|].
  cbn [is_empty reject_if rbind]. rewrite reject_if_ok, Z.ltb_ge. cbn [length]. lia.
Qed.

Definition transcribe_carries (raw : str) (x : exchange) (rq : HttpRequest) : Prop :=
  0 < Z.of_nat (length raw) <= sentence_limit /\ exists user_sig q,
    reads (sr_credential_ s) x (read_transcribe cast) q rq user_sig /\
    t_source_type q = 1 /\ t_data_len q = Z.of_nat (length raw) /\
    Base64Decode (t_data q) = Ok raw.

Definition create_carries (raw : str) (x : exchange) (rq : HttpRequest) : Prop :=
  0 < Z.of_nat (length raw) <= file_limit /\ exists user_sig q,
    reads (fr_credential_ r) x (read_create cast) q rq user_sig /\
    source_type q = 1 /\ data_len q = Z.of_nat (length raw) /\ Base64Decode (data q) = Ok raw.

Lemma length_int64 (raw : str) : Z.of_nat (length raw) <= file_limit -> int64 (Z.of_nat (length raw)).
Proof. unfold file_limit, int64, in_signed. lia. Qed.

Lemma transcribe_audio_typed raw req :
  Z.of_nat (length raw) <= file_limit -> transcribe_typed req ->
  transcribe_typed (transcribe_audio raw req).
Proof.
  intros Hl (Hints & Hv & Hs). destruct_and! Hints.
  unfold transcribe_typed, transcribe_audio, kSourceTypeData. cbn.
  split_and!; try done. by apply length_int64.
Qed.

Lemma create_audio_typed raw req :
  Z.of_nat (length raw) <= file_limit -> create_typed float_text req ->
  create_typed float_text (create_audio raw req).
Proof.
  intros Hl (Hints & Hs & Hv & Hn). destruct_and! Hints.
  unfold create_typed, create_audio, kSourceTypeData. cbn.
  split_and!; try done. by apply length_int64.
Qed.

(** The request of an audio call. *)
Lemma v3_Recognize_carries raw req x rq :
  0 < Z.of_nat (length raw) <= sentence_limit -> transcribe_typed req ->
  rq ∈ posted (Recognize (transcribe_audio raw req) x) -> transcribe_carries raw x rq.
Proof.
  intros Hl Ht Hin. split; [done|].
  destruct (transcribe_request (transcribe_audio raw req) x rq)
    as (_ & _ & us & base & _ & _ & _ & _ & Hr); [|exact Hin|].
  { apply transcribe_audio_typed; [unfold sentence_limit, file_limit in *; lia|done]. }
  exists us, (sent_transcribe (transcribe_audio raw req)).
  split_and!; [exact Hr|reflexivity..|]. apply Base64Decode_Encode.
Qed.

Lemma CreateTask_carries raw req x rq :
  0 < Z.of_nat (length raw) <= file_limit -> create_typed float_text req -> noise_wf req ->
  rq ∈ posted (CreateTask (create_audio raw req) x) -> create_carries raw x rq.
Proof.
  intros Hl Ht Hn Hin. split; [done|].
  destruct (create_request (create_audio raw req) x rq) as (_ & _ & us & base & _ & _ & _ & _ & Hr);
    [by apply create_audio_typed; [lia|]|exact Hn|exact Hin|].
  exists us, (sent_create (create_audio raw req)). split; [exact Hr|].
  assert (is_empty (Base64Encode raw) = false) as He.
  { destruct (Base64Encode raw) eqn:E; [|done]. pose proof (Base64Decode_Encode raw) as Hd.
    rewrite E in Hd. apply Ok_inj in Hd as <-. simpl in Hl. lia. }
  unfold sent_create, create_audio. cbn [source_type data data_len kSourceTypeData].
  rewrite He. cbn. split_and!; [done..|]. apply Base64Decode_Encode.
Qed.

Lemma new_transcribe_typed engine voice_format src u :
  int32 src -> transcribe_typed (new_TranscribeRequest engine voice_format src u).
Proof. intros Hs. split; [split_and!; [exact Hs|by vm_compute..]|split; discriminate]. Qed.

Lemma new_create_typed engine src u :
  int32 src -> create_typed float_text (new_CreateTranscriptionRequest engine src u).
Proof.
  intros Hs. split; [split_and!; try exact Hs; by vm_compute|].
  split; [constructor|split; discriminate].
Qed.

(** The audio calls post their audio: a request is posted only for audio that
    is not empty and within the limit of the call, and what the service reads
    decodes to it. *)
Theorem v3_audio_posts raw voice_format engine treq creq x rq :
  transcribe_typed treq -> create_typed float_text creq -> noise_wf creq ->
  (rq ∈ posted (RecognizeData float_text parse_error cast t s raw voice_format engine x) \/
   rq ∈ posted (RecognizeDataWithOptions float_text parse_error cast t s raw (Some treq) x).1 ->
   transcribe_carries raw x rq) /\
  (rq ∈ posted (CreateTaskFromData float_text parse_error cast t r raw engine x) \/
   rq ∈ posted (CreateTaskFromDataWithOptions float_text parse_error cast t r raw (Some creq) x).1 ->
   create_carries raw x rq).
Proof.
  intros Ht Hc Hn.
  unfold RecognizeData, RecognizeDataWithOptions, CreateTaskFromData, CreateTaskFromDataWithOptions.
  split.
  - destruct (check_audio sentence_limit _ raw) as [[]|e] eqn:E;
      [|by intros [?%elem_of_nil|?%elem_of_nil]].
    rewrite bind_ok. apply v3_check_audio_ok in E. intros [Hin|Hin].
    + refine (v3_Recognize_carries _ _ _ _ E _ Hin). apply new_transcribe_typed. by vm_compute.
    + by eapply v3_Recognize_carries.
  - destruct (check_audio file_limit _ raw) as [[]|e] eqn:E;
      [|by intros [?%elem_of_nil|?%elem_of_nil]].
    rewrite bind_ok. apply v3_check_audio_ok in E. intros [Hin|Hin].
    + refine (CreateTask_carries _ _ _ _ E _ _ Hin); [|by intros d [=]].
      apply new_create_typed. by vm_compute.
    + by eapply CreateTask_carries.
Qed.

(** *** How the calls end *)

Abbreviation ends c check read x run params :=
  (flat_ends parse_error cast check read x run
     (exists user_sig, json_utf8 (envelope t c (rid x) params user_sig) = false)).

Lemma DescribeTask_flat_ends id x :
  ends (fr_credential_ r) (reject_if (is_empty id) «"transcription_id is empty"»)
    (TranscriptionStatusFromJson cast) x (DescribeTask id x)
    (jset «"transcription_id"» (JStr id) JNull).
Proof. apply checked_call_ends; [intros ? ? E; right; exact (json_throws _ _ E)|]. intros e. eapply validates_failure, validates_reject. Qed.


(** A transfer that does not complete is fatal: a call whose request is
    handed to a transfer that then fails does not throw; [HttpPost] writes its
    error through the null pointer it is given. *)
Theorem failed_transfer_crashes treq creq id x chunks strerror rq :
  answer x = Failed chunks strerror ->
  (rq ∈ posted (Recognize treq x) -> ended (Recognize treq x) = Crashed) /\
  (rq ∈ posted (CreateTask creq x) -> ended (CreateTask creq x) = Crashed) /\
  (rq ∈ posted (DescribeTask id x) -> ended (DescribeTask id x) = Crashed).
Proof.
  intros Hx. assert (forall A c endpoint path timeout check params (read : json -> result A),
    let m := checked_call float_text parse_error cast t c endpoint path timeout check params read x in
    rq ∈ posted m -> ended m = Crashed) as H'.
  { intros A c endpoint path timeout check params read. cbn zeta. rewrite checked_call_eq.
    destruct (flat_prepared _ _ _ _ _ _ _) as [[[us base] text]|]; [|by intros ?%elem_of_nil].
    intros _. cbn [ended]. by rewrite Hx. }
  split_and!; apply H'.
Qed.

(** *** Waiting *)

Abbreviation wait id interval timeout now polls :=
  (WaitForResultWithInterval float_text parse_error cast t r id interval timeout now polls).
Abbreviation query id timeout := (transcription_query float_text parse_error cast t r id timeout).

Lemma query_ends_v3 id timeout : @query_ends _ (query id timeout).
Proof.
  intros x E. pose proof (DescribeTask_flat_ends id x) as Hd. unfold flat_ends in Hd.
  cbn [describe transcription_query] in E. by rewrite E in Hd.
Qed.

(** C36: The wait of version 3: its polls, and what ends it.  It posts the polls
    and nothing else; every poll but the last found the task unfinished; the
    last one reports success or an error, crashed, or found the deadline
    passed.  With a positive interval, [timeout / interval + 2] polls end it. *)
Theorem v3_wait_ends id interval timeout now polls :
  (ended (wait id interval timeout now polls) <> Polling ->
   exists earlier last rest,
     polls = earlier ++ last :: rest /\
     Forall (fun p => exists s, ended (DescribeTask id (poll_exchange p)) = Done (Ok s) /\
               status s <> kTaskStatusSuccess /\ status s <> kTaskStatusFailed) earlier /\
     posted (wait id interval timeout now polls) =
       ((earlier ++ [last]) ≫= fun p => posted (DescribeTask id (poll_exchange p))) /\
     @wait_ended _ (query id timeout) (now + timeout) (clock interval now earlier) last
       (ended (wait id interval timeout now polls))) /\
  (0 < interval -> 0 <= timeout -> Forall poll_ok polls ->
   timeout / interval + 2 <= Z.of_nat (length polls) ->
   ended (wait id interval timeout now polls) <> Polling).
Proof.
  split; [exact (@wait_loop_ended _ (query id timeout) _ _ _ _ (query_ends_v3 id timeout))
         |exact (@wait_terminates _ (query id timeout) _ _ _ _ (query_ends_v3 id timeout))].
Qed.
End Operations.

(** The code of a response is read as a 32-bit [int]: one that is a multiple of
    [2 ^ 32] passes for success. *)
Lemma code_low_bits cast m n :
  jfind «"code"» (JObj m) = Some (JInt n) ->
  CheckCode cast (JObj m) = Ok tt <-> n mod 2 ^ 32 = 0.
Proof.
  intros Hf. pose proof (CheckCode_spec cast (JObj m)) as Hs.
  assert (value_int cast «"code"» 0 (JObj m) = Ok (signed 32 n)) as Hv
    by (unfold value_int, value; cbn [is_object]; by rewrite Hf).
  assert (signed 32 n = 0 <-> n mod 2 ^ 32 = 0) as <-.
  { unfold signed. change (2 ^ (32 - 1)) with 2147483648. change (2 ^ 32) with 4294967296. lia. }
  rewrite Hv in Hs. split; intros E.
  - rewrite E in Hs. by injection Hs.
  - unfold CheckCode. by rewrite Hv, E.
Qed.

(** ** Witnesses: calls with a ticket of their own *)

Definition demo_credential : Credential := set_user_sig (NewCredential 1400000000 «"key"») «"sig"».

Definition demo_sentence : SentenceRecognizer := new_SentenceRecognizer demo_credential.
Definition demo_file : FileRecognizer := new_FileRecognizer demo_credential.

Definition demo_text (j : json) : str :=
  match dump (fun _ => []) j with Ok text => text | Throw _ => [] end.

Definition demo_exchange (x : transfer) : exchange := mkExchange 1 2 0 0 x.

Definition demo_status (n : Z) : exchange :=
  demo_exchange (Completed [demo_text (JObj [(«"code"», JInt 0); («"status"», JInt n)])] 200).

Definition demo_transcribe : TranscribeRequest :=
  new_TranscribeRequest «"16k_zh_en"» «"wav"» 0 «"https://example.com/a.wav"».

(** A distributed task in two pieces. *)
Definition demo_create : CreateTranscriptionRequest :=
  mkCreateTranscriptionRequest «"16k_zh_en"» 1 1 0 [] [] 0
    [mkAudioURLItem 0 «"https://example.com/0.wav"» «"left"»;
     mkAudioURLItem 1 «"https://example.com/1.wav"» []] [] 3 2 [«"vp-1"»]
    [mkSpeakerRole «"host"» «"https://example.com/host.wav"»] [] [] [] [«"k1"»] [] 1 0 0 0 0 [] 500
    (Some 0) None [].

Lemma demo_create_typed : create_typed (fun _ => []) demo_create.
Proof.
  split; [split_and!; by vm_compute|]. split; [repeat constructor; by vm_compute|].
  split; [|discriminate]. intros v [= <-]. by vm_compute.
Qed.

Lemma demo_create_noise : noise_wf demo_create.
Proof. by intros d [=]. Qed.

Abbreviation demo_Recognize :=
  (@Recognize stored_zlib (fun _ => []) (fun s => s) (fun _ _ => 0) linux_target demo_sentence
     demo_transcribe).
Abbreviation demo_CreateTask :=
  (@CreateTask stored_zlib (fun _ => []) (fun s => s) (fun _ _ => 0) linux_target demo_file
     demo_create).

(** The service reads the transcription that was asked for. *)
Lemma transcribe_posts_witness :
  exists rq us, posted (demo_Recognize (demo_status 0)) = [rq] /\
    body_reads (fun s => s) linux_target demo_credential (demo_status 0)
      (read_transcribe (fun _ _ => 0)) demo_transcribe rq us.
Proof.
  assert (exists rq, rq ∈ posted (demo_Recognize (demo_status 0))) as [rq Hin]
    by (eexists; apply list_elem_of_In; vm_compute; left; reflexivity).
  destruct (@transcribe_posts stored_zlib (fun _ => []) (fun s => s) (fun _ _ => 0) linux_target
    demo_sentence demo_transcribe (demo_status 0) rq) as (Hp & _ & us & base & _ & _ & _ & _ & Hr);
    [apply new_transcribe_typed; by vm_compute|exact Hin|].
  exists rq, us. split; [exact Hp|exact Hr].
Defined.

(** The two pieces arrive without their URLs. *)
Lemma task_calls_post_witness :
  exists rq us q, posted (demo_CreateTask (demo_status 0)) = [rq] /\
    body_reads (fun s => s) linux_target demo_credential (demo_status 0)
      (read_create (fun _ _ => 0)) q rq us /\
    audio_urls q = [mkAudioURLItem 0 [] «"left"»; mkAudioURLItem 1 [] []].
Proof.
  assert (exists rq, rq ∈ posted (demo_CreateTask (demo_status 0))) as [rq Hin]
    by (eexists; apply list_elem_of_In; vm_compute; left; reflexivity).
  destruct (@task_calls_post stored_zlib (fun _ => []) (fun s => s) (fun _ _ => 0) linux_target
    demo_file demo_create «"id"» (demo_status 0) rq demo_create_typed demo_create_noise) as [Hc _].
  destruct (Hc Hin) as (Hp & _ & us & base & _ & _ & _ & _ & Hr).
  exists rq, us, (sent_create demo_create). split_and!; [exact Hp|exact Hr|by vm_compute].
Defined.

Lemma v3_audio_posts_witness :
  exists rq, posted (@CreateTaskFromData stored_zlib (fun _ => []) (fun s => s) (fun _ _ => 0)
      linux_target demo_file «"abcd"» «"16k_zh_en"» (demo_status 0)) = [rq] /\
    create_carries (fun s => s) (fun _ _ => 0) linux_target demo_file «"abcd"» (demo_status 0) rq.
Proof.
  eexists. split; [vm_compute; reflexivity|].
  refine (proj2 (@v3_audio_posts stored_zlib (fun _ => []) (fun s => s) (fun _ _ => 0) linux_target
    demo_sentence demo_file «"abcd"» «"pcm"» «"16k_zh_en"» demo_transcribe demo_create
    (demo_status 0) _ (new_transcribe_typed _ _ _ _ _) demo_create_typed demo_create_noise) _);
    [by vm_compute|].
  left. apply list_elem_of_In. vm_compute. left. reflexivity.
Defined.


Lemma failed_transfer_crashes_witness :
  ended (demo_Recognize (demo_exchange (Failed [] «"Timeout was reached"»))) = Crashed.
Proof.
  refine (proj1 (@failed_transfer_crashes stored_zlib (fun _ => []) (fun s => s) (fun _ _ => 0)
    linux_target demo_sentence demo_file demo_transcribe demo_create «"id"»
    (demo_exchange (Failed [] «"Timeout was reached"»)) [] «"Timeout was reached"» _ eq_refl) _).
  apply list_elem_of_In. vm_compute. left. reflexivity.
Defined.

Definition demo_wait (polls : list poll) : run TranscriptionStatus :=
  @WaitForResultWithInterval stored_zlib (fun _ => []) (fun s => s) (fun _ _ => 0) linux_target
    demo_file «"id"» 1000 5000 0 polls.

Lemma v3_wait_ends_witness :
  ended (demo_wait (replicate 7 (mkPoll (demo_status 1) 20 1))) <> Polling /\
  exists earlier last rest,
    replicate 7 (mkPoll (demo_status 1) 20 1) = earlier ++ last :: rest.
Proof.
  destruct (@v3_wait_ends stored_zlib (fun _ => []) (fun s => s) (fun _ _ => 0) linux_target
    demo_file «"id"» 1000 5000 0 (replicate 7 (mkPoll (demo_status 1) 20 1))) as [He Ht].
  assert (ended (demo_wait (replicate 7 (mkPoll (demo_status 1) 20 1))) <> Polling) as Hn.
  { apply Ht; [lia|lia| |by vm_compute]. apply Forall_replicate. by split; vm_compute. }
  split; [exact Hn|]. destruct (He Hn) as (earlier & last & rest & Hp & _).
  exists earlier, last, rest. exact Hp.
Defined.
