(* ===== verification/Protocol.v ===== *)
(** * What a protocol version gives the realtime recognizer

    src/speech_recognizer.cc and the streaming half of src/v3.cc are the same
    program around [RecognizerSharedState]: they differ in their options, in
    how [Connect] establishes a session, in what [OnRecognitionStart] reports,
    in the size of an audio frame, and in where the speaker context comes
    from.  [Protocol] is that difference; the threads and the state machine of
    Lifecycle are proved against it, and [Recognizer] and [V3Recognizer] are
    its instances. *)

From S2P Require Import Prelude WsFrame Types.

Open Scope Z_scope.

(** A frame handed to the socket: its opcode, its payload, its success. *)
Abbreviation sent := (Z * str * bool)%type.

(** [{"type":"end"}] *)
Definition end_signal : str :=
  «"{"» ++ dquote ++ «"type"» ++ dquote ++ «":"» ++ dquote ++ «"end"» ++ dquote ++ «"}"».

Definition is_end (f : sent) : bool := (f.1.1 =? 1) && bool_decide (f.1.2 = end_signal).

(** What [Connect] works on: the options, [speaker_continue_], whether
    [shared_->conn] is set, and whether its socket is shut down. *)
Record session (config : Type) := mkSession {
  s_config : config; s_continue : option SpeakerContinue; s_conn : bool; s_shut : bool
}.
Arguments mkSession {config} s_config s_continue s_conn s_shut.
Arguments s_config {config} s.
Arguments s_continue {config} s.
Arguments s_conn {config} s.
Arguments s_shut {config} s.

(** The outcome of [conn->Read(&frame, kReadPollMs, &read_err)]. *)
Inductive read_result :=
  | ReadTimeout
  | ReadError (err : str)
  | ReadFrame (f : WsFrame).

Definition kReadPollMs : Z := 100.

Definition kStartFrameMaxBytes : Z := 64 * 1024.

(** A frame of [Connect] is a text frame within its limit, and not the end
    signal. *)
Definition starting_frame (f : sent) : Prop :=
  f.1.1 = 0x1 /\ f.1.2 <> end_signal /\ Z.of_nat (length f.1.2) <= kStartFrameMaxBytes.

(** [attempt_t] is what one connection attempt depends on besides the session:
    clocks, random numbers and the outcomes of the network. *)
Class Protocol := mkProtocol {
  config_t : Type;
  attempt_t : Type;
  validate_options : config_t -> result unit;
  (* the outcome, the session after it, and the frames sent; [None] for an
     attempt in which [Connect] is still waiting *)
  connect_session :
    attempt_t -> session config_t -> option (result unit * session config_t * list sent);
  session_voice_id : config_t -> str;
  config_stop_timeout : config_t -> Z;
  (* the limit on the length of an audio frame *)
  frame_limit : option N;
  (* the speaker context comes in [Connect] and is reported with the start;
     otherwise the reader finds it in a response *)
  ack_continue : bool;
  connect_session_conn a s s' frames :
    connect_session a s = Some (Ok tt, s', frames) -> s_conn s' = true;
  connect_session_sends a s r s' frames :
    connect_session a s = Some (r, s', frames) -> Forall starting_frame frames;
  connect_session_timeout a s r s' frames :
    connect_session a s = Some (r, s', frames) ->
    config_stop_timeout (s_config s') = config_stop_timeout (s_config s)
}.

Lemma starting_frame_end f : starting_frame f -> is_end f = false.
Proof. intros (_ & Hf & _). unfold is_end. rewrite bool_decide_eq_false_2 by done. apply andb_false_r. Qed.
