(* ===== verification/Recognizer.v ===== *)
(** * Realtime recognizer: options and request (src/speech_recognizer.cc)

    The configuration of [SpeechRecognizer], its clamping and trimming setters,
    [ValidateOptions], and [Connect]: the voice id, the UserSig, the request
    parameters and the URL, then the dial.  They make the version 2 instance of
    [Protocol]; the threads and the state machine are in [Lifecycle]. *)

From S2P Require Import Prelude StdMap Double Params Json Types Protocol Credential SignatureParams UserSig.

Open Scope Z_scope.

(** ** Configuration (set before [Start]); timeouts are in milliseconds *)

Record SpeechRecognizer := mkSpeechRecognizer {
  credential_ : Credential;
  endpoint_ : str; engine_model_type_ : str;
  voice_format_ : Z; need_vad_ : Z; convert_num_mode_ : Z;
  hotword_id_ : str; hotword_list_ : str; customization_id_ : str; replace_text_id_ : str;
  filter_dirty_ : Z; filter_modal_ : Z; filter_punc_ : Z; filter_empty_result_ : option Z;
  word_info_ : Z; vad_silence_time_ : Z; vad_level_ : option Z;
  noise_threshold_ : option double; max_speak_time_ : Z; input_sample_rate_ : Z;
  speaker_diarization_ : Z; enable_speaker_context_ : Z; speaker_context_id_ : str;
  speaker_number_ : Z; speaker_roles_ : list SpeakerRole; voiceprint_ids_ : list str;
  voice_id_ : str; language_ : str;
  write_timeout_ : Z; stop_timeout_ : Z
}.

Definition new_SpeechRecognizer (credential : Credential) (engine_model_type : str)
    : SpeechRecognizer :=
  mkSpeechRecognizer credential [] engine_model_type 1 1 1 [] [] [] [] 0 0 0 None 0 0 None None
    0 0 0 0 [] 0 [] [] [] [] 5000 10000.

(** *** The setters: [assign r f v] is [r] with field [f] set to [v]. *)
Ltac assign r f v :=
  let e := constr:(mkSpeechRecognizer
    (credential_ r) (endpoint_ r) (engine_model_type_ r) (voice_format_ r) (need_vad_ r)
    (convert_num_mode_ r) (hotword_id_ r) (hotword_list_ r) (customization_id_ r)
    (replace_text_id_ r) (filter_dirty_ r) (filter_modal_ r) (filter_punc_ r)
    (filter_empty_result_ r) (word_info_ r) (vad_silence_time_ r) (vad_level_ r)
    (noise_threshold_ r) (max_speak_time_ r) (input_sample_rate_ r) (speaker_diarization_ r)
    (enable_speaker_context_ r) (speaker_context_id_ r) (speaker_number_ r) (speaker_roles_ r)
    (voiceprint_ids_ r) (voice_id_ r) (language_ r) (write_timeout_ r) (stop_timeout_ r)) in
  let e := eval pattern (f r) in e in
  match e with ?g _ => let e := eval cbv beta in (g v) in exact e end.

Definition SetEndpoint (v : str) (r : SpeechRecognizer) : SpeechRecognizer :=
  ltac:(assign r endpoint_ v).
Definition SetVoiceFormat (v : Z) (r : SpeechRecognizer) : SpeechRecognizer :=
  ltac:(assign r voice_format_ v).
Definition SetNeedVad (v : Z) (r : SpeechRecognizer) : SpeechRecognizer :=
  ltac:(assign r need_vad_ v).
Definition SetConvertNumMode (v : Z) (r : SpeechRecognizer) : SpeechRecognizer :=
  ltac:(assign r convert_num_mode_ v).
Definition SetHotwordId (v : str) (r : SpeechRecognizer) : SpeechRecognizer :=
  ltac:(assign r hotword_id_ v).
Definition SetHotwordList (v : str) (r : SpeechRecognizer) : SpeechRecognizer :=
  ltac:(assign r hotword_list_ v).
Definition SetCustomizationId (v : str) (r : SpeechRecognizer) : SpeechRecognizer :=
  ltac:(assign r customization_id_ v).
Definition SetReplaceTextId (v : str) (r : SpeechRecognizer) : SpeechRecognizer :=
  ltac:(assign r replace_text_id_ v).
Definition SetFilterDirty (v : Z) (r : SpeechRecognizer) : SpeechRecognizer :=
  ltac:(assign r filter_dirty_ v).
Definition SetFilterModal (v : Z) (r : SpeechRecognizer) : SpeechRecognizer :=
  ltac:(assign r filter_modal_ v).
Definition SetFilterPunc (v : Z) (r : SpeechRecognizer) : SpeechRecognizer :=
  ltac:(assign r filter_punc_ v).
Definition SetFilterEmptyResult (v : Z) (r : SpeechRecognizer) : SpeechRecognizer :=
  ltac:(assign r filter_empty_result_ (Some v)).
Definition SetWordInfo (v : Z) (r : SpeechRecognizer) : SpeechRecognizer :=
  ltac:(assign r word_info_ v).
Definition SetVadSilenceTime (v : Z) (r : SpeechRecognizer) : SpeechRecognizer :=
  ltac:(assign r vad_silence_time_ v).
Definition SetVadLevel (v : Z) (r : SpeechRecognizer) : SpeechRecognizer :=
  ltac:(assign r vad_level_ (Some v)).
Definition SetNoiseThreshold (v : double) (r : SpeechRecognizer) : SpeechRecognizer :=
  ltac:(assign r noise_threshold_ (Some v)).
Definition SetMaxSpeakTime (v : Z) (r : SpeechRecognizer) : SpeechRecognizer :=
  ltac:(assign r max_speak_time_ v).
Definition SetInputSampleRate (v : Z) (r : SpeechRecognizer) : SpeechRecognizer :=
  ltac:(assign r input_sample_rate_ v).
Definition SetSpeakerDiarization (v : Z) (r : SpeechRecognizer) : SpeechRecognizer :=
  ltac:(assign r speaker_diarization_ v).
Definition SetEnableSpeakerContext (v : Z) (r : SpeechRecognizer) : SpeechRecognizer :=
  ltac:(assign r enable_speaker_context_ v).
Definition SetSpeakerNumber (v : Z) (r : SpeechRecognizer) : SpeechRecognizer :=
  ltac:(assign r speaker_number_ v).
Definition SetSpeakerRoles (v : list SpeakerRole) (r : SpeechRecognizer) : SpeechRecognizer :=
  ltac:(assign r speaker_roles_ v).
Definition SetVoiceprintIds (v : list str) (r : SpeechRecognizer) : SpeechRecognizer :=
  ltac:(assign r voiceprint_ids_ v).
Definition SetVoiceId (v : str) (r : SpeechRecognizer) : SpeechRecognizer :=
  ltac:(assign r voice_id_ v).
Definition SetLanguage (v : str) (r : SpeechRecognizer) : SpeechRecognizer :=
  ltac:(assign r language_ v).

(** The clamps of the timeouts. *)
Definition clamp_write (timeout : Z) : Z :=
  if timeout <=? 0 then 5000
  else if timeout <? 50 then 50
  else if 30000 <? timeout then 30000
  else timeout.

Definition clamp_stop (timeout : Z) : Z :=
  if timeout <=? 0 then 10000
  else if timeout <? 1000 then 1000
  else if 60000 <? timeout then 60000
  else timeout.

Definition SetWriteTimeout (timeout : Z) (r : SpeechRecognizer) : SpeechRecognizer :=
  ltac:(assign r write_timeout_ (clamp_write timeout)).
Definition SetStopTimeout (timeout : Z) (r : SpeechRecognizer) : SpeechRecognizer :=
  ltac:(assign r stop_timeout_ (clamp_stop timeout)).
Definition SetSpeakerContextId (id : str) (r : SpeechRecognizer) : SpeechRecognizer :=
  ltac:(assign r speaker_context_id_ (trim id)).

(** A recognizer as a host configures it: the calls made between the
    constructor and [Start]. *)
Inductive setting :=
  | WithEndpoint (v : str) | WithVoiceFormat (v : Z) | WithNeedVad (v : Z)
  | WithConvertNumMode (v : Z) | WithHotwordId (v : str) | WithHotwordList (v : str)
  | WithCustomizationId (v : str) | WithReplaceTextId (v : str) | WithFilterDirty (v : Z)
  | WithFilterModal (v : Z) | WithFilterPunc (v : Z) | WithFilterEmptyResult (v : Z)
  | WithWordInfo (v : Z) | WithVadSilenceTime (v : Z) | WithVadLevel (v : Z)
  | WithNoiseThreshold (v : double) | WithMaxSpeakTime (v : Z) | WithInputSampleRate (v : Z)
  | WithSpeakerDiarization (v : Z) | WithEnableSpeakerContext (v : Z)
  | WithSpeakerNumber (v : Z) | WithSpeakerRoles (v : list SpeakerRole)
  | WithVoiceprintIds (v : list str) | WithVoiceId (v : str) | WithLanguage (v : str)
  | WithWriteTimeout (v : Z) | WithStopTimeout (v : Z) | WithSpeakerContextId (v : str).

Definition apply_setting (s : setting) : SpeechRecognizer -> SpeechRecognizer :=
  match s with
  | WithEndpoint v => SetEndpoint v | WithVoiceFormat v => SetVoiceFormat v
  | WithNeedVad v => SetNeedVad v | WithConvertNumMode v => SetConvertNumMode v
  | WithHotwordId v => SetHotwordId v | WithHotwordList v => SetHotwordList v
  | WithCustomizationId v => SetCustomizationId v | WithReplaceTextId v => SetReplaceTextId v
  | WithFilterDirty v => SetFilterDirty v | WithFilterModal v => SetFilterModal v
  | WithFilterPunc v => SetFilterPunc v | WithFilterEmptyResult v => SetFilterEmptyResult v
  | WithWordInfo v => SetWordInfo v | WithVadSilenceTime v => SetVadSilenceTime v
  | WithVadLevel v => SetVadLevel v | WithNoiseThreshold v => SetNoiseThreshold v
  | WithMaxSpeakTime v => SetMaxSpeakTime v | WithInputSampleRate v => SetInputSampleRate v
  | WithSpeakerDiarization v => SetSpeakerDiarization v
  | WithEnableSpeakerContext v => SetEnableSpeakerContext v
  | WithSpeakerNumber v => SetSpeakerNumber v | WithSpeakerRoles v => SetSpeakerRoles v
  | WithVoiceprintIds v => SetVoiceprintIds v | WithVoiceId v => SetVoiceId v
  | WithLanguage v => SetLanguage v | WithWriteTimeout v => SetWriteTimeout v
  | WithStopTimeout v => SetStopTimeout v | WithSpeakerContextId v => SetSpeakerContextId v
  end.

Definition configure (ss : list setting) (r : SpeechRecognizer) : SpeechRecognizer :=
  fold_left (fun r s => apply_setting s r) ss r.

Definition same_option (s s' : setting) : bool :=
  match s, s' with
  | WithEndpoint _, WithEndpoint _ | WithVoiceFormat _, WithVoiceFormat _
  | WithNeedVad _, WithNeedVad _ | WithConvertNumMode _, WithConvertNumMode _
  | WithHotwordId _, WithHotwordId _ | WithHotwordList _, WithHotwordList _
  | WithCustomizationId _, WithCustomizationId _ | WithReplaceTextId _, WithReplaceTextId _
  | WithFilterDirty _, WithFilterDirty _ | WithFilterModal _, WithFilterModal _
  | WithFilterPunc _, WithFilterPunc _ | WithFilterEmptyResult _, WithFilterEmptyResult _
  | WithWordInfo _, WithWordInfo _ | WithVadSilenceTime _, WithVadSilenceTime _
  | WithVadLevel _, WithVadLevel _ | WithNoiseThreshold _, WithNoiseThreshold _
  | WithMaxSpeakTime _, WithMaxSpeakTime _ | WithInputSampleRate _, WithInputSampleRate _
  | WithSpeakerDiarization _, WithSpeakerDiarization _
  | WithEnableSpeakerContext _, WithEnableSpeakerContext _
  | WithSpeakerNumber _, WithSpeakerNumber _ | WithSpeakerRoles _, WithSpeakerRoles _
  | WithVoiceprintIds _, WithVoiceprintIds _ | WithVoiceId _, WithVoiceId _
  | WithLanguage _, WithLanguage _ | WithWriteTimeout _, WithWriteTimeout _
  | WithStopTimeout _, WithStopTimeout _ | WithSpeakerContextId _, WithSpeakerContextId _ => true
  | _, _ => false
  end.

Definition ValidateOptions (r : SpeechRecognizer) : result unit :=
  ValidateSpeakerDiarization (speaker_diarization_ r) (speaker_number_ r) (speaker_roles_ r)
    (voiceprint_ids_ r) ;;;
  reject_if (negb (enable_speaker_context_ r =? 0) && negb (enable_speaker_context_ r =? 1) &&
             negb (enable_speaker_context_ r =? 2))
    («"EnableSpeakerContext must be 0 (off), 1 (sync) or 2 (async), got "» ++
     to_string (enable_speaker_context_ r)) ;;;
  reject_if (negb (enable_speaker_context_ r =? 0) && (speaker_diarization_ r =? 0))
    «"EnableSpeakerContext requires SetSpeakerDiarization(1) or (3)"» ;;;
  ValidateVadTuning (vad_level_ r) (noise_threshold_ r) ;;;
  (if filter_empty_result_ r is Some v
   then ValidateEnumOption «"FilterEmptyResult"» v [0; 1] else Ok tt) ;;;
  ValidateEnumOption «"InputSampleRate"» (input_sample_rate_ r) [0; 8000].

(** ** The request of [Connect] *)

(** [if (voice_id_.empty()) voice_id_ = GenerateUuid()] *)
Definition resolve_voice_id (r : SpeechRecognizer) (uuid : str) : str :=
  if is_empty (voice_id_ r) then uuid else voice_id_ r.

Definition with_voice_id (v : str) (r : SpeechRecognizer) : SpeechRecognizer :=
  ltac:(assign r voice_id_ v).

(** The assignments to [SignatureParams p], made at system time [now] with
    [rng] the generator's next output. *)
Definition request_params (r : SpeechRecognizer) (voice_id : str) (now rng : Z)
    : SignatureParams :=
  let p := new_SignatureParams (app_id_ (credential_ r)) (engine_model_type_ r) voice_id now rng in
  let context := negb (enable_speaker_context_ r =? 0) in
  {| app_id := app_id p; timestamp := timestamp p; expired := expired p; nonce := nonce p;
     engine_model_type := engine_model_type p; SignatureParams.voice_id := voice_id;
     sdk_app_id := sdk_app_id_ (credential_ r);
     voice_format := voice_format_ r; need_vad := need_vad_ r;
     convert_num_mode := convert_num_mode_ r;
     hotword_id := hotword_id_ r; hotword_list := hotword_list_ r;
     customization_id := customization_id_ r; replace_text_id := replace_text_id_ r;
     filter_dirty := filter_dirty_ r; filter_modal := filter_modal_ r;
     filter_punc := filter_punc_ r; filter_empty_result := filter_empty_result_ r;
     word_info := word_info_ r; vad_silence_time := vad_silence_time_ r;
     vad_level := vad_level_ r; noise_threshold := noise_threshold_ r;
     max_speak_time := max_speak_time_ r; input_sample_rate := input_sample_rate_ r;
     speaker_diarization := speaker_diarization_ r;
     enable_speaker_context :=
       if context then enable_speaker_context_ r else enable_speaker_context p;
     speaker_context_id :=
       if context && negb (is_empty (speaker_context_id_ r)) then speaker_context_id_ r
       else speaker_context_id p;
     speaker_number := speaker_number_ r; speaker_roles := speaker_roles_ r;
     voiceprint_ids := voiceprint_ids_ r; language := language_ r |}.

Section Request.
Context `{Zlib} (float_text : double -> str) (t : target).

(** [ws_url]; it uses the Tencent Cloud AppID in its path. *)
Definition request_url (r : SpeechRecognizer) (voice_id : str) (now rng : Z) : result str :=
  user_sig <-- resolve_user_sig (credential_ r) voice_id now ;;
  query <-- BuildQueryStringWithSignature float_text t (request_params r voice_id now rng)
              user_sig ;;
  base <-- ResolveWSEndpoint (endpoint_ r) (site_ (credential_ r)) ;;
  Ok (base ++ «"/asr/v2/"» ++ to_string (app_id_ (credential_ r)) ++ «"?"» ++ query).
End Request.

(** ** The connection *)

(** One attempt: the UUID drawn if the voice id is not set, the system time,
    the next random number, and the outcome of the dial. *)
Record attempt := mkAttempt { at_uuid : str; at_time : Z; at_rng : Z; dial_err : option str }.

Section Connect.
Context `{Zlib} (float_text : double -> str) (t : target).

Definition Connect (a : attempt) (s : session SpeechRecognizer)
    : result unit * session SpeechRecognizer :=
  let voice_id := resolve_voice_id (s_config s) (at_uuid a) in
  let r := with_voice_id voice_id (s_config s) in
  let s := mkSession r (s_continue s) (s_conn s) (s_shut s) in
  match request_url float_text t r voice_id (at_time a) (at_rng a), dial_err a with
  | Throw e, _ => (Throw e, s)
  | Ok _, Some err => (throw_asr kErrConnectFailed («"websocket dial failed: "» ++ err), s)
  | Ok _, None => (Ok tt, mkSession r (s_continue s) true false)
  end.

(** Version 2 sends no frame before the audio. *)
#[local, program] Instance v2_protocol : Protocol := {|
  config_t := SpeechRecognizer; attempt_t := attempt;
  validate_options := ValidateOptions; connect_session a s := Some (Connect a s, []);
  session_voice_id := voice_id_; config_stop_timeout := stop_timeout_;
  frame_limit := None; ack_continue := false
|}.
Next Obligation. intros a s s' frames. unfold Connect. repeat case_match; naive_solver. Qed.
Next Obligation. intros a s r s' frames [=]. subst. constructor. Qed.
Next Obligation. intros a s r s' frames. unfold Connect. repeat case_match; intros [= _ <- _]; done. Qed.
End Connect.

(** ** Timeouts *)

Lemma clamp_write_range ms : 50 <= clamp_write ms <= 30000.
Proof.
  unfold clamp_write. destruct (Z.leb_spec ms 0), (Z.ltb_spec ms 50), (Z.ltb_spec 30000 ms); lia.
Qed.

Lemma clamp_stop_range ms : 1000 <= clamp_stop ms <= 60000.
Proof.
  unfold clamp_stop. destruct (Z.leb_spec ms 0), (Z.ltb_spec ms 1000), (Z.ltb_spec 60000 ms); lia.
Qed.

(** A timeout within the documented window is kept; one outside it moves to
    the nearest end, and a non-positive one to the default. *)
Theorem timeouts_clamped ms r :
  write_timeout_ (SetWriteTimeout ms r) =
    (if ms <=? 0 then 5000 else Z.max 50 (Z.min ms 30000)) /\
  stop_timeout_ (SetStopTimeout ms r) =
    (if ms <=? 0 then 10000 else Z.max 1000 (Z.min ms 60000)).
Proof.
  cbn. unfold clamp_write, clamp_stop.
  destruct (Z.leb_spec ms 0); [done|].
  split.
  - destruct (Z.ltb_spec ms 50), (Z.ltb_spec 30000 ms); lia.
  - destruct (Z.ltb_spec ms 1000), (Z.ltb_spec 60000 ms); lia.
Qed.

(** ** The configuration *)

(** Setters of different options commute; of two calls of one setter, the last
    counts. *)
Lemma settings_last_wins s s' r :
  if same_option s s' then apply_setting s' (apply_setting s r) = apply_setting s' r
  else apply_setting s' (apply_setting s r) = apply_setting s (apply_setting s' r).
Proof. destruct r, s, s'; reflexivity. Qed.

Definition timeouts_ok (r : SpeechRecognizer) : Prop :=
  50 <= write_timeout_ r <= 30000 /\ 1000 <= stop_timeout_ r <= 60000.

Lemma configure_timeouts ss r : timeouts_ok r -> timeouts_ok (configure ss r).
Proof.
  unfold configure. revert r. induction ss as [|s ss IH]; intros r Hr; [done|]. apply IH.
  destruct Hr as [Hw Hs]. pose proof clamp_write_range. pose proof clamp_stop_range.
  destruct s; split; cbn; auto.
Qed.

(** Whatever timeouts the host asks for, those of its recognizer are in range. *)
Theorem configured_timeouts credential model ss :
  timeouts_ok (configure ss (new_SpeechRecognizer credential model)).
Proof. apply configure_timeouts. unfold timeouts_ok. cbn. lia. Qed.

(** ** Option validation *)

Definition options_ok (r : SpeechRecognizer) : Prop :=
  diarization_ok (speaker_diarization_ r) (speaker_number_ r) (speaker_roles_ r)
    (voiceprint_ids_ r) /\
  (enable_speaker_context_ r = 0 \/
   (enable_speaker_context_ r = 1 \/ enable_speaker_context_ r = 2) /\
   (speaker_diarization_ r = 1 \/ speaker_diarization_ r = 3)) /\
  (forall v, vad_level_ r = Some v -> v = 0 \/ v = 1) /\
  (forall x, noise_threshold_ r = Some x -> in_noise_range x) /\
  (forall v, filter_empty_result_ r = Some v -> v = 0 \/ v = 1) /\
  (input_sample_rate_ r = 0 \/ input_sample_rate_ r = 8000).


(** ** The request *)

Section RequestTheorems.
Context `{Zlib} (float_text : double -> str) (t : target).

Lemma request_url_read r vid now rng url :
  request_url float_text t r vid now rng = Ok url ->
  exists base user_sig query entries rj ij,
    ResolveWSEndpoint (endpoint_ r) (site_ (credential_ r)) = Ok base /\
    resolve_user_sig (credential_ r) vid now = Ok user_sig /\
    url = base ++ «"/asr/v2/"» ++ to_string (app_id_ (credential_ r)) ++ «"?"» ++ query /\
    ParseQuery query = Some entries /\
    (forall c, query_safe c = false -> c <> "="%char -> c <> "&"%char -> c ∉ query) /\
    forall k, map_find k entries =
      if decide (k = «"usersig"» \/ k = «"signature"») then Some user_sig
      else wire_value t (request_params r vid now rng) rj ij k.
Proof.
  unfold request_url. intros E. inv_ok. subst url.
  pose proof (fun c => BuildQueryStringWithSignature_plain _ _ _ _ _ c E1) as Hplain.
  apply BuildQueryStringWithSignature_parses in E1 as (m & entries & Hm & Hq & Hwf & Hg).
  apply ToMap_find in Hm as (Hwfm & rj & ij & _ & _ & Hf).
  exists a1, a, a0, entries, rj, ij. split_and!; [done..|].
  intros k. rewrite map_find_gmap, Hg by done.
  destruct (decide (k = «"usersig"»)) as [->|H1];
    [rewrite lookup_insert_eq; by case_decide; [|tauto]|].
  rewrite lookup_insert_ne by done.
  destruct (decide (k = «"signature"»)) as [->|H2];
    [rewrite lookup_insert_eq; by case_decide; [|tauto]|].
  rewrite lookup_insert_ne by done. case_decide; [tauto|].
  by rewrite <- map_find_gmap, Hf.
Qed.
(** The URL that [Connect] dials, read the way the gateway reads it: the
    resolved base, the path with the AppID, and a query that decodes to
    exactly the values of the options, plus the UserSig under the two keys
    that carry it. *)
Theorem request_url_correct r vid now rng url :
  request_url float_text t r vid now rng = Ok url ->
  exists base user_sig query entries rj ij,
    ResolveWSEndpoint (endpoint_ r) (site_ (credential_ r)) = Ok base /\
    resolve_user_sig (credential_ r) vid now = Ok user_sig /\
    url = base ++ «"/asr/v2/"» ++ to_string (app_id_ (credential_ r)) ++ «"?"» ++ query /\
    ParseQuery query = Some entries /\
    forall k, map_find k entries =
      if decide (k = «"usersig"» \/ k = «"signature"») then Some user_sig
      else wire_value t (request_params r vid now rng) rj ij k.
Proof.
  intros (base & us & q & m & rj & ij & H1 & H2 & H3 & H4 & _ & H5)%request_url_read.
  by exists base, us, q, m, rj, ij.
Qed.
End RequestTheorems.

(** ** Witnesses *)

(** A voiceprint session with a noise threshold of 4. *)
Definition demo_recognizer : SpeechRecognizer :=
  new_SpeechRecognizer (set_user_sig (new_Credential 1300000000 1400000000 «"key"») «"sig"»)
    «"16k_zh"».

Definition demo_noise : SpeechRecognizer :=
  let r := demo_recognizer in
  mkSpeechRecognizer (credential_ r) [] «"16k_zh"» 1 1 1 [] [] [] [] 0 0 0 (Some 1) 0 0 (Some 1)
    (Some d_four) 0 8000 3 2 «"ctx"» 2 [mkSpeakerRole «"host"» «"https://example.com/a.wav"»]
    [«"vp-1"»] «"v-1"» [] 5000 10000.


Lemma request_url_correct_witness :
  exists url base user_sig query entries rj ij,
    @request_url stored_zlib (fun _ => []) linux_target demo_recognizer «"v-1"» 1700000000 41 = Ok url /\
    ResolveWSEndpoint [] [] = Ok base /\
    @resolve_user_sig stored_zlib (credential_ demo_recognizer) «"v-1"» 1700000000 = Ok user_sig /\
    url = base ++ «"/asr/v2/1300000000?"» ++ query /\ ParseQuery query = Some entries /\
    forall k, map_find k entries =
      if decide (k = «"usersig"» \/ k = «"signature"») then Some user_sig
      else wire_value linux_target (request_params demo_recognizer «"v-1"» 1700000000 41) rj ij k.
Proof.
  assert (exists url, @request_url stored_zlib (fun _ => []) linux_target demo_recognizer «"v-1"»
            1700000000 41 = Ok url) as [url E] by (eexists; vm_compute; reflexivity).
  destruct (@request_url_correct stored_zlib (fun _ => []) linux_target demo_recognizer «"v-1"»
              1700000000 41 url E) as (base & us & q & es & rj & ij & H1 & H2 & H3 & H4).
  exists url, base, us, q, es, rj, ij. by split_and!; [..|apply H4|apply H4].
Defined.
