(* ===== verification/V3Recognizer.v ===== *)
(** * Version 3 realtime recognizer: options, start frame and handshake (src/v3.cc)

    The configuration of [v3::SpeechRecognizer], [ValidateOptions], and
    [Connect]: the start frame that carries the identity and the options, the
    dial, and the wait for the acknowledgement.  They make the version 3
    instance of [Protocol]; [Start], [Write], [Stop] and the reader are those
    of Lifecycle, whose results hold here as they are. *)

From S2P Require Import Prelude StdMap Double Params Json JsonRead JsonText Credential SignatureParams UserSig WsFrame Http V3Types V3Wire Types Protocol.

Open Scope Z_scope.

(** ** Constants; times are in milliseconds *)

Definition kMaxVoiceIdLen : Z := 128.
Definition kMinMaxSpeakTime : Z := 5000.
Definition kMaxMaxSpeakTime : Z := 90000.
Definition kMinVadSilenceTimeMs : Z := 240.
Definition kMaxVadSilenceTimeMs : Z := 2000.
Definition kStreamFrameMaxBytes : N := 256 * 1024.
Definition kAckTimeout : Z := 5000.
Definition kSpeakerContextAckTimeout : Z := 15000.

(** ** Configuration *)

Record SpeechRecognizer := mkSpeechRecognizer {
  credential_ : Credential;
  endpoint_ : str; engine_model_type_ : str;
  voice_format_ : Z; need_vad_ : Z; convert_num_mode_ : Z;
  hotword_id_ : str; hotword_list_ : str;
  filter_dirty_ : Z; filter_modal_ : Z; filter_punc_ : Z; filter_empty_result_ : option Z;
  word_info_ : Z; word_with_space_ : Z; vad_silence_time_ : Z; vad_level_ : option Z;
  noise_threshold_ : option double; max_speak_time_ : Z; input_sample_rate_ : Z;
  speaker_diarization_ : Z; speaker_number_ : Z; speaker_roles_ : list SpeakerRole;
  voiceprint_ids_ : list str; voice_id_ : str; language_ : str;
  enable_speaker_context_ : Z; speaker_context_id_ : str;
  write_timeout_ : Z; stop_timeout_ : Z
}.

Definition new_SpeechRecognizer (credential : Credential) (engine_model_type : str)
    : SpeechRecognizer :=
  mkSpeechRecognizer credential [] engine_model_type 1 1 1 [] [] 0 0 0 None 0 0 0 None None 0 0
    0 0 [] [] [] [] 0 [] 5000 10000.

(** *** The setters: [assign r f v] is [r] with field [f] set to [v]. *)
Ltac assign r f v :=
  let e := constr:(mkSpeechRecognizer
    (credential_ r) (endpoint_ r) (engine_model_type_ r) (voice_format_ r) (need_vad_ r)
    (convert_num_mode_ r) (hotword_id_ r) (hotword_list_ r) (filter_dirty_ r) (filter_modal_ r)
    (filter_punc_ r) (filter_empty_result_ r) (word_info_ r) (word_with_space_ r)
    (vad_silence_time_ r) (vad_level_ r) (noise_threshold_ r) (max_speak_time_ r)
    (input_sample_rate_ r) (speaker_diarization_ r) (speaker_number_ r) (speaker_roles_ r)
    (voiceprint_ids_ r) (voice_id_ r) (language_ r) (enable_speaker_context_ r)
    (speaker_context_id_ r) (write_timeout_ r) (stop_timeout_ r)) in
  let e := eval pattern (f r) in e in
  match e with ?g _ => let e := eval cbv beta in (g v) in exact e end.

Definition SetEndpoint (v : str) (r : SpeechRecognizer) : SpeechRecognizer :=
  ltac:(assign r endpoint_ v).
Definition SetVoiceFormat (v : Z) (r : SpeechRecognizer) : SpeechRecognizer :=
  ltac:(assign r voice_format_ v).
Definition SetNeedVad (v : Z) (r : SpeechRecognizer) : SpeechRecognizer :=
  ltac:(assign r need_vad_ v).
Definition SetConvertNumMode (v : Z) (r : SpeechRecognizer) : SpeechRecognizer :=
  ltac:(assign r convert_num_mode_ v).
Definition SetHotwordId (v : str) (r : SpeechRecognizer) : SpeechRecognizer :=
  ltac:(assign r hotword_id_ v).
Definition SetHotwordList (v : str) (r : SpeechRecognizer) : SpeechRecognizer :=
  ltac:(assign r hotword_list_ v).
Definition SetFilterDirty (v : Z) (r : SpeechRecognizer) : SpeechRecognizer :=
  ltac:(assign r filter_dirty_ v).
Definition SetFilterModal (v : Z) (r : SpeechRecognizer) : SpeechRecognizer :=
  ltac:(assign r filter_modal_ v).
Definition SetFilterPunc (v : Z) (r : SpeechRecognizer) : SpeechRecognizer :=
  ltac:(assign r filter_punc_ v).
Definition SetFilterEmptyResult (v : Z) (r : SpeechRecognizer) : SpeechRecognizer :=
  ltac:(assign r filter_empty_result_ (Some v)).
Definition SetWordInfo (v : Z) (r : SpeechRecognizer) : SpeechRecognizer :=
  ltac:(assign r word_info_ v).
Definition SetWordWithSpace (v : Z) (r : SpeechRecognizer) : SpeechRecognizer :=
  ltac:(assign r word_with_space_ v).
Definition SetVadSilenceTime (v : Z) (r : SpeechRecognizer) : SpeechRecognizer :=
  ltac:(assign r vad_silence_time_ v).
Definition SetVadLevel (v : Z) (r : SpeechRecognizer) : SpeechRecognizer :=
  ltac:(assign r vad_level_ (Some v)).
Definition SetNoiseThreshold (v : double) (r : SpeechRecognizer) : SpeechRecognizer :=
  ltac:(assign r noise_threshold_ (Some v)).
Definition SetMaxSpeakTime (v : Z) (r : SpeechRecognizer) : SpeechRecognizer :=
  ltac:(assign r max_speak_time_ v).
Definition SetInputSampleRate (v : Z) (r : SpeechRecognizer) : SpeechRecognizer :=
  ltac:(assign r input_sample_rate_ v).
Definition SetSpeakerDiarization (v : Z) (r : SpeechRecognizer) : SpeechRecognizer :=
  ltac:(assign r speaker_diarization_ v).
Definition SetEnableSpeakerContext (v : Z) (r : SpeechRecognizer) : SpeechRecognizer :=
  ltac:(assign r enable_speaker_context_ v).
Definition SetSpeakerNumber (v : Z) (r : SpeechRecognizer) : SpeechRecognizer :=
  ltac:(assign r speaker_number_ v).
Definition SetSpeakerRoles (v : list SpeakerRole) (r : SpeechRecognizer) : SpeechRecognizer :=
  ltac:(assign r speaker_roles_ v).
Definition SetVoiceprintIds (v : list str) (r : SpeechRecognizer) : SpeechRecognizer :=
  ltac:(assign r voiceprint_ids_ v).
Definition SetVoiceId (v : str) (r : SpeechRecognizer) : SpeechRecognizer :=
  ltac:(assign r voice_id_ v).
Definition SetLanguage (v : str) (r : SpeechRecognizer) : SpeechRecognizer :=
  ltac:(assign r language_ v).

(** The clamps of the timeouts. *)
Definition clamp_write (timeout : Z) : Z :=
  if timeout <=? 0 then 5000
  else if timeout <? 50 then 50
  else if 30000 <? timeout then 30000
  else timeout.

Definition clamp_stop (timeout : Z) : Z :=
  if timeout <=? 0 then 10000
  else if timeout <? 1000 then 1000
  else if 60000 <? timeout then 60000
  else timeout.

Definition SetWriteTimeout (timeout : Z) (r : SpeechRecognizer) : SpeechRecognizer :=
  ltac:(assign r write_timeout_ (clamp_write timeout)).
Definition SetStopTimeout (timeout : Z) (r : SpeechRecognizer) : SpeechRecognizer :=
  ltac:(assign r stop_timeout_ (clamp_stop timeout)).
Definition SetSpeakerContextId (id : str) (r : SpeechRecognizer) : SpeechRecognizer :=
  ltac:(assign r speaker_context_id_ (trim id)).

(** A recognizer as a host configures it: the calls made between the
    constructor and [Start]. *)
Inductive setting :=
  | WithEndpoint (v : str) | WithVoiceFormat (v : Z) | WithNeedVad (v : Z)
  | WithConvertNumMode (v : Z) | WithHotwordId (v : str) | WithHotwordList (v : str)
  | WithFilterDirty (v : Z) | WithFilterModal (v : Z) | WithFilterPunc (v : Z)
  | WithFilterEmptyResult (v : Z) | WithWordInfo (v : Z) | WithWordWithSpace (v : Z)
  | WithVadSilenceTime (v : Z) | WithVadLevel (v : Z) | WithNoiseThreshold (v : double)
  | WithMaxSpeakTime (v : Z) | WithInputSampleRate (v : Z) | WithSpeakerDiarization (v : Z)
  | WithEnableSpeakerContext (v : Z) | WithSpeakerNumber (v : Z)
  | WithSpeakerRoles (v : list SpeakerRole) | WithVoiceprintIds (v : list str)
  | WithVoiceId (v : str) | WithLanguage (v : str) | WithWriteTimeout (v : Z)
  | WithStopTimeout (v : Z) | WithSpeakerContextId (v : str).

Definition apply_setting (s : setting) : SpeechRecognizer -> SpeechRecognizer :=
  match s with
  | WithEndpoint v => SetEndpoint v | WithVoiceFormat v => SetVoiceFormat v
  | WithNeedVad v => SetNeedVad v | WithConvertNumMode v => SetConvertNumMode v
  | WithHotwordId v => SetHotwordId v | WithHotwordList v => SetHotwordList v
  | WithFilterDirty v => SetFilterDirty v | WithFilterModal v => SetFilterModal v
  | WithFilterPunc v => SetFilterPunc v | WithFilterEmptyResult v => SetFilterEmptyResult v
  | WithWordInfo v => SetWordInfo v | WithWordWithSpace v => SetWordWithSpace v
  | WithVadSilenceTime v => SetVadSilenceTime v | WithVadLevel v => SetVadLevel v
  | WithNoiseThreshold v => SetNoiseThreshold v | WithMaxSpeakTime v => SetMaxSpeakTime v
  | WithInputSampleRate v => SetInputSampleRate v
  | WithSpeakerDiarization v => SetSpeakerDiarization v
  | WithEnableSpeakerContext v => SetEnableSpeakerContext v
  | WithSpeakerNumber v => SetSpeakerNumber v | WithSpeakerRoles v => SetSpeakerRoles v
  | WithVoiceprintIds v => SetVoiceprintIds v | WithVoiceId v => SetVoiceId v
  | WithLanguage v => SetLanguage v | WithWriteTimeout v => SetWriteTimeout v
  | WithStopTimeout v => SetStopTimeout v | WithSpeakerContextId v => SetSpeakerContextId v
  end.

Definition configure (ss : list setting) (r : SpeechRecognizer) : SpeechRecognizer :=
  fold_left (fun r s => apply_setting s r) ss r.

Definition same_option (s s' : setting) : bool :=
  match s, s' with
  | WithEndpoint _, WithEndpoint _ | WithVoiceFormat _, WithVoiceFormat _
  | WithNeedVad _, WithNeedVad _ | WithConvertNumMode _, WithConvertNumMode _
  | WithHotwordId _, WithHotwordId _ | WithHotwordList _, WithHotwordList _
  | WithFilterDirty _, WithFilterDirty _ | WithFilterModal _, WithFilterModal _
  | WithFilterPunc _, WithFilterPunc _ | WithFilterEmptyResult _, WithFilterEmptyResult _
  | WithWordInfo _, WithWordInfo _ | WithWordWithSpace _, WithWordWithSpace _
  | WithVadSilenceTime _, WithVadSilenceTime _ | WithVadLevel _, WithVadLevel _
  | WithNoiseThreshold _, WithNoiseThreshold _ | WithMaxSpeakTime _, WithMaxSpeakTime _
  | WithInputSampleRate _, WithInputSampleRate _
  | WithSpeakerDiarization _, WithSpeakerDiarization _
  | WithEnableSpeakerContext _, WithEnableSpeakerContext _
  | WithSpeakerNumber _, WithSpeakerNumber _ | WithSpeakerRoles _, WithSpeakerRoles _
  | WithVoiceprintIds _, WithVoiceprintIds _ | WithVoiceId _, WithVoiceId _
  | WithLanguage _, WithLanguage _ | WithWriteTimeout _, WithWriteTimeout _
  | WithStopTimeout _, WithStopTimeout _ | WithSpeakerContextId _, WithSpeakerContextId _ => true
  | _, _ => false
  end.

Definition outside (value low high : Z) : bool := (value <? low) || (high <? value).

Definition ValidateOptions (r : SpeechRecognizer) : result unit :=
  reject_if (kMaxVoiceIdLen <? Z.of_nat (length (voice_id_ r)))
    («"VoiceID length must not exceed "» ++ to_string kMaxVoiceIdLen) ;;;
  ValidateSpeakerDiarization (speaker_diarization_ r) (speaker_number_ r) (speaker_roles_ r)
    (voiceprint_ids_ r) ;;;
  ValidateSpeakerContext (enable_speaker_context_ r) (speaker_diarization_ r) ;;;
  ValidateVadTuning (vad_level_ r) (noise_threshold_ r) ;;;
  reject_if (negb (max_speak_time_ r =? 0) &&
             outside (max_speak_time_ r) kMinMaxSpeakTime kMaxMaxSpeakTime)
    («"MaxSpeakTime must be between "» ++ to_string kMinMaxSpeakTime ++ «" and "» ++
     to_string kMaxMaxSpeakTime ++ «" ms, got "» ++ to_string (max_speak_time_ r)) ;;;
  reject_if (negb (vad_silence_time_ r =? 0) && (need_vad_ r =? 1) &&
             outside (vad_silence_time_ r) kMinVadSilenceTimeMs kMaxVadSilenceTimeMs)
    («"VadSilenceTime must be between "» ++ to_string kMinVadSilenceTimeMs ++ «" and "» ++
     to_string kMaxVadSilenceTimeMs ++ «" ms (needvad=1), got "» ++
     to_string (vad_silence_time_ r)) ;;;
  ValidateEnumOption «"NeedVad"» (need_vad_ r) [0; 1] ;;;
  ValidateEnumOption «"ConvertNumMode"» (convert_num_mode_ r) [0; 1; 3] ;;;
  ValidateEnumOption «"FilterDirty"» (filter_dirty_ r) [0; 1; 2] ;;;
  ValidateEnumOption «"FilterModal"» (filter_modal_ r) [0; 1; 2] ;;;
  ValidateEnumOption «"FilterPunc"» (filter_punc_ r) [0; 1] ;;;
  ValidateEnumOption «"WordInfo"» (word_info_ r) [0; 1; 2; 100] ;;;
  ValidateEnumOption «"WordWithSpace"» (word_with_space_ r) [0; 1] ;;;
  ValidateEnumOption «"VoiceFormat"» (voice_format_ r) [1; 4; 6; 8; 10; 11; 12; 14; 16] ;;;
  (if filter_empty_result_ r is Some v
   then ValidateEnumOption «"FilterEmptyResult"» v [0; 1] else Ok tt) ;;;
  ValidateEnumOption «"InputSampleRate"» (input_sample_rate_ r) [0; 8000].

Definition AckTimeout (r : SpeechRecognizer) : Z :=
  if (enable_speaker_context_ r =? kSpeakerContextSync) && negb (is_empty (speaker_context_id_ r))
  then kSpeakerContextAckTimeout else kAckTimeout.

(** ** The start frame *)

Definition resolve_voice_id (r : SpeechRecognizer) (uuid : str) : str :=
  if is_empty (voice_id_ r) then uuid else voice_id_ r.

Definition with_voice_id (v : str) (r : SpeechRecognizer) : SpeechRecognizer :=
  ltac:(assign r voice_id_ v).

(** The assignments to [params], in order. *)
Definition common_fields (t : target) (r : SpeechRecognizer) : list (str * option json) :=
  [ («"voice_id"», Some (JStr (voice_id_ r)));
    («"engine_model_type"», Some (JStr (engine_model_type_ r)));
    str_field «"language"» (language_ r);
    («"voice_format"», Some (JInt (voice_format_ r)));
    («"needvad"», Some (JInt (need_vad_ r)));
    («"convert_num_mode"», Some (JInt (convert_num_mode_ r)));
    («"sdk_info"», Some (sdk_info t));
    str_field «"hotword_id"» (hotword_id_ r);
    str_field «"hotword_list"» (hotword_list_ r);
    int_field «"filter_dirty"» (filter_dirty_ r);
    int_field «"filter_modal"» (filter_modal_ r);
    int_field «"filter_punc"» (filter_punc_ r);
    opt_field «"filter_empty_result"» (filter_empty_result_ r);
    int_field «"word_info"» (word_info_ r);
    int_field «"word_with_space"» (word_with_space_ r);
    int_field «"vad_silence_time"» (vad_silence_time_ r);
    opt_field «"vad_level"» (vad_level_ r);
    («"noise_threshold"», JFloat <$> noise_threshold_ r);
    int_field «"max_speak_time"» (max_speak_time_ r);
    int_field «"input_sample_rate"» (input_sample_rate_ r) ].

Definition start_fields (t : target) (r : SpeechRecognizer) : list (str * option json) :=
  common_fields t r ++
  (if negb (speaker_diarization_ r =? 0)
   then [ («"speaker_diarization"», Some (JInt (speaker_diarization_ r)));
          int_field «"speaker_number"» (speaker_number_ r) ]
   else []) ++
  (if speaker_diarization_ r =? kSpeakerDiarizationVoiceprint
   then [ strs_field «"voiceprint_ids"» (voiceprint_ids_ r);
          list_field «"speaker_roles"» role_json (speaker_roles_ r) ]
   else []) ++
  (if negb (enable_speaker_context_ r =? 0)
   then [ («"enable_speaker_context"», Some (JInt (enable_speaker_context_ r)));
          str_field «"speaker_context_id"» (speaker_context_id_ r) ]
   else []).

Definition start_params (t : target) (r : SpeechRecognizer) : json :=
  assign (start_fields t r) JNull.

Definition start_frame (t : target) (r : SpeechRecognizer) (user_sig : str) : json :=
  let auth := jset «"sdkappid"» (JStr (to_string (sdk_app_id_ (credential_ r)))) JNull in
  let auth := jset «"usersig"» (JStr user_sig) auth in
  let frame := jset «"type"» (JStr «"start"») JNull in
  jset «"params"» (start_params t r) (jset «"auth"» auth frame).

(** ** The acknowledgement *)

(** How the wait ends: the session is acknowledged, or an exception leaves
    [Connect], after [shared_->Close()] or without it. *)
Inductive ack_end :=
  | Acked (c : option SpeakerContinue)
  | AckFailed (e : exn) (closed : bool).

Section Ack.
Context (parse_error : str -> str) (cast : Z -> double -> Z).

Definition read_continue (ack : json) : result (option SpeakerContinue) :=
  match jfind «"speaker_continue"» ack with
  | Some (JObj m) =>
      continue_status <-- value_string «"continue_status"» [] (JObj m) ;;
      speaker_context_id <-- value_string «"speaker_context_id"» [] (JObj m) ;;
      Ok (Some (mkSpeakerContinue continue_status speaker_context_id))
  | _ => Ok None
  end.

(** A text frame. *)
Definition read_ack (text : str) : ack_end :=
  match json_parse parse_error text with
  | Throw e => AckFailed (AsrExn (asr_error kErrServerError («"invalid start ack: "» ++ what e))) true
  | Ok ack =>
      match value_int cast «"code"» 0 ack with
      | Throw e => AckFailed e false
      | Ok code =>
          if negb (code =? 0) then
            match value_string «"message"» [] ack with
            | Throw e => AckFailed e true
            | Ok message => AckFailed (AsrExn (asr_error code message)) true
            end
          else
            match read_continue ack with
            | Throw e => AckFailed e false
            | Ok c => Acked c
            end
      end
  end.

Definition ack_failed (what : str) : ack_end :=
  AckFailed (AsrExn (asr_error kErrReadFailed («"read start ack failed"» ++ what))) true.

(** One iteration of the loop at clock [now]; [None] to go on. *)
Definition ack_step (deadline : Z) (r : read_result) (now : Z) : option ack_end :=
  match r with
  | ReadTimeout => if deadline <=? now then Some (ack_failed «": ack timeout"») else None
  | ReadError err => Some (ack_failed (if is_empty err then [] else «": "» ++ err))
  | ReadFrame f =>
      if opcode f =? 0x8 then Some (ack_failed «": connection closed by server"»)
      else if negb (opcode f =? 0x1) then None
      else Some (read_ack (payload f))
  end.

(** The loop over the reads, each with the clock after it; [None] while it is
    still waiting. *)
Fixpoint await_ack (deadline : Z) (reads : list (read_result * Z)) : option ack_end :=
  match reads with
  | [] => None
  | (r, now) :: reads' =>
      match ack_step deadline r now with
      | Some e => Some e
      | None => await_ack deadline reads'
      end
  end.
End Ack.

(** ** The connection *)

(** One attempt: the UUID drawn if the voice id is not set, the system time of
    the ticket, the outcomes of the dial and of the first send, the clock at
    which the wait starts, and the reads of the wait. *)
Record attempt := mkAttempt {
  at_uuid : str; at_time : Z; dial_err : option str; send_err : option str;
  at_clock : Z; ack_reads : list (read_result * Z)
}.

Section Connect.
Context `{Zlib} (float_text : double -> str) (parse_error : str -> str)
  (cast : Z -> double -> Z) (t : target).

(** The text of the start frame, and the URL to dial. *)
Definition start_request (r : SpeechRecognizer) (now : Z) : result (str * str) :=
  user_sig <-- resolve_user_sig (credential_ r) (voice_id_ r) now ;;
  text <-- dump float_text (start_frame t r user_sig) ;;
  reject_if (kStartFrameMaxBytes <? Z.of_nat (length text))
    («"start frame exceeds "» ++ to_string kStartFrameMaxBytes ++ «" bytes"») ;;;
  base <-- ResolveWSEndpoint (endpoint_ r) (site_ (credential_ r)) ;;
  Ok (text, base ++ «"/asr/v3?voice_id="» ++ voice_id_ r).

(** The session once the wait is over. *)
Definition after_ack (r : SpeechRecognizer) (c : option SpeakerContinue) (e : ack_end)
    : result unit * session SpeechRecognizer :=
  match e with
  | Acked c' => (Ok tt, mkSession r (if c' is Some _ then c' else c) true false)
  | AckFailed e closed => (Throw e, mkSession r c (negb closed) closed)
  end.

Definition Connect (a : attempt) (s : session SpeechRecognizer)
    : option (result unit * session SpeechRecognizer * list sent) :=
  let r := with_voice_id (resolve_voice_id (s_config s) (at_uuid a)) (s_config s) in
  let s := mkSession r (s_continue s) (s_conn s) (s_shut s) in
  match start_request r (at_time a), dial_err a, send_err a with
  | Throw e, _, _ => Some (Throw e, s, [])
  | Ok _, Some err, _ =>
      Some (throw_asr kErrConnectFailed («"websocket dial failed: "» ++ err), s, [])
  | Ok (text, _), None, Some err =>
      (* the socket is closed; [shared_->conn] is not set yet *)
      Some (throw_asr kErrWriteFailed («"send start frame failed: "» ++ err), s,
            [(0x1, text, false)])
  | Ok (text, _), None, None =>
      e ← await_ack parse_error cast (at_clock a + AckTimeout r) (ack_reads a);
      Some (after_ack r (s_continue s) e, [(0x1, text, true)])
  end.

(** *** The start frame is not the end signal *)

Lemma dump_obj_head k v m text :
  dump float_text (JObj ((k, v) :: m)) = Ok text ->
  exists e rest, dump_escaped k = Ok e /\ text = «"{"» ++ dquote ++ e ++ dquote ++ rest.
Proof.
  rewrite dump_obj. intros E. apply rbind_ok in E as (body & E & Ht). apply Ok_inj in Ht as <-.
  assert (exists a c, dump_string k = Ok a /\ body = a ++ c) as (a & c & Ha & ->).
  { destruct m as [|kv m]; cbn [dump_members] in E;
      apply rbind_ok in E as (a & Ha & E); apply rbind_ok in E as (b & _ & E).
    - apply Ok_inj in E as <-. eauto.
    - apply rbind_ok in E as (c & _ & E). apply Ok_inj in E as <-. eauto. }
  unfold dump_string in Ha. apply rbind_ok in Ha as (e & He & Ha). apply Ok_inj in Ha as <-.
  exists e, (c ++ «"}"»). split; [exact He|]. by rewrite <- !app_assoc.
Qed.

Lemma start_text_not_end r us text :
  dump float_text (start_frame t r us) = Ok text -> text <> end_signal.
Proof.
  unfold start_frame. set (auth := jset _ _ _). set (params := start_params t r).
  change (jset «"params"» params _) with
    (JObj [(«"auth"», auth); («"params"», params); («"type"», JStr «"start"»)]).
  intros (e & rest & He & ->)%dump_obj_head. vm_compute in He. by injection He as <-.
Qed.

Lemma start_request_sends r now text url ok :
  start_request r now = Ok (text, url) -> starting_frame (0x1, text, ok).
Proof.
  unfold start_request. intros E. apply rbind_ok in E as (us & _ & E).
  apply rbind_ok in E as (text' & Ht & E). apply rbind_ok in E as ([] & Hl & E).
  apply rbind_ok in E as (base & _ & E). apply Ok_inj in E. injection E as -> _.
  apply reject_if_ok, Z.ltb_ge in Hl. split; [done|]. split; [by eapply start_text_not_end|done].
Qed.

#[local, program] Instance v3_protocol : Protocol := {|
  config_t := SpeechRecognizer; attempt_t := attempt;
  validate_options := ValidateOptions; connect_session := Connect;
  session_voice_id := voice_id_; config_stop_timeout := stop_timeout_;
  frame_limit := Some kStreamFrameMaxBytes; ack_continue := true
|}.
Next Obligation.
  intros a s s' frames. unfold Connect. repeat case_match; try naive_solver.
  destruct (await_ack _ _ _ _) as [[]|]; naive_solver.
Qed.
Next Obligation.
  intros a s r s' frames. unfold Connect.
  destruct (start_request _ _) as [[text url]|] eqn:E; [|intros [=]; subst; constructor].
  destruct (dial_err a); [intros [=]; subst; constructor|].
  destruct (send_err a).
  - intros [=]. subst. apply Forall_singleton. by eapply start_request_sends.
  - destruct (await_ack _ _ _ _); [|done]. intros [=]. subst.
    apply Forall_singleton. by eapply start_request_sends.
Qed.
Next Obligation.
  intros a s r s' frames. unfold Connect.
  repeat case_match; try (intros [= _ <- _]; done); try done.
  destruct (await_ack _ _ _ _) as [[]|]; [|..|done]; intros [= _ <- _]; done.
Qed.
End Connect.

(** ** The timeouts *)

Lemma v3_clamp_write_range ms : 50 <= clamp_write ms <= 30000.
Proof.
  unfold clamp_write. destruct (Z.leb_spec ms 0), (Z.ltb_spec ms 50), (Z.ltb_spec 30000 ms); lia.
Qed.

Lemma v3_clamp_stop_range ms : 1000 <= clamp_stop ms <= 60000.
Proof.
  unfold clamp_stop. destruct (Z.leb_spec ms 0), (Z.ltb_spec ms 1000), (Z.ltb_spec 60000 ms); lia.
Qed.

(** ** The configuration *)

(** Setters of different options commute; of two calls of one setter, the last
    counts. *)
Lemma v3_settings_last_wins s s' r :
  if same_option s s' then apply_setting s' (apply_setting s r) = apply_setting s' r
  else apply_setting s' (apply_setting s r) = apply_setting s (apply_setting s' r).
Proof. destruct r, s, s'; reflexivity. Qed.

Definition timeouts_ok (r : SpeechRecognizer) : Prop :=
  50 <= write_timeout_ r <= 30000 /\ 1000 <= stop_timeout_ r <= 60000.

Lemma v3_configure_timeouts ss r : timeouts_ok r -> timeouts_ok (configure ss r).
Proof.
  unfold configure. revert r. induction ss as [|s ss IH]; intros r Hr; [done|]. apply IH.
  destruct Hr as [Hw Hs]. pose proof v3_clamp_write_range. pose proof v3_clamp_stop_range.
  destruct s; split; cbn; auto.
Qed.

(** Whatever timeouts the host asks for, those of its recognizer are in range. *)
Theorem v3_configured_timeouts credential model ss :
  timeouts_ok (configure ss (new_SpeechRecognizer credential model)).
Proof. apply v3_configure_timeouts. unfold timeouts_ok. cbn. lia. Qed.

(** ** Option validation *)

Definition options_ok (r : SpeechRecognizer) : Prop :=
  Z.of_nat (length (voice_id_ r)) <= 128 /\
  diarization_ok (speaker_diarization_ r) (speaker_number_ r) (speaker_roles_ r)
    (voiceprint_ids_ r) /\
  (enable_speaker_context_ r = 0 \/
   (enable_speaker_context_ r = 1 \/ enable_speaker_context_ r = 2) /\
   speaker_diarization_ r <> 0) /\
  vad_tuning_ok (vad_level_ r) (noise_threshold_ r) /\
  (max_speak_time_ r = 0 \/ 5000 <= max_speak_time_ r <= 90000) /\
  (need_vad_ r = 1 -> vad_silence_time_ r = 0 \/ 240 <= vad_silence_time_ r <= 2000) /\
  need_vad_ r ∈ [0; 1] /\ convert_num_mode_ r ∈ [0; 1; 3] /\ filter_dirty_ r ∈ [0; 1; 2] /\
  filter_modal_ r ∈ [0; 1; 2] /\ filter_punc_ r ∈ [0; 1] /\ word_info_ r ∈ [0; 1; 2; 100] /\
  word_with_space_ r ∈ [0; 1] /\ voice_format_ r ∈ [1; 4; 6; 8; 10; 11; 12; 14; 16] /\
  (forall v, filter_empty_result_ r = Some v -> v ∈ [0; 1]) /\ input_sample_rate_ r ∈ [0; 8000].

Lemma ValidateSpeakerContext_validates mode diarization :
  validates (ValidateSpeakerContext mode diarization)
    (mode = 0 \/ (mode = 1 \/ mode = 2) /\ diarization <> 0).
Proof.
  unfold ValidateSpeakerContext, kSpeakerContextOff, kSpeakerContextSync, kSpeakerContextAsync,
    kSpeakerDiarizationOff.
  eapply validates_iff;
    [|apply validates_seq; [apply validates_reject|intros _; apply validates_reject]]. lia.
Qed.


(** ** The start frame, read by the service *)

Section ReadStart.
Context (cast : Z -> double -> Z).

(** The options under the documented keys; a field that was not sent reads as
    its default.  What a frame does not carry is [own]'s. *)
Definition read_options (own : SpeechRecognizer) (j : json) : result SpeechRecognizer :=
  voice_id <-- value_string «"voice_id"» [] j ;;
  engine_model_type <-- value_string «"engine_model_type"» [] j ;;
  language <-- value_string «"language"» [] j ;;
  voice_format <-- value_int cast «"voice_format"» 1 j ;;
  need_vad <-- value_int cast «"needvad"» 1 j ;;
  convert_num_mode <-- value_int cast «"convert_num_mode"» 1 j ;;
  hotword_id <-- value_string «"hotword_id"» [] j ;;
  hotword_list <-- value_string «"hotword_list"» [] j ;;
  filter_dirty <-- value_int cast «"filter_dirty"» 0 j ;;
  filter_modal <-- value_int cast «"filter_modal"» 0 j ;;
  filter_punc <-- value_int cast «"filter_punc"» 0 j ;;
  filter_empty_result <-- read_opt (get_int cast) «"filter_empty_result"» j ;;
  word_info <-- value_int cast «"word_info"» 0 j ;;
  word_with_space <-- value_int cast «"word_with_space"» 0 j ;;
  vad_silence_time <-- value_int cast «"vad_silence_time"» 0 j ;;
  vad_level <-- read_opt (get_int cast) «"vad_level"» j ;;
  noise_threshold <-- read_opt get_double «"noise_threshold"» j ;;
  max_speak_time <-- value_int cast «"max_speak_time"» 0 j ;;
  input_sample_rate <-- value_int cast «"input_sample_rate"» 0 j ;;
  speaker_diarization <-- value_int cast «"speaker_diarization"» 0 j ;;
  speaker_number <-- value_int cast «"speaker_number"» 0 j ;;
  voiceprint_ids <-- optional_list get_string «"voiceprint_ids"» j ;;
  speaker_roles <-- optional_list read_role «"speaker_roles"» j ;;
  enable_speaker_context <-- value_int cast «"enable_speaker_context"» 0 j ;;
  speaker_context_id <-- value_string «"speaker_context_id"» [] j ;;
  Ok (mkSpeechRecognizer (credential_ own) (endpoint_ own) engine_model_type voice_format need_vad
        convert_num_mode hotword_id hotword_list filter_dirty filter_modal filter_punc
        filter_empty_result word_info word_with_space vad_silence_time vad_level noise_threshold
        max_speak_time input_sample_rate speaker_diarization speaker_number speaker_roles
        voiceprint_ids voice_id language enable_speaker_context speaker_context_id
        (write_timeout_ own) (stop_timeout_ own)).

(** The identity, the options, and the report of the SDK. *)
Definition read_start (own : SpeechRecognizer) (j : json)
    : result (str * str * SpeechRecognizer * option json) :=
  type <-- value_string «"type"» [] j ;;
  match jfind «"auth"» j, jfind «"params"» j with
  | Some a, Some p =>
      if bool_decide (type = «"start"») then
        sdkappid <-- value_string «"sdkappid"» [] a ;;
        usersig <-- value_string «"usersig"» [] a ;;
        options <-- read_options own p ;;
        Ok (sdkappid, usersig, options, jfind «"sdk_info"» p)
      else type_error 302 []
  | _, _ => type_error 302 []
  end.
End ReadStart.

#[local] Instance read_options_stable cast own : NormStable (read_options cast own).
Proof. stable_reads. Qed.

(** What the options say once the fields their diarization mode or their
    context mode leave out are dropped. *)
Definition sent_options (r : SpeechRecognizer) : SpeechRecognizer :=
  let enrolled := speaker_diarization_ r =? 3 in
  mkSpeechRecognizer (credential_ r) (endpoint_ r) (engine_model_type_ r) (voice_format_ r)
    (need_vad_ r) (convert_num_mode_ r) (hotword_id_ r) (hotword_list_ r) (filter_dirty_ r)
    (filter_modal_ r) (filter_punc_ r) (filter_empty_result_ r) (word_info_ r)
    (word_with_space_ r) (vad_silence_time_ r) (vad_level_ r) (noise_threshold_ r)
    (max_speak_time_ r) (input_sample_rate_ r) (speaker_diarization_ r)
    (if speaker_diarization_ r =? 0 then 0 else speaker_number_ r)
    (if enrolled then speaker_roles_ r else []) (if enrolled then voiceprint_ids_ r else [])
    (voice_id_ r) (language_ r) (enable_speaker_context_ r)
    (if enable_speaker_context_ r =? 0 then [] else speaker_context_id_ r)
    (write_timeout_ r) (stop_timeout_ r).

Definition options_typed (float_text : double -> str) (r : SpeechRecognizer) : Prop :=
  (int32 (voice_format_ r) /\ int32 (need_vad_ r) /\ int32 (convert_num_mode_ r) /\
   int32 (filter_dirty_ r) /\ int32 (filter_modal_ r) /\ int32 (filter_punc_ r) /\
   int32 (word_info_ r) /\ int32 (word_with_space_ r) /\ int32 (vad_silence_time_ r) /\
   int32 (max_speak_time_ r) /\ int32 (input_sample_rate_ r) /\ int32 (speaker_diarization_ r) /\
   int32 (speaker_number_ r) /\ int32 (enable_speaker_context_ r)) /\
  (forall v, filter_empty_result_ r = Some v -> int32 v) /\
  (forall v, vad_level_ r = Some v -> int32 v) /\
  (forall d, noise_threshold_ r = Some d -> float_reads float_text d).

(** The same assignments, each under its own condition. *)
Definition start_entries (t : target) (r : SpeechRecognizer) : list (str * option json) :=
  let diarized := negb (speaker_diarization_ r =? 0) in
  let enrolled := speaker_diarization_ r =? kSpeakerDiarizationVoiceprint in
  let context := negb (enable_speaker_context_ r =? 0) in
  common_fields t r ++
  [ int_field «"speaker_diarization"» (speaker_diarization_ r);
    («"speaker_number"»,
      when (diarized && negb (speaker_number_ r =? 0)) (JInt (speaker_number_ r))) ] ++
  [ («"voiceprint_ids"»,
      when (enrolled && negb (is_empty (voiceprint_ids_ r))) (JArr (JStr <$> voiceprint_ids_ r)));
    («"speaker_roles"»,
      when (enrolled && negb (is_empty (speaker_roles_ r)))
        (JArr (role_json <$> speaker_roles_ r))) ] ++
  [ int_field «"enable_speaker_context"» (enable_speaker_context_ r);
    («"speaker_context_id"»,
      when (context && negb (is_empty (speaker_context_id_ r))) (JStr (speaker_context_id_ r))) ].

Lemma start_flat t r : start_params t r = assign (start_entries t r) JNull.
Proof.
  unfold start_params, start_fields, start_entries, strs_field. flatten_assign.
Qed.

Lemma start_value {A} (get : json -> result A) key d t r :
  value get key d (start_params t r) =
  match entry (start_entries t r) key with Some v => get v | None => Ok d end.
Proof. rewrite start_flat. apply value_assign. distinct_keys. Qed.

Lemma start_find key t r : jfind key (start_params t r) = entry (start_entries t r) key.
Proof. rewrite start_flat. apply jfind_assign. distinct_keys. Qed.

Lemma start_reads cast float_text own t r :
  options_typed float_text r ->
  credential_ own = credential_ r /\ endpoint_ own = endpoint_ r /\
  write_timeout_ own = write_timeout_ r /\ stop_timeout_ own = stop_timeout_ r ->
  read_options cast own (start_params t r) = Ok (sent_options r).
Proof.
  intros (Hints & He & Hv & _) (Ec & Ee & Ew & Es). destruct_and! Hints.
  unfold read_options, value_string, value_int, read_opt, optional_list.
  rewrite !start_value, !start_find. simpl.
  rewrite !read_str_field, !read_when_str, !read_opt_field by done.
  rewrite !read_int_field, !read_when_int by done. cbn [rbind].
  rewrite !signed_id by done. cbn [rbind].
  rewrite (read_when_arr _ _ _ _ (parse_strs _)). cbn [rbind].
  rewrite (read_when_arr _ _ _ _ (v3_parse_roles _)). cbn [rbind].
  set (noise := match JFloat <$> noise_threshold_ r with Some v => _ | None => _ end).
  assert (noise = Ok (noise_threshold_ r)) as -> by (subst noise; by destruct (noise_threshold_ r)).
  cbn [rbind]. rewrite Ec, Ee, Ew, Es. unfold sent_options, kSpeakerDiarizationVoiceprint.
  do 2 f_equal; try apply guard_list.
  - destruct (Z.eqb_spec (speaker_diarization_ r) 0), (Z.eqb_spec (speaker_number_ r) 0) as [->|];
      done.
  - by destruct (enable_speaker_context_ r =? 0), (speaker_context_id_ r).
Qed.

Lemma start_json_typed float_text t r :
  options_typed float_text r -> json_typed float_text (start_params t r).
Proof.
  intros (Hints & He & Hv & Hn). destruct_and! Hints. rewrite start_flat.
  apply json_typed_assign; [|done]. unfold start_entries, common_fields. typed_entries.
Qed.

(** What precedes the socket: the text of the frame is a JSON document that
    fits, and it reads back to the identity and the options. *)
Section StartTheorem.
Context `{Zlib} (float_text : double -> str) (parse_error : str -> str)
  (cast : Z -> double -> Z) (t : target).

Definition frame_reads (r : SpeechRecognizer) (user_sig text : str) : Prop :=
  exists j, json_parse parse_error text = Ok j /\
    read_start cast r j =
      Ok (to_string (sdk_app_id_ (credential_ r)), user_sig, sent_options r, Some (sdk_info t)).

Lemma start_frame_typed r us :
  options_typed float_text r -> json_typed float_text (start_frame t r us).
Proof.
  intros Ht. unfold start_frame.
  apply json_typed_jset; [by apply start_json_typed|].
  apply json_typed_jset; repeat (apply json_typed_jset; [exact I|]); exact I.
Qed.

Lemma read_start_frame r us :
  options_typed float_text r ->
  read_start cast r (norm (start_frame t r us)) =
  Ok (to_string (sdk_app_id_ (credential_ r)), us, sent_options r, Some (sdk_info t)).
Proof.
  intros Ht. unfold read_start. rewrite !jfind_norm.
  change (jfind «"params"» (start_frame t r us)) with (Some (start_params t r)).
  set (id := to_string (sdk_app_id_ (credential_ r))).
  set (auth := JObj [(«"sdkappid"», JStr id); («"usersig"», JStr us)]).
  change (jfind «"auth"» (start_frame t r us)) with (Some auth).
  change (value_string «"type"» [] (norm (start_frame t r us))) with (Ok (A:=str) «"start"»).
  cbn [fmap option_fmap option_map rbind]. rewrite bool_decide_eq_true_2 by done.
  change (value_string «"sdkappid"» [] (norm auth)) with (Ok id).
  change (value_string «"usersig"» [] (norm auth)) with (Ok us).
  cbn [rbind]. rewrite norm_stable, (start_reads _ float_text) by done. cbn [rbind].
  rewrite jfind_norm, start_find. reflexivity.
Qed.

Lemma start_request_spec r now text url :
  start_request float_text t r now = Ok (text, url) ->
  exists user_sig base,
    resolve_user_sig (credential_ r) (voice_id_ r) now = Ok user_sig /\
    dump float_text (start_frame t r user_sig) = Ok text /\
    Z.of_nat (length text) <= kStartFrameMaxBytes /\
    ResolveWSEndpoint (endpoint_ r) (site_ (credential_ r)) = Ok base /\
    url = base ++ «"/asr/v3?voice_id="» ++ voice_id_ r.
Proof.
  unfold start_request. intros E. apply rbind_ok in E as (us & Hus & E).
  apply rbind_ok in E as (text' & Ht & E). apply rbind_ok in E as ([] & Hl & E).
  apply rbind_ok in E as (base & Hb & E). apply Ok_inj in E. injection E as -> <-.
  apply reject_if_ok, Z.ltb_ge in Hl. exists us, base. by split_and!.
Qed.
End StartTheorem.

(** ** The wait for the acknowledgement *)

Section Wait.
Context (parse_error : str -> str) (cast : Z -> double -> Z).
Abbreviation await_ack := (await_ack parse_error cast).
Abbreviation ack_step := (ack_step parse_error cast).

Definition goes_on (deadline : Z) (read : read_result * Z) : Prop :=
  ack_step deadline read.1 read.2 = None.

Lemma await_ack_some deadline reads e :
  await_ack deadline reads = Some e <->
  exists before r now after, reads = before ++ (r, now) :: after /\
    Forall (goes_on deadline) before /\ ack_step deadline r now = Some e.
Proof.
  induction reads as [|[r now] reads IH]; cbn [V3Recognizer.await_ack].
  { split; [done|]. intros (before & r & now & after & E & _). by destruct before. }
  destruct (ack_step deadline r now) as [e'|] eqn:E.
  - split.
    + intros [= <-]. by exists [], r, now, reads.
    + intros (before & r' & now' & after & Er & Hb & Ea). destruct before as [|x before].
      * injection Er as -> -> ->. congruence.
      * injection Er as <- ->. apply Forall_cons in Hb as [Hx _]. unfold goes_on in Hx. cbn in Hx.
        congruence.
  - rewrite IH. split; intros (before & r' & now' & after & Er & Hb & Ea).
    + exists ((r, now) :: before), r', now', after. rewrite Er. split_and!; [done| |done].
      by constructor.
    + destruct before as [|x before]; [injection Er as -> -> ->; congruence|].
      injection Er as <- ->. apply Forall_cons in Hb as [_ Hb].
      by exists before, r', now', after.
Qed.

Lemma await_ack_none deadline reads :
  await_ack deadline reads = None <-> Forall (goes_on deadline) reads.
Proof.
  induction reads as [|[r now] reads IH]; cbn [V3Recognizer.await_ack]; [by split|].
  rewrite Forall_cons, <- IH. unfold goes_on. cbn [fst snd].
  destruct (ack_step deadline r now); naive_solver.
Qed.

(** The wait outlasts a timeout before the deadline, and any frame that is
    neither text nor close. *)
Lemma goes_on_iff deadline r now :
  goes_on deadline (r, now) <->
  (r = ReadTimeout /\ now < deadline) \/
  (exists f, r = ReadFrame f /\ opcode f <> 0x1 /\ opcode f <> 0x8).
Proof.
  unfold goes_on. cbn. destruct r as [|err|f]; cbn.
  - destruct (Z.leb_spec deadline now); naive_solver lia.
  - naive_solver.
  - destruct (Z.eqb_spec (opcode f) 8), (Z.eqb_spec (opcode f) 1); cbn; naive_solver.
Qed.

(** Reads that time out, each at least [kReadPollMs] after the one before. *)
Fixpoint silent (from : Z) (reads : list (read_result * Z)) : Prop :=
  match reads with
  | [] => True
  | (r, now) :: reads' => r = ReadTimeout /\ from + kReadPollMs <= now /\ silent now reads'
  end.

Lemma silent_ends timeout from reads :
  silent from reads -> timeout <= kReadPollMs * Z.of_nat (length reads) -> 0 < timeout ->
  await_ack (from + timeout) reads = Some (ack_failed «": ack timeout"»).
Proof.
  revert timeout from; induction reads as [|[r now] reads IH]; intros timeout from; cbn [silent].
  { cbn. lia. }
  intros (-> & Hn & Hs). rewrite length_cons. unfold kReadPollMs in *. intros Hl Ht.
  cbn [V3Recognizer.await_ack V3Recognizer.ack_step].
  destruct (Z.leb_spec (from + timeout) now); [done|].
  replace (from + timeout) with (now + (from + timeout - now)) by lia. apply IH; [done|lia..].
Qed.

(** C40: A server that stays silent is given up after as many reads as the timeout
    holds polls, 50 or 150, and the connection is closed.  But the clock is
    looked at only when a read times out: frames that are neither text nor
    close keep [Connect] waiting past any deadline. *)
Theorem ack_wait r from :
  (forall reads, silent from reads ->
     (if (enable_speaker_context_ r =? 1) && negb (is_empty (speaker_context_id_ r))
      then 150 else 50) <= Z.of_nat (length reads) ->
     await_ack (from + AckTimeout r) reads =
       Some (AckFailed (AsrExn (asr_error kErrReadFailed «"read start ack failed: ack timeout"»)) true)) /\
  (forall n late, exists reads, length reads = n /\ Forall (fun x => late <= x.2) reads /\
     await_ack (from + AckTimeout r) reads = None).
Proof.
  split.
  - intros reads Hs Hl. apply silent_ends; [done|..];
      unfold AckTimeout, kAckTimeout, kSpeakerContextAckTimeout, kSpeakerContextSync, kReadPollMs;
      destruct (_ && _); lia.
  - intros n late. exists (replicate n (ReadFrame (mkWsFrame 2 [] true), late)).
    split; [apply length_replicate|]. rewrite await_ack_none.
    split; apply Forall_replicate; [done|]. apply goes_on_iff. right. eexists. by split_and!.
Qed.
End Wait.

(** ** The connection *)

Section ConnectTheorems.
Context `{Zlib} (float_text : double -> str) (parse_error : str -> str)
  (cast : Z -> double -> Z) (t : target).
Abbreviation Connect := (Connect float_text parse_error cast t).

(** The recognizer after [Connect] has settled its voice id. *)
Definition named (a : attempt) (s : session SpeechRecognizer) : SpeechRecognizer :=
  with_voice_id (resolve_voice_id (s_config s) (at_uuid a)) (s_config s).

Lemma start_request_throw r now e :
  start_request float_text t r now = Throw e ->
  sdk_failure [kErrInvalidParam; kErrAuthFailed] e \/
  exists us, json_utf8 (start_frame t r us) = false.
Proof.
  unfold start_request. intros E. apply rbind_throw in E as [E|(us & _ & E)].
  { left. apply resolve_user_sig_throw in E as [m ->]. eexists. split; [done|by right; left]. }
  apply rbind_throw in E as [E|(text & _ & E)].
  { right. exists us. by eapply dump_throw_utf8. }
  left. apply (sdk_failure_mono [kErrInvalidParam]); [|intros c ->%list_elem_of_singleton; by left].
  apply rbind_throw in E as [E|([] & _ & E)].
  { exact (validates_failure _ _ _ (validates_reject _ _) E). }
  apply rbind_throw in E as [E|(base & _ & E)]; [by eapply ResolveWSEndpoint_throw|discriminate].
Qed.

(** The text is that of [r]'s start frame, made at time [now]: within its limit,
    and readable as the identity, the ticket, the options and the report of the
    SDK; the URL dialled with it names the voice id. *)
Definition starts (r : SpeechRecognizer) (now : Z) (text : str) : Prop :=
  exists user_sig base,
    Z.of_nat (length text) <= 65536 /\
    resolve_user_sig (credential_ r) (voice_id_ r) now = Ok user_sig /\
    start_request float_text t r now = Ok (text, base ++ «"/asr/v3?voice_id="» ++ voice_id_ r) /\
    frame_reads parse_error cast t r user_sig text.

Lemma start_request_starts r now text url :
  options_typed float_text r -> start_request float_text t r now = Ok (text, url) ->
  starts r now text.
Proof.
  intros Ht E. pose proof E as E'.
  apply start_request_spec in E' as (us & base & Hus & Hd & Hl & _ & ->).
  exists us, base. split_and!; [exact Hl|exact Hus|exact E|].
  exists (norm (start_frame t r us)). split.
  - eapply json_parse_dumped; [apply start_frame_typed, Ht|exact Hd].
  - exact (read_start_frame float_text cast t r us Ht).
Qed.

(** C27: [Connect] hands at most one frame to the socket: the text of at most 64 KiB
    that reads back to the identity of the caller, its ticket for this voice
    id, the options in force and the report of the SDK. *)
Theorem start_frame_sent a s res s' frames :
  options_typed float_text (s_config s) -> Connect a s = Some (res, s', frames) ->
  s_config s' = named a s /\
  (frames = [] \/ exists text ok, frames = [(0x1, text, ok)] /\ starts (named a s) (at_time a) text).
Proof.
  intros Ht. unfold V3Recognizer.Connect. fold (named a s).
  destruct (start_request _ _ _ _) as [[text url]|e] eqn:E;
    [|intros [=]; subst; split; [done|by left]].
  apply start_request_starts in E; [|exact Ht].
  destruct (dial_err a); [intros [=]; subst; split; [done|by left]|].
  destruct (send_err a); [intros [=]; subst; split; [done|right; by eexists _, _]|].
  destruct (await_ack _ _ _ _) as [[c|e closed]|]; [..|done];
    (intros [=]; subst; split; [done|right; by eexists _, _]).
Qed.

(** An acknowledgement in a text frame. *)
Definition acked_by (text : str) (c : option SpeakerContinue) : Prop :=
  exists ack, json_parse parse_error text = Ok ack /\ value_int cast «"code"» 0 ack = Ok 0 /\
    read_continue ack = Ok c.

Lemma read_ack_spec text :
  match read_ack parse_error cast text with
  | Acked c => acked_by text c
  | AckFailed e closed => closed = true \/ exists w, e = StdExn w
  end.
Proof.
  unfold read_ack. destruct (json_parse _ _) as [ack|e] eqn:E; [|by left].
  destruct (value_int _ _ _ _) as [code|e] eqn:Ec; [|right; revert Ec; apply json_throws].
  destruct (Z.eqb_spec code 0) as [->|]; cbn [negb].
  - destruct (read_continue ack) as [c|e] eqn:Er; [by exists ack|]. right.
    unfold read_continue in Er. repeat case_match; try done.
    revert Er. apply rbind_throws; [apply json_throws|intros ?].
    apply rbind_throws; [apply json_throws|done].
  - destruct (value_string _ _ _); by left.
Qed.

Lemma ack_step_spec deadline r now e :
  ack_step parse_error cast deadline r now = Some e ->
  match e with
  | Acked c => exists f, r = ReadFrame f /\ opcode f = 0x1 /\ acked_by (payload f) c
  | AckFailed e closed => closed = true \/ exists w, e = StdExn w
  end.
Proof.
  destruct r as [|err|f]; cbn.
  - destruct (deadline <=? now); [|done]. intros [= <-]. by left.
  - intros [= <-]. by left.
  - destruct (opcode f =? 8); [intros [= <-]; by left|].
    destruct (Z.eqb_spec (opcode f) 1); cbn [negb]; [|done]. intros [= <-].
    pose proof (read_ack_spec (payload f)) as Hs. by destruct (read_ack _ _ _); [exists f|].
Qed.

(** C31: How [Connect] ends.  It returns only on an acknowledgement with code 0,
    whose speaker context it keeps, and then the connection is open.  An
    exception before the dial or on the first send leaves the session as it
    was; one during the wait has closed the connection, unless it is an
    exception of the JSON library, which can leave the connection open. *)
Theorem connect_ends a s res s' frames :
  Connect a s = Some (res, s', frames) ->
  match res with
  | Ok _ =>
      s_conn s' = true /\ s_shut s' = false /\
      exists before f now after c,
        ack_reads a = before ++ (ReadFrame f, now) :: after /\ opcode f = 0x1 /\
        acked_by (payload f) c /\ s_continue s' = (if c is Some _ then c else s_continue s)
  | Throw e =>
      s_continue s' = s_continue s /\
      match frames with
      | (_, _, true) :: _ =>
          s_conn s' = false /\ s_shut s' = true \/
          s_conn s' = true /\ exists w, e = StdExn w
      | _ =>
          s_conn s' = s_conn s /\ s_shut s' = s_shut s /\
          (sdk_failure [kErrInvalidParam; kErrAuthFailed; kErrConnectFailed; kErrWriteFailed] e \/
           exists us, json_utf8 (start_frame t (named a s) us) = false)
      end
  end.
Proof.
  unfold V3Recognizer.Connect. fold (named a s).
  destruct (start_request _ _ _ _) as [[text url]|e] eqn:E.
  2:{ intros [=]. subst. split_and!; [done..|].
      apply start_request_throw in E as [E|E]; [left|by right].
      apply (sdk_failure_mono _ _ _ E). set_solver. }
  destruct (dial_err a).
  { intros [=]. subst. split_and!; [done..|]. left. eexists. split; [done|set_solver]. }
  destruct (send_err a).
  { intros [=]. subst. split_and!; [done..|]. left. eexists. split; [done|set_solver]. }
  destruct (await_ack _ _ _ _) as [[c|e closed]|] eqn:Ea; [..|done]; intros [=]; subst;
    apply await_ack_some in Ea as (before & r & now & after & Hr & _ & Es);
    apply ack_step_spec in Es; cbn.
  - destruct Es as (f & -> & Hf & Hc). split_and!; [done..|].
    exists before, f, now, after, c. by split_and!.
  - split; [done|]. destruct closed; [by left|]. right. split; [done|]. by destruct Es.
Qed.

(** The handshake of [a] gets as far as a text frame, [f]. *)
Definition answered (a : attempt) (s : session SpeechRecognizer) (text : str) (f : WsFrame) : Prop :=
  exists url before now after,
    start_request float_text t (named a s) (at_time a) = Ok (text, url) /\
    dial_err a = None /\ send_err a = None /\
    ack_reads a = before ++ (ReadFrame f, now) :: after /\
    Forall (goes_on parse_error cast (at_clock a + AckTimeout (named a s))) before /\
    opcode f = 0x1.

Lemma answered_connect a s text f :
  answered a s text f ->
  Connect a s = Some (after_ack (named a s) (s_continue s) (read_ack parse_error cast (payload f)),
                      [(0x1, text, true)]).
Proof.
  intros (url & before & now & after & Hs & Hd & He & Hr & Hb & Hf).
  unfold V3Recognizer.Connect. fold (named a s). rewrite Hs, Hd, He.
  rewrite (proj2 (await_ack_some _ _ _ _ (read_ack parse_error cast (payload f)))); [done|].
  exists before, (ReadFrame f), now, after. split_and!; [exact Hr|exact Hb|]. cbn. by rewrite Hf.
Qed.
End ConnectTheorems.

(** ** Witnesses: a voiceprint session that resumes a speaker context *)

Definition demo_recognizer : SpeechRecognizer :=
  mkSpeechRecognizer (set_user_sig (NewCredential 1400000000 «"key"») «"sig"») [] «"16k_zh_en"» 1 1 0
    [] «"name|11"» 0 2 0 (Some 1) 100 1 500 (Some 0) None 60000 8000 3 2
    [mkSpeakerRole «"host"» «"https://example.com/host.wav"»] [«"vp-1"»] «"v-1"» «"zh"» 1 «"ctx-1"»
    5000 10000.

Definition demo_text (j : json) : str :=
  match dump (fun _ => []) j with Ok text => text | Throw _ => [] end.

Definition demo_ack : str :=
  demo_text (JObj [(«"code"», JInt 0);
    («"speaker_continue"»,
     JObj [(«"continue_status"», JStr «"success"»); («"speaker_context_id"», JStr «"ctx-2"»)])]).

(** A quiet poll, a binary frame, and a text frame. *)
Definition demo_attempt (text : str) : attempt :=
  mkAttempt «"uuid"» 1700000000 None None 0
    [(ReadTimeout, 100); (ReadFrame (mkWsFrame 2 [] true), 150);
     (ReadFrame (mkWsFrame 1 text true), 160)].

Definition demo_session : session SpeechRecognizer :=
  mkSession demo_recognizer None false false.

Abbreviation demo_Connect :=
  (@Connect stored_zlib (fun _ => []) (fun s => s) (fun _ _ => 0) linux_target).

Lemma demo_typed : options_typed (fun _ => []) demo_recognizer.
Proof.
  split; [split_and!; by vm_compute|]. split_and!; [| |discriminate]; intros v [= <-]; by vm_compute.
Qed.


(** The service reads the options of the session, all of which are sent. *)
Lemma start_frame_sent_witness :
  exists text j, ((fun x => x.2) <$> demo_Connect (demo_attempt demo_ack) demo_session) =
      Some [(0x1, text, true)] /\
    json_parse (fun s => s) text = Ok j /\
    read_start (fun _ _ => 0) demo_recognizer j =
      Ok («"1400000000"», «"sig"», demo_recognizer, Some (sdk_info linux_target)).
Proof.
  destruct (demo_Connect (demo_attempt demo_ack) demo_session) as [[[res s'] frames]|] eqn:E;
    [|by vm_compute in E].
  destruct (@start_frame_sent stored_zlib (fun _ => []) (fun s => s) (fun _ _ => 0) linux_target
    (demo_attempt demo_ack) demo_session res s' frames demo_typed E) as [_ [Hf|Hf]].
  { exfalso. subst frames. vm_compute in E. discriminate. }
  destruct Hf as (text & ok & Hf & us & base & _ & Hus & _ & j & Hj & Hr).
  vm_compute in Hus. injection Hus as <-.
  exists text, j. split_and!; [|exact Hj|exact Hr].
  rewrite Hf in *. destruct ok; [done|]. vm_compute in E. discriminate.
Defined.

(** The acknowledgement is found behind the quiet poll and the binary frame,
    and its speaker context is kept. *)
Lemma connect_ends_witness :
  exists s' frames f, demo_Connect (demo_attempt demo_ack) demo_session = Some (Ok tt, s', frames) /\
    s_conn s' = true /\ s_continue s' = Some (mkSpeakerContinue «"success"» «"ctx-2"») /\
    acked_by (fun s => s) (fun _ _ => 0) (payload f)
      (Some (mkSpeakerContinue «"success"» «"ctx-2"»)).
Proof.
  assert (exists s' frames, demo_Connect (demo_attempt demo_ack) demo_session = Some (Ok tt, s', frames)
    /\ s_continue s' = Some (mkSpeakerContinue «"success"» «"ctx-2"»))
    as (s' & frames & E & Hs) by (eexists _, _; vm_compute; split; reflexivity).
  destruct (@connect_ends stored_zlib (fun _ => []) (fun s => s) (fun _ _ => 0) linux_target
    _ _ _ _ _ E) as (Hc & _ & before & f & now & after & c & _ & _ & Ha & Hk).
  exists s', frames, f. split_and!; [exact E|exact Hc|exact Hs|].
  rewrite Hs in Hk. destruct c; [|discriminate]. by rewrite Hk.
Defined.

(** An acknowledgement that is not an object: the exception of the JSON library
    leaves the connection open. *)
Example ack_leaves_open :
  (fun x => s_conn x.1.2) <$> demo_Connect (demo_attempt «"[]"») demo_session = Some true.
Proof. vm_compute. reflexivity. Qed.

Lemma ack_wait_witness :
  await_ack (fun s => s) (fun _ _ => 0) 15000
    ((fun i => (ReadTimeout, 100 * Z.of_nat (S i))) <$> seq 0 150) =
  Some (AckFailed (AsrExn (asr_error kErrReadFailed «"read start ack failed: ack timeout"»)) true).
Proof.
  apply (proj1 (ack_wait (fun s => s) (fun _ _ => 0) demo_recognizer 0)); [|by vm_compute].
  vm_compute. repeat split; discriminate.
Defined.
