(* ===== verification/Lifecycle.v ===== *)
(** * Realtime recognizer: threads and state machine (src/speech_recognizer.cc)

    [SpeechRecognizer::Start], [Write], [Stop], the destructor, the reader
    thread ([ReadLoop], [ReadLoopInner], [DispatchEvent]) and the stop watchdog
    over [RecognizerSharedState], as one executable step function.  A step is
    one access to shared state, one lock operation or one call that leaves the
    SDK; any interleaving of the threads is a sequence of steps.

    A thread's position in an API call is a [pc], named after the statement it
    is about to execute.  The reader's position is the list [todo] of the
    statements left to it, which branches extend and [return] cuts.  A critical
    section that makes a single access ([conn_mu], [tid_mu]) is one step;
    [write_mu] and [done_mu] have owners, and [done_cv] its sleepers.  What the
    SDK does not decide is the [choice] of a step: the outcome of a network
    call, a wake-up, a user call or a user exception. *)

From stdpp Require Export functions.
From S2P Require Import Prelude Double Json JsonRead WsFrame Types Protocol.

Open Scope Z_scope.

(** ** Threads, calls and events *)

Abbreviation tid := nat.

(** The thread [Start] creates. *)
Definition reader : tid := 0%nat.

Definition kStateIdle_ : Z := 0.
Definition kStateStarting_ : Z := 1.
Definition kStateRunning_ : Z := 2.
Definition kStateStopping_ : Z := 3.
Definition kStateStopped_ : Z := 4.

(** The API calls.  The audio of [Write] is a pointer, null for [None], and a
    length. *)
Inductive call :=
  | CallStart
  | CallWrite (data : option str) (len : Z)
  | CallStop
  | CallDestroy.

Inductive callback :=
  | OnRecognitionStart (resp : SpeechRecognitionResponse)
  | OnSentenceBegin (resp : SpeechRecognitionResponse)
  | OnRecognitionResultChange (resp : SpeechRecognitionResponse)
  | OnSentenceEnd (resp : SpeechRecognitionResponse)
  | OnRecognitionComplete (resp : SpeechRecognitionResponse)
  | OnFail (resp : option SpeechRecognitionResponse) (err : ASRError).

(** Where a thread is in [WaitForReadLoopOrClose].  [UntilSleep] and the like
    are inside a [done_cv] wait, with [done_mu] released; [UntilWoke] and the
    like have been woken and must lock again. *)
Inductive wait_pc :=
  | WaitEnter                    (* lock done_mu; deadline = now + stop_timeout *)
  | WaitTop (deadline : Z)       (* while (true) { if (done) return; ... *)
  | DoneSleep | DoneWoke         (* done_cv.wait(lock, [this] { return done; }) *)
  | UntilSleep (deadline : Z) | UntilWoke (deadline : Z) (timeout : bool)
  | TimedOut (deadline : Z)      (* wait_until reported a timeout *)
  | WaitClose                    (* Close() *)
  | WaitBrief | ForSleep (deadline : Z) | ForWoke  (* done_cv.wait_for(lock, 300ms) *)
  | WaitExit.                    (* unlock and return *)

(** What follows the wait in its caller. *)
Inductive wait_for :=
  | ThenReturn | ThenStoreStopped | ThenEndWatchdog.

Inductive stop_send := AlreadyStopped | SendFailed (err : str) | Sent.

Inductive pc :=
  | Outside
  (* Start *)
  | StartCas | StartValidate | StartConnect
  | StartThrow (e : exn) | StartRun | StartTimeout | StartThread
  (* Write *)
  | WriteCheck (data : option str) (len : Z) | WriteConn (data : str) | WriteLock (data : str)
  | WriteRecheck (data : str) | WriteSend (data : str) | WriteUnlock (r : result unit)
  (* Stop *)
  | StopCas | StopConn | StopNoConn | StopLock | StopRecheck | StopSend
  | StopUnlock (o : stop_send)
  | StopFailed (err : str) | StopClose (err : str) | StopThrow (err : str)
  | StopReentrant | StopStore
  | Waiting (w : wait_pc) (next : wait_for)
  (* the destructor *)
  | DtorCheck | DtorJoin.

(** The statements of the reader thread. *)
Inductive stmt :=
  | SetReaderTid
  | Callback (cb : callback) (shielded : bool)
  | GetConn                    (* conn = shared->conn; if (!conn) return *)
  | Read                       (* the top of the read loop *)
  | ReturnIfStopped            (* if (state == kStateStopped_) return *)
  | ReturnIfStopping           (* if (state >= kStateStopping_) return *)
  | SetContinue (c : SpeakerContinue)
  | Finish
  | Close                      (* the second half of Finish *)
  | StoreTerminal              (* MarkTerminalReceived, under done_mu *)
  | Notify
  | StoreDone                  (* SignalDone, under done_mu *)
  | Raise (e : option str)     (* an exception escapes; None: not std::exception *)
  | Return.

(** What the host observes: calls, their outcomes, and callbacks with the
    state at delivery. *)
Inductive observation :=
  | Called (t : tid) (c : call)
  | Returned (t : tid) (r : result unit)
  | Delivered (cb : callback) (at_state : Z).

Section Lifecycle.
Context {P : Protocol}.

Record world := mkWorld {
  (* SpeechRecognizer *)
  config : config_t; speaker_continue_ : option SpeakerContinue;
  (* RecognizerSharedState *)
  state : Z; conn : bool; write_mu : option tid; done_mu : option tid;
  done_ : bool; terminal_received : bool; finish_once : bool; reader_tid : bool;
  stop_timeout : Z;
  (* the socket: shut down, and the frames handed to it with their success *)
  shut : bool; wire : list sent;
  (* threads *)
  pcs : tid -> pc; in_dtor : tid -> bool;
  todo : option (list stmt); in_callback : option bool;
  destroyed : bool;
  now : Z; history : list observation
}.

(** Record update: [update w f v] is [w] with field [f] set to [v]. *)
Ltac update w f v :=
  let e := constr:(mkWorld (config w) (speaker_continue_ w) (state w) (conn w) (write_mu w)
    (done_mu w) (done_ w) (terminal_received w) (finish_once w) (reader_tid w) (stop_timeout w)
    (shut w) (wire w) (pcs w) (in_dtor w) (todo w) (in_callback w) (destroyed w) (now w)
    (history w)) in
  let e := eval pattern (f w) in e in
  match e with ?g _ => let e := eval cbv beta in (g v) in exact e end.

Definition set_config v w : world := ltac:(update w config v).
Definition set_continue v w : world := ltac:(update w speaker_continue_ v).
Definition set_state v w : world := ltac:(update w state v).
Definition set_conn v w : world := ltac:(update w conn v).
Definition set_write_mu v w : world := ltac:(update w write_mu v).
Definition set_done_mu v w : world := ltac:(update w done_mu v).
Definition set_done v w : world := ltac:(update w done_ v).
Definition set_terminal v w : world := ltac:(update w terminal_received v).
Definition set_finish_once v w : world := ltac:(update w finish_once v).
Definition set_reader_tid v w : world := ltac:(update w reader_tid v).
Definition set_stop_timeout v w : world := ltac:(update w stop_timeout v).
Definition set_shut v w : world := ltac:(update w shut v).
Definition set_wire v w : world := ltac:(update w wire v).
Definition set_pcs v w : world := ltac:(update w pcs v).
Definition set_in_dtor v w : world := ltac:(update w in_dtor v).
Definition set_todo v w : world := ltac:(update w todo v).
Definition set_in_callback v w : world := ltac:(update w in_callback v).
Definition set_destroyed v w : world := ltac:(update w destroyed v).
Definition set_now v w : world := ltac:(update w now v).
Definition set_history v w : world := ltac:(update w history v).

Definition init (r : config_t) : world :=
  mkWorld r None kStateIdle_ false None None false false false false 10000 false []
    (fun _ => Outside) (fun _ => false) None None false 0 [].

Definition goto (t : tid) (p : pc) (w : world) : world := set_pcs (<[t := p]> (pcs w)) w.
Definition observe (o : observation) (w : world) : world := set_history (history w ++ [o]) w.

(** The call of [t] ends with [r]; inside the destructor its exceptions are
    swallowed and the join follows. *)
Definition ret (t : tid) (r : result unit) (w : world) : world :=
  if in_dtor w t then goto t DtorJoin w else observe (Returned t r) (goto t Outside w).

(** [RecognizerSharedState::Close] *)
Definition close_conn (w : world) : world :=
  if conn w then set_conn false (set_shut true w) else w.

Definition send (opcode : Z) (payload : str) (err : option str) (w : world) : world :=
  set_wire (wire w ++ [(opcode, payload, if err is None then true else false)]) w.

(** [done_cv.notify_all()] *)
Definition wake (p : pc) : pc :=
  match p with
  | Waiting DoneSleep n => Waiting DoneWoke n
  | Waiting (UntilSleep d) n => Waiting (UntilWoke d false) n
  | Waiting (ForSleep d) n => Waiting ForWoke n
  | p => p
  end.

Definition notify_all (w : world) : world := set_pcs (fun t => wake (pcs w t)) w.

(** ** The choices a step depends on *)

Inductive choice :=
  | Go
  | Dial (a : attempt_t)      (* what [Connect] depends on *)
  | SendResult (err : option str)
  | ReadResult (r : read_result)
  | Wake | Expire
  | Spawn (watchdog : tid).

(** ** Functions of the recognizer, by statement *)

Context (json_parse : str -> result json) (cast : Z -> double -> Z).

(** [Connect], as one step: the rest of the program does not look at the
    connection before the recognizer runs. *)
Definition connect_world (a : attempt_t) (w : world) : option (result unit * world) :=
  '(r, s, frames) ←
    connect_session a (mkSession (config w) (speaker_continue_ w) (conn w) (shut w));
  Some (r, set_wire (wire w ++ frames) (set_shut (s_shut s) (set_conn (s_conn s)
             (set_continue (s_continue s) (set_config (s_config s) w))))).

Definition start_response (w : world) : SpeechRecognitionResponse :=
  mkSpeechRecognitionResponse 0 «"success"» (session_voice_id (config w)) [] 0 empty_result false
    (if ack_continue then speaker_continue_ w else None).

Definition ReadLoopInner (w : world) : list stmt :=
  [ Callback (OnRecognitionStart (start_response w)) false;
    GetConn; Read ].

(** [ReadLoop], and what it does once [ReadLoopInner] is over. *)
Definition read_loop_exit : list stmt := [Finish; StoreDone; Notify].

Definition ReadLoop (w : world) : list stmt :=
  SetReaderTid :: ReadLoopInner w ++ read_loop_exit.

Definition start_step (t : tid) (p : pc) (c : choice) (w : world) : option world :=
  match p, c with
  | StartCas, Go =>
      if state w =? kStateIdle_ then Some (goto t StartValidate (set_state kStateStarting_ w))
      else Some (ret t (throw_asr kErrAlreadyStarted «"recognizer already started"») w)
  | StartValidate, Go =>
      match validate_options (config w) with
      | Throw e => Some (goto t (StartThrow e) w)
      | Ok _ => Some (goto t StartConnect w)
      end
  | StartConnect, Dial a =>
      '(r, w) ← connect_world a w;
      Some (goto t (if r is Throw e then StartThrow e else StartRun) w)
  | StartThrow e, Go => Some (ret t (Throw e) (set_state kStateIdle_ w))
  | StartRun, Go => Some (goto t StartTimeout (set_state kStateRunning_ w))
  | StartTimeout, Go =>
      Some (goto t StartThread (set_stop_timeout (config_stop_timeout (config w)) w))
  | StartThread, Go => Some (ret t (Ok tt) (set_todo (Some (ReadLoop w)) w))
  | _, _ => None
  end.

Definition not_running : result unit := throw_asr kErrNotStarted «"recognizer not running"».
Definition not_established : result unit :=
  throw_asr kErrNotStarted «"connection not established"».

(** The checks on the arguments of [Write]: the bytes it is given. *)
Definition write_args (data : option str) (len : Z) : result str :=
  bytes <--
    match data with
    | Some d => Ok (take (Z.to_nat len) d)
    | None =>
        if 0 <? len then throw_asr kErrInvalidParam «"audio data pointer is null"» else Ok []
    end ;;
  match frame_limit with
  | Some limit =>
      if Z.of_N limit <? len
      then throw_asr kErrInvalidParam
             («"audio frame exceeds "» ++ to_string (Z.of_N limit) ++ «" bytes"»)
      else Ok bytes
  | None => Ok bytes
  end.

Definition write_step (t : tid) (p : pc) (c : choice) (w : world) : option world :=
  match p, c with
  | WriteCheck data len, Go =>
      match write_args data len with
      | Throw e => Some (ret t (Throw e) w)
      | Ok d =>
          if negb (state w =? kStateRunning_) then Some (ret t not_running w)
          else Some (goto t (WriteConn d) w)
      end
  | WriteConn d, Go =>
      if conn w then Some (goto t (WriteLock d) w) else Some (ret t not_established w)
  | WriteLock d, Go =>
      match write_mu w with
      | None => Some (goto t (WriteRecheck d) (set_write_mu (Some t) w))
      | Some _ => None
      end
  | WriteRecheck d, Go =>
      if negb (state w =? kStateRunning_) then Some (goto t (WriteUnlock not_running) w)
      else Some (goto t (WriteSend d) w)
  | WriteSend d, SendResult err =>
      Some (goto t (WriteUnlock
              match err with
              | None => Ok tt
              | Some e => throw_asr kErrWriteFailed («"write audio data failed: "» ++ e)
              end) (send 0x2 d err w))
  | WriteUnlock r, Go => Some (ret t r (set_write_mu None w))
  | _, _ => None
  end.

(** [CalledFromListenerCallback] on thread [t]. *)
Definition CalledFromListenerCallback (t : tid) (w : world) : bool :=
  reader_tid w && bool_decide (t = reader).

Definition stop_step (t : tid) (p : pc) (c : choice) (w : world) : option world :=
  match p, c with
  | StopCas, Go =>
      if state w =? kStateRunning_ then Some (goto t StopConn (set_state kStateStopping_ w))
      else Some (ret t not_running w)
  | StopConn, Go => Some (goto t (if conn w then StopLock else StopNoConn) w)
  | StopNoConn, Go => Some (ret t not_established (set_state kStateStopped_ w))
  | StopLock, Go =>
      match write_mu w with
      | None => Some (goto t StopRecheck (set_write_mu (Some t) w))
      | Some _ => None
      end
  | StopRecheck, Go =>
      Some (goto t (if state w =? kStateStopped_ then StopUnlock AlreadyStopped else StopSend) w)
  | StopSend, SendResult err =>
      Some (goto t (StopUnlock match err with None => Sent | Some e => SendFailed e end)
              (send 0x1 end_signal err w))
  | StopUnlock o, Go =>
      Some (goto t
              match o with
              | AlreadyStopped => Waiting WaitEnter ThenReturn
              | SendFailed e => StopFailed e
              | Sent => StopReentrant
              end (set_write_mu None w))
  | StopFailed e, Go =>
      Some (goto t (if state w =? kStateStopped_ then Waiting WaitEnter ThenReturn
                    else StopClose e) w)
  | StopClose e, Go => Some (goto t (StopThrow e) (close_conn w))
  | StopThrow e, Go =>
      Some (ret t (throw_asr kErrWriteFailed («"send end signal failed: "» ++ e))
              (set_state kStateStopped_ w))
  | StopReentrant, Go =>
      if CalledFromListenerCallback t w then None
      else Some (goto t (Waiting WaitEnter ThenStoreStopped) w)
  | StopReentrant, Spawn wd =>
      (* [wd] is a fresh, detached thread *)
      match CalledFromListenerCallback t w, pcs w wd with
      | true, Outside =>
          if decide (wd = t) then None
          else Some (ret t (Ok tt) (goto wd (Waiting WaitEnter ThenEndWatchdog) w))
      | _, _ => None
      end
  | StopStore, Go => Some (ret t (Ok tt) (set_state kStateStopped_ w))
  | _, _ => None
  end.

(** [WaitForReadLoopOrClose] *)
Definition wait_step (t : tid) (p : wait_pc) (n : wait_for) (c : choice) (w : world)
    : option world :=
  let at_ p := goto t (Waiting p n) in
  let lock := set_done_mu (Some t) in
  let unlock := set_done_mu None in
  match p, c with
  | WaitEnter, Go =>
      if done_mu w is None then Some (at_ (WaitTop (now w + stop_timeout w)) (lock w)) else None
  | WaitTop d, Go =>
      if done_ w then Some (at_ WaitExit w)
      else if terminal_received w then Some (at_ DoneSleep (unlock w))
      else Some (at_ (UntilSleep d) (unlock w))
  | DoneSleep, Wake => Some (at_ DoneWoke w)
  | DoneWoke, Go =>
      if done_mu w is None then
        if done_ w then Some (at_ WaitExit (lock w)) else Some (at_ DoneSleep w)
      else None
  | UntilSleep d, Wake => Some (at_ (UntilWoke d false) w)
  | UntilSleep d, Expire => if d <=? now w then Some (at_ (UntilWoke d true) w) else None
  | UntilWoke d timeout, Go =>
      if done_mu w is None
      then Some (at_ (if timeout then TimedOut d else WaitTop d) (lock w)) else None
  | TimedOut d, Go =>
      if done_ w then Some (at_ WaitExit w)
      else if terminal_received w then Some (at_ (WaitTop d) w)
      else Some (at_ WaitClose w)
  | WaitClose, Go => Some (at_ WaitBrief (close_conn w))
  | WaitBrief, Go => Some (at_ (ForSleep (now w + 300)) (unlock w))
  | ForSleep d, Wake => Some (at_ ForWoke w)
  | ForSleep d, Expire => if d <=? now w then Some (at_ ForWoke w) else None
  | ForWoke, Go => if done_mu w is None then Some (at_ WaitExit (lock w)) else None
  | WaitExit, Go =>
      let w := unlock w in
      Some match n with
           | ThenReturn => ret t (Ok tt) w
           | ThenStoreStopped => goto t StopStore w
           | ThenEndWatchdog => goto t Outside w
           end
  | _, _ => None
  end.

(** [~SpeechRecognizer]: a running session is stopped, the reader joined. *)
Definition reader_ended (w : world) : bool :=
  match todo w with None => true | Some l => is_empty l && negb (if in_callback w is Some _ then true else false) end.

Definition dtor_step (t : tid) (p : pc) (c : choice) (w : world) : option world :=
  match p, c with
  | DtorCheck, Go =>
      if state w =? kStateRunning_
      then Some (goto t StopCas (set_in_dtor (<[t := true]> (in_dtor w)) w))
      else Some (goto t DtorJoin w)
  | DtorJoin, Go =>
      if reader_ended w then
        Some (observe (Returned t (Ok tt)) (goto t Outside
                (set_destroyed true (set_in_dtor (<[t := false]> (in_dtor w)) w))))
      else None
  | _, _ => None
  end.

Definition thread_step (t : tid) (c : choice) (w : world) : option world :=
  match pcs w t with
  | Outside => None
  | StartCas | StartValidate | StartConnect | StartThrow _ | StartRun | StartTimeout
  | StartThread => start_step t (pcs w t) c w
  | WriteCheck _ _ | WriteConn _ | WriteLock _ | WriteRecheck _ | WriteSend _
  | WriteUnlock _ => write_step t (pcs w t) c w
  | StopCas | StopConn | StopNoConn | StopLock | StopRecheck | StopSend | StopUnlock _
  | StopFailed _ | StopClose _ | StopThrow _ | StopReentrant | StopStore =>
      stop_step t (pcs w t) c w
  | Waiting p n => wait_step t p n c w
  | DtorCheck | DtorJoin => dtor_step t (pcs w t) c w
  end.

(** ** The reader *)

(** An exception of these callbacks goes no further. *)
Definition SafeOnFail (resp : option SpeechRecognitionResponse) (err : ASRError) : stmt :=
  Callback (OnFail resp err) true.

Definition SafeComplete (resp : SpeechRecognitionResponse) : stmt :=
  Callback (OnRecognitionComplete resp) true.

(** [SafeOnFail(nullptr, ASRError(kErrReadFailed, what))] *)
Definition fail_with (what : str) : stmt :=
  SafeOnFail None (asr_error kErrReadFailed what).

Definition DispatchEvent (resp : SpeechRecognitionResponse) : list stmt :=
  let slice := slice_type (result_ resp) in
  if (final_flag resp =? 1) && negb (slice =? 2) then []
  else if slice =? 0 then [Callback (OnSentenceBegin resp) false]
  else if slice =? 1 then [Callback (OnRecognitionResultChange resp) false]
  else if slice =? 2 then [Callback (OnSentenceEnd resp) false]
  else [].

(** The rest of the loop body once a response is parsed. *)
Definition handle_response (resp : SpeechRecognitionResponse) : list stmt :=
  (if ack_continue then []
   else if speaker_continue resp is Some c then [SetContinue c] else []) ++
  if negb (code resp =? 0) then
    [ Finish; StoreTerminal; Notify;
      SafeOnFail (Some resp) (asr_error (code resp) (message resp)); Return ]
  else if final_flag resp =? 1 then
    [ Finish; StoreTerminal; Notify ] ++ DispatchEvent resp ++
    [ SafeComplete resp; Return ]
  else if negb (has_result resp) then [Read]
  else DispatchEvent resp ++ [Read].

(** One iteration of the loop, after [conn->Read]. *)
Definition handle_read (r : read_result) : list stmt :=
  match r with
  | ReadTimeout => [ReturnIfStopped; Read]
  | ReadError err =>
      [ ReturnIfStopping; Finish;
        fail_with («"read message failed"» ++ (if is_empty err then [] else «": "» ++ err));
        Return ]
  | ReadFrame f =>
      if opcode f =? 0x2 then
        [ fail_with «"unmarshal response failed: unexpected binary frame"»; Read ]
      else if opcode f =? 0x8 then
        [ ReturnIfStopping; Finish; fail_with «"connection closed by server"»; Return ]
      else if negb (opcode f =? 0x1) then [Read]
      else
        match ParseSpeechResponse json_parse cast (payload f) with
        | Throw (AsrExn e) => [SafeOnFail None e; Read]
        | Throw (StdExn what) => [Raise (Some what)]
        | Ok resp => handle_response resp
        end
  end.

(** The handlers of [ReadLoop] around [ReadLoopInner]. *)
Definition panic_handler (e : option str) : list stmt :=
  [ Finish;
    fail_with («"recovered from panic in read loop: "» ++
               match e with Some what => what | None => «"unknown exception"» end) ].

Definition reader_step (c : choice) (w : world) : option world :=
  match todo w, in_callback w with
  | Some (s :: rest), None =>
      let next := set_todo (Some rest) in
      let return_ := set_todo (Some read_loop_exit) in
      match s, c with
      | SetReaderTid, Go => Some (next (set_reader_tid true w))
      | Callback cb shielded, Go =>
          Some (next (set_in_callback (Some shielded) (observe (Delivered cb (state w)) w)))
      | GetConn, Go => Some (if conn w then next w else return_ w)
      | Read, ReadResult r => Some (set_todo (Some (handle_read r)) w)
      | ReturnIfStopped, Go => Some (if state w =? kStateStopped_ then return_ w else next w)
      | ReturnIfStopping, Go => Some (if kStateStopping_ <=? state w then return_ w else next w)
      | SetContinue v, Go => Some (next (set_continue (Some v) w))
      | Finish, Go =>
          if finish_once w then Some (next w)
          else Some (set_todo (Some (Close :: rest))
                       (set_state kStateStopped_ (set_finish_once true w)))
      | Close, Go => Some (next (close_conn w))
      | StoreTerminal, Go => if done_mu w is None then Some (next (set_terminal true w)) else None
      | StoreDone, Go => if done_mu w is None then Some (next (set_done true w)) else None
      | Notify, Go => Some (next (notify_all w))
      | Raise e, Go => Some (set_todo (Some (panic_handler e ++ read_loop_exit)) w)
      | Return, Go => Some (return_ w)
      | _, _ => None
      end
  | _, _ => None
  end.

(** ** The program *)

Inductive event :=
  | UserCall (t : tid) (c : call)        (* the host calls the API *)
  | Step (t : tid) (c : choice)          (* a thread inside the API advances *)
  | ReaderStep (c : choice)              (* the reader advances *)
  | CallbackReturn | CallbackThrow (e : option str)
  | Tick (ms : Z).

Definition entry (c : call) : pc :=
  match c with
  | CallStart => StartCas
  | CallWrite data len => WriteCheck data len
  | CallStop => StopCas
  | CallDestroy => DtorCheck
  end.

(** A thread may call when it is outside the SDK; the reader only from inside
    a callback, and not to destroy the object whose thread it is; nobody once
    the object is destroyed. *)
Definition may_call (t : tid) (c : call) (w : world) : bool :=
  match pcs w t with Outside => negb (destroyed w) | _ => false end &&
  (negb (bool_decide (t = reader)) ||
   (if in_callback w is Some _ then true else false) &&
   match c with CallDestroy => false | _ => true end).

Definition callback_over (w : world) : bool :=
  match pcs w reader, in_callback w with Outside, Some _ => true | _, _ => false end.

Definition step (e : event) (w : world) : option world :=
  match e with
  | UserCall t c =>
      if may_call t c w then Some (observe (Called t c) (goto t (entry c) w)) else None
  | Step t c => thread_step t c w
  | ReaderStep c => reader_step c w
  | CallbackReturn => if callback_over w then Some (set_in_callback None w) else None
  | CallbackThrow e =>
      if callback_over w then
        match in_callback w with
        | Some false => Some (set_todo (Some [Raise e]) (set_in_callback None w))
        | _ => Some (set_in_callback None w)
        end
      else None
  | Tick ms => if 0 <=? ms then Some (set_now (now w + ms) w) else None
  end.

Fixpoint run (es : list event) (w : world) : option world :=
  match es with
  | [] => Some w
  | e :: es => w ← step e w; run es w
  end.

(** The worlds a recognizer can be in. *)
Inductive reachable : world -> Prop :=
  | reachable_init r : reachable (init r)
  | reachable_step e w w' : reachable w -> step e w = Some w' -> reachable w'.
End Lifecycle.
