(* ===== verification/LifecycleInv.v ===== *)
(** * The lifecycle invariant

    The assertions that hold in every reachable world of [Lifecycle], and their
    preservation by every step: mutual exclusion of the two locks, uniqueness
    of the starting and of the stopping thread, the wire discipline, the
    reader's script, and the condition-variable protocol.  The public results
    are in [LifecycleTheorems]. *)

From S2P Require Import Prelude Double Json JsonRead WsFrame Types Protocol Lifecycle.

Open Scope Z_scope.

(** ** Classes of positions *)

(** Between [Start]'s compare-exchange and its next store to the state. *)
Definition starting (p : pc) : bool :=
  match p with StartValidate | StartConnect | StartThrow _ | StartRun => true | _ => false end.

(** After the store of [kStateRunning_], before the reader exists. *)
Definition launching (p : pc) : bool :=
  match p with StartTimeout | StartThread => true | _ => false end.

Definition holds_write (p : pc) : bool :=
  match p with
  | WriteRecheck _ | WriteSend _ | WriteUnlock _ | StopRecheck | StopSend | StopUnlock _ => true
  | _ => false
  end.

Definition holds_done (p : pc) : bool :=
  match p with
  | Waiting (WaitTop _ | TimedOut _ | WaitClose | WaitBrief | WaitExit) _ => true
  | _ => false
  end.

(** Inside a [Stop] that won the compare-exchange: before the end frame is
    handed to the socket, and anywhere. *)
Definition before_end (p : pc) : bool :=
  match p with StopConn | StopNoConn | StopLock | StopRecheck | StopSend => true | _ => false end.

Definition stopping (p : pc) : bool :=
  match p with
  | StopConn | StopNoConn | StopLock | StopRecheck | StopSend | StopUnlock _ | StopFailed _
  | StopClose _ | StopThrow _ | StopReentrant | StopStore
  | Waiting _ (ThenReturn | ThenStoreStopped) => true
  | _ => false
  end.

(** Audio can still be handed to the socket. *)
Definition sending_audio (p : pc) : bool := if p is WriteSend _ then true else false.

Lemma before_end_stopping p : before_end p = true -> stopping p = true.
Proof. by destruct p. Qed.
Lemma sending_audio_holds p : sending_audio p = true -> holds_write p = true.
Proof. by destruct p. Qed.

Ltac wake_cases p := destruct p; try done; by match goal with x : wait_pc |- _ => destruct x end.

Lemma wake_starting p : starting (wake p) = starting p.
Proof. wake_cases p. Qed.
Lemma wake_launching p : launching (wake p) = launching p.
Proof. wake_cases p. Qed.
Lemma wake_holds_write p : holds_write (wake p) = holds_write p.
Proof. wake_cases p. Qed.
Lemma wake_holds_done p : holds_done (wake p) = holds_done p.
Proof. wake_cases p. Qed.
Lemma wake_before_end p : before_end (wake p) = before_end p.
Proof. wake_cases p. Qed.
Lemma wake_stopping p : stopping (wake p) = stopping p.
Proof. wake_cases p. Qed.
Lemma wake_sending_audio p : sending_audio (wake p) = sending_audio p.
Proof. wake_cases p. Qed.

Create Rewrite HintDb wake.
#[export] Hint Rewrite wake_starting wake_launching wake_holds_write wake_holds_done
  wake_before_end wake_stopping wake_sending_audio : wake.

(** ** The wire *)

Definition end_sent (l : list sent) : bool := existsb is_end l.

(** Nothing is written after an end frame. *)
Fixpoint end_last (l : list sent) : bool :=
  match l with
  | [] => true
  | f :: l' => (if is_end f then is_empty l' else true) && end_last l'
  end.

#[local] Arguments end_sent : simpl never.
#[local] Arguments end_last : simpl never.
#[local] Arguments end_signal : simpl never.
#[local] Arguments is_end : simpl never.

Lemma is_end_text ok : is_end (0x1, end_signal, ok) = true.
Proof. unfold is_end. cbn. by rewrite bool_decide_eq_true_2. Qed.

Lemma is_end_audio d ok : is_end (0x2, d, ok) = false.
Proof. done. Qed.

(** The frames of [Connect] are not end frames. *)
Lemma end_sent_more l frames :
  Forall starting_frame frames -> end_sent (l ++ frames) = end_sent l.
Proof.
  intros Hf. unfold end_sent. rewrite existsb_app.
  replace (existsb is_end frames) with false; [apply orb_false_r|].
  induction Hf as [|f frames E%starting_frame_end _ IH]; [done|]. cbn. by rewrite E.
Qed.

Lemma end_last_more l frames :
  Forall starting_frame frames -> end_sent l = false -> end_last (l ++ frames) = true.
Proof.
  intros Hf. induction l as [|g l IH]; unfold end_sent, end_last in *; cbn.
  - intros _. induction Hf as [|f frames E%starting_frame_end _ IH]; [done|]. cbn. by rewrite E.
  - destruct (is_end g); cbn; [done|auto].
Qed.

Lemma end_sent_app l f : end_sent (l ++ [f]) = end_sent l || is_end f.
Proof. unfold end_sent. rewrite existsb_app. simpl. by rewrite orb_false_r. Qed.

Lemma end_last_app l f : end_sent l = false -> end_last (l ++ [f]) = true.
Proof.
  induction l as [|g l IH]; unfold end_sent, end_last in *; simpl.
  - intros _. by destruct (is_end f).
  - destruct (is_end g); simpl; [done|auto].
Qed.

Lemma end_last_split before f after :
  end_last (before ++ f :: after) = true -> is_end f = true ->
  after = [] /\ end_sent before = false.
Proof.
  intros Hl Hf. induction before as [|g before IH]; cbn in Hl.
  - unfold end_last in Hl. rewrite Hf in Hl. by destruct after.
  - unfold end_last in *. apply andb_prop in Hl as [Hg Hl]. specialize (IH Hl) as [-> Hb].
    split; [done|]. unfold end_sent in *. cbn. destruct (is_end g); [|done]. by destruct before.
Qed.

(** ** The audio a writer carries *)

Definition carries (p : pc) : option str :=
  match p with
  | WriteConn d | WriteLock d | WriteRecheck d | WriteSend d => Some d
  | _ => None
  end.

Lemma wake_carries p : carries (wake p) = carries p.
Proof. wake_cases p. Qed.
#[export] Hint Rewrite wake_carries : wake.

Definition within_limit {P : Protocol} (d : str) : Prop :=
  if frame_limit is Some limit then Z.of_nat (length d) <= Z.of_N limit else True.

(** A frame the session may send: audio within its limit, or a text no longer
    than a start frame. *)
Definition frame_fits {P : Protocol} (f : sent) : Prop :=
  f.1.1 = 0x2 /\ within_limit f.1.2 \/
  f.1.1 = 0x1 /\ Z.of_nat (length f.1.2) <= kStartFrameMaxBytes.

Lemma write_args_within {P : Protocol} data len d : write_args data len = Ok d -> within_limit d.
Proof.
  unfold write_args, within_limit. destruct frame_limit as [limit|]; [|done].
  destruct data as [b|]; cbn.
  - destruct (Z.ltb_spec (Z.of_N limit) len); [done|]. intros [= <-]. rewrite length_take. lia.
  - destruct (0 <? len); [done|]. cbn. destruct (Z.of_N limit <? len); [done|].
    intros [= <-]. cbn. lia.
Qed.

(** ** Tactics *)

Lemma may_call_spec {P : Protocol} t c (w : world) :
  may_call t c w = true ->
  pcs w t = Outside /\ (t = reader -> in_callback w <> None /\ c <> CallDestroy).
Proof.
  unfold may_call. rewrite !andb_true_iff, orb_true_iff, negb_true_iff, bool_decide_eq_false.
  intros [Hp Hr]. split; [by destruct (pcs w t)|]. intros ->.
  destruct Hr as [|Hr]; [done|]. apply andb_prop in Hr as [H1 H2].
  by destruct (in_callback w), c.
Qed.

(** The cases of a step, with the resulting world explicit. *)
Ltac step_cases H :=
  unfold Lifecycle.step, thread_step, reader_step, start_step, write_step, stop_step,
    wait_step, dtor_step, ret, connect_world, mbind, option_bind, close_conn, kStateIdle_, kStateStarting_,
    kStateRunning_, kStateStopping_, kStateStopped_ in H;
  repeat (case_match; try discriminate); simplify_eq/=;
  repeat match goal with
    | H : may_call _ _ _ = true |- _ => apply may_call_spec in H as [? ?]
    | H : (_ =? _) = true |- _ => apply Z.eqb_eq in H
    | H : (_ =? _) = false |- _ => apply Z.eqb_neq in H
    end.

(** Read the updated thread table at every thread the goal mentions. *)
Ltac read_pcs :=
  repeat match goal with
    | H : context [<[?a := ?b]> ?f ?c] |- _ =>
        destruct (decide (a = c)) as [<-|];
        [rewrite fn_lookup_insert in H|rewrite fn_lookup_insert_ne in H by done]
    | |- context [<[?a := ?b]> ?f ?c] =>
        destruct (decide (a = c)) as [<-|];
        [rewrite fn_lookup_insert|rewrite fn_lookup_insert_ne by done]
    end;
  autorewrite with wake in *.

(** Forward chaining on implications with a hypothesis as premise. *)
Ltac forward :=
  repeat match goal with
    | H : ?P -> _, H' : ?P |- _ =>
        lazymatch type of P with Prop => specialize (H H') end
    | H : ?x = ?x -> _ |- _ => specialize (H eq_refl)
    | H : false = true -> _ |- _ => clear H
    end.

Section Preservation.
Context {P : Protocol} (json_parse : str -> result json) (cast : Z -> double -> Z).
Abbreviation step := (Lifecycle.step json_parse cast).
Abbreviation reachable := (Lifecycle.reachable json_parse cast).

(** *** The state *)

Record state_inv (w : world) : Prop := {
  inv_range : 0 <= state w <= 4;
  inv_starting t : starting (pcs w t) = true -> state w = 1;
  inv_launching t : launching (pcs w t) = true -> 2 <= state w /\ todo w = None;
  inv_starter t t' :
    starting (pcs w t) || launching (pcs w t) = true ->
    starting (pcs w t') || launching (pcs w t') = true -> t = t';
  inv_early : state w <= 1 -> todo w = None;
  inv_stopping t : stopping (pcs w t) = true -> 3 <= state w;
  inv_stopper t t' : stopping (pcs w t) = true -> stopping (pcs w t') = true -> t = t';
  inv_finish : finish_once w = true -> state w = 4;
  inv_callback : todo w = None -> in_callback w = None
}.

(** What the position of any thread says about the state. *)
Ltac use_positions Hs Hl Hp :=
  repeat match goal with
    | H : _ || _ = true |- _ => apply orb_prop in H as [H|H]
    | H : starting (pcs _ _) = true |- _ => apply Hs in H
    | H : launching (pcs _ _) = true |- _ => apply Hl in H as [? ?]
    | H : stopping (pcs _ _) = true |- _ => apply Hp in H
    end.

(** Two threads of a class with at most one member; the acting thread's
    position is known. *)
Ltac unique_by H :=
  eapply H; try eassumption;
  repeat match goal with H : pcs _ _ = _ |- _ => rewrite H end; done.

Ltac unique HI :=
  first [ unique_by (inv_starter _ HI) | unique_by (inv_stopper _ HI) ].

Lemma state_step e w w' : state_inv w -> step e w = Some w' -> state_inv w'.
Proof.
  intros HI HS.
  pose proof (inv_range _ HI) as Hr. pose proof (inv_early _ HI) as He.
  pose proof (inv_finish _ HI) as Hf. pose proof (inv_callback _ HI) as Hc.
  pose proof (inv_starting _ HI) as Hs. pose proof (inv_launching _ HI) as Hl.
  pose proof (inv_stopping _ HI) as Hp.
  step_cases HS.
  all: try match goal with H : pcs _ ?t = _ |- _ =>
         pose proof (Hs t); pose proof (Hl t); pose proof (Hp t) end.
  all: constructor; cbn; try (by apply HI); intros; read_pcs; cbn in *; try done;
    try (unique HI);
    try (by eapply HI; eassumption);
    try (exfalso; match goal with N : ?b <> ?a |- _ =>
           apply N; eapply (inv_starter _ HI);
             [rewrite (ltac:(eassumption) : pcs _ b = _)|apply orb_true_intro]; auto; done end);
    repeat match goal with H : pcs _ _ = _ |- _ => rewrite H in *; clear H end; cbn in *;
    forward; destruct_and?; try done; try lia;
    try (exfalso; use_positions Hs Hl Hp; try specialize (He ltac:(lia));
         try specialize (Hc ltac:(assumption)); lia || congruence);
    try (try (split; [lia|]); apply He; lia);
    try (use_positions Hs Hl Hp; split; [lia|done]).
  all: by match goal with c : call |- _ => destruct c end.
Qed.

(** *** The locks: the owner is the one thread inside a critical section *)

Record lock_inv (w : world) : Prop := {
  inv_write t : holds_write (pcs w t) = true <-> write_mu w = Some t;
  inv_done t : holds_done (pcs w t) = true <-> done_mu w = Some t
}.

Lemma lock_step e w w' : lock_inv w -> step e w = Some w' -> lock_inv w'.
Proof.
  intros HI HS. pose proof (inv_write _ HI) as Hw. pose proof (inv_done _ HI) as Hd.
  step_cases HS.
  all: try match goal with H : pcs _ ?t = _ |- _ =>
         pose proof (Hw t) as Hwt; pose proof (Hd t) as Hdt; rewrite H in Hwt, Hdt;
         cbn in Hwt, Hdt end.
  all: constructor; cbn; try assumption; intros; read_pcs; cbn; try done;
    try (by apply HI).
  all: try (rewrite Hw); try (rewrite Hd); try (intuition congruence).
  all: try match goal with E : pcs _ ?t = _ |- _ <-> _ = Some ?t =>
         first [rewrite <- Hw | rewrite <- Hd]; by rewrite E end.
  all: match goal with c : call |- _ => by destruct c end.
Qed.

(** *** The wire: no frame after the end frame, and one end frame at most *)

Record wire_inv (w : world) : Prop := {
  inv_before_end t : before_end (pcs w t) = true -> end_sent (wire w) = false;
  inv_end_state : end_sent (wire w) = true -> 3 <= state w;
  inv_audio t : sending_audio (pcs w t) = true -> end_sent (wire w) = false;
  inv_wire : end_last (wire w) = true
}.

Lemma wire_step e w w' :
  state_inv w -> lock_inv w -> wire_inv w -> step e w = Some w' -> wire_inv w'.
Proof.
  intros HS HL HI HStep.
  pose proof (inv_before_end _ HI) as Hb. pose proof (inv_audio _ HI) as Ha.
  pose proof (inv_end_state _ HI) as He.
  pose proof (inv_stopping _ HS) as Hp. pose proof (inv_starting _ HS) as Hs.
  pose proof (inv_write _ HL) as Hw.
  step_cases HStep.
  all: try match goal with H : pcs _ ?t = _ |- _ =>
         pose proof (Hb t) as Hbt; pose proof (Ha t) as Hat; pose proof (Hp t) as Hpt;
         pose proof (Hs t) as Hst;
         pose proof (Hw t) as Hwt; rewrite H in Hbt, Hat, Hpt, Hwt, Hst;
         cbn in Hbt, Hat, Hpt, Hwt, Hst; forward end.
  all: try match goal with E : connect_session _ _ = Some (_, _, ?frames) |- _ =>
         let Hc := fresh "Hc" in
         pose proof (connect_session_sends _ _ _ _ _ E) as Hc;
         assert (end_sent (wire w) = false) as Hnone
           by (destruct (end_sent (wire w)); [specialize (He eq_refl); lia|done]);
         pose proof (end_sent_more (wire w) frames Hc) as Hmore;
         pose proof (end_last_more (wire w) frames Hc Hnone) end.
  all: constructor; cbn; try assumption; intros; read_pcs; cbn in *; try done;
    try solve [congruence];
    try solve [eapply Hb; eassumption | eapply Ha; eassumption | by apply He | by apply HI].
  all: try rewrite end_sent_app in *; cbn in *; rewrite ?is_end_text, ?is_end_audio in *;
    rewrite ?orb_false_r, ?orb_true_r in *;
    try solve [eapply Hb; eassumption | eapply Ha; eassumption | by apply He
              | by apply end_last_app].
  all: destruct (end_sent (wire _)) eqn:?; forward; try done; try lia.
  all: try (by match goal with c : call |- _ => destruct c end).
  (* another thread about to send: it is the same stopper, or owns the same lock *)
  all: exfalso; match goal with N : ?a <> ?b |- _ => apply N end;
    match goal with
    | E : before_end _ = true |- _ =>
        eapply (inv_stopper _ HS); [|by apply before_end_stopping];
        match goal with P : pcs _ _ = _ |- _ => by rewrite P end
    | E : sending_audio _ = true |- _ =>
        apply sending_audio_holds, Hw in E; apply proj1 in Hwt; forward; congruence
    end.
Qed.
(** *** The audio: no frame above the limit of the protocol *)

Record frame_inv (w : world) : Prop := {
  inv_carried t d : carries (pcs w t) = Some d -> within_limit d;
  inv_frames : Forall frame_fits (wire w)
}.

Lemma frame_step e w w' : frame_inv w -> step e w = Some w' -> frame_inv w'.
Proof.
  intros HI HStep. pose proof (inv_carried _ HI) as Hc. pose proof (inv_frames _ HI) as Hf.
  step_cases HStep.
  all: try match goal with H : pcs _ ?t = _ |- _ =>
         pose proof (Hc t) as Hct; rewrite H in Hct; cbn in Hct end.
  all: constructor; cbn; try assumption; intros; read_pcs; cbn in *; try done;
    try (by eapply Hc); simplify_eq; try (by eapply write_args_within); try (by apply Hct).
  all: try (apply Forall_app; split; [exact Hf|]).
  all: try (apply Forall_singleton;
         first [left; by split; [|apply Hct] | right; split; [done|by vm_compute]]).
  all: try (match goal with c : call |- _ => by destruct c end).
  all: match goal with E : connect_session _ _ = Some _ |- _ =>
         apply connect_session_sends in E; revert E end.
  all: apply Forall_impl; intros f (Hop & _ & Hl); by right.
Qed.
End Preservation.
