(* ===== verification/LifecycleScript.v ===== *)
(** * The reader thread and its callbacks

    The discipline of the reader's statements: [script] is a static check of a
    list of statements of [ReadLoop], every list the code produces passes it,
    and every step preserves it.  The callback protocol follows. *)

From S2P Require Import Prelude Double Json JsonRead WsFrame Types Protocol Lifecycle LifecycleInv.

Open Scope Z_scope.

(** ** The reader's script *)

Definition deliveries (h : list observation) : list (callback * Z) :=
  omap (fun o => if o is Delivered cb s then Some (cb, s) else None) h.

(** The host has asked for the session to end. *)
Definition is_stop_call (o : observation) : bool :=
  match o with Called _ CallStop | Called _ CallDestroy => true | _ => false end.
Definition stop_called (h : list observation) : bool := existsb is_stop_call h.

Definition is_start (cb : callback) : bool :=
  if cb is OnRecognitionStart _ then true else false.

(** The callbacks that end a session: completion, and the failures other than
    a frame that cannot be unmarshalled. *)
Definition terminal (cb : callback) : bool :=
  match cb with
  | OnRecognitionComplete _ | OnFail (Some _) _ => true
  | OnFail None err => negb (starts_with «"unmarshal response failed"» (message_ err))
  | _ => false
  end.

Definition response_of (cb : callback) : option SpeechRecognitionResponse :=
  match cb with
  | OnRecognitionStart r | OnSentenceBegin r | OnRecognitionResultChange r | OnSentenceEnd r
  | OnRecognitionComplete r => Some r
  | OnFail r _ => r
  end.

(** The callbacks that must find the recognizer stopped: the terminal ones and
    the last sentence of a final response. *)
Definition after_finish (cb : callback) : bool :=
  terminal cb || (if response_of cb is Some r then final_flag r =? 1 else false).

Definition starts_notify (l : list stmt) : bool := if l is Notify :: _ then true else false.

(** [script started fin term stopped l]: the statements [l] respect the
    callback protocol, given that a callback was delivered ([started]), that
    [Finish] ran ([fin]), that a terminal callback was delivered ([term]) and
    that the host asked to stop ([stopped]). *)
Fixpoint script (started fin term stopped : bool) (l : list stmt) : bool :=
  match l with
  | [] => term || stopped
  | s :: l =>
      match s with
      | Callback cb shielded =>
          eqb (is_start cb) (negb started) && negb term && implb (after_finish cb) fin &&
          implb (terminal cb) shielded && negb (starts_notify l) &&
          script true fin (term || terminal cb) stopped l
      | Finish => script started true term stopped l
      | Read => started && negb fin && negb term
      | ReturnIfStopped | ReturnIfStopping => negb fin && script started fin term stopped l
      | GetConn => started && negb fin && negb term && script started fin term stopped l
      | Raise _ => started && negb term
      | Return => term
      | StoreTerminal => starts_notify l && script started fin term stopped l
      | StoreDone => (term || stopped) && (if l is [Notify] then true else false)
      | Close => fin && script started fin term stopped l
      | SetReaderTid | SetContinue _ | Notify => script started fin term stopped l
      end
  end.

Lemma script_stopped started fin term l :
  script started fin term false l = true -> script started fin term true l = true.
Proof.
  revert started fin term; induction l as [|s l IH]; intros started fin term; cbn.
  { by rewrite orb_true_r. }
  destruct s; rewrite ?andb_true_iff, ?orb_true_r; naive_solver.
Qed.

(** The deliveries so far: [OnRecognitionStart] first and only there, nothing
    after a terminal callback, terminal callbacks in the stopped state. *)
Definition delivery_ok (d : callback * Z) : Prop := after_finish d.1 = true -> d.2 = 4.

Fixpoint order_ok (started : bool) (l : list (callback * Z)) : bool :=
  match l with
  | [] => true
  | d :: l =>
      eqb (is_start d.1) (negb started) && implb (terminal d.1) (is_empty l) && order_ok true l
  end.

Definition ended (l : list (callback * Z)) : bool := existsb (fun d => terminal d.1) l.

Lemma order_ok_app started l d :
  order_ok started l = true -> ended l = false ->
  is_start d.1 = negb (started || negb (is_empty l)) -> order_ok started (l ++ [d]) = true.
Proof.
  revert started; induction l as [|e l IH]; intros started; cbn [app order_ok ended existsb].
  - intros _ _ ->. rewrite orb_false_r. cbn. rewrite eqb_reflx. by destruct (terminal d.1).
  - rewrite !andb_true_iff. intros [[-> Ht] Ho] He Hd. apply orb_false_iff in He as [He1 He2].
    rewrite He1. split_and!; [done..|]. apply IH; [done..|].
    rewrite Hd. cbn. by rewrite orb_true_r.
Qed.


(** ** Every list of statements the code produces passes the check *)

Section Scripts.
Context {P : Protocol} (json_parse : str -> result json) (cast : Z -> double -> Z).
Abbreviation step := (Lifecycle.step json_parse cast).

Lemma ReadLoop_script w stopped : script false false false stopped (ReadLoop w) = true.
Proof. reflexivity. Qed.

Lemma exit_script started fin term stopped :
  script started fin term stopped read_loop_exit = term || stopped.
Proof. cbn. by rewrite andb_true_r. Qed.

Lemma panic_script e fin stopped :
  script true fin false stopped (panic_handler e ++ read_loop_exit) = true.
Proof. reflexivity. Qed.

Lemma handle_response_script resp stopped :
  script true false false stopped (handle_response resp) = true.
Proof.
  unfold handle_response, DispatchEvent.
  assert (forall l, script true false false stopped l = true ->
    script true false false stopped
      ((if ack_continue then []
        else if speaker_continue resp is Some c then [SetContinue c] else []) ++ l) = true) as Hc
    by by destruct ack_continue, (speaker_continue resp).
  apply Hc. destruct (code resp =? 0); [|reflexivity].
  destruct (final_flag resp =? 1) eqn:E; cbn [negb andb].
  - destruct (slice_type (result_ resp) =? 2) eqn:E2; cbn [negb]; [|reflexivity].
    apply Z.eqb_eq in E2. rewrite E2. cbn. by rewrite E.
  - destruct (has_result resp); [|reflexivity]. cbn [negb].
    repeat case_match; try reflexivity; cbn; by rewrite E.
Qed.

Lemma handle_read_script r stopped :
  script true false false stopped (handle_read json_parse cast r) = true.
Proof.
  destruct r as [|err|f]; [reflexivity..|]. cbn [handle_read].
  destruct (opcode f =? 2); [reflexivity|]. destruct (opcode f =? 8); [reflexivity|].
  destruct (negb (opcode f =? 1)); [reflexivity|].
  destruct (ParseSpeechResponse json_parse cast (payload f)) as [resp|e] eqn:E;
    [apply handle_response_script|].
  apply ParseSpeechResponse_throw in E as [m ->]. reflexivity.
Qed.
End Scripts.

(** ** The invariant *)

Definition started {P : Protocol} (w : world) : bool := negb (is_empty (deliveries (history w))).
Definition term {P : Protocol} (w : world) : bool := ended (deliveries (history w)).
Definition quiet {P : Protocol} (w : world) : bool := stop_called (history w).

Definition is_waiting (p : pc) : bool := if p is Waiting _ _ then true else false.

(** In a call that the host made to stop or destroy the recognizer. *)
Definition asked (p : pc) : bool :=
  stopping p || is_waiting p || match p with StopCas | DtorCheck => true | _ => false end.

Record script_inv {P : Protocol} (w : world) : Prop := {
  inv_script l : todo w = Some l ->
    script (started w) (finish_once w) (term w) (quiet w) l = true;
  inv_throw : in_callback w = Some false -> started w = true /\ term w = false;
  inv_unstarted : todo w = None ->
    deliveries (history w) = [] /\ finish_once w = false /\ done_ w = false /\
    terminal_received w = false;
  inv_order : order_ok false (deliveries (history w)) = true;
  inv_deliveries : Forall delivery_ok (deliveries (history w));
  inv_asked t : asked (pcs w t) = true -> quiet w = true;
  inv_quiet : 3 <= state w -> finish_once w = false -> quiet w = true;
  inv_conn t : pcs w t = StartRun -> conn w = true;
  inv_closed : 2 <= state w -> conn w = false -> finish_once w = false -> quiet w = true;
  inv_waiting t : is_waiting (pcs w t) = true -> 3 <= state w;
  inv_term : term w = true -> finish_once w = true;
  inv_over : done_ w = true ->
    (todo w = Some [Notify] \/ todo w = Some []) /\ in_callback w = None
}.

Lemma deliveries_app h o :
  deliveries (h ++ [o]) =
  deliveries h ++ (if o is Delivered cb s then [(cb, s)] else []).
Proof. unfold deliveries. rewrite omap_app. by destruct o. Qed.

Lemma stop_called_app h o : stop_called (h ++ [o]) = stop_called h || is_stop_call o.
Proof. unfold stop_called. rewrite existsb_app. simpl. by rewrite orb_false_r. Qed.

Lemma ended_app l d : ended (l ++ [d]) = ended l || terminal d.1.
Proof. unfold ended. rewrite existsb_app. simpl. by rewrite orb_false_r. Qed.

Lemma wake_asked p : asked (wake p) = asked p.
Proof. wake_cases p. Qed.
#[export] Hint Rewrite wake_asked : wake.

Lemma wake_waiting p : is_waiting (wake p) = is_waiting p.
Proof. wake_cases p. Qed.
#[export] Hint Rewrite wake_waiting : wake.

Lemma wake_StartRun p : wake p = StartRun -> p = StartRun.
Proof. destruct p; try done. by match goal with x : wait_pc |- _ => destruct x end. Qed.

Lemma script_weaken started fin term q b l :
  script started fin term q l = true -> script started fin term (q || b) l = true.
Proof. destruct q, b; auto using script_stopped. Qed.

#[local] Arguments deliveries : simpl never.
#[local] Arguments stop_called : simpl never.
#[local] Arguments ended : simpl never.

Lemma is_empty_snoc {A} (l : list A) x : is_empty (l ++ [x]) = false.
Proof. by destruct l. Qed.

Section Preservation.
Context {P : Protocol} (json_parse : str -> result json) (cast : Z -> double -> Z).
Abbreviation step := (Lifecycle.step json_parse cast).

Lemma script_init r : script_inv (init r).
Proof. constructor; cbn; try done; lia. Qed.

(** A step of anything but the reader. *)
Lemma script_step_other e w w' :
  state_inv w -> script_inv w ->
  (if e is ReaderStep _ then False else True) -> step e w = Some w' -> script_inv w'.
Proof.
  intros HS HI Hother HStep.
  pose proof (inv_script _ HI) as Hsc. pose proof (inv_throw _ HI) as Hth.
  pose proof (inv_unstarted _ HI) as Hun. pose proof (inv_asked _ HI) as Hask.
  pose proof (inv_quiet _ HI) as Hq. pose proof (inv_closed _ HI) as Hcl.
  pose proof (inv_conn _ HI) as Hco. pose proof (inv_over _ HI) as Hov.
  pose proof (inv_starting _ HS) as Hs. pose proof (inv_stopping _ HS) as Hp.
  pose proof (inv_launching _ HS) as Hl. pose proof (inv_waiting _ HI) as Hw.
  destruct e; try done; clear Hother; step_cases HStep.
  all: unfold started, term, quiet in *.
  all: try match goal with H : pcs _ ?t = _ |- _ =>
         pose proof (Hask t) as Hat; pose proof (Hs t) as Hst; pose proof (Hp t) as Hpt;
         pose proof (Hco t) as Hct; pose proof (Hl t) as Hlt; pose proof (Hw t) as Hwt;
         rewrite H in Hat, Hst, Hpt, Hct, Hlt, Hwt; cbn in Hat, Hst, Hpt, Hct, Hlt, Hwt; forward end.
  all: unfold quiet in *.
  all: constructor; cbn; rewrite ?deliveries_app, ?stop_called_app, ?app_nil_r; cbn;
    unfold started, term, quiet; cbn;
    rewrite ?deliveries_app, ?stop_called_app, ?app_nil_r, ?orb_false_r; cbn;
    try assumption; try (by apply HI).
  all: intros; read_pcs; cbn in *; try done.
  all: try solve [by apply script_weaken, Hsc | by eapply Hask | by eapply Hco | by eapply Hw].
  all: try (rewrite Hat); try done; try lia.
  all: try (destruct c; cbn in *; rewrite ?orb_true_r, ?orb_false_r;
    first [done | by eapply Hask | by eapply Hq | by eapply Hcl | by eapply Hw]).
  all: try (destruct Hlt as [? Ht]; destruct (Hun Ht) as (-> & -> & Hd & ?);
    match goal with
    | E : Some _ = Some _ |- _ => injection E as <-; reflexivity
    | _ => congruence end).
  all: try (destruct Hlt as [? Ht]; destruct (Hun Ht) as (? & ? & ? & ?); congruence).
  all: try (exfalso; match goal with
    | E : pcs _ _ = StartRun, N : ?t <> ?t0 |- _ =>
        specialize (Hs t0); apply Hco in E as Hc; rewrite E in Hs end;
    forward; congruence || lia).
  all: try (exfalso; match goal with E : is_waiting _ = true |- _ => apply Hw in E end; lia).
  all: try (match goal with E : pcs _ ?t = StopReentrant |- _ =>
              first [apply (Hask t)|apply (Hp t)]; by rewrite E end).
  all: try congruence.
  all: try (destruct Hov; [done|]; by split).
  - (* connected *) destruct a0. by eapply connect_session_conn.
  - (* another thread is starting *)
    exfalso; match goal with E : pcs w ?b = StartRun, N : ?a <> ?b |- _ => apply N;
      apply (inv_starter _ HS); [by rewrite H|by rewrite E] end.
  - exfalso; match goal with E : pcs w ?b = StartRun, N : ?a <> ?b |- _ => apply N;
      apply (inv_starter _ HS); [by rewrite H|by rewrite E] end.
  - (* the wait closes the connection *) by destruct next.
  - (* an exception leaves a callback *)
    match goal with E : Some _ = Some _ |- _ => injection E as <- end.
    destruct Hth as [-> ->]; [done|]. reflexivity.
Qed.

(** A step of the reader. *)
Lemma script_step_reader c w w' :
  state_inv w -> script_inv w -> step (ReaderStep c) w = Some w' -> script_inv w'.
Proof.
  intros HS HI HStep.
  pose proof (inv_script _ HI) as Hsc. pose proof (inv_throw _ HI) as Hth.
  pose proof (inv_asked _ HI) as Hask. pose proof (inv_quiet _ HI) as Hq.
  pose proof (inv_closed _ HI) as Hcl. pose proof (inv_over _ HI) as Hov.
  pose proof (inv_waiting _ HI) as Hw. pose proof (inv_conn _ HI) as Hco.
  pose proof (inv_early _ HS) as He. pose proof (inv_range _ HS) as Hr.
  pose proof (inv_finish _ HS) as Hf. pose proof (inv_starting _ HS) as Hs.
  unfold started, term, quiet in *.
  step_cases HStep.
  all: specialize (Hsc _ eq_refl); cbn [script] in Hsc; rewrite ?andb_true_iff in Hsc;
    destruct_and?.
  all: repeat match goal with
    | H : negb _ = true |- _ => apply negb_true_iff in H
    | H : (_ <=? _) = true |- _ => apply Z.leb_le in H
    end.
  all: constructor; cbn; unfold started, term, quiet; cbn; try (by apply HI);
    rewrite ?deliveries_app, ?stop_called_app, ?app_nil_r, ?orb_false_r, ?ended_app; cbn;
    try done; try (intros l [= <-]; rewrite ?exit_script; first [assumption | by rewrite Hsc]);
    try (intros Hd; destruct (Hov Hd) as [[[= E1]|[= E1]] E2]; by simplify_eq).
  all: intros; rewrite ?is_empty_snoc in *; autorewrite with wake in *;
    simplify_eq; rewrite ?exit_script; try done;
    try solve [by eapply Hask | by eapply Hw | by eapply Hco, wake_StartRun].
  all: try (rewrite Hq by (done || lia); by rewrite ?orb_true_r).
  - (* a callback that may throw *)
    destruct (terminal cb); [done|]. by rewrite orb_false_r.
  - (* the order of deliveries *)
    apply order_ok_app; [by apply HI|done|]. cbn.
    destruct (is_start cb), (is_empty (deliveries (history w))); done.
  - (* the state at delivery *)
    apply Forall_app; split; [by apply HI|]. constructor; [|constructor].
    intros Ha. cbn in *. rewrite Ha in *. by apply Hf.
  - (* a terminal callback *)
    unfold after_finish in *. destruct (terminal cb); [by destruct (finish_once w)|].
    rewrite orb_false_r in *. by apply HI.
  - (* no connection *)
    destruct (Z.le_gt_cases (state w) 1) as [Hle|]; [by specialize (He Hle)|].
    rewrite Hcl by (done || lia). by rewrite orb_true_r.
  - (* a frame *)
    destruct (is_empty (deliveries (history w))), (finish_once w),
      (ended (deliveries (history w))); try done. apply handle_read_script.
  - by destruct (finish_once w).
  - (* Close after Finish *)
    match goal with E : pcs w ?t = StartRun |- _ => specialize (Hs t); rewrite E in Hs end.
    cbn in Hs. forward. lia.
  - destruct Hov as [[|] ?]; simplify_eq; auto.
  - destruct l as [|[] []]; done.
  - split; [|done]. destruct l0 as [|[] []]; try done. by left.
  - (* a panic *)
    by destruct (is_empty (deliveries (history w))), (ended (deliveries (history w))).
Qed.

Lemma script_step e w w' :
  state_inv w -> script_inv w -> step e w = Some w' -> script_inv w'.
Proof.
  intros HS HI HStep.
  destruct e; [| |by eapply script_step_reader|..];
    (eapply script_step_other; [done|done| |exact HStep]; done).
Qed.
End Preservation.
