(* ===== verification/LifecycleWait.v ===== *)
(** * Re-entrant calls and the stop wait

    What a call made from a callback can reach, and the condition-variable
    protocol of [WaitForReadLoopOrClose]: a sleeper has not missed the
    notification it needs. *)

From S2P Require Import Prelude Double Json JsonRead WsFrame Types Protocol Lifecycle LifecycleInv LifecycleScript.

Open Scope Z_scope.

(** ** Calls on the reader thread *)

Definition set_tid_first (l : list stmt) : bool := if l is SetReaderTid :: _ then true else false.

Record reader_inv {P : Protocol} (w : world) : Prop := {
  inv_reader_out : in_callback w = None -> pcs w reader = Outside;
  inv_reader_stop : stopping (pcs w reader) = true -> state w = 3 /\ finish_once w = false;
  inv_reader_wait : is_waiting (pcs w reader) = false;
  inv_reader_skip : pcs w reader <> StopUnlock AlreadyStopped;
  inv_reader_dtor : pcs w reader <> DtorCheck /\ pcs w reader <> DtorJoin;
  inv_reader_dtor' : in_dtor w reader = false;
  inv_tid : in_callback w <> None -> reader_tid w = true;
  inv_tid_first l : todo w = Some l -> reader_tid w || set_tid_first l = true
}.

(** ** Sleepers *)

(** The reader's next statement wakes every sleeper. *)
Definition pending {P : Protocol} (w : world) : bool :=
  match todo w, in_callback w with Some (Notify :: _), None => true | _, _ => false end.

(** Past the last check of [done], before the final wait. *)
Definition closing (p : pc) : bool :=
  if p is Waiting (WaitClose | WaitBrief) _ then true else false.

Lemma closing_holds p : closing p = true -> holds_done p = true.
Proof. destruct p; try done. by match goal with x : wait_pc |- _ => destruct x end. Qed.

Lemma wake_closing p : closing (wake p) = closing p.
Proof. wake_cases p. Qed.
#[export] Hint Rewrite wake_closing : wake.

Record sleep_inv {P : Protocol} (w : world) : Prop := {
  inv_done_sleep t n : pcs w t = Waiting DoneSleep n ->
    terminal_received w = true /\ (pending w = true \/ done_ w = false);
  inv_done_woke t n : pcs w t = Waiting DoneWoke n -> terminal_received w = true;
  inv_until_sleep t d n : pcs w t = Waiting (UntilSleep d) n ->
    pending w = true \/ done_ w = false /\ terminal_received w = false;
  inv_closing t : closing (pcs w t) = true -> done_ w = false;
  inv_for_sleep t d n : pcs w t = Waiting (ForSleep d) n -> pending w = true \/ done_ w = false
}.

Lemma wake_idle p : is_waiting p = false -> wake p = p.
Proof. by destruct p. Qed.

Section Preservation.
Context {P : Protocol} (json_parse : str -> result json) (cast : Z -> double -> Z).
Abbreviation step := (Lifecycle.step json_parse cast).

Lemma reader_init r : reader_inv (init r).
Proof. by constructor. Qed.

Lemma sleep_init r : sleep_inv (init r).
Proof. by constructor. Qed.

Lemma reader_step e w w' :
  state_inv w -> reader_inv w -> step e w = Some w' -> reader_inv w'.
Proof.
  intros HS HI HStep.
  pose proof (inv_reader_out _ HI) as Ho. pose proof (inv_reader_stop _ HI) as Hst.
  pose proof (inv_reader_wait _ HI) as Hw. pose proof (inv_reader_skip _ HI) as Hsk.
  pose proof (inv_reader_dtor _ HI) as [Hd1 Hd2]. pose proof (inv_reader_dtor' _ HI) as Hd.
  pose proof (inv_tid _ HI) as Ht. pose proof (inv_tid_first _ HI) as Htf.
  pose proof (inv_finish _ HS) as Hf. pose proof (wake_idle _ Hw) as Hwake.
  pose proof (inv_starting _ HS) as Hss.
  step_cases HStep.
  all: try match goal with H : CalledFromListenerCallback _ _ = _ |- _ =>
         unfold CalledFromListenerCallback in H end.
  all: try match goal with H : _ && bool_decide (_ = reader) = true |- _ =>
         apply andb_prop in H as [? H]; apply bool_decide_eq_true in H as -> end;
    try congruence.
  all: try match goal with H : pcs _ ?t = _ |- _ =>
         pose proof (Hss t) as Hst'; rewrite H in Hst'; cbn in Hst'; forward;
         destruct (decide (t = reader)) as [->|];
         [rewrite H in *; cbn in *; forward; destruct_and?; try congruence;
          try match type of Ho with in_callback ?v = None -> _ =>
            assert (in_callback v <> None) by (intros E; by specialize (Ho E)) end
         |] end.
  all: constructor; cbn; rewrite ?fn_lookup_insert, ?fn_lookup_insert_ne by done; cbn;
    try assumption; try (by apply HI); try done.
  all: intros; read_pcs; cbn in *; try done; try solve [auto].
  all: try (destruct c; naive_solver).
  all: try (try specialize (Hst ltac:(assumption)); destruct_and?; lia).
  all: try (split; [done|]; destruct (finish_once w); [forward; lia|done]).
  all: try (simplify_eq; try specialize (Htf _ eq_refl);
    destruct (reader_tid w); cbn in *; by auto).
  all: try (rewrite Hwake; by auto).
  all: try match goal with E : callback_over ?v = true |- _ =>
         unfold callback_over in E; by destruct (pcs v reader) end.
  all: exfalso.
  all: try match goal with N : ?t <> reader |- _ =>
         apply N; eapply (inv_stopper _ HS); [|eassumption];
         match goal with E : pcs _ t = _ |- _ => by rewrite E end end.
  all: try (forward; rewrite Ho in *; done).
  all: try (rewrite Ht in * by done; done).
Qed.

Lemma wake_not_done_sleep p n : wake p <> Waiting DoneSleep n.
Proof. wake_cases p. Qed.

Lemma wake_not_until_sleep p n d : wake p <> Waiting (UntilSleep d) n.
Proof. wake_cases p. Qed.

Lemma wake_not_for_sleep p n d : wake p <> Waiting (ForSleep d) n.
Proof. wake_cases p. Qed.

Lemma wake_done_woke p n :
  wake p = Waiting DoneWoke n -> p = Waiting DoneSleep n \/ p = Waiting DoneWoke n.
Proof.
  destruct p; try done. match goal with x : wait_pc |- _ => destruct x end;
    try done; intros [= <-]; auto.
Qed.

Lemma sleep_step e w w' :
  state_inv w -> lock_inv w -> script_inv w -> sleep_inv w -> step e w = Some w' ->
  sleep_inv w'.
Proof.
  intros HC HL HS HI HStep. pose proof (inv_done _ HL) as Hm. pose proof (inv_launching _ HC) as Hl.
  pose proof (inv_done_sleep _ HI) as Hd. pose proof (inv_until_sleep _ HI) as Hu.
  pose proof (inv_done_woke _ HI) as Hk. pose proof (inv_closing _ HI) as Hc.
  pose proof (inv_for_sleep _ HI) as Hf.
  pose proof (inv_script _ HS) as Hsc. pose proof (inv_unstarted _ HS) as Hun.
  step_cases HStep.
  all: constructor; cbn; try (by apply HI).
  all: intros; read_pcs; cbn in *; try done; 
    try (by eapply Hd); try (by eapply Hu); try (by eapply Hk); try (by eapply Hc);
    try (by eapply Hf).
  all: try (destruct c; first [done | by eapply Hd | by eapply Hu | by eapply Hk
                                | by eapply Hc | by eapply Hf]).
  all: try (by (exfalso; (eapply wake_not_done_sleep + eapply wake_not_until_sleep +
                           eapply wake_not_for_sleep))).
  all: try match goal with E : wake _ = Waiting DoneWoke _ |- _ =>
         apply wake_done_woke in E as [E|E] end.
  all: try match goal with E : pcs _ ?t = StartThread |- _ =>
         specialize (Hl t); rewrite E in Hl; destruct Hl as [? Ht]; [done|];
         destruct (Hun Ht) as (_ & _ & ? & ?) end.
  all: try (try right; match goal with E : pcs _ ?t = Waiting _ _ |- done_ _ = false =>
                         apply (Hc t); by rewrite E end).
  all: try match goal with
    | E : closing _ = true |- _ =>
        pose proof (Hc _ E) as Hp; apply closing_holds, Hm in E
    | E : pcs _ _ = Waiting (ForSleep _) _ |- _ => pose proof (Hf _ _ _ E) as Hp
    | E : pcs _ _ = Waiting DoneSleep _ |- _ => destruct (Hd _ _ E) as [? Hp]
    | E : pcs _ _ = Waiting (UntilSleep _) _ |- _ => pose proof (Hu _ _ _ E) as Hp
    | E : pcs _ _ = Waiting DoneWoke _ |- _ => pose proof (Hk _ _ E) as Hp
    end.
  all: unfold pending in *; cbn; try (split; congruence); try (by right; split).
  all: try match goal with E : todo _ = Some _ |- _ => rewrite E in Hp end.
  all: try match goal with E : in_callback _ = _ |- _ => rewrite E in * end.
  all: clear HC HL HS HI Hd Hu Hk Hc Hf Hun Hm; try clear Hl; try (intuition congruence).
  all: try (destruct (todo _) as [[|[] ?]|]; intuition congruence).
  (* the setters of the two flags: the notification comes next *)
  all: specialize (Hsc _ eq_refl); cbn in Hsc; destruct l0 as [|[] ?]; auto;
    rewrite ?andb_false_r in Hsc; done.
Qed.
End Preservation.
