(* ===== verification/LifecycleTheorems.v ===== *)
(** * What the realtime recognizer guarantees

    The results on [Lifecycle], for every interleaving of its threads: the wire
    protocol, the state machine, the callback protocol, re-entrancy, and the
    progress of locks and of [Stop]. *)

From S2P Require Import Prelude StdMap Double Params Json JsonRead Credential SignatureParams UserSig WsFrame Types Recognizer Protocol Lifecycle LifecycleInv LifecycleScript LifecycleWait.

Open Scope Z_scope.

(** ** The invariant of every reachable world *)

Record inv {P : Protocol} (w : world) : Prop := {
  inv_state_of : state_inv w; inv_lock_of : lock_inv w; inv_wire_of : wire_inv w;
  inv_script_of : script_inv w; inv_reader_of : reader_inv w; inv_sleep_of : sleep_inv w; inv_frame_of : frame_inv w
}.

Section Theorems.
Context {P : Protocol} (json_parse : str -> result json) (cast : Z -> double -> Z).
Abbreviation step := (Lifecycle.step json_parse cast).
Abbreviation run := (Lifecycle.run json_parse cast).
Abbreviation reachable := (Lifecycle.reachable json_parse cast).

Lemma reachable_inv w : reachable w -> inv w.
Proof.
  induction 1 as [r|e w w' _ IH HS].
  - constructor; [| | | |apply reader_init|apply sleep_init|by constructor].
    + constructor; cbn; done || lia.
    + by constructor.
    + by constructor.
    + apply script_init.
  - destruct IH. constructor;
      eauto using state_step, lock_step, wire_step, script_step, reader_step, sleep_step,
        frame_step.
Qed.

Lemma run_reachable es w w' : reachable w -> run es w = Some w' -> reachable w'.
Proof.
  revert w; induction es as [|e es IH]; intros w Hw; cbn [Lifecycle.run].
  - by intros [= <-].
  - destruct (step e w) as [w1|] eqn:E; [|done]. cbn. apply IH. by eapply reachable_step.
Qed.

(** *** The wire *)

(** C1: No audio frame follows the end frame, and there is at most one end frame,
    however writers and stoppers interleave. *)
Theorem no_audio_after_end w before f after :
  reachable w -> wire w = before ++ f :: after -> is_end f = true ->
  after = [] /\ end_sent before = false.
Proof.
  intros Hw%reachable_inv E. pose proof (inv_wire _ (inv_wire_of _ Hw)) as Hl.
  rewrite E in Hl. by apply end_last_split.
Qed.

(** Every frame handed to the socket fits: audio within the limit of the
    protocol, texts within that of a start frame. *)
Lemma wire_ends w : reachable w -> end_last (wire w) = true.
Proof. intros Hw%reachable_inv. apply (inv_wire _ (inv_wire_of _ Hw)). Qed.

Lemma wire_fits w : reachable w -> Forall frame_fits (wire w).
Proof. intros Hw%reachable_inv. apply (inv_frames _ (inv_frame_of _ Hw)). Qed.

(** *** The state *)

(** C20: The state only advances: a recognizer is single-use.  The one way back is
    a [Start] that fails, which returns to idle and throws. *)
Theorem state_advances w e w' :
  reachable w -> step e w = Some w' ->
  state w <= state w' <= 4 \/
  exists t ex, e = Step t Go /\ pcs w t = StartThrow ex /\ state w = 1 /\ state w' = 0.
Proof.
  intros Hr HS. pose proof (reachable_inv _ Hr) as [HI _ _ _ _ _ _].
  pose proof (state_step _ _ _ _ _ HI HS) as HI'.
  pose proof (inv_range _ HI) as H0. pose proof (inv_range _ HI') as H1. clear HI'.
  pose proof (inv_starting _ HI) as Hs. pose proof (inv_stopping _ HI) as Hp.
  clear Hr HI. step_cases HS.
  all: cbn in *; try (left; lia).
  all: match goal with E : pcs _ ?t = _ |- _ =>
         specialize (Hs t); specialize (Hp t); rewrite E in Hs, Hp; cbn in Hs, Hp end; forward.
  all: try (left; lia).
  all: right; eauto 10.
Qed.

(** *** Callbacks *)

Lemma order_ok_split started before d after :
  order_ok started (before ++ d :: after) = true ->
  (is_start d.1 = true <-> started = false /\ before = []) /\
  (terminal d.1 = true -> after = []).
Proof.
  revert started; induction before as [|e before IH]; intros started; cbn;
    rewrite !andb_true_iff; intros [[Hs Ht] Ho].
  - apply eqb_prop in Hs. rewrite Hs. split; [destruct started; naive_solver|].
    intros E. rewrite E in Ht. by apply is_empty_true.
  - apply IH in Ho as [Ho1 Ho2]. split; [|done]. rewrite Ho1. naive_solver.
Qed.

(** C2: [OnRecognitionStart] comes first and only once, a terminal callback
    ([OnRecognitionComplete], or an [OnFail] that is not about one bad frame)
    comes last, so at most once, and the terminal callbacks and those of a
    final response are delivered in the stopped state. *)
Theorem callback_protocol w before cb at_state after :
  reachable w -> deliveries (history w) = before ++ (cb, at_state) :: after ->
  (is_start cb = true <-> before = []) /\
  (terminal cb = true -> after = []) /\
  (after_finish cb = true -> at_state = kStateStopped_).
Proof.
  intros Hw%reachable_inv E. pose proof (inv_script_of _ Hw) as HS.
  pose proof (inv_order _ HS) as Ho. pose proof (inv_deliveries _ HS) as Hd.
  rewrite E in Ho, Hd. apply order_ok_split in Ho as [H1 H2]. cbn in H1, H2.
  apply Forall_app in Hd as [_ Hd]. apply Forall_cons_1 in Hd as [Hd _].
  split_and!; [naive_solver|done|exact Hd].
Qed.

(** C6: A session that is over without a terminal callback was stopped, or
    destroyed, by the host: the SDK never ends one silently. *)
Theorem no_silent_end w :
  reachable w -> done_ w = true ->
  ended (deliveries (history w)) = true \/ stop_called (history w) = true.
Proof.
  intros Hw%reachable_inv Hd. pose proof (inv_script_of _ Hw) as HS.
  apply orb_prop. destruct (inv_over _ HS Hd) as [[E|E] _];
    exact (inv_script _ HS _ E).
Qed.

(** After a terminal callback [Stop] is refused at once, and so is a [Write]
    whose arguments are acceptable. *)
Theorem calls_after_terminal w t :
  reachable w -> ended (deliveries (history w)) = true -> in_dtor w t = false ->
  (pcs w t = StopCas \/
   exists d len, pcs w t = WriteCheck d len /\ is_ok (write_args d len) = true) ->
  thread_step t Go w = Some (observe (Returned t not_running) (goto t Outside w)).
Proof.
  intros Hw%reachable_inv He Hd Hp. apply (inv_term _ (inv_script_of _ Hw)) in He.
  apply (inv_finish _ (inv_state_of _ Hw)) in He.
  unfold Lifecycle.thread_step.
  destruct Hp as [->|(d & len & -> & Ha)]; cbn; [|destruct (write_args d len); [|done]];
    rewrite He; cbn; unfold ret; by rewrite Hd.
Qed.

(** C21: A call made from a callback never waits for the reader, on which it runs:
    once its end frame is sent it hands the wait to a watchdog and returns. *)
Theorem reentrant_stop_never_waits w :
  reachable w ->
  is_waiting (pcs w reader) = false /\
  (pcs w reader = StopReentrant -> forall c w', thread_step reader c w = Some w' ->
     pcs w' reader = Outside /\
     exists watchdog, pcs w' watchdog = Waiting WaitEnter ThenEndWatchdog).
Proof.
  intros Hw%reachable_inv. pose proof (inv_reader_of _ Hw) as HR.
  split; [apply HR|]. intros E c w' HS.
  assert (reader_tid w = true) as Ht.
  { apply (inv_tid _ HR). intros Hc. by rewrite (inv_reader_out _ HR Hc) in E. }
  unfold Lifecycle.thread_step in HS. rewrite E in HS. cbn in HS.
  unfold CalledFromListenerCallback, ret in HS. rewrite Ht in HS.
  cbn in HS. destruct c; try done. destruct (pcs w watchdog); try done.
  destruct (decide (watchdog = reader)) as [|Hne]; [done|].
  rewrite (inv_reader_dtor' _ HR) in HS. injection HS as <-. cbn.
  rewrite fn_lookup_insert. split; [done|]. exists watchdog.
  rewrite fn_lookup_insert_ne by done. apply fn_lookup_insert.
Qed.

(** *** Progress *)

(** C19: A thread that owns a lock can always take its next step: it never waits
    for the other lock, so the two cannot deadlock. *)
Theorem lock_owner_advances w t :
  reachable w -> write_mu w = Some t \/ done_mu w = Some t ->
  exists c, is_Some (thread_step t c w).
Proof.
  intros Hw%reachable_inv Hl. pose proof (inv_lock_of _ Hw) as HL.
  unfold Lifecycle.thread_step.
  destruct Hl as [Hl|Hl]; [apply (inv_write _ HL) in Hl|apply (inv_done _ HL) in Hl].
  - destruct (pcs w t); try done;
      first [exists Go; cbn; case_match; by eexists | exists (SendResult None); by eexists
            | exists Go; by eexists].
  - destruct (pcs w t); try done.
    match goal with x : wait_pc |- _ => destruct x end; try done; exists Go; cbn;
      repeat case_match; by eexists.
Qed.

Lemma not_pending w : todo w = Some [] -> pending w = false.
Proof. intros E. unfold pending. by rewrite E. Qed.

(** A thread past the wait's lock, or able to take it, with [done] set. *)
Definition wait_distance (p : wait_pc) : nat :=
  match p with
  | WaitExit => 1 | WaitTop _ | TimedOut _ | DoneWoke | ForWoke => 2
  | WaitEnter | UntilWoke _ _ => 3 | _ => 4
  end%nat.

Lemma wait_advances w t p n :
  done_ w = true -> pcs w t = Waiting p n -> (wait_distance p <= 3)%nat ->
  (holds_done (Waiting p n) = false -> done_mu w = None) ->
  exists w', step (Step t Go) w = Some w' /\
    (is_waiting (pcs w' t) = false \/
     done_ w' = true /\ exists p', pcs w' t = Waiting p' n /\
       (wait_distance p' < wait_distance p)%nat /\ holds_done (Waiting p' n) = true).
Proof.
  intros Hd Hp Hk Hf. cbn. unfold Lifecycle.thread_step. rewrite Hp.
  destruct p; cbn in Hk, Hf |- *; try lia; try rewrite Hf by done; rewrite ?Hd;
    (eexists; split; [reflexivity|]).
  all: try (destruct n; cbn; unfold ret; cbn; try case_match; cbn; rewrite ?fn_lookup_insert;
            by left).
  all: right; cbn; split; [done|]; rewrite fn_lookup_insert; eexists; split; [reflexivity|];
    try match goal with b : bool |- _ => destruct b end; by (split; [cbn; lia|]).
Qed.

Lemma wait_runs_out k w t p n :
  (wait_distance p <= k <= 3)%nat -> done_ w = true -> pcs w t = Waiting p n ->
  (holds_done (Waiting p n) = false -> done_mu w = None) ->
  exists j w', (j <= k)%nat /\ run (replicate j (Step t Go)) w = Some w' /\
    is_waiting (pcs w' t) = false.
Proof.
  revert w p; induction k as [|k IH]; intros w p Hk Hd Hp Hf.
  { destruct p; cbn in Hk; lia. }
  destruct (wait_advances w t p n) as (w1 & E & [Ho|(Hd1 & p1 & Hp1 & Hlt & Hh)]); [done..|lia|done| |].
  - exists 1%nat, w1. cbn [replicate Lifecycle.run]. rewrite E. split_and!; [lia|done|done].
  - destruct (IH w1 p1) as (j & w' & Hj & Hr & Ho); [lia|done|done|by rewrite Hh|].
    exists (S j), w'. cbn [replicate Lifecycle.run]. rewrite E. split_and!; [lia|exact Hr|done].
Qed.

(** C17: Once the reader has signalled, a thread in [WaitForReadLoopOrClose]
    returns within three steps of its own, with no help from a timeout: no
    wake-up is lost. *)
Theorem wait_returns w t p n :
  reachable w -> done_ w = true -> todo w = Some [] ->
  pcs w t = Waiting p n -> done_mu w = None \/ done_mu w = Some t ->
  exists k w', (k <= 3)%nat /\ run (replicate k (Step t Go)) w = Some w' /\
    is_waiting (pcs w' t) = false.
Proof.
  intros Hw%reachable_inv Hd Ht Hp Hm. pose proof (not_pending _ Ht) as Hn.
  pose proof (inv_sleep_of _ Hw) as HS. pose proof (inv_done _ (inv_lock_of _ Hw) t) as HL.
  rewrite Hp in HL. clear Hw Ht.
  assert (forall d, p <> ForSleep d /\ p <> UntilSleep d /\ p <> DoneSleep) as Hawake.
  { intros d. split_and!; intros ->.
    - destruct (inv_for_sleep _ HS _ _ _ Hp); congruence.
    - destruct (inv_until_sleep _ HS _ _ _ Hp); [|destruct_and?]; congruence.
    - destruct (inv_done_sleep _ HS _ _ Hp) as [_ []]; congruence. }
  assert (p <> WaitClose /\ p <> WaitBrief) as Hopen.
  { split; intros ->; pose proof (inv_closing _ HS t) as Hc; rewrite Hp in Hc;
      specialize (Hc eq_refl); congruence. }
  assert (holds_done (Waiting p n) = false -> done_mu w = None) as Hfree.
  { intros Hf. rewrite Hf in HL. destruct Hm as [|Hm]; [done|]. by apply HL in Hm. }
  assert (wait_distance p <= 3)%nat as Hk.
  { destruct Hopen as [H1 H2].
    destruct p as [|d| | |d|d b|d| | |d| |]; cbn; try lia; try done;
      exfalso; destruct (Hawake 0) as (_ & _ & ?); try done;
      by destruct (Hawake d) as (? & ? & _). }
  by apply (wait_runs_out 3 w t p n).
Qed.

(** *** The stop timeout *)

Definition deadline_of (p : pc) : option Z :=
  match p with
  | Waiting (WaitTop d | UntilSleep d | UntilWoke d _ | TimedOut d) _ => Some d
  | _ => None
  end.

Lemma wake_deadline p : deadline_of (wake p) = deadline_of p.
Proof. wake_cases p. Qed.

Lemma wake_wait_close p n : wake p = Waiting WaitClose n -> p = Waiting WaitClose n.
Proof. destruct p; try done. by match goal with x : wait_pc |- _ => destruct x end. Qed.

(** The deadline of a stop is set on entry, [stop_timeout] from then, and no
    wake-up, spurious or not, moves it; the connection is forced closed only
    past it, and only while neither the terminal response has arrived nor the
    reader ended. *)
Theorem stop_deadline w e w' t :
  step e w = Some w' ->
  (forall d d', deadline_of (pcs w t) = Some d -> deadline_of (pcs w' t) = Some d' -> d' = d) /\
  (forall n d', pcs w t = Waiting WaitEnter n -> deadline_of (pcs w' t) = Some d' ->
     d' = now w + stop_timeout w) /\
  (forall n n' d, pcs w t = Waiting (UntilSleep d) n ->
     pcs w' t = Waiting (UntilWoke d true) n' -> d <= now w) /\
  (forall n, pcs w' t = Waiting WaitClose n -> pcs w t = Waiting WaitClose n \/
     exists d, pcs w t = Waiting (TimedOut d) n /\ done_ w = false /\
       terminal_received w = false).
Proof.
  intros HS. step_cases HS.
  all: split_and!; intros; read_pcs; cbn in *; rewrite ?wake_deadline in *; try done;
    try congruence; try (by left).
  all: try match goal with E : wake _ = Waiting WaitClose _ |- _ =>
         left; exact (wake_wait_close _ _ E) end.
  all: repeat match goal with
    | E : pcs ?v ?t = _, F : context [pcs ?v ?t] |- _ => lazymatch F with E => fail | _ =>
        rewrite E in F; clear E end
    end; cbn in *; simplify_eq; try done; try (match goal with c : call |- _ => by destruct c end).
  - lia.
  - right. eauto.
Qed.

(** The timeouts [SetStopTimeout] leaves, and the default. *)
Definition stop_timeout_ok (ms : Z) : Prop := 1000 <= ms <= 60000.

Record timeout_inv (w : world) : Prop := {
  inv_configured : stop_timeout_ok (config_stop_timeout (config w));
  inv_timeout : stop_timeout_ok (stop_timeout w);
  inv_deadline t d : deadline_of (pcs w t) = Some d -> d <= now w + 60000
}.

Lemma timeout_step e w w' : timeout_inv w -> step e w = Some w' -> timeout_inv w'.
Proof.
  intros [Hc Hs Hd] HStep. unfold stop_timeout_ok in *. step_cases HStep.
  all: try match goal with H : pcs _ ?t = _ |- _ =>
         pose proof (Hd t) as Hdt; rewrite H in Hdt; cbn in Hdt end.
  all: try match goal with E : connect_session _ _ = Some _ |- _ =>
         apply connect_session_timeout in E; cbn in E end.
  all: constructor; unfold stop_timeout_ok; cbn; try lia; intros; read_pcs;
    rewrite ?wake_deadline in *; cbn in *; simplify_eq; try lia;
    try match goal with E : deadline_of (pcs _ _) = Some _ |- _ => apply Hd in E; lia end.
  all: first [specialize (Hdt _ eq_refl); lia | by match goal with c : call |- _ => destruct c end].
Qed.

Lemma run_timeouts es w w' : timeout_inv w -> run es w = Some w' -> timeout_inv w'.
Proof.
  revert w. induction es as [|e es IH]; intros w Hw; cbn; [by intros [= <-]|].
  destruct (step e w) as [w1|] eqn:E; [|done]. cbn. apply IH. by eapply timeout_step.
Qed.


(** *** Two calls, run to their end *)

Lemma pcs_goto t p w : pcs (goto t p w) t = p.
Proof. apply fn_lookup_insert. Qed.

Lemma run_step t c p w w1 es :
  pcs w t = p ->
  (forall q, pcs w t = q -> q = p -> thread_step t c w = Some w1) ->
  run (Step t c :: es) w = run es w1.
Proof. intros Hp Hs. cbn [Lifecycle.run Lifecycle.step]. by rewrite (Hs p Hp eq_refl). Qed.

(** One statement of thread [t], its position known. *)
Ltac one_step :=
  erewrite run_step;
    [|first [eassumption | apply pcs_goto]
     |intros ? Hq ->; unfold Lifecycle.thread_step; rewrite Hq; clear Hq].

(** [Start] with an option that does not validate fails before anything is
    dialled or written, and leaves the recognizer idle. *)
Theorem start_invalid_options w t ex :
  pcs w t = StartCas -> in_dtor w t = false -> state w = kStateIdle_ ->
  validate_options (config w) = Throw ex ->
  exists w', run (replicate 3 (Step t Go)) w = Some w' /\
    state w' = kStateIdle_ /\ conn w' = conn w /\ wire w' = wire w /\ todo w' = todo w /\
    pcs w' t = Outside /\ history w' = history w ++ [Returned t (Throw ex)].
Proof.
  intros Hp Hd Hs Hv. cbn [replicate].
  one_step; [|unfold start_step; rewrite Hs; reflexivity].
  one_step; [|unfold start_step; change (config (goto _ _ (set_state _ w))) with (config w); rewrite Hv; reflexivity].
  one_step; [|reflexivity]. eexists. split; [reflexivity|].
  unfold ret. change (in_dtor (set_state _ _) t) with (in_dtor w t). rewrite Hd.
  split_and!; try reflexivity. apply pcs_goto.
Qed.

(** [Start] once its options are valid, by the outcome of [Connect]: on an
    exception the recognizer is idle again and has no reader; otherwise it
    runs, and its reader is about to report the start. *)
Lemma start_connects w t a r s frames :
  pcs w t = StartCas -> in_dtor w t = false -> state w = kStateIdle_ ->
  validate_options (config w) = Ok tt ->
  connect_session a (mkSession (config w) (speaker_continue_ w) (conn w) (shut w)) =
    Some (r, s, frames) ->
  exists w',
    run ([Step t Go; Step t Go; Step t (Dial a); Step t Go] ++
         if r is Ok _ then [Step t Go; Step t Go] else []) w = Some w' /\
    conn w' = s_conn s /\ wire w' = wire w ++ frames /\ pcs w' t = Outside /\
    config w' = s_config s /\ history w' = history w ++ [Returned t r] /\
    match r with
    | Throw _ => state w' = kStateIdle_ /\ todo w' = todo w
    | Ok _ =>
        state w' = kStateRunning_ /\ stop_timeout w' = config_stop_timeout (s_config s) /\
        todo w' = Some ([SetReaderTid; Callback (OnRecognitionStart
          (mkSpeechRecognitionResponse 0 «"success"» (session_voice_id (s_config s)) [] 0
             empty_result false (if ack_continue then s_continue s else None))) false; GetConn; Read]
          ++ read_loop_exit)
    end.
Proof.
  intros Hp Hd Hs Hv Hc. cbn [app].
  one_step; [|unfold start_step; rewrite Hs; reflexivity].
  one_step; [|unfold start_step; change (config (goto _ _ (set_state _ w))) with (config w);
    rewrite Hv; reflexivity].
  one_step; [|unfold start_step, connect_world; cbn; rewrite Hc; reflexivity].
  destruct r as [[]|e]; [one_step; [|reflexivity]; one_step; [|reflexivity]|];
    (one_step; [|reflexivity]); eexists; (split; [reflexivity|]); unfold ret; cbn; rewrite Hd;
    split_and!; try reflexivity; apply fn_lookup_insert.
Qed.

(** A writer on a running, connected session. *)
Record writer_at (t : tid) (p : pc) (mu : option tid) (frames : list sent)
    (h : list observation) (w : world) : Prop := {
  wr_pc : pcs w t = p; wr_dtor : in_dtor w t = false; wr_state : state w = kStateRunning_;
  wr_conn : conn w = true; wr_mu : write_mu w = mu; wr_wire : wire w = frames;
  wr_history : history w = h
}.

Lemma run_writer t c p mu fr h p' mu' fr' h' es (Q : world -> Prop) w :
  writer_at t p mu fr h w ->
  (forall w, writer_at t p mu fr h w ->
     exists w1, thread_step t c w = Some w1 /\ writer_at t p' mu' fr' h' w1) ->
  (forall w1, writer_at t p' mu' fr' h' w1 -> exists w', run es w1 = Some w' /\ Q w') ->
  exists w', run (Step t c :: es) w = Some w' /\ Q w'.
Proof.
  intros Hw Hs Hk. destruct (Hs w Hw) as (w1 & E & H1). destruct (Hk w1 H1) as (w' & Hr & H').
  exists w'. cbn [Lifecycle.run Lifecycle.step]. by rewrite E.
Qed.

(** The next statement of the writer, which moves to position [p]. *)
Ltac writer_step p :=
  eapply (run_writer _ _ _ _ _ _ p);
    [eassumption
    |intros ? [Ep Ed Es Ec Em Ew Eh]; unfold Lifecycle.thread_step; rewrite Ep; cbn;
     rewrite ?Es, ?Ec, ?Em;
     try match goal with E : write_args _ _ = _ |- _ => rewrite E; cbn end; eexists; split; [reflexivity|]; unfold ret; cbn; rewrite ?Ed;
     constructor; cbn; rewrite ?Ew, ?Eh; try done; apply fn_lookup_insert
    |cbv beta; intros ? ?].

(** What [Write] refuses before it looks at the session: a null pointer with a
    length, and a frame above the limit of the protocol. *)
Lemma write_args_spec data len :
  write_args data len =
  (if bool_decide (data = None) && (0 <? len)
   then throw_asr kErrInvalidParam «"audio data pointer is null"»
   else if (if frame_limit is Some limit then Z.of_N limit <? len else false)
   then throw_asr kErrInvalidParam
          («"audio frame exceeds "» ++ to_string (Z.of_N (default 0%N frame_limit)) ++ «" bytes"»)
   else Ok (take (Z.to_nat len) (default [] data))).
Proof.
  unfold write_args. destruct data as [d|]; cbn.
  - destruct frame_limit; cbn; [|done]. by destruct (_ <? len).
  - destruct (Z.ltb_spec 0 len) as [|Hl]; [done|]. cbn. rewrite take_nil.
    destruct frame_limit; cbn; [|done]. by destruct (_ <? len).
Qed.

(** An undisturbed [Write] on a running session either refuses its arguments,
    and then sends nothing, or hands exactly its audio to the socket as one
    binary frame; it leaves the lock free. *)
Theorem write_delivers w t data len :
  pcs w t = WriteCheck data len -> in_dtor w t = false -> state w = kStateRunning_ ->
  conn w = true -> write_mu w = None ->
  match write_args data len with
  | Throw e => thread_step t Go w = Some (observe (Returned t (Throw e)) (goto t Outside w))
  | Ok bytes =>
      exists w',
        run [Step t Go; Step t Go; Step t Go; Step t Go; Step t (SendResult None); Step t Go] w
          = Some w' /\
        wire w' = wire w ++ [(0x2, bytes, true)] /\ write_mu w' = None /\
        state w' = kStateRunning_ /\ history w' = history w ++ [Returned t (Ok tt)]
  end.
Proof.
  intros Hp Hd Hs Hc Hm. destruct (write_args data len) as [bytes|e] eqn:Ha.
  2: { unfold Lifecycle.thread_step. rewrite Hp. cbn. rewrite Ha. unfold ret. by rewrite Hd. }
  assert (writer_at t (WriteCheck data len) None (wire w) (history w) w) as Hw by done.
  clear Hp Hd Hs Hc Hm. revert Hw. generalize (wire w) (history w). intros fr h Hw.
  writer_step (WriteConn bytes). writer_step (WriteLock bytes). writer_step (WriteRecheck bytes).
  writer_step (WriteSend bytes). writer_step (WriteUnlock (Ok tt)).
  writer_step Outside. eexists. split; [reflexivity|].
  match goal with E : writer_at _ Outside _ _ _ _ |- _ => destruct E end. auto.
Qed.
End Theorems.

(** The recognizers a host can configure. *)
Lemma configured_stop_ok credential model ss :
  stop_timeout_ok (stop_timeout_ (configure ss (new_SpeechRecognizer credential model))).
Proof. apply configured_timeouts. Qed.

(** ** A complete session, for the examples *)

Definition demo_recognizer : SpeechRecognizer :=
  new_SpeechRecognizer (set_user_sig (new_Credential 1400000000 1600000000 «"key"») «"sig"»)
    «"16k_zh"».

Definition demo_parse (text : str) : result json :=
  Ok (JObj [(«"code"», JInt 0); («"final"», JInt 1)]).

Definition demo_platform : target :=
  {| _WIN32 := false; __ANDROID__ := false; __APPLE__ := false; TARGET_OS_IPHONE := false;
     __linux__ := true |}.

#[local] Instance demo_protocol : Protocol := @v2_protocol stored_zlib (fun _ => []) demo_platform.

Abbreviation demo_run := (Lifecycle.run demo_parse (fun _ _ => 0)).

Definition demo_start : list event :=
  [ UserCall 1 CallStart; Step 1 Go; Step 1 Go; Step 1 (Dial (mkAttempt «"uuid"» 0 0 None)); Step 1 Go;
    Step 1 Go; Step 1 Go;
    ReaderStep Go; ReaderStep Go; CallbackReturn; ReaderStep Go ].

Definition demo_write : list event :=
  [ UserCall 2 (CallWrite (Some «"ab"») 2); Step 2 Go; Step 2 Go; Step 2 Go; Step 2 Go;
    Step 2 (SendResult None); Step 2 Go ].

Definition demo_stop : list event :=
  [ UserCall 1 CallStop; Step 1 Go; Step 1 Go; Step 1 Go; Step 1 Go; Step 1 (SendResult None);
    Step 1 Go; Step 1 Go; Step 1 Go; Step 1 Go ].

Definition demo_final : list event :=
  [ ReaderStep (ReadResult (ReadFrame (mkWsFrame 1 «"final"» true)));
    ReaderStep Go; ReaderStep Go; ReaderStep Go; ReaderStep Go; ReaderStep Go; CallbackReturn ].

Definition demo_exit : list event :=
  [ ReaderStep Go; ReaderStep Go; ReaderStep Go; ReaderStep Go ].

Definition demo_session : list event := demo_start ++ demo_write ++ demo_stop ++ demo_final.

Definition demo_first : world := init (P := demo_protocol) demo_recognizer.

(** The world after a schedule; the first world when the schedule is not
    possible. *)
Definition demo_world (es : list event) : world :=
  default demo_first (demo_run es demo_first).

(** ** Examples: each theorem at a point of the complete session *)

Abbreviation demo_reachable :=
  (Lifecycle.reachable demo_parse (fun _ _ => 0)).
Abbreviation demo_step :=
  (Lifecycle.step demo_parse (fun _ _ => 0)).
Abbreviation demo_thread_step := Lifecycle.thread_step.

Lemma demo_world_reachable es :
  (if demo_run es demo_first is Some _ then true else false) = true ->
  demo_reachable (demo_world es).
Proof.
  unfold demo_world. destruct (demo_run es demo_first) as [w|] eqn:E; [|done].
  intros _. eapply run_reachable; [|exact E]. apply reachable_init.
Qed.

(** A schedule and one more event. *)
Lemma run_snoc es e w :
  demo_run (es ++ [e]) w = (w1 ← demo_run es w; demo_step e w1).
Proof.
  revert w; induction es as [|e' es IH]; intros w; cbn [app Lifecycle.run].
  - cbn. by destruct (Lifecycle.step _ _ e w).
  - destruct (Lifecycle.step _ _ e' w); [apply IH|done].
Qed.

Lemma demo_world_step es e :
  (if demo_run (es ++ [e]) demo_first is Some _ then true else false) = true ->
  demo_step e (demo_world es) = Some (demo_world (es ++ [e])).
Proof.
  unfold demo_world. rewrite run_snoc. destruct (demo_run es demo_first) as [w|]; [|done]. cbn.
  by destruct (Lifecycle.step _ _ e w).
Qed.

Ltac by_vm := vm_compute; reflexivity.
Ltac demo_steps := apply demo_world_step; by_vm.

Ltac at_demo := apply demo_world_reachable; by_vm.

Definition demo_ended : list event := demo_session ++ demo_exit.

(** [Stop] called from [OnRecognitionStart], up to its decision not to wait. *)
Definition demo_reentrant : list event :=
  take 9 demo_start ++
  [ UserCall 0 CallStop; Step 0 Go; Step 0 Go; Step 0 Go; Step 0 Go; Step 0 (SendResult None);
    Step 0 Go ].

Lemma no_audio_after_end_witness :
  ([] : list sent) = [] /\ end_sent [(2, «"ab"», true)] = false.
Proof.
  apply (no_audio_after_end (P := demo_protocol) demo_parse (fun _ _ => 0)
           (demo_world demo_session) _ (1, end_signal, true) []);
    [at_demo|by_vm|reflexivity].
Defined.

Lemma state_advances_witness :
  let before := demo_start ++ [UserCall 1 CallStop] in
  let w := demo_world before in
  let w' := demo_world (before ++ [Step 1 Go]) in
  state w <= state w' <= 4 \/
  exists t ex, Step 1 Go = Step t Go /\ pcs w t = StartThrow ex /\ state w = 1 /\ state w' = 0.
Proof.
  intros before w w'.
  apply (state_advances (P := demo_protocol) demo_parse (fun _ _ => 0) w (Step 1 Go) w');
    [at_demo|demo_steps].
Defined.

Definition demo_complete : callback :=
  OnRecognitionComplete (mkSpeechRecognitionResponse 0 [] [] [] 1 empty_result false None).

Lemma callback_protocol_witness :
  let before := take 1 (deliveries (history (demo_world demo_session))) in
  (is_start demo_complete = true <-> before = []) /\
  (terminal demo_complete = true -> ([] : list (callback * Z)) = []) /\
  (after_finish demo_complete = true -> 4 = kStateStopped_).
Proof.
  apply (callback_protocol (P := demo_protocol) demo_parse (fun _ _ => 0)
           (demo_world demo_session)); [at_demo|by_vm].
Defined.

Lemma no_silent_end_witness :
  let w := demo_world demo_ended in
  ended (deliveries (history w)) = true \/ stop_called (history w) = true.
Proof.
  apply (no_silent_end (P := demo_protocol) demo_parse (fun _ _ => 0));
    [at_demo|by_vm].
Defined.

Lemma calls_after_terminal_witness :
  let w := demo_world (demo_session ++ [UserCall 2 CallStop]) in
  demo_thread_step 2 Go w = Some (observe (Returned 2 not_running) (goto 2 Outside w)).
Proof.
  apply (calls_after_terminal (P := demo_protocol) demo_parse (fun _ _ => 0));
    [at_demo|by_vm..|left; by_vm].
Defined.

Lemma reentrant_stop_never_waits_witness :
  let w := demo_world demo_reentrant in
  is_waiting (pcs w reader) = false /\
  (pcs w reader = StopReentrant -> forall c w', demo_thread_step reader c w = Some w' ->
     pcs w' reader = Outside /\
     exists watchdog, pcs w' watchdog = Waiting WaitEnter ThenEndWatchdog).
Proof.
  apply (reentrant_stop_never_waits (P := demo_protocol) demo_parse (fun _ _ => 0)). at_demo.
Defined.

Lemma lock_owner_advances_witness :
  exists c, is_Some (demo_thread_step 2 c (demo_world (demo_start ++ take 4 demo_write))).
Proof.
  apply (lock_owner_advances (P := demo_protocol) demo_parse (fun _ _ => 0));
    [at_demo|left; by_vm].
Defined.

Lemma wait_returns_witness :
  exists k w', (k <= 3)%nat /\
    demo_run (replicate k (Step 1 Go)) (demo_world demo_ended) = Some w' /\
    is_waiting (pcs w' 1%nat) = false.
Proof.
  apply (wait_returns (P := demo_protocol) demo_parse (fun _ _ => 0)
           (demo_world demo_ended) 1 (UntilWoke 10000 false) ThenStoreStopped);
    [at_demo|by_vm..|left; by_vm].
Defined.

Lemma demo_world_run es :
  (if demo_run es demo_first is Some _ then true else false) = true ->
  demo_run es demo_first = Some (demo_world es).
Proof. unfold demo_world. by destruct (demo_run es demo_first). Qed.


(** A recognizer whose input sample rate is not supported. *)
Definition demo_invalid : SpeechRecognizer :=
  mkSpeechRecognizer (new_Credential 1 2 «"key"») [] «"16k_zh"» 1 1 1 [] [] [] [] 0 0 0 None 0 0
    None None 0 16000 0 0 [] 0 [] [] [] [] 5000 10000.

Lemma start_invalid_options_witness :
  let w := goto 1 StartCas (init (P := demo_protocol) demo_invalid) in
  exists ex w', demo_run (replicate 3 (Step 1 Go)) w = Some w' /\
    state w' = kStateIdle_ /\ conn w' = conn w /\ wire w' = wire w /\ todo w' = todo w /\
    pcs w' 1%nat = Outside /\ history w' = history w ++ [Returned 1 (Throw ex)].
Proof.
  eexists. apply (start_invalid_options (P := demo_protocol) demo_parse (fun _ _ => 0)); reflexivity.
Defined.

Lemma write_delivers_witness :
  let w := demo_world (demo_start ++ [UserCall 2 (CallWrite (Some «"ab"») 2)]) in
  match write_args (Some «"ab"») 2 with
  | Throw e => demo_thread_step 2 Go w = Some (observe (Returned 2 (Throw e)) (goto 2 Outside w))
  | Ok bytes =>
      exists w',
        demo_run [Step 2 Go; Step 2 Go; Step 2 Go; Step 2 Go; Step 2 (SendResult None); Step 2 Go] w
          = Some w' /\
        wire w' = wire w ++ [(0x2, bytes, true)] /\ write_mu w' = None /\
        state w' = kStateRunning_ /\ history w' = history w ++ [Returned 2 (Ok tt)]
  end.
Proof.
  apply (write_delivers (P := demo_protocol) demo_parse (fun _ _ => 0)); by_vm.
Defined.
