(* ===== verification/V3Session.v ===== *)
(** * A version 3 session (src/v3.cc, [SpeechRecognizer])

    The threads of Lifecycle over the handshake of V3Recognizer: what [Start]
    makes of an acknowledgement, what the socket is given, and a complete
    session as an example. *)

From S2P Require Import Prelude StdMap Double Params Json JsonRead JsonText Credential SignatureParams UserSig WsFrame Http V3Types V3Wire Types Protocol Lifecycle LifecycleInv LifecycleScript LifecycleWait LifecycleTheorems V3Recognizer.

Open Scope Z_scope.

(** The recognizers a host can configure have the timeouts that bound [Stop]. *)
Lemma v3_configured_stop_ok credential model ss :
  stop_timeout_ok (stop_timeout_ (configure ss (new_SpeechRecognizer credential model))).
Proof. apply v3_configured_timeouts. Qed.

Section Session.
Context `{Zlib} (float_text : double -> str) (parse_error : str -> str)
  (cast : Z -> double -> Z) (t : target).

#[local] Instance v3 : Protocol := v3_protocol float_text parse_error cast t.

(** The reader parses responses with the library that read the
    acknowledgement. *)
Abbreviation reachable := (Lifecycle.reachable (json_parse parse_error) cast).
Abbreviation run := (Lifecycle.run (json_parse parse_error) cast).

Definition session_of (w : world) : session SpeechRecognizer :=
  mkSession (config w) (speaker_continue_ w) (conn w) (shut w).

(** The handshake of [a] gets as far as a text frame that holds [ack]. *)
Definition handshake (a : attempt) (w : world) (text : str) (ack : json) (f : WsFrame) : Prop :=
  answered float_text parse_error cast t a (session_of w) text f /\
  json_parse parse_error (payload f) = Ok ack.

(** A server that answers the start frame with an error code makes [Start]
    throw that very error: the connection is closed, no reader runs, and the
    recognizer is idle. *)
Theorem v3_start_refused w th a text ack code msg f :
  pcs w th = StartCas -> in_dtor w th = false -> state w = kStateIdle_ ->
  ValidateOptions (config w) = Ok tt ->
  handshake a w text ack f ->
  value_int cast «"code"» 0 ack = Ok code -> code <> 0 ->
  value_string «"message"» [] ack = Ok msg ->
  exists w', run [Step th Go; Step th Go; Step th (Dial a); Step th Go] w = Some w' /\
    state w' = kStateIdle_ /\ conn w' = false /\ todo w' = todo w /\
    wire w' = wire w ++ [(0x1, text, true)] /\
    history w' = history w ++ [Returned th (Throw (AsrExn (asr_error code msg)))].
Proof.
  intros Hp Hd Hs Hv [Hc%answered_connect Hj] Hcode Hne Hmsg.
  assert (read_ack parse_error cast (payload f) = AckFailed (AsrExn (asr_error code msg)) true) as Hr.
  { unfold read_ack. rewrite Hj, Hcode, Hmsg. by rewrite (proj2 (Z.eqb_neq code 0) Hne). }
  rewrite Hr in Hc.
  destruct (start_connects (json_parse parse_error) cast w th a _ _ _ Hp Hd Hs Hv Hc)
    as (w' & Hrun & Hcn & Hw & _ & _ & Hh & Hst & Ht).
  exists w'. by split_and!.
Qed.

(** An acknowledgement with code 0 makes [Start] return: the recognizer runs,
    and the reader's first callback is [OnRecognitionStart], with the voice id
    of the session and the speaker context of the acknowledgement. *)
Theorem v3_start_acknowledged w th a text ack c f :
  pcs w th = StartCas -> in_dtor w th = false -> state w = kStateIdle_ ->
  ValidateOptions (config w) = Ok tt ->
  handshake a w text ack f ->
  value_int cast «"code"» 0 ack = Ok 0 -> read_continue ack = Ok c ->
  exists w' resp,
    run [Step th Go; Step th Go; Step th (Dial a); Step th Go; Step th Go; Step th Go] w = Some w' /\
    state w' = kStateRunning_ /\ conn w' = true /\ wire w' = wire w ++ [(0x1, text, true)] /\
    history w' = history w ++ [Returned th (Ok tt)] /\
    todo w' = Some ([SetReaderTid; Callback (OnRecognitionStart resp) false; GetConn; Read]
                      ++ read_loop_exit) /\
    voice_id resp = voice_id_ (config w') /\
    speaker_continue resp = (if c is Some _ then c else speaker_continue_ w).
Proof.
  intros Hp Hd Hs Hv [Hc%answered_connect Hj] Hcode Hcont.
  assert (read_ack parse_error cast (payload f) = Acked c) as Hr.
  { unfold read_ack. by rewrite Hj, Hcode, Hcont. }
  rewrite Hr in Hc.
  destruct (start_connects (json_parse parse_error) cast w th a _ _ _ Hp Hd Hs Hv Hc)
    as (w' & Hrun & Hcn & Hw & _ & Hcfg & Hh & Hst & _ & Ht).
  eexists w', _. split_and!; [exact Hrun|exact Hst|exact Hcn|exact Hw|exact Hh|exact Ht| |done].
  by rewrite Hcfg.
Qed.

(** C28: What a session hands to its sockets, for every interleaving of its threads:
    texts of at most 64 KiB and audio frames of at most 256 KiB, and nothing
    after the end signal. *)
Theorem v3_wire w :
  reachable w ->
  Forall (fun f => f.1.1 = 0x1 /\ Z.of_nat (length f.1.2) <= 65536 \/
                   f.1.1 = 0x2 /\ Z.of_nat (length f.1.2) <= 262144) (wire w) /\
  forall before f after, wire w = before ++ f :: after -> is_end f = true ->
    after = [] /\ end_sent before = false.
Proof.
  intros Hw. split.
  - pose proof (wire_fits _ _ _ Hw) as Hf. revert Hf. apply Forall_impl.
    intros f [[Ho Hl]|[Ho Hl]]; [right|left]; by split.
  - intros before f after E. pose proof (wire_ends _ _ _ Hw) as Hl. rewrite E in Hl.
    by apply end_last_split.
Qed.
End Session.

(** ** Witnesses: a session from its start to its end *)

#[local] Instance demo_v3 : Protocol :=
  @v3 stored_zlib (fun _ => []) (fun s => s) (fun _ _ => 0) linux_target.

Abbreviation demo_parse := (json_parse (fun s => s)).
Abbreviation demo_run := (Lifecycle.run demo_parse (fun _ _ => 0)).

Definition demo_first : world := init (P := demo_v3) V3Recognizer.demo_recognizer.
Definition demo_calling : world := goto 1 StartCas demo_first.

Definition demo_frame (text : str) : WsFrame := mkWsFrame 1 text true.

Definition demo_refusal : str :=
  demo_text (JObj [(«"code"», JInt 4002); («"message"», JStr «"auth failed"»)]).

Definition demo_start_text : str :=
  match @start_request stored_zlib (fun _ => []) linux_target V3Recognizer.demo_recognizer
          1700000000 with
  | Ok (text, _) => text | Throw _ => []
  end.

Lemma demo_handshake reply ack :
  demo_parse reply = Ok ack ->
  @handshake stored_zlib (fun _ => []) (fun s => s) (fun _ _ => 0) linux_target
    (demo_attempt reply) demo_calling demo_start_text ack (demo_frame reply).
Proof.
  intros E. split; [|exact E].
  eexists _, [(ReadTimeout, 100); (ReadFrame (mkWsFrame 2 [] true), 150)], 160, [].
  split_and!; [vm_compute; reflexivity|reflexivity..| |reflexivity].
  repeat constructor.
Qed.

Lemma v3_start_refused_witness :
  exists w', demo_run [Step 1 Go; Step 1 Go; Step 1 (Dial (demo_attempt demo_refusal)); Step 1 Go]
      demo_calling = Some w' /\
    state w' = kStateIdle_ /\ conn w' = false /\ todo w' = None /\
    wire w' = [(0x1, demo_start_text, true)] /\
    history w' = [Returned 1 (Throw (AsrExn (asr_error 4002 «"auth failed"»)))].
Proof.
  refine (@v3_start_refused stored_zlib (fun _ => []) (fun s => s) (fun _ _ => 0) linux_target
    demo_calling 1%nat (demo_attempt demo_refusal) demo_start_text
    (JObj [(«"code"», JUint 4002); («"message"», JStr «"auth failed"»)]) 4002 «"auth failed"»
    (demo_frame demo_refusal) eq_refl eq_refl eq_refl eq_refl _ eq_refl _ eq_refl); [|done].
  apply demo_handshake. vm_compute. reflexivity.
Defined.

Definition demo_continue : SpeakerContinue := mkSpeakerContinue «"success"» «"ctx-2"».

Lemma v3_start_acknowledged_witness :
  exists w' resp,
    demo_run [Step 1 Go; Step 1 Go; Step 1 (Dial (demo_attempt demo_ack)); Step 1 Go; Step 1 Go;
              Step 1 Go] demo_calling = Some w' /\
    state w' = kStateRunning_ /\ conn w' = true /\ wire w' = [(0x1, demo_start_text, true)] /\
    history w' = [Returned 1 (Ok tt)] /\
    todo w' = Some ([SetReaderTid; Callback (OnRecognitionStart resp) false; GetConn; Read]
                      ++ read_loop_exit) /\
    voice_id resp = voice_id_ (config w') /\ speaker_continue resp = Some demo_continue.
Proof.
  refine (@v3_start_acknowledged stored_zlib (fun _ => []) (fun s => s) (fun _ _ => 0) linux_target
    demo_calling 1%nat (demo_attempt demo_ack) demo_start_text
    (JObj [(«"code"», JUint 0);
           («"speaker_continue"»,
            JObj [(«"continue_status"», JStr «"success"»);
                  («"speaker_context_id"», JStr «"ctx-2"»)])]) (Some demo_continue)
    (demo_frame demo_ack) eq_refl eq_refl eq_refl eq_refl _ eq_refl eq_refl).
  apply demo_handshake. vm_compute. reflexivity.
Defined.

(** Started, written to, and asked to stop. *)
Definition demo_events : list event :=
  [ UserCall 1 CallStart; Step 1 Go; Step 1 Go; Step 1 (Dial (demo_attempt demo_ack)); Step 1 Go;
    Step 1 Go; Step 1 Go;
    UserCall 2 (CallWrite (Some «"ab"») 2); Step 2 Go; Step 2 Go; Step 2 Go; Step 2 Go;
    Step 2 (SendResult None); Step 2 Go;
    UserCall 1 CallStop; Step 1 Go; Step 1 Go; Step 1 Go; Step 1 Go; Step 1 (SendResult None) ].

Definition demo_stopped : world := default demo_first (demo_run demo_events demo_first).

Lemma v3_wire_witness :
  wire demo_stopped = [(0x1, demo_start_text, true); (0x2, «"ab"», true)] ++ [(0x1, end_signal, true)] /\
  end_sent [(0x1, demo_start_text, true); (0x2, «"ab"», true)] = false.
Proof.
  assert (wire demo_stopped =
    [(0x1, demo_start_text, true); (0x2, «"ab"», true)] ++ [(0x1, end_signal, true)]) as E
    by (vm_compute; reflexivity).
  split; [exact E|].
  refine (proj2 (proj2 (@v3_wire stored_zlib (fun _ => []) (fun s => s) (fun _ _ => 0) linux_target
    demo_stopped _) _ _ _ E (is_end_text true))).
  destruct (demo_run demo_events demo_first) as [w|] eqn:Er.
  - unfold demo_stopped. rewrite Er. eapply run_reachable; [|exact Er]. apply reachable_init.
  - exfalso. revert Er. assert (is_Some (demo_run demo_events demo_first)) as [w ->]; [|done].
    apply is_Some_alt. vm_compute. done.
Defined.
