(* ===== verification/Handshake.v ===== *)
(** * The upgrade request of a recognizer

    [SpeechRecognizer::Connect] of src/speech_recognizer.cc builds a URL and
    hands it to [WsClient::Connect] of src/ws_client.cc, which takes it apart
    and writes the request.  Here the two are composed: what the gateway reads
    on the socket, from the configuration of the recognizer.  The URL of version
    3 (src/v3.cc) carries the voice id as it is. *)

From S2P Require Import Prelude StdMap Decimal Base64 Double Params Json Types Credential SignatureParams UserSig Url WsFrame WsClient WsConnect Http V3Types V3Wire Protocol V3Recognizer Recognizer.

Open Scope Z_scope.

(** ** Endpoints *)

(** [ws://host[:port]] or [wss://host[:port]]. *)
Record endpoint_shape (base : str) (secure : bool) (host : str) (port : option Z) : Prop :=
  mkEndpointShape {
    es_base : base = scheme secure ++ host ++ print_port port;
    es_host : host <> [];
    es_plain : Forall (fun c => c ∉ host) ["/"%char; ":"%char; "]"%char; "013"%char];
    es_port : forall p, port = Some p -> 0 <= p < 2 ^ 31
  }.

(** The endpoints of the sites have that shape. *)
Lemma WSEndpointForSite_shape site base :
  WSEndpointForSite site = Ok base ->
  (base = «"wss://asr.cloud-rtc.com"» \/ base = «"wss://asr-intl.cloud-rtc.com"») /\
  exists host, endpoint_shape base true host None.
Proof.
  unfold WSEndpointForSite, HostForSite. intros E. apply rbind_ok in E as (h & Eh & E).
  apply Ok_inj in E as <-.
  assert (h = kHostCN \/ h = kHostIntl) as Hh.
  { destruct (is_empty _ || _); [left; by apply Ok_inj in Eh|].
    destruct (bool_decide _); [right; by apply Ok_inj in Eh|discriminate]. }
  split; [by destruct Hh as [-> | ->]; [left|right]|].
  exists h. split; [cbn; by rewrite app_nil_r|by destruct Hh as [-> | ->]| |done].
  destruct Hh as [-> | ->]; repeat apply Forall_cons_2; try apply Forall_nil_2; absent.
Qed.

(** ** The request *)

Section Request.
Context `{Zlib} (float_text : double -> str) (t : target).

(** The path and the query that [request_url] appends to the endpoint. *)
Definition v2_target (r : SpeechRecognizer) (query : str) : str :=
  «"/asr/v2/"» ++ to_string (app_id_ (credential_ r)) ++ «"?"» ++ query.

Lemma v2_target_plain c r query :
  c ∉ «"/asr/v2/?"» -> is_decimal c = false -> c ∉ query -> c ∉ v2_target r query.
Proof.
  intros Hc Hd Hq. unfold v2_target.
  change («"/asr/v2/?"») with («"/asr/v2/"» ++ «"?"») in Hc. rewrite !not_elem_of_app in *.
  destruct Hc as [H1 H2]. split_and!; [done|by apply decimal_not_in|done..].
Qed.

End Request.

(** ** Version 3 *)

(** A voice id that can stand in a request line is read back; the generated ones
    can. *)
Lemma v3_gateway_reads `{Zlib} float_text t r now text url base secure_ host_ port_ nonce rest :
  V3Recognizer.start_request float_text t r now = Ok (text, url) ->
  ResolveWSEndpoint (V3Recognizer.endpoint_ r) (site_ (V3Recognizer.credential_ r)) = Ok base ->
  endpoint_shape base secure_ host_ port_ ->
  " "%char ∉ V3Recognizer.voice_id_ r -> line_safe (V3Recognizer.voice_id_ r) ->
  exists parts, ParseWsUrl url = inr parts /\
    read_request (upgrade_request parts (Base64Encode nonce) ++ rest) =
      Some (mkRequest «"GET"» («"/asr/v3?voice_id="» ++ V3Recognizer.voice_id_ r) «"HTTP/1.1"»
              (upgrade_headers parts (Base64Encode nonce)), rest).
Proof.
  unfold V3Recognizer.start_request. intros E Hb [Hbase Hne Hplain Hport] Hs Hl.
  apply rbind_ok in E as (us & _ & E). apply rbind_ok in E as (text' & _ & E).
  apply rbind_ok in E as ([] & _ & E). apply rbind_ok in E as (base' & Hb' & E).
  rewrite Hb in Hb'. apply Ok_inj in Hb' as <-. apply Ok_inj in E. injection E as _ <-.
  rewrite !Forall_cons in Hplain. destruct Hplain as (H1 & H2 & H3 & H4 & _).
  set (target := «"/asr/v3?voice_id="» ++ V3Recognizer.voice_id_ r).
  exists (mkUrlParts secure_ host_ (default (if secure_ then 443 else 80) port_) target). split.
  - rewrite Hbase, <- !app_assoc. fold target. rewrite ParseWsUrl_reads; [done..|by left].
  - apply upgrade_request_reads; [..|exact H4]; apply not_elem_of_app; (split; [absent|done]).
Qed.

(** One with a line break adds a header of its choosing; [ValidateOptions] only
    looks at its length. *)
Example v3_voice_id_injects_header :
  let parts := mkUrlParts true kHostCN 443
    («"/asr/v3?voice_id="» ++ «"x HTTP/1.1"» ++ crlf ++ «"X-Evil: 1"» ++ crlf ++ «"X-Rest: "») in
  (fun x => (req_target x.1, take 2 (req_headers x.1))) <$>
    read_request (upgrade_request parts []) =
  Some («"/asr/v3?voice_id=x"», [(«"X-Evil"», «"1"»); («"X-Rest"», «" HTTP/1.1"»)]).
Proof. vm_compute. reflexivity. Qed.

(** ** Witness *)

