(* ===== verification/Socket.v ===== *)
(** * The recognizer on its socket

    Lifecycle takes what the network does from the choices of its steps, and
    WsClient takes what it is to send and to read from its arguments.  Here the
    two meet: the frames of [wire] are the calls made to the [WsClient] of the
    session, and the [read_result]s of the reader are what [WsClient::Read]
    returned, from the connection on (src/speech_recognizer.cc, [Write], [Stop] and [ReadLoopInner]). *)

From S2P Require Import Prelude StdMap Double Params Json JsonRead JsonText Credential SignatureParams UserSig WsFrame WsClient WsConnect Types Recognizer Protocol Lifecycle LifecycleInv LifecycleScript LifecycleWait LifecycleTheorems.

Open Scope Z_scope.

(** ** What is sent *)

(** A call to [SendText] or [SendBinary], the mask drawn, and the clock. *)
Record send_call := mkSendCall { call_frame : sent; call_key : str; call_now : Z }.

Definition send_frame (x : send_call) (c : WsClient) : option (option str * WsClient) :=
  if (call_frame x).1.1 =? 0x1 then SendText (call_frame x).1.2 (call_key x) (call_now x) c
  else SendBinary (call_frame x).1.2 (call_key x) (call_now x) c.

(** The calls of a session on its client, each with the success it is recorded
    with; [write_mu] has made them a sequence. *)
Fixpoint send_frames (l : list send_call) (c : WsClient) : option WsClient :=
  match l with
  | [] => Some c
  | x :: l =>
      '(err, c) ← send_frame x c;
      if Bool.eqb (if err is None then true else false) (call_frame x).2
      then send_frames l c else None
  end.

(** What gets through whole: the frames before the first failure. *)
Fixpoint delivered (l : list sent) : list sent :=
  match l with
  | f :: l => if f.2 then f :: delivered l else []
  | [] => []
  end.

(** The frame a server sees. *)
Definition seen (f : sent) : WsFrame := mkWsFrame f.1.1 f.1.2 true.

Definition sendable (x : send_call) : Prop :=
  ((call_frame x).1.1 = 0x1 \/ (call_frame x).1.1 = 0x2) /\ length (call_key x) = 4%nat /\
  Z.of_nat (length (call_frame x).1.2) <= kMaxFrame.

Definition outgoing_of (x : send_call) : outgoing :=
  mkOutgoing (call_frame x).1.1 (call_frame x).1.2 (Some (call_key x)).

Lemma sendable_outgoing x : sendable x -> outgoing_ok (outgoing_of x).
Proof. intros (Hop & Hk & Hl). split_and!; [cbn; lia..|]. by intros k [= <-]. Qed.

Lemma send_frame_spec x c err c' :
  sendable x -> send_frame x c = Some (err, c') ->
  exists bytes, tx c' = tx c ++ bytes /\ (err = None -> bytes = encode_outgoing (outgoing_of x)).
Proof.
  intros (Hop & _) H. unfold encode_outgoing, outgoing_of. cbn [o_key o_opcode o_payload].
  unfold send_frame, SendText, SendBinary in H.
  destruct Hop as [Hop|Hop]; rewrite Hop in H |- *; cbn [Z.eqb] in H;
    apply WriteAll_spec in H as (sent & rest & E & Ht & Hok); exists sent; (split; [done|]);
    intros Herr; by rewrite (proj1 Hok Herr), app_nil_r in E.
Qed.

Lemma send_frames_spec l c c' :
  Forall sendable l -> send_frames l c = Some c' ->
  exists n rest, delivered (call_frame <$> l) = call_frame <$> take n l /\
    tx c' = tx c ++ (take n l ≫= (fun x => encode_outgoing (outgoing_of x))) ++ rest /\
    (Forall (fun x => (call_frame x).2 = true) l -> rest = []).
Proof.
  intros Hl. revert c. induction Hl as [|x l Hx Hl IH]; intros c; cbn [send_frames].
  - intros [= <-]. exists 0%nat, []. by rewrite !app_nil_r.
  - destruct (send_frame x c) as [[err c1]|] eqn:E; [|done]. cbn [mbind option_bind].
    apply send_frame_spec in E as (bytes & Ht & Hok); [|done].
    destruct (Bool.eqb_spec (if err is None then true else false) (call_frame x).2) as [Hr|]; [|done].
    intros (n & rest & Hd & Htx & Hall)%IH; clear IH. cbn [fmap list_fmap delivered]. rewrite <- Hr.
    destruct err.
    + exists 0%nat, (bytes ++ (take n l ≫= (fun x => encode_outgoing (outgoing_of x))) ++ rest).
      split_and!; [done|by rewrite Htx, Ht, <- app_assoc|].
      intros [Hf _]%Forall_cons_1. by rewrite Hf in Hr.
    + exists (S n), rest. cbn [take fmap list_fmap]. rewrite bind_cons. split_and!.
      * f_equal. exact Hd.
      * by rewrite Htx, Ht, Hok, <- !app_assoc.
      * intros [_ Hf]%Forall_cons_1. by apply Hall.
Qed.

Lemma delivered_prefix l : exists rest, l = delivered l ++ rest.
Proof.
  induction l as [|f l [rest IH]]; [by exists []|]. cbn. destruct f.2; [|by eexists].
  exists rest. cbn. by rewrite <- IH.
Qed.

Section Out.
Context {P : Protocol} (json_parse : str -> result json) (cast : Z -> double -> Z).

End Out.

(** ** What is heard *)

(** [conn->Read(&frame, kReadPollMs, &read_err)] as the reader sees it. *)
Definition read_result_of (rc : Z) (f : option WsFrame) (err : str) : option read_result :=
  if rc =? 0 then Some ReadTimeout
  else if rc <? 0 then Some (ReadError err)
  else ReadFrame <$> f.

(** A text of the server, the clocks of the read that meets it, and what the
    network gives meanwhile. *)
Record exchange := mkExchange {
  x_response : SpeechRecognitionResponse; x_text : str; x_now : Z; x_pass : pass; x_turns : list turn
}.

Definition with_turns (ts : list turn) (c : WsClient) : WsClient :=
  mkWsClient (ssl c) (read_buf_ c) (rx c) (tx c) ts (write_turns c) (write_timeout_ms_ c)
    (last_read_err_ c).

(** One [Read] per exchange: the results, and the client after them. *)
Fixpoint socket_reads (l : list exchange) (c : WsClient) : option (list read_result * WsClient) :=
  match l with
  | [] => Some ([], c)
  | x :: l =>
      '(rc, f, err, c) ← WsClient.Read kReadPollMs (x_now x) [x_pass x] (with_turns (x_turns x) c);
      r ← read_result_of rc f err;
      '(rs, c) ← socket_reads l c;
      Some (r :: rs, c)
  end.

(** The network delivers the exchange in time. *)
Definition in_time (n : nat) (x : exchange) : Prop :=
  Forall (delivers (x_now x + kReadPollMs)) (x_turns x) /\
  Forall (delivers (after_header (x_pass x) + kFrameReadBudgetMs)) (x_turns x) /\
  (n <= length (x_turns x))%nat.

Definition text_frame (text : str) : str := EncodeWsFrame 0x1 text false [].

Lemma text_frame_parses text rest :
  Z.of_nat (length text) <= kMaxFrame ->
  parse_frame (text_frame text ++ rest) = Some (mkWsFrame 0x1 text true, rest).
Proof.
  intros Ht. unfold text_frame. rewrite (EncodeWsFrame_unmasked _ _ _ (replicate 4 "000"%char)).
  by apply parse_EncodeWsFrame.
Qed.

(** Texts that arrive in time are read, one by one, in their order. *)
Lemma socket_reads_texts l c rest :
  read_buf_ c = [] -> rx c = (l ≫= (fun x => text_frame (x_text x))) ++ rest ->
  Forall (in_time (length (rx c))) l ->
  Forall (fun x => Z.of_nat (length (x_text x)) <= kMaxFrame) l ->
  exists c', socket_reads l c =
      Some ((fun x => ReadFrame (mkWsFrame 0x1 (x_text x) true)) <$> l, c') /\ incoming c' = rest.
Proof.
  intros Hb. revert c Hb. induction l as [|x l IH]; intros c Hb Hrx Ht Hl.
  - exists c. split; [done|]. unfold incoming. by rewrite Hb, Hrx.
  - apply Forall_cons_1 in Ht as [(H1 & H2 & H3) Ht], Hl as [Hx Hl].
    rewrite bind_cons, <- app_assoc in Hrx. cbn [socket_reads].
    set (c0 := with_turns (x_turns x) c).
    assert (incoming c0 = rx c) as Hi by (unfold incoming; cbn; by rewrite Hb).
    destruct (read_frames_delivers (x_pass x) [] (x_now x + kReadPollMs) c0
                (mkWsFrame 0x1 (x_text x) true) ((l ≫= (fun x => text_frame (x_text x))) ++ rest))
      as (c1 & E & Hi1); [|rewrite Hi, Hrx; by apply text_frame_parses|done|done|].
    { rewrite Hi. by split_and!. }
    unfold WsClient.Read. rewrite E. cbn [mbind option_bind]. cbn [read_result_of Z.eqb Z.ltb Z.compare].
    pose proof (read_frames_buf _ _ _ _ _ _ E Hb) as Hb1.
    unfold incoming in Hi1. rewrite Hb1 in Hi1. cbn [app] in Hi1.
    destruct (IH c1 Hb1 Hi1) as (c' & Er & Hr); [|done|].
    { revert Ht. apply Forall_impl. intros y (? & ? & Hy). split_and!; [done..|].
      rewrite Hi1. rewrite Hrx, (length_app (text_frame _)) in Hy. lia. }
    cbn [fmap option_fmap option_map mbind option_bind]. rewrite Er. exists c'. by split.
Qed.

(** ** From the bytes of the server to the callbacks of the host *)

(** A response that carries a transcript of the running session. *)
Definition transcript (r : SpeechRecognitionResponse) : Prop :=
  code r = 0 /\ final_flag r <> 1 /\ has_result r = true /\ 0 <= slice_type (result_ r) <= 2.

Definition callback_of (r : SpeechRecognitionResponse) : callback :=
  if slice_type (result_ r) =? 0 then OnSentenceBegin r
  else if slice_type (result_ r) =? 1 then OnRecognitionResultChange r
  else OnSentenceEnd r.

(** The reads of a schedule. *)
Definition reads_of {P : Protocol} (es : list event) : list read_result :=
  omap (fun e => if e is ReaderStep (ReadResult r) then Some r else None) es.

Section In.
Context {P : Protocol} (float_text : double -> str) (parse_error : str -> str)
  (cast : Z -> double -> Z).
Abbreviation run := (Lifecycle.run (json_parse parse_error) cast).

(** The reader is at the top of its loop, and nobody calls from it. *)
Record listening (w : world) : Prop := mkListening {
  ls_todo : exists rest, todo w = Some (Read :: rest);
  ls_quiet : in_callback w = None; ls_outside : pcs w reader = Outside
}.

(** The steps that handle a transcript. *)
Definition hear (r : SpeechRecognitionResponse) (f : WsFrame) : list event :=
  ReaderStep (ReadResult (ReadFrame f)) ::
  (if ack_continue then [] else if speaker_continue r is Some _ then [ReaderStep Go] else []) ++
  [ReaderStep Go; CallbackReturn].

Lemma reads_of_hear r f es : reads_of (hear r f ++ es) = ReadFrame f :: reads_of es.
Proof. unfold hear. destruct ack_continue; [done|]. by destruct (speaker_continue r). Qed.

Lemma handle_transcript r f :
  transcript r -> opcode f = 0x1 ->
  ParseSpeechResponse (json_parse parse_error) cast (payload f) = Ok r ->
  handle_read (json_parse parse_error) cast (ReadFrame f) =
    (if ack_continue then [] else if speaker_continue r is Some c then [SetContinue c] else []) ++
    [Callback (callback_of r) false; Read].
Proof.
  intros (Hc & Hf & Hr & Hs) Ho Hp. unfold handle_read. rewrite Ho, Hp. cbn [Z.eqb Pos.eqb negb].
  unfold handle_response, DispatchEvent, callback_of. rewrite Hc, Hr.
  rewrite (proj2 (Z.eqb_neq _ _) Hf). cbn [Z.eqb negb andb].
  destruct (Z.eqb_spec (slice_type (result_ r)) 0); [done|].
  destruct (Z.eqb_spec (slice_type (result_ r)) 1); [done|].
  by rewrite (proj2 (Z.eqb_eq (slice_type (result_ r)) 2)) by lia.
Qed.

Lemma run_app es es' w : run (es ++ es') w = (w ← run es w; run es' w).
Proof.
  revert w. induction es as [|e es IH]; intros w; [done|]. cbn [app Lifecycle.run].
  destruct (step _ _ e w) as [w1|]; [exact (IH w1)|done].
Qed.

(** The reader's next statement, when it is not in a callback. *)
Lemma reader_reads r l w :
  todo w = Some (Read :: l) -> in_callback w = None ->
  step (json_parse parse_error) cast (ReaderStep (ReadResult r)) w =
  Some (set_todo (Some (handle_read (json_parse parse_error) cast r)) w).
Proof. intros Ht Hq. cbn [Lifecycle.step]. unfold Lifecycle.reader_step. by rewrite Ht, Hq. Qed.

Lemma reader_continues sc l w :
  todo w = Some (SetContinue sc :: l) -> in_callback w = None ->
  step (json_parse parse_error) cast (ReaderStep Go) w =
  Some (set_todo (Some l) (set_continue (Some sc) w)).
Proof. intros Ht Hq. cbn [Lifecycle.step]. unfold Lifecycle.reader_step. by rewrite Ht, Hq. Qed.

Lemma reader_calls cb shielded l w :
  todo w = Some (Callback cb shielded :: l) -> in_callback w = None -> pcs w reader = Outside ->
  run [ReaderStep Go; CallbackReturn] w =
  Some (set_in_callback None (set_todo (Some l)
          (set_in_callback (Some shielded) (observe (Delivered cb (state w)) w)))).
Proof.
  intros Ht Hq Hp. cbn [Lifecycle.run Lifecycle.step]. unfold Lifecycle.reader_step at 1.
  rewrite Ht, Hq. cbn [mbind option_bind]. unfold callback_over.
  replace (pcs (set_todo _ _) reader) with (pcs w reader) by done. by rewrite Hp.
Qed.

(** One transcript, one callback. *)
Lemma hear_delivers r f w :
  listening w -> transcript r -> opcode f = 0x1 ->
  ParseSpeechResponse (json_parse parse_error) cast (payload f) = Ok r ->
  exists w', run (hear r f) w = Some w' /\ listening w' /\ state w' = state w /\
    deliveries (history w') = deliveries (history w) ++ [(callback_of r, state w)].
Proof.
  intros [[rest Ht] Hq Hp] Hr Ho Hparse.
  pose proof (handle_transcript r f Hr Ho Hparse) as Hh. clear Hr Ho Hparse.
  unfold hear. cbn [Lifecycle.run]. rewrite (reader_reads _ rest) by done.
  cbn [mbind option_bind]. rewrite Hh. clear Hh.
  assert (forall w0, todo w0 = Some [Callback (callback_of r) false; Read] ->
    in_callback w0 = None -> pcs w0 reader = Outside -> state w0 = state w ->
    history w0 = history w ->
    exists w', run [ReaderStep Go; CallbackReturn] w0 = Some w' /\ listening w' /\
      state w' = state w /\
      deliveries (history w') = deliveries (history w) ++ [(callback_of r, state w)]) as Hcall.
  { intros w0 Et Eq Ep Es Eh. rewrite (reader_calls _ false [Read]) by done. eexists.
    split; [reflexivity|]. split; [constructor; cbn; [by eexists|done|done]|].
    split; [done|]. cbn. by rewrite deliveries_app, Eh, Es. }
  destruct ack_continue; [|destruct (speaker_continue r) as [sc|]]; cbn [app].
  - by apply Hcall.
  - cbn [Lifecycle.run]. rewrite (reader_continues sc [Callback (callback_of r) false; Read]) by done.
    cbn [mbind option_bind]. by apply Hcall.
  - by apply Hcall.
Qed.

(** The server's texts for a list of responses. *)
Definition speaks (x : exchange) : Prop :=
  response_ok (x_response x) /\ transcript (x_response x) /\
  dump float_text (encode_response (x_response x)) = Ok (x_text x) /\
  Z.of_nat (length (x_text x)) <= kMaxFrame.

Lemma hear_all l w :
  listening w -> Forall speaks l ->
  exists es w', run es w = Some w' /\
    reads_of es = (fun x => ReadFrame (mkWsFrame 0x1 (x_text x) true)) <$> l /\ listening w' /\
    deliveries (history w') =
      deliveries (history w) ++ ((fun x => (callback_of (x_response x), state w)) <$> l).
Proof.
  intros Hw Hl. revert w Hw. induction Hl as [|x l (Hok & Ht & Hd & _) _ IH]; intros w Hw.
  { exists [], w. by rewrite app_nil_r. }
  destruct (hear_delivers (x_response x) (mkWsFrame 0x1 (x_text x) true) w Hw Ht eq_refl)
    as (w1 & E1 & Hw1 & Hs1 & Hd1).
  { by eapply ParseSpeechResponse_encoded. }
  destruct (IH w1 Hw1) as (es & w' & E & Hre & Hw' & Hde).
  exists (hear (x_response x) (mkWsFrame 0x1 (x_text x) true) ++ es), w'.
  rewrite run_app, E1, reads_of_hear, Hre, Hde, Hd1, Hs1, <- app_assoc. by split_and!.
Qed.

(** From the bytes of the server to the callbacks of the host: the transcripts a
    server writes on the connection, however the network cuts them up, reach the
    listener one by one, in their order, each as the callback of its slice type
    with every field as it was sent. *)
Lemma transcripts_delivered w c l rest :
  listening w -> Forall speaks l ->
  read_buf_ c = [] -> rx c = (l ≫= (fun x => text_frame (x_text x))) ++ rest ->
  Forall (in_time (length (rx c))) l ->
  exists results c' es w', socket_reads l c = Some (results, c') /\ incoming c' = rest /\
    run es w = Some w' /\ reads_of es = results /\
    deliveries (history w') =
      deliveries (history w) ++ ((fun x => (callback_of (x_response x), state w)) <$> l).
Proof.
  intros Hw Hl Hb Hrx Ht.
  destruct (socket_reads_texts l c rest Hb Hrx Ht) as (c' & Er & Hi).
  { revert Hl. apply Forall_impl. by intros x (_ & _ & _ & ?). }
  destruct (hear_all l w Hw Hl) as (es & w' & E & Hre & _ & Hd). rewrite <- Hre in Er.
  exists (reads_of es), c', es, w'. by split_and!.
Qed.

(** ** A connection that breaks *)

(** The steps that handle a read error in a running session. *)
Definition hear_error (err : str) : list event :=
  [ReaderStep (ReadResult (ReadError err)); ReaderStep Go; ReaderStep Go; ReaderStep Go;
   ReaderStep Go; CallbackReturn].

Lemma reader_not_stopping l w :
  todo w = Some (ReturnIfStopping :: l) -> in_callback w = None -> state w = kStateRunning_ ->
  step (json_parse parse_error) cast (ReaderStep Go) w = Some (set_todo (Some l) w).
Proof.
  intros Ht Hq Hs. cbn [Lifecycle.step]. unfold Lifecycle.reader_step. by rewrite Ht, Hq, Hs.
Qed.

Lemma reader_finishes l w :
  todo w = Some (Finish :: l) -> in_callback w = None -> finish_once w = false ->
  step (json_parse parse_error) cast (ReaderStep Go) w =
  Some (set_todo (Some (Close :: l)) (set_state kStateStopped_ (set_finish_once true w))).
Proof.
  intros Ht Hq Hf. cbn [Lifecycle.step]. unfold Lifecycle.reader_step. by rewrite Ht, Hq, Hf.
Qed.

Lemma reader_closes l w :
  todo w = Some (Close :: l) -> in_callback w = None ->
  step (json_parse parse_error) cast (ReaderStep Go) w = Some (set_todo (Some l) (close_conn w)).
Proof. intros Ht Hq. cbn [Lifecycle.step]. unfold Lifecycle.reader_step. by rewrite Ht, Hq. Qed.

Lemma after_callback l s o w :
  history (set_in_callback None (set_todo l (set_in_callback s (observe o w)))) = history w ++ [o].
Proof. done. Qed.

Lemma after_state l s o w :
  state (set_in_callback None (set_todo l (set_in_callback s (observe o w)))) = state w.
Proof. done. Qed.

Lemma after_conn l s o w :
  conn (set_in_callback None (set_todo l (set_in_callback s (observe o w)))) = conn w.
Proof. done. Qed.

Lemma close_conn_same w :
  state (close_conn w) = state w /\ in_callback (close_conn w) = in_callback w /\
  pcs (close_conn w) reader = pcs w reader /\ history (close_conn w) = history w /\
  conn (close_conn w) = false.
Proof. unfold close_conn. by destruct (conn w) eqn:E; split_and!. Qed.

(** The end of a running session: the connection is closed, and the host called
    back in the stopped state. *)
Lemma reader_ends cb w :
  todo w = Some [ReturnIfStopping; Finish; Callback cb true; Return] ->
  in_callback w = None -> pcs w reader = Outside -> state w = kStateRunning_ ->
  finish_once w = false ->
  exists w', run [ReaderStep Go; ReaderStep Go; ReaderStep Go; ReaderStep Go; CallbackReturn] w = Some w' /\
    state w' = kStateStopped_ /\ conn w' = false /\
    history w' = history w ++ [Delivered cb kStateStopped_].
Proof.
  intros Ht Hq Hp Hs Hf. cbn [Lifecycle.run].
  rewrite (reader_not_stopping _ _ Ht Hq Hs). cbn [mbind option_bind].
  set (w0 := set_todo _ w).
  assert (todo w0 = Some [Finish; Callback cb true; Return] /\ in_callback w0 = None /\
          pcs w0 reader = Outside /\ finish_once w0 = false /\ history w0 = history w)
    as (Ht0 & Hq0 & Hp0 & Hf0 & Hh0) by done. clearbody w0.
  rewrite (reader_finishes _ _ Ht0 Hq0 Hf0). cbn [mbind option_bind].
  set (w1 := set_todo _ (set_state _ _)).
  assert (todo w1 = Some [Close; Callback cb true; Return] /\ in_callback w1 = None /\
          pcs w1 reader = Outside /\ state w1 = kStateStopped_ /\ history w1 = history w0)
    as (Ht1 & Hq1 & Hp1 & Hs1 & Hh1) by done. clearbody w1.
  rewrite (reader_closes _ _ Ht1 Hq1). cbn [mbind option_bind].
  destruct (close_conn_same w1) as (Cs & Cq & Cp & Ch & Cc).
  set (w2 := set_todo _ (close_conn w1)).
  assert (todo w2 = Some [Callback cb true; Return] /\ in_callback w2 = in_callback (close_conn w1) /\
          pcs w2 reader = pcs (close_conn w1) reader /\ state w2 = state (close_conn w1) /\
          history w2 = history (close_conn w1) /\ conn w2 = conn (close_conn w1))
    as (Ht2 & Hq2 & Hp2 & Hs2 & Hh2 & Hc2) by done. clearbody w2.
  pose proof (reader_calls cb true [Return] w2) as Hcall. cbn [Lifecycle.run] in Hcall.
  rewrite Hcall by congruence. eexists. split; [reflexivity|].
  rewrite after_callback, after_state, after_conn. split_and!; congruence.
Qed.

Lemma handle_read_error err :
  is_empty err = false ->
  handle_read (json_parse parse_error) cast (ReadError err) =
  [ReturnIfStopping; Finish; fail_with («"read message failed"» ++ «": "» ++ err); Return].
Proof. intros He. unfold handle_read. by rewrite He. Qed.

(** When [Read] fails in a running session, the reader closes the connection, and
    the host is told: an [OnFail] with kErrReadFailed whose message carries the
    text of [Read], which names what failed, seen in the stopped state. *)
Lemma lost_connection_reported w c now p rc f err c' :
  Lifecycle.reachable (json_parse parse_error) cast w -> listening w ->
  state w = kStateRunning_ ->
  WsClient.Read kReadPollMs now [p] c = Some (rc, f, err, c') -> rc < 0 ->
  exists w', run (hear_error err) w = Some w' /\ Some (ReadError err) = read_result_of rc f err /\
    state w' = kStateStopped_ /\ conn w' = false /\ names_failure err /\
    deliveries (history w') = deliveries (history w) ++
      [(OnFail None (asr_error kErrReadFailed («"read message failed"» ++ «": "» ++ err)),
        kStateStopped_)].
Proof.
  intros Hw [[rest Ht] Hq Hp] Hs Hread Hrc.
  apply read_frames_outcome in Hread as [(-> & _)|[(-> & _)|(-> & -> & Herr)]]; [done..|].
  assert (finish_once w = false) as Hfin.
  { pose proof (inv_finish _ (inv_state_of _ (reachable_inv _ _ _ Hw))) as Hf.
    destruct (finish_once w); [|done]. rewrite Hs in Hf. by specialize (Hf eq_refl). }
  unfold hear_error. cbn [Lifecycle.run]. rewrite (reader_reads _ rest) by done.
  rewrite handle_read_error by by apply names_failure_text.
  set (text := _ ++ _). clearbody text. unfold fail_with, SafeOnFail. set (cb := OnFail None _). clearbody cb.
  cbn [mbind option_bind].
  destruct (reader_ends cb (set_todo (Some [ReturnIfStopping; Finish; Callback cb true; Return]) w))
    as (w' & E & Es & Ec & Eh); [done..|].
  exists w'. split; [exact E|]. split_and!; [done..|]. by rewrite Eh, deliveries_app.
Qed.
End In.

(** ** Witnesses *)

#[local] Existing Instance demo_protocol.

(** The socket of the complete session of LifecycleTheorems. *)
Definition demo_calls : list send_call :=
  [mkSendCall (0x2, «"ab"», true) «"key1"» 0; mkSendCall (0x1, end_signal, true) «"key2"» 10].

Definition demo_socket : WsClient := demo_sender (replicate 40 (mkWriteTurn 20 1 (Send 5))).


(** Two transcripts of a sentence, delivered three bytes at a time. *)
Definition demo_transcript (slice : Z) : SpeechRecognitionResponse :=
  mkSpeechRecognitionResponse 0 «"success"» «"v-1"» «"m-1"» 0
    (mkRecognitionResult slice 0 0 480 «"hi"» 1 [demo_word] «"en"» [] None 300 20) true None.

Definition demo_text (r : SpeechRecognitionResponse) : str :=
  match dump (fun _ => []) (encode_response r) with Ok text => text | Throw _ => [] end.

Definition demo_exchange (slice : Z) : exchange :=
  mkExchange (demo_transcript slice) (demo_text (demo_transcript slice)) 0 demo_pass
    (replicate 1000 (demo_turn 0 3)).

Definition demo_talk : list exchange := [demo_exchange 0; demo_exchange 1].

Definition demo_listener : WsClient :=
  demo_client (demo_talk ≫= (fun x => text_frame (x_text x))) [].

Lemma demo_transcript_ok slice : 0 <= slice <= 1 -> response_ok (demo_transcript slice).
Proof.
  intros Hs. unfold response_ok, result_ok. cbn [code final_flag result_ has_result demo_transcript
    slice_type index start_time end_time word_size word_list speaker_segments speaker_id
    finish_silence_ms last_token_runtime_ms].
  unfold int32, int64, in_signed, opt_int32.
  split_and!; try done; try lia.
  apply Forall_cons_2; [|apply Forall_nil_2].
  unfold word_ok, int32, int64, in_signed. cbn. lia.
Qed.

Lemma demo_speaks slice : slice = 0 \/ slice = 1 -> speaks (fun _ => []) (demo_exchange slice).
Proof.
  intros Hs. split; [apply demo_transcript_ok; lia|]. split; [split_and!; done || cbn; lia|].
  split; (destruct Hs as [-> | ->]; by vm_compute).
Qed.

Lemma demo_in_time n slice : (n <= 1000)%nat -> in_time n (demo_exchange slice).
Proof.
  intros Hn.
  assert (forall d, 0 < remaining d 0 -> Forall (delivers d) (replicate 1000 (demo_turn 0 3))) as H.
  { intros d Hd. apply Forall_replicate. split_and!; [done..|]. exists 3%nat. split; [lia|by left]. }
  split_and!; [by apply H|by apply H|]. cbn [x_turns demo_exchange]. by rewrite length_replicate.
Qed.

(** A server that sends its answer and both transcripts at once. *)
Definition demo_talkative : dial :=
  let sent := demo_head ++ (demo_talk ≫= (fun x => text_frame (x_text x))) in
  mkDial (inr [Socket Connects]) 0 true 0 [] demo_nonce 0 0 (replicate 200 0) sent
    (replicate 200 (demo_turn 0 1)) (replicate 200 (mkWriteTurn 0 1 (Send 7))).

