(* ===== verification/Dialing.v ===== *)
(** * Connect on a socket

    [SpeechRecognizer::Connect] of src/speech_recognizer.cc and of src/v3.cc
    on a [WsClient] that [WsClient::Connect] makes for it: the dial, the write
    timeout, and for version 3 the start frame sent and the acknowledgement
    read.  Recognizer and V3Recognizer take the outcomes of these calls from
    their attempts; here they are what the calls return.  The version 3 session
    is then followed from the bytes of a server to a running recognizer. *)

From S2P Require Import Prelude StdMap Double Params Json JsonRead JsonText Credential SignatureParams UserSig Url WsFrame WsClient WsConnect Http V3Types V3Wire Types Protocol Lifecycle LifecycleInv LifecycleScript LifecycleWait LifecycleTheorems Recognizer V3Recognizer V3Session Socket.

Open Scope Z_scope.

Definition kHandshakeTimeoutMs : Z := 10000.

(** What the network gives to the next writes. *)
Definition with_write_turns (ts : list write_turn) (c : WsClient) : WsClient :=
  mkWsClient (ssl c) (read_buf_ c) (rx c) (tx c) (turns c) ts (write_timeout_ms_ c)
    (last_read_err_ c).

(** [conn->SetWriteTimeoutMs(static_cast<int>(write_timeout_.count()))] *)
Definition set_timeout (write_timeout : Z) (c : WsClient) : WsClient :=
  SetWriteTimeoutMs (signed 32 write_timeout) c.

Section Dialing.
Context `{Zlib} (float_text : double -> str) (t : target)
  (sha1 : str -> str) (strerror : Z -> str).

Abbreviation dial_ws := (WsConnect.Connect sha1 strerror).

(** ** Version 2 *)

(** The client is the one left in [shared_->conn]. *)
Definition Connect_v2 (uuid : str) (time rng : Z) (d : dial)
    (s : session Recognizer.SpeechRecognizer)
    : option (result unit * session Recognizer.SpeechRecognizer * option WsClient) :=
  let voice_id := Recognizer.resolve_voice_id (s_config s) uuid in
  let r := Recognizer.with_voice_id voice_id (s_config s) in
  let s := mkSession r (s_continue s) (s_conn s) (s_shut s) in
  match request_url float_text t r voice_id time rng with
  | Throw e => Some (Throw e, s, None)
  | Ok url =>
      o ← dial_ws url kHandshakeTimeoutMs d;
      Some match o with
           | inl err => (throw_asr kErrConnectFailed («"websocket dial failed: "» ++ err), s, None)
           | inr c => (Ok tt, mkSession r (s_continue s) true false,
                       Some (set_timeout (Recognizer.write_timeout_ r) c))
           end
  end.

(** [Connect] on a socket is [Connect] on the outcome of its dial; it leaves a
    connection exactly when it returns, the one the dial made for its URL, with
    the write timeout of the configuration. *)
Lemma Connect_v2_refines uuid time rng d s res s' conn :
  Connect_v2 uuid time rng d s = Some (res, s', conn) ->
  exists e, Recognizer.Connect float_text t (Recognizer.mkAttempt uuid time rng e) s = (res, s') /\
    match conn with
    | Some c =>
        res = Ok tt /\ exists url c0,
          request_url float_text t (s_config s') (Recognizer.resolve_voice_id (s_config s) uuid)
            time rng = Ok url /\
          dial_ws url kHandshakeTimeoutMs d = Some (inr c0) /\
          incoming c = incoming c0 /\ tx c = tx c0 /\
          write_timeout_ms_ c = signed 32 (Recognizer.write_timeout_ (s_config s'))
    | None => exists e, res = Throw e
    end.
Proof.
  unfold Connect_v2, Recognizer.Connect. cbn [Recognizer.at_uuid Recognizer.at_time Recognizer.at_rng Recognizer.dial_err].
  destruct (request_url _ _ _ _ _ _) as [url|e] eqn:Eu.
  2:{ intros [= <- <- <-]. exists None. split; [done|by eexists]. }
  destruct (dial_ws url kHandshakeTimeoutMs d) as [[err|c]|] eqn:Ed; [| |done];
    intros [= <- <- <-].
  - exists (Some err). split; [done|by eexists].
  - exists None. split; [done|]. split; [done|]. exists url, c. by split_and!.
Qed.

(** ** Version 3 *)

Section V3.
Context (parse_error : str -> str) (cast : Z -> double -> Z).

(** One poll of the acknowledgement loop: what its [Read] meets, and the clock
    after it. *)
Record ack_poll := mkPoll { p_now : Z; p_passes : list pass; p_turns : list turn; p_clock : Z }.

Fixpoint await_on (deadline : Z) (polls : list ack_poll) (c : WsClient) : option (ack_end * WsClient) :=
  match polls with
  | [] => None
  | p :: polls =>
      '(rc, f, err, c) ← WsClient.Read kReadPollMs (p_now p) (p_passes p) (with_turns (p_turns p) c);
      r ← read_result_of rc f err;
      match ack_step parse_error cast deadline r (p_clock p) with
      | Some e => Some (e, c)
      | None => await_on deadline polls c
      end
  end.

(** What one call meets: the UUID and the time, the dial, the mask of the start
    frame, the clock and the network of its write, and the polls. *)
Record v3_dial := mkV3Dial {
  v_uuid : str; v_time : Z; v_dial : dial; v_key : str; v_send_now : Z;
  v_write_turns : list write_turn; v_clock : Z; v_polls : list ack_poll
}.

Definition Connect_v3 (x : v3_dial) (s : session V3Recognizer.SpeechRecognizer)
    : option (result unit * session V3Recognizer.SpeechRecognizer * list sent * option WsClient) :=
  let r := V3Recognizer.with_voice_id
             (V3Recognizer.resolve_voice_id (s_config s) (v_uuid x)) (s_config s) in
  let s := mkSession r (s_continue s) (s_conn s) (s_shut s) in
  match start_request float_text t r (v_time x) with
  | Throw e => Some (Throw e, s, [], None)
  | Ok (text, url) =>
      o ← dial_ws url kHandshakeTimeoutMs (v_dial x);
      match o with
      | inl err =>
          Some (throw_asr kErrConnectFailed («"websocket dial failed: "» ++ err), s, [], None)
      | inr c =>
          '(err, c) ← SendText text (v_key x) (v_send_now x)
                        (with_write_turns (v_write_turns x)
                           (set_timeout (V3Recognizer.write_timeout_ r) c));
          match err with
          | Some err =>
              Some (throw_asr kErrWriteFailed («"send start frame failed: "» ++ err), s,
                    [(0x1, text, false)], None)
          | None =>
              '(e, c) ← await_on (v_clock x + AckTimeout r) (v_polls x) c;
              Some (after_ack r (s_continue s) e, [(0x1, text, true)], Some c)
          end
      end
  end.

Lemma await_on_refines deadline polls c e c' :
  await_on deadline polls c = Some (e, c') ->
  exists reads, await_ack parse_error cast deadline reads = Some e.
Proof.
  revert c. induction polls as [|p polls IH]; intros c; cbn [await_on]; [done|].
  destruct (WsClient.Read _ _ _ _) as [[[[rc f] err] c1]|]; [|done]. cbn [mbind option_bind].
  destruct (read_result_of rc f err) as [r|]; [|done]. cbn [mbind option_bind].
  destruct (ack_step parse_error cast deadline r (p_clock p)) as [e'|] eqn:E.
  - intros [= <- <-]. exists [(r, p_clock p)]. cbn. by rewrite E.
  - intros (reads & Hr)%IH. exists ((r, p_clock p) :: reads). cbn. by rewrite E.
Qed.

(** The version 3 [Connect] on a socket is [Connect] on the outcomes of the dial,
    the send and the reads. *)
Lemma Connect_v3_refines x s res s' frames conn :
  Connect_v3 x s = Some (res, s', frames, conn) ->
  exists dial_err send_err reads,
    V3Recognizer.Connect float_text parse_error cast t
      (V3Recognizer.mkAttempt (v_uuid x) (v_time x) dial_err send_err (v_clock x) reads) s =
    Some (res, s', frames).
Proof.
  unfold Connect_v3, V3Recognizer.Connect.
  cbn [V3Recognizer.at_uuid V3Recognizer.at_time V3Recognizer.dial_err V3Recognizer.send_err
       V3Recognizer.at_clock V3Recognizer.ack_reads].
  destruct (start_request _ _ _ _) as [[text url]|e].
  2:{ intros [= <- <- <- <-]. by exists None, None, []. }
  destruct (dial_ws url kHandshakeTimeoutMs (v_dial x)) as [[err|c]|]; [| |done];
    cbn [mbind option_bind].
  { intros [= <- <- <- <-]. by exists (Some err), None, []. }
  destruct (SendText _ _ _ _) as [[[err|] c1]|]; [| |done]; cbn [mbind option_bind].
  { intros [= <- <- <- <-]. by exists None, (Some err), []. }
  destruct (await_on _ _ c1) as [[e c2]|] eqn:Ea; [|done]. cbn [mbind option_bind].
  intros [= Hr <- _]. apply await_on_refines in Ea as [reads Ha].
  exists None, None, reads. rewrite Ha. cbn [mbind option_bind].
  exact (f_equal (fun y => Some (y, _)) Hr).
Qed.

(** *** From the bytes of a server to a running recognizer *)

(** A poll that finds nothing, before the deadline of the wait. *)
Definition quiet (deadline : Z) (p : ack_poll) : Prop :=
  p_clock p < deadline /\ exists f ps n ts,
    p_passes p = f :: ps /\ p_turns p = n :: ts /\ t_pending n = 0 /\ t_poll n = 0.

(** A poll that the network serves in time. *)
Definition served (n : nat) (p : ack_poll) : Prop :=
  exists f ps, p_passes p = f :: ps /\
    Forall (delivers (p_now p + kReadPollMs)) (p_turns p) /\
    Forall (delivers (after_header f + kFrameReadBudgetMs)) (p_turns p) /\
    (n <= length (p_turns p))%nat.

Lemma quiet_Read now f ps n ts c :
  read_buf_ c = [] -> t_pending n = 0 -> t_poll n = 0 ->
  WsClient.Read kReadPollMs now (f :: ps) (with_turns (n :: ts) c) =
  Some (0, None, [], with_turns ts c).
Proof.
  intros Hb Hp H0. unfold WsClient.Read. cbn [read_frames]. unfold ReadExact.
  cbn [read_buf_ with_turns turns ssl rx]. rewrite Hb. cbn [take length Nat.sub read_loop Nat.eqb].
  unfold read_turn. rewrite Hp, H0, orb_true_r.
  unfold with_turns. rewrite Hb. by destruct (remaining _ _ <=? 0).
Qed.

Lemma await_on_hears deadline quiets p more c text rest :
  read_buf_ c = [] -> rx c = text_frame text ++ rest -> Z.of_nat (length text) <= kMaxFrame ->
  Forall (quiet deadline) quiets -> served (length (rx c)) p ->
  exists c', await_on deadline (quiets ++ p :: more) c = Some (read_ack parse_error cast text, c') /\
    incoming c' = rest /\ tx c' = tx c.
Proof.
  intros Hb Hrx Ht Hq Hp. revert c Hb Hrx Hp.
  induction Hq as [|q quiets (Hc & f & ps & n & ts & Eps & Ets & Hn & H0) _ IH];
    intros c Hb Hrx Hp; cbn [app await_on].
  - destruct Hp as (f & ps & -> & H1 & H2 & H3).
    set (c0 := with_turns (p_turns p) c).
    assert (incoming c0 = rx c) as Hi by (unfold incoming; cbn; by rewrite Hb).
    destruct (read_frames_delivers_quietly f ps (p_now p + kReadPollMs) c0 (mkWsFrame 0x1 text true) rest)
      as (c1 & E & Hi1 & Htx); [|rewrite Hi, Hrx; by apply text_frame_parses|done|done|].
    { rewrite Hi. by split_and!. }
    unfold WsClient.Read. rewrite E. cbn [mbind option_bind read_result_of Z.eqb Z.ltb Z.compare].
    cbn [fmap option_fmap option_map mbind option_bind]. by exists c1.
  - rewrite Eps, Ets, quiet_Read by done. cbn [mbind option_bind read_result_of Z.eqb ack_step].
    rewrite (proj2 (Z.leb_gt _ _)) by lia. by apply (IH (with_turns ts c)).
Qed.

Lemma SendText_accepted text key now c :
  Forall (accepts (now + write_timeout_ms_ c)) (write_turns c) ->
  (length (EncodeWsFrame 0x1 text true key) <= length (write_turns c))%nat ->
  exists c', SendText text key now c = Some (None, c') /\
    tx c' = tx c ++ EncodeWsFrame 0x1 text true key /\ read_buf_ c' = read_buf_ c /\ rx c' = rx c.
Proof.
  intros Hw Hn. unfold SendText, WriteAll.
  destruct (write_loop_accepts _ _ (tx c) _ Hw Hn) as (ts' & ->). cbn [mbind option_bind].
  by eexists.
Qed.

(** A server that can be reached in time, accepts the start frame [text], and
    sends [ack] and then [rest] after its answer to the upgrade. *)
Record answers (x : v3_dial) (r : V3Recognizer.SpeechRecognizer) (text : str) (parts : UrlParts)
    (ack rest : str) : Prop := mkAnswers {
  an_request : exists url, start_request float_text t r (v_time x) = Ok (text, url) /\
    ParseWsUrl url = inr parts;
  an_reached : gets_through kHandshakeTimeoutMs parts (v_dial x);
  an_peer : exists head, conforms sha1 (dial_key (v_dial x)) head /\
    from_peer (v_dial x) = head ++ text_frame ack ++ rest /\
    (length head <= length (head_clocks (v_dial x)))%nat /\
    (length head <= length (peer_turns (v_dial x)))%nat;
  an_key : length (v_key x) = 4%nat;
  an_accepts : Forall (accepts (v_send_now x + signed 32 (V3Recognizer.write_timeout_ r)))
    (v_write_turns x);
  an_room : (length (EncodeWsFrame 0x1 text true (v_key x)) <= length (v_write_turns x))%nat;
  an_polls : exists quiets p more, v_polls x = quiets ++ p :: more /\
    Forall (quiet (v_clock x + AckTimeout r)) quiets /\
    served (length (from_peer (v_dial x))) p;
  an_ack : Z.of_nat (length ack) <= kMaxFrame
}.

Definition named_by (uuid : str) (r : V3Recognizer.SpeechRecognizer) : V3Recognizer.SpeechRecognizer :=
  V3Recognizer.with_voice_id (V3Recognizer.resolve_voice_id r uuid) r.

Lemma Connect_v3_answered x s text parts ack rest :
  answers x (named_by (v_uuid x) (s_config s)) text parts ack rest ->
  exists conn,
    Connect_v3 x s =
      Some (after_ack (named_by (v_uuid x) (s_config s)) (s_continue s)
              (read_ack parse_error cast ack), [(0x1, text, true)], Some conn) /\
    incoming conn = rest /\
    tx conn = upgrade_request parts (dial_key (v_dial x)) ++ EncodeWsFrame 0x1 text true (v_key x).
Proof.
  intros [(url & Hreq & Hu) Hg (head & Hh & Hp & Hlc & Hlt) _ Hacc Hroom Hpolls Hack].
  unfold Connect_v3. fold (named_by (v_uuid x) (s_config s)). set (r := named_by _ _) in *.
  rewrite Hreq.
  destruct (Connect_delivers sha1 strerror url kHandshakeTimeoutMs (v_dial x) parts head
              (text_frame ack ++ rest) Hu Hg Hp Hh Hlc Hlt) as (c & E & Hi & Htx).
  rewrite E. cbn [mbind option_bind].
  apply Connect_stream in E as (Hb & _).
  assert (rx c = text_frame ack ++ rest) as Hrx by (unfold incoming in Hi; by rewrite Hb in Hi).
  clear Hi Hg Hh Hreq Hu.
  destruct (SendText_accepted text (v_key x) (v_send_now x)
              (with_write_turns (v_write_turns x) (set_timeout (V3Recognizer.write_timeout_ r) c))
              Hacc Hroom) as (c1 & -> & Htx1 & Hb1 & Hrx1).
  cbn [mbind option_bind].
  destruct Hpolls as (quiets & p & more & -> & Hq & Hs).
  cbn in Htx1, Hb1, Hrx1. rewrite Hb in Hb1. rewrite Hrx in Hrx1.
  destruct (await_on_hears (v_clock x + AckTimeout r) quiets p more c1 ack rest Hb1 Hrx1 Hack Hq)
    as (c2 & Ea & Hi2 & Htx2).
  { destruct Hs as (f & ps & H1 & H2 & H3 & H4). exists f, ps. split_and!; [done..|].
    rewrite Hrx1. rewrite Hp, (length_app head) in H4. lia. }
  rewrite Ea. cbn [mbind option_bind]. exists c2. split_and!; [done..|].
  by rewrite Htx2, Htx1, Htx.
Qed.

#[local] Instance v3 : Protocol := v3_protocol float_text parse_error cast t.

(** C29: From the bytes of a server to a running version 3 session: a server that
    answers the upgrade, and acknowledges the start frame with code 0 after any
    number of quiet polls, has read the start frame and nothing else, and
    [Start] returns with the recognizer running.  The reader is about to report
    the start with the speaker context of the acknowledgement, and the first
    byte it will read is the one after the acknowledgement. *)
Theorem v3_session_starts w th x text parts ack j sc rest :
  pcs w th = StartCas -> in_dtor w th = false -> state w = kStateIdle_ ->
  V3Recognizer.ValidateOptions (config w) = Ok tt ->
  answers x (named_by (v_uuid x) (config w)) text parts ack rest ->
  json_parse parse_error ack = Ok j ->
  value_int cast «"code"» 0 j = Ok 0 -> read_continue j = Ok sc ->
  exists s' conn sent a w' resp,
    Connect_v3 x (session_of float_text parse_error cast t w) =
      Some (Ok tt, s', [(0x1, text, true)], Some conn) /\
    incoming conn = rest /\ tx conn = upgrade_request parts (dial_key (v_dial x)) ++ sent /\
    (forall more, parse_frame (sent ++ more) = Some (mkWsFrame 0x1 text true, more)) /\
    Lifecycle.run (json_parse parse_error) cast
      [Step th Go; Step th Go; Step th (Dial a); Step th Go; Step th Go; Step th Go] w = Some w' /\
    state w' = kStateRunning_ /\ wire w' = wire w ++ [(0x1, text, true)] /\
    history w' = history w ++ [Returned th (Ok tt)] /\
    todo w' = Some ([SetReaderTid; Callback (OnRecognitionStart resp) false; GetConn; Read]
                      ++ read_loop_exit) /\
    voice_id resp = V3Recognizer.voice_id_ (s_config s') /\
    speaker_continue resp = (if sc is Some _ then sc else speaker_continue_ w).
Proof.
  intros Hp Hd Hs Hv Ha Hj Hcode Hsc.
  assert (read_ack parse_error cast ack = Acked sc) as Hr.
  { unfold read_ack. by rewrite Hj, Hcode, Hsc. }
  destruct (Connect_v3_answered x (session_of float_text parse_error cast t w) _ _ _ _ Ha)
    as (conn & Hc & Hi & Htx).
  rewrite Hr in Hc. cbn [after_ack] in Hc.
  pose proof Hc as (de & se & reads & Hc')%Connect_v3_refines.
  destruct (start_connects (json_parse parse_error) cast w th _ _ _ _ Hp Hd Hs Hv Hc')
    as (w' & Hrun & _ & Hw & _ & _ & Hh & Hst & _ & Ht).
  eexists _, conn, _, _, w', _.
  split_and!; [exact Hc|exact Hi|exact Htx| |exact Hrun|exact Hst|exact Hw|exact Hh|exact Ht|done|done].
  intros more. apply parse_EncodeWsFrame; [lia|by apply (an_key _ _ _ _ _ _ Ha)|].
  destruct (an_request _ _ _ _ _ _ Ha) as (url & Hreq & _).
  apply (start_request_sends _ _ _ _ _ _ true) in Hreq as (_ & _ & Hl). cbn in Hl.
  unfold kStartFrameMaxBytes in Hl. unfold kMaxFrame. lia.
Qed.
End V3.
End Dialing.

(** ** Witness: a resumed session over TLS, acknowledged at the second poll *)

#[local] Existing Instance V3Session.demo_v3.

Definition demo_config : V3Recognizer.SpeechRecognizer :=
  named_by «"uuid"» V3Recognizer.demo_recognizer.

Definition demo_v3_url : str :=
  match @start_request stored_zlib (fun _ => []) linux_target demo_config 1700000000 with
  | Ok (_, url) => url | Throw _ => []
  end.

Definition demo_v3_parts : UrlParts :=
  match ParseWsUrl demo_v3_url with inr parts => parts | inl _ => demo_parts end.

Definition demo_writes : list write_turn := replicate 4000 (mkWriteTurn 0 1 (SslWrite 100)).
Definition demo_arrivals : list turn := replicate 2000 (demo_turn 100 3).

Lemma demo_writes_accepted d : 0 < remaining d 0 -> Forall (accepts d) demo_writes.
Proof. intros Hd. apply Forall_replicate. split_and!; [done..|]. exists 100%nat. split; [lia|by right]. Qed.

Lemma demo_arrivals_delivered d : 0 < remaining d 100 -> Forall (delivers d) demo_arrivals.
Proof. intros Hd. apply Forall_replicate. split_and!; [done..|]. exists 3%nat. split; [lia|by left]. Qed.

Definition demo_v3_dial : v3_dial :=
  mkV3Dial «"uuid"» 1700000000
    (mkDial (inr [Socket Connects]) 0 true 0 [mkTlsStep 1 0 0 1 []] demo_nonce 0 0
       (replicate 200 0) (demo_head ++ text_frame demo_ack)
       demo_arrivals demo_writes)
    «"key1"» 0 demo_writes 0
    [mkPoll 0 [demo_pass] [mkTurn 0 0 0 (SslRead 1)] 100;
     mkPoll 100 [demo_pass] demo_arrivals 150].

Lemma demo_v3_answers :
  @answers stored_zlib (fun _ => []) linux_target demo_sha1 demo_v3_dial demo_config
    demo_start_text demo_v3_parts demo_ack [].
Proof.
  split.
  - exists demo_v3_url. split; vm_compute; reflexivity.
  - split.
    + eexists. split; [reflexivity|]. by left.
    + intros _. split; [done|]. by exists [], (mkTlsStep 1 0 0 1 []), [].
    + by apply demo_writes_accepted.
    + apply Nat.leb_le. vm_compute. reflexivity.
    + by apply demo_arrivals_delivered.
    + by apply Forall_replicate.
  - exists demo_head. split_and!.
    + exact demo_conforms.
    + by rewrite app_nil_r.
    + apply Nat.leb_le. vm_compute. reflexivity.
    + apply Nat.leb_le. vm_compute. reflexivity.
  - reflexivity.
  - by apply demo_writes_accepted.
  - apply Nat.leb_le. vm_compute. reflexivity.
  - eexists [_], _, []. split; [reflexivity|]. split.
    + apply Forall_cons_2; [|done]. split; [by vm_compute|]. by repeat eexists.
    + eexists _, _. split; [reflexivity|]. split_and!; [by apply demo_arrivals_delivered..|].
      apply Nat.leb_le. vm_compute. reflexivity.
  - apply Z.leb_le. vm_compute. reflexivity.
Qed.

Lemma v3_session_starts_witness :
  exists s' conn sent a w' resp,
    @Connect_v3 stored_zlib (fun _ => []) linux_target demo_sha1 to_string (fun s => s) (fun _ _ => 0)
      demo_v3_dial
      (session_of (fun _ => []) (fun s => s) (fun _ _ => 0) linux_target demo_calling) =
      Some (Ok tt, s', [(0x1, demo_start_text, true)], Some conn) /\
    incoming conn = [] /\
    tx conn = upgrade_request demo_v3_parts (dial_key (v_dial demo_v3_dial)) ++ sent /\
    (forall more, parse_frame (sent ++ more) = Some (mkWsFrame 0x1 demo_start_text true, more)) /\
    demo_run [Step 1 Go; Step 1 Go; Step 1 (Dial a); Step 1 Go; Step 1 Go; Step 1 Go]
      demo_calling = Some w' /\
    state w' = kStateRunning_ /\ wire w' = [(0x1, demo_start_text, true)] /\
    history w' = [Returned 1 (Ok tt)] /\
    todo w' = Some ([SetReaderTid; Callback (OnRecognitionStart resp) false; GetConn; Read]
                      ++ read_loop_exit) /\
    voice_id resp = V3Recognizer.voice_id_ (s_config s') /\
    speaker_continue resp = Some demo_continue.
Proof.
  refine (@v3_session_starts stored_zlib (fun _ => []) linux_target demo_sha1 to_string (fun s => s)
    (fun _ _ => 0) demo_calling 1%nat demo_v3_dial demo_start_text demo_v3_parts demo_ack
    (JObj [(«"code"», JUint 0);
           («"speaker_continue"»,
            JObj [(«"continue_status"», JStr «"success"»);
                  («"speaker_context_id"», JStr «"ctx-2"»)])]) (Some demo_continue) []
    eq_refl eq_refl eq_refl eq_refl demo_v3_answers _ eq_refl eq_refl).
  vm_compute. reflexivity.
Defined.
